(** * image-to-figma: schema, normalizer, coordinate resolver and renderer

    A shallow embedding of
      - packages/shared/src/spec.ts   (the zod schemas),
      - the server's [toNumber] / [normalizeNode] / [normalizeSpec],
      - packages/plugin/src/render.ts (coordinate resolution and the
        canvas instantiation walk),
    together with the properties the design document states about them. *)

From Stdlib Require Import List String Ascii Bool Arith ZArith QArith Qround.
From Stdlib Require Import Qpower Qabs Lia Lqa.
From Stdlib Require Import Permutation.
Import ListNotations.
Open Scope string_scope.
Open Scope list_scope.

Set Implicit Arguments.
Set Warnings "-register-all".

(* ================================================================== *)
(** * JavaScript numbers *)
(* ================================================================== *)

(** A JavaScript [number] is a finite value, one of the two infinities or
    NaN.  A finite value is kept as a rational.  The numbers the program
    meets are those binary64 has: a decimal literal stands for the binary64
    number nearest to it ([Num.literal]), and every arithmetic operation
    rounds its exact result to the nearest binary64 number, ties to even,
    or overflows to an infinity ([Binary64.round]).  The operations are
    defined on every rational, so that what is proved of all numbers holds
    of those of binary64.  The sign of zero is not part of this model. *)
Inductive number : Type :=
  | Finite (q : Q)
  | PosInfinity
  | NegInfinity
  | NaN.

(** ** Rounding to binary64 *)

Module Binary64.

Definition pow2 (e : Z) : Q := Qpower 2 e.

(** For [0 < q], the [k] with [2^k <= q < 2^(k+1)]. *)
Definition binade (q : Q) : Z :=
  let k := (Z.log2 (Qnum q) - Z.log2 (Zpos (Qden q)))%Z in
  if Qle_bool (pow2 k) q then k else (k - 1)%Z.

(** The exponent of the last place of the binary64 numbers around [q]:
    53 significant bits, and no exponent below that of the subnormals. *)
Definition exponent (q : Q) : Z := Z.max (binade q - 52) (-1074).

(** The integer nearest to [t], the even one of two that are equally near. *)
Definition nearest_even (t : Q) : Z :=
  let f := Qfloor t in
  match Qcompare (t - inject_Z f) (1 # 2) with
  | Lt => f
  | Gt => (f + 1)%Z
  | Eq => if Z.even f then f else (f + 1)%Z
  end.

(** A positive rational rounded to the nearest multiple of its last place. *)
Definition round_pos (q : Q) : Q :=
  let e := exponent q in
  inject_Z (nearest_even (q / pow2 e)) * pow2 e.

(** Round to nearest, ties to even; what rounds to [2^1024] or beyond
    overflows to an infinity. *)
Definition round (q : Q) : number :=
  let q := Qred q in
  match Qcompare q 0 with
  | Eq => Finite 0
  | Gt => let r := round_pos q in
          if Qle_bool (pow2 1024) r then PosInfinity else Finite (Qred r)
  | Lt => let r := round_pos (- q) in
          if Qle_bool (pow2 1024) r then NegInfinity else Finite (Qred (- r))
  end.

(** A number of the binary64 format, its upper range apart: an integer of
    at most 53 bits times a power of two that is not below the least. *)
Definition representable (d : Q) : Prop :=
  exists m e : Z,
    (Z.abs m <= 2 ^ 53)%Z /\ (-1074 <= e)%Z /\ d == inject_Z m * pow2 e.


End Binary64.

Arguments Binary64.round : simpl never.

Module Num.

Definition of_Z (z : Z) : number := Finite (inject_Z z).

(** [Number.isFinite]. *)
Definition isFinite (n : number) : bool :=
  match n with Finite _ => true | _ => false end.

(** [a <= b]; every comparison with NaN is false. *)
Definition leb (a b : number) : bool :=
  match a, b with
  | NaN, _ | _, NaN => false
  | NegInfinity, _ => true
  | _, PosInfinity => true
  | Finite p, Finite q => Qle_bool p q
  | _, _ => false
  end.

(** [a < b]. *)
Definition ltb (a b : number) : bool :=
  match a, b with
  | NaN, _ | _, NaN => false
  | PosInfinity, _ => false
  | _, NegInfinity => false
  | Finite p, Finite q => negb (Qle_bool q p)
  | _, _ => true
  end.

Definition geb (a b : number) : bool := leb b a.
Definition gtb (a b : number) : bool := ltb b a.

(** [a === b] on numbers. *)
Definition eqb (a b : number) : bool :=
  match a, b with
  | Finite p, Finite q => Qeq_bool p q
  | PosInfinity, PosInfinity => true
  | NegInfinity, NegInfinity => true
  | _, _ => false
  end.

Definition opp (a : number) : number :=
  match a with
  | Finite p => Finite (- p)
  | PosInfinity => NegInfinity
  | NegInfinity => PosInfinity
  | NaN => NaN
  end.

(** A decimal literal denotes the binary64 number nearest to it. *)
Definition literal (q : Q) : number := Binary64.round q.

(** The sum, rounded to binary64.  A sum with zero is the other operand
    as it is: binary64 has it so, and it is kept so for an operand that
    binary64 does not have. *)
Definition add (a b : number) : number :=
  match a, b with
  | NaN, _ | _, NaN => NaN
  | Finite p, Finite q =>
      if Qeq_bool q 0 then a
      else if Qeq_bool p 0 then b
      else Binary64.round (p + q)
  | PosInfinity, NegInfinity | NegInfinity, PosInfinity => NaN
  | PosInfinity, _ | _, PosInfinity => PosInfinity
  | NegInfinity, _ | _, NegInfinity => NegInfinity
  end.

(** The difference, rounded: the sum with the opposite. *)
Definition sub (a b : number) : number := add a (opp b).

(** The infinity carrying the sign of a rational, NaN at zero. *)
Definition signed_infinity (positive : bool) (q : Q) : number :=
  match Qcompare q 0 with
  | Eq => NaN
  | Gt => if positive then PosInfinity else NegInfinity
  | Lt => if positive then NegInfinity else PosInfinity
  end.

(** The product, rounded to binary64. *)
Definition mul (a b : number) : number :=
  match a, b with
  | NaN, _ | _, NaN => NaN
  | Finite p, Finite q => Binary64.round (p * q)
  | PosInfinity, Finite q | Finite q, PosInfinity => signed_infinity true q
  | NegInfinity, Finite q | Finite q, NegInfinity => signed_infinity false q
  | PosInfinity, PosInfinity | NegInfinity, NegInfinity => PosInfinity
  | PosInfinity, NegInfinity | NegInfinity, PosInfinity => NegInfinity
  end.

(** Division by a finite, non-zero constant, rounded to binary64 (the only
    divisions the program performs are by the literal 2). *)
Definition div_const (a : number) (d : Q) : number :=
  match a with
  | Finite p => Binary64.round (p / d)
  | PosInfinity => signed_infinity true d
  | NegInfinity => signed_infinity false d
  | NaN => NaN
  end.

(** [Math.floor]. *)
Definition floor (a : number) : number :=
  match a with
  | Finite p => Finite (inject_Z (Qfloor p))
  | other => other
  end.

(** Truthiness of a number: everything but zero and NaN. *)
Definition truthy (a : number) : bool :=
  match a with
  | Finite p => negb (Qeq_bool p 0)
  | NaN => false
  | _ => true
  end.

End Num.

Declare Scope num_scope.
Delimit Scope num_scope with num.
Infix "+" := Num.add : num_scope.
Infix "-" := Num.sub : num_scope.
Infix "*" := Num.mul : num_scope.
Infix "<=?" := Num.leb (at level 70) : num_scope.
Infix ">=?" := Num.geb (at level 70) : num_scope.
Infix ">?" := Num.gtb (at level 70) : num_scope.
Infix "<?" := Num.ltb (at level 70) : num_scope.

Coercion Num.of_Z : Z >-> number.

(* ================================================================== *)
(** * JavaScript values *)
(* ================================================================== *)

(** The values the normalizer and the validator receive ([any] in the
    source).  [JOpaque] stands for a value that is no JSON datum (a
    function or a host object); a property that is absent and a property
    holding [undefined] read the same, so [get] returns [JUndefined] for
    both. *)
Inductive jsval : Type :=
  | JUndefined
  | JNull
  | JBool (b : bool)
  | JNum (n : number)
  | JStr (s : string)
  | JArr (items : list jsval)
  | JObj (props : list (string * jsval))
  | JOpaque.

Section jsval_induction.
Variable P : jsval -> Prop.
Hypothesis Hundef : P JUndefined.
Hypothesis Hnull : P JNull.
Hypothesis Hbool : forall b, P (JBool b).
Hypothesis Hnum : forall n, P (JNum n).
Hypothesis Hstr : forall s, P (JStr s).
Hypothesis Harr : forall items, Forall P items -> P (JArr items).
Hypothesis Hobj :
  forall props, Forall (fun kv => P (snd kv)) props -> P (JObj props).
Hypothesis Hopaque : P JOpaque.

Fixpoint jsval_nested_ind (v : jsval) : P v :=
  match v with
  | JUndefined => Hundef
  | JNull => Hnull
  | JBool b => Hbool b
  | JNum n => Hnum n
  | JStr s => Hstr s
  | JArr items =>
      Harr ((fix all (l : list jsval) : Forall P l :=
               match l with
               | [] => Forall_nil _
               | x :: l' => Forall_cons x (jsval_nested_ind x) (all l')
               end) items)
  | JObj props =>
      Hobj ((fix all (l : list (string * jsval))
               : Forall (fun kv => P (snd kv)) l :=
               match l with
               | [] => Forall_nil _
               | kv :: l' =>
                   Forall_cons kv (jsval_nested_ind (snd kv)) (all l')
               end) props)
  | JOpaque => Hopaque
  end.
End jsval_induction.

(** Continuation-passing property lookup: [found] receives the value of
    the first property named [k], [absent] is the answer when there is
    none. *)
Section with_prop.
Context {R : Type} (k : string) (found : jsval -> R) (absent : R).

Fixpoint with_prop (props : list (string * jsval)) : R :=
  match props with
  | [] => absent
  | (k', v) :: rest =>
      if String.eqb k k' then found v else with_prop rest
  end.
End with_prop.

(** Property access [v.k]; [undefined] on a missing property and on
    values without JSON properties. *)
Definition get (k : string) (v : jsval) : jsval :=
  match v with
  | JObj props => with_prop k (fun x => x) JUndefined props
  | _ => JUndefined
  end.

(** JavaScript truthiness ([if (v)], [Boolean(v)], [v || w]). *)
Definition truthy (v : jsval) : bool :=
  match v with
  | JUndefined | JNull => false
  | JBool b => b
  | JNum n => Num.truthy n
  | JStr s => negb (String.eqb s "")
  | JArr _ | JObj _ | JOpaque => true
  end.

(** [typeof v === "string"], with the string when it is one. *)
Definition as_string (v : jsval) : option string :=
  match v with JStr s => Some s | _ => None end.

(** Object literal helpers: a property is written only when its value is
    present ([if (c) base.k = v]). *)
Definition prop (k : string) (o : option jsval) : list (string * jsval) :=
  match o with Some v => [(k, v)] | None => [] end.

(* ================================================================== *)
(** * The typed design tree (packages/shared/src/spec.ts) *)
(* ================================================================== *)

Record RGBA : Type := mkRGBA {
  c_r : number;
  c_g : number;
  c_b : number;
  c_a : option number
}.

Record NodeBase : Type := mkBase {
  base_name : option string;
  base_x : number;
  base_y : number;
  base_width : number;
  base_height : number;
  base_opacity : option number
}.

Inductive AlignHorizontal : Type := LEFT | CENTER | RIGHT | JUSTIFIED.
Inductive LayoutMode : Type := NONE | HORIZONTAL | VERTICAL.
Inductive ScaleMode : Type := FILL | FIT | CROP | TILE.

Record RectNode : Type := mkRect {
  rect_base : NodeBase;
  rect_fill : option RGBA;
  rect_stroke : option RGBA;
  rect_strokeWidth : option number;
  rect_cornerRadius : option number
}.

Record TextNode : Type := mkText {
  text_base : NodeBase;
  text_text : string;
  text_fontFamily : option string;
  text_fontStyle : option string;
  text_fontSize : option number;
  text_fill : option RGBA;
  text_alignHorizontal : option AlignHorizontal
}.

Record FramePadding : Type := mkPadding {
  pad_top : option number;
  pad_right : option number;
  pad_bottom : option number;
  pad_left : option number
}.

(** [FrameNode] without its [children], which live in the [Frame]
    constructor of [DesignNode]. *)
Record FrameProps : Type := mkFrame {
  frame_base : NodeBase;
  frame_layoutMode : option LayoutMode;
  frame_padding : option FramePadding;
  frame_itemSpacing : option number;
  frame_fill : option RGBA;
  frame_stroke : option RGBA;
  frame_strokeWidth : option number;
  frame_cornerRadius : option number
}.

Record EllipseNode : Type := mkEllipse {
  ellipse_base : NodeBase;
  ellipse_fill : option RGBA;
  ellipse_stroke : option RGBA;
  ellipse_strokeWidth : option number
}.

Record ImageNode : Type := mkImage {
  image_base : NodeBase;
  image_imageUrl : option string;
  image_imageDataUrl : option string;
  image_scaleMode : option ScaleMode;
  image_cornerRadius : option number;
  image_stroke : option RGBA;
  image_strokeWidth : option number
}.

Inductive DesignNode : Type :=
  | Rect (n : RectNode)
  | Text (n : TextNode)
  | Frame (n : FrameProps) (children : option (list DesignNode))
  | Ellipse (n : EllipseNode)
  | Image (n : ImageNode).

Record Canvas : Type := mkCanvas {
  canvas_name : string;
  canvas_width : number;
  canvas_height : number
}.

Record DesignSpec : Type := mkSpec {
  spec_canvas : Canvas;
  spec_nodes : list DesignNode
}.

Definition node_base (n : DesignNode) : NodeBase :=
  match n with
  | Rect r => rect_base r
  | Text t => text_base t
  | Frame f _ => frame_base f
  | Ellipse e => ellipse_base e
  | Image i => image_base i
  end.

Definition node_x (n : DesignNode) : number := base_x (node_base n).
Definition node_y (n : DesignNode) : number := base_y (node_base n).
Definition node_width (n : DesignNode) : number := base_width (node_base n).
Definition node_height (n : DesignNode) : number := base_height (node_base n).

(** The union discriminant, the [type] property. *)
Definition node_type (n : DesignNode) : string :=
  match n with
  | Rect _ => "rect"
  | Text _ => "text"
  | Frame _ _ => "frame"
  | Ellipse _ => "ellipse"
  | Image _ => "image"
  end.

Definition node_children (n : DesignNode) : list DesignNode :=
  match n with
  | Frame _ (Some cs) => cs
  | _ => []
  end.

Section DesignNode_induction.
Variable P : DesignNode -> Prop.
Hypothesis Hrect : forall n, P (Rect n).
Hypothesis Htext : forall n, P (Text n).
Hypothesis Hframe_none : forall n, P (Frame n None).
Hypothesis Hframe :
  forall n cs, Forall P cs -> P (Frame n (Some cs)).
Hypothesis Hellipse : forall n, P (Ellipse n).
Hypothesis Himage : forall n, P (Image n).

Fixpoint DesignNode_nested_ind (d : DesignNode) : P d :=
  match d with
  | Rect n => Hrect n
  | Text n => Htext n
  | Frame n None => Hframe_none n
  | Frame n (Some cs) =>
      Hframe n ((fix all (l : list DesignNode) : Forall P l :=
                   match l with
                   | [] => Forall_nil _
                   | c :: l' =>
                       Forall_cons c (DesignNode_nested_ind c) (all l')
                   end) cs)
  | Ellipse n => Hellipse n
  | Image n => Himage n
  end.
End DesignNode_induction.

(** Every node of a tree, the node itself first, then its descendants in
    document order. *)
Fixpoint subtree (n : DesignNode) : list DesignNode :=
  n :: match n with
       | Frame _ (Some cs) => flat_map subtree cs
       | _ => []
       end.

Definition all_nodes (s : DesignSpec) : list DesignNode :=
  flat_map subtree (spec_nodes s).

(* ================================================================== *)
(** * Validation results and the zod combinators *)
(* ================================================================== *)

Inductive result (A : Type) : Type :=
  | Ok (a : A)
  | SchemaViolation (reason : string).
Arguments SchemaViolation {A} reason.

Definition result_bind {A B} (m : result A) (f : A -> result B) : result B :=
  match m with
  | Ok a => f a
  | SchemaViolation e => SchemaViolation e
  end.

Definition result_map {A B} (f : A -> B) (m : result A) : result B :=
  result_bind m (fun a => Ok (f a)).

Notation "x <- m ;; k" := (result_bind m (fun x => k))
  (at level 61, m at next level, right associativity).

Definition is_ok {A} (m : result A) : bool :=
  match m with Ok _ => true | SchemaViolation _ => false end.

(** A schema parses a value (possibly [JUndefined]) into a typed one. *)
Definition Schema (A : Type) : Type := jsval -> result A.


(** Modelled from the spec: zod itself is not among the sources, and
    which of its versions is installed decides whether [z.number()] lets
    the infinities through.  The design document lists "numeric fields are
    finite" among the validator's checks, which is what zod 4 does:
    [z.number()] accepts a number that is neither NaN nor infinite. *)
Definition z_number : Schema number := fun v =>
  match v with
  | JNum n =>
      if Num.isFinite n then Ok n
      else SchemaViolation "expected a finite number"
  | _ => SchemaViolation "expected number"
  end.

(** [.refine(check, { message })], also the shape of every built-in
    check chained on a schema. *)
Definition z_refine {A} (s : Schema A) (check : A -> bool) (message : string)
  : Schema A := fun v =>
  a <- s v ;; if check a then Ok a else SchemaViolation message.

(** [.min(lo)], [.max(hi)] (both inclusive) and [.positive()]. *)
Definition z_min (lo : Z) (s : Schema number) : Schema number :=
  z_refine s (fun n => Num.geb n lo) "too small".
Definition z_max (hi : Z) (s : Schema number) : Schema number :=
  z_refine s (fun n => Num.leb n hi) "too big".
Definition z_positive (s : Schema number) : Schema number :=
  z_refine s (fun n => Num.gtb n 0%Z) "expected a positive number".

(** [z.string()], [.min(1)] on strings and [.startsWith(p)]. *)
Definition z_string : Schema string := fun v =>
  match v with
  | JStr s => Ok s
  | _ => SchemaViolation "expected string"
  end.
Definition z_nonempty (s : Schema string) : Schema string :=
  z_refine s (fun t => negb (String.eqb t "")) "too small".
Definition z_startsWith (p : string) (s : Schema string)
  : Schema string :=
  z_refine s (fun t => String.prefix p t) "invalid string".

(** [z.literal(l)] for a string literal. *)
Definition z_literal (l : string) : Schema unit := fun v =>
  match v with
  | JStr s => if String.eqb s l then Ok tt
              else SchemaViolation "invalid literal"
  | _ => SchemaViolation "invalid literal"
  end.

(** [z.enum([...])]: the table gives the typed value of each member. *)
Fixpoint lookup_enum {A} (table : list (string * A)) (s : string)
  : result A :=
  match table with
  | [] => SchemaViolation "invalid enum value"
  | (k, a) :: rest => if String.eqb s k then Ok a else lookup_enum rest s
  end.
Definition z_enum {A} (table : list (string * A)) : Schema A := fun v =>
  match v with
  | JStr s => lookup_enum table s
  | _ => SchemaViolation "invalid enum value"
  end.

(** [.optional()] and [.default(d)]. *)
Definition z_optional {A} (s : Schema A) : Schema (option A) := fun v =>
  match v with
  | JUndefined => Ok None
  | _ => result_map Some (s v)
  end.
Definition z_default {A} (d : A) (s : Schema A) : Schema A := fun v =>
  match v with
  | JUndefined => Ok d
  | _ => s v
  end.

(** [z.array(s)]: every element must parse. *)
Section each.
Context {A : Type} (s : Schema A).

Fixpoint each (items : list jsval) : result (list A) :=
  match items with
  | [] => Ok []
  | v :: rest => a <- s v ;; l <- each rest ;; Ok (a :: l)
  end.
End each.

Definition z_array {A} (s : Schema A) : Schema (list A) := fun v =>
  match v with
  | JArr items => each s items
  | _ => SchemaViolation "expected array"
  end.

(** [z.object({...})] accepts objects only; the shape is then read
    property by property and properties outside the shape are
    stripped. *)
Definition z_object {A} (shape : jsval -> result A) : Schema A := fun v =>
  match v with
  | JObj _ => shape v
  | _ => SchemaViolation "expected object"
  end.

(** [z.union([...])]: the first member that accepts the value. *)
Section z_union.
Context {A : Type} (v : jsval).

Fixpoint first_match (members : list (Schema A)) : result A :=
  match members with
  | [] => SchemaViolation "invalid input: no union member matches"
  | s :: rest =>
      match s v with
      | Ok a => Ok a
      | SchemaViolation _ => first_match rest
      end
  end.
End z_union.

Definition z_union {A} (members : list (Schema A)) : Schema A :=
  fun v => first_match v members.

(** [v.k] handed to a continuation; the same as [found (get k v)], written
    so that [found] is applied to a part of [v] itself (the recursive
    schema of a frame's children needs that). *)
Definition get_then {R : Type} (k : string) (v : jsval) (found : jsval -> R)
  : R :=
  match v with
  | JObj props => with_prop k found (found JUndefined) props
  | _ => found JUndefined
  end.

(* ================================================================== *)
(** * The schemas *)
(* ================================================================== *)

Definition ColorSchema : Schema RGBA := z_object (fun v =>
  r <- z_max 1 (z_min 0 z_number) (get "r" v) ;;
  g <- z_max 1 (z_min 0 z_number) (get "g" v) ;;
  b <- z_max 1 (z_min 0 z_number) (get "b" v) ;;
  a <- z_optional (z_max 1 (z_min 0 z_number)) (get "a" v) ;;
  Ok (mkRGBA r g b a)).

Definition NodeBaseSchema : Schema NodeBase := z_object (fun v =>
  name <- z_optional z_string (get "name" v) ;;
  x <- z_number (get "x" v) ;;
  y <- z_number (get "y" v) ;;
  width <- z_positive z_number (get "width" v) ;;
  height <- z_positive z_number (get "height" v) ;;
  opacity <- z_optional (z_max 1 (z_min 0 z_number)) (get "opacity" v) ;;
  Ok (mkBase name x y width height opacity)).

Definition RectNodeSchema : Schema RectNode := z_object (fun v =>
  base <- NodeBaseSchema v ;;
  _ <- z_literal "rect" (get "type" v) ;;
  fill <- z_optional ColorSchema (get "fill" v) ;;
  stroke <- z_optional ColorSchema (get "stroke" v) ;;
  strokeWidth <- z_optional (z_min 0 z_number) (get "strokeWidth" v) ;;
  cornerRadius <- z_optional (z_min 0 z_number) (get "cornerRadius" v) ;;
  Ok (mkRect base fill stroke strokeWidth cornerRadius)).

Definition AlignHorizontal_members : list (string * AlignHorizontal) :=
  [("LEFT", LEFT); ("CENTER", CENTER); ("RIGHT", RIGHT);
   ("JUSTIFIED", JUSTIFIED)].

Definition TextNodeSchema : Schema TextNode := z_object (fun v =>
  base <- NodeBaseSchema v ;;
  _ <- z_literal "text" (get "type" v) ;;
  text <- z_string (get "text" v) ;;
  fontFamily <- z_optional z_string (get "fontFamily" v) ;;
  fontStyle <- z_optional z_string (get "fontStyle" v) ;;
  fontSize <- z_optional (z_positive z_number) (get "fontSize" v) ;;
  fill <- z_optional ColorSchema (get "fill" v) ;;
  alignHorizontal <-
    z_optional (z_enum AlignHorizontal_members) (get "alignHorizontal" v) ;;
  Ok (mkText base text fontFamily fontStyle fontSize fill alignHorizontal)).

Definition LayoutMode_members : list (string * LayoutMode) :=
  [("NONE", NONE); ("HORIZONTAL", HORIZONTAL); ("VERTICAL", VERTICAL)].

Definition FramePaddingSchema : Schema FramePadding := z_object (fun v =>
  top <- z_optional (z_min 0 z_number) (get "top" v) ;;
  right <- z_optional (z_min 0 z_number) (get "right" v) ;;
  bottom <- z_optional (z_min 0 z_number) (get "bottom" v) ;;
  left <- z_optional (z_min 0 z_number) (get "left" v) ;;
  Ok (mkPadding top right bottom left)).

(** [FrameNodeSchema], with the schema of the children ([z.lazy(() =>
    DesignNodeSchema)]) as an argument.  The output always carries a
    [layoutMode] and a [children] list: absent ones get their defaults. *)
Definition FrameNodeSchema (node : Schema DesignNode) : Schema DesignNode :=
  z_object (fun v =>
  base <- NodeBaseSchema v ;;
  _ <- z_literal "frame" (get "type" v) ;;
  layoutMode <- z_default NONE (z_enum LayoutMode_members)
                  (get "layoutMode" v) ;;
  padding <- z_optional FramePaddingSchema (get "padding" v) ;;
  itemSpacing <- z_optional (z_min 0 z_number) (get "itemSpacing" v) ;;
  fill <- z_optional ColorSchema (get "fill" v) ;;
  stroke <- z_optional ColorSchema (get "stroke" v) ;;
  strokeWidth <- z_optional (z_min 0 z_number) (get "strokeWidth" v) ;;
  cornerRadius <- z_optional (z_min 0 z_number) (get "cornerRadius" v) ;;
  children <- get_then "children" v (z_default [] (z_array node)) ;;
  Ok (Frame (mkFrame base (Some layoutMode) padding itemSpacing fill stroke
               strokeWidth cornerRadius)
        (Some children))).

Definition EllipseNodeSchema : Schema EllipseNode := z_object (fun v =>
  base <- NodeBaseSchema v ;;
  _ <- z_literal "ellipse" (get "type" v) ;;
  fill <- z_optional ColorSchema (get "fill" v) ;;
  stroke <- z_optional ColorSchema (get "stroke" v) ;;
  strokeWidth <- z_optional (z_min 0 z_number) (get "strokeWidth" v) ;;
  Ok (mkEllipse base fill stroke strokeWidth)).

Definition ScaleMode_members : list (string * ScaleMode) :=
  [("FILL", FILL); ("FIT", FIT); ("CROP", CROP); ("TILE", TILE)].

(** The object part of [ImageNodeSchema], before its [.refine]. *)
Definition ImageNodeShape : Schema ImageNode := z_object (fun v =>
  base <- NodeBaseSchema v ;;
  _ <- z_literal "image" (get "type" v) ;;
  imageUrl <- z_optional (z_nonempty z_string) (get "imageUrl" v) ;;
  imageDataUrl <-
    z_optional (z_startsWith "data:image/" z_string) (get "imageDataUrl" v) ;;
  scaleMode <- z_optional (z_enum ScaleMode_members) (get "scaleMode" v) ;;
  cornerRadius <- z_optional (z_min 0 z_number) (get "cornerRadius" v) ;;
  stroke <- z_optional ColorSchema (get "stroke" v) ;;
  strokeWidth <- z_optional (z_min 0 z_number) (get "strokeWidth" v) ;;
  Ok (mkImage base imageUrl imageDataUrl scaleMode cornerRadius stroke
        strokeWidth)).

(** Truthiness of an optional string ([Boolean(s)]): present and
    non-empty. *)
Definition truthy_string (o : option string) : bool :=
  match o with
  | Some s => negb (String.eqb s "")
  | None => false
  end.

Definition ImageNodeSchema : Schema ImageNode :=
  z_refine ImageNodeShape
    (fun v => truthy_string (image_imageUrl v)
              || truthy_string (image_imageDataUrl v))
    "imageUrl or imageDataUrl is required".

Fixpoint DesignNodeSchema (v : jsval) {struct v} : result DesignNode :=
  z_union [ (fun v => result_map Rect (RectNodeSchema v));
            (fun v => result_map Text (TextNodeSchema v));
            FrameNodeSchema DesignNodeSchema;
            (fun v => result_map Ellipse (EllipseNodeSchema v));
            (fun v => result_map Image (ImageNodeSchema v)) ] v.

Definition CanvasSchema : Schema Canvas := z_object (fun v =>
  name <- z_default "Generated from Image" z_string (get "name" v) ;;
  width <- z_positive z_number (get "width" v) ;;
  height <- z_positive z_number (get "height" v) ;;
  Ok (mkCanvas name width height)).

Definition DesignSpecSchema : Schema DesignSpec := z_object (fun v =>
  canvas <- CanvasSchema (get "canvas" v) ;;
  nodes <- z_default [] (z_array DesignNodeSchema) (get "nodes" v) ;;
  Ok (mkSpec canvas nodes)).

(* ================================================================== *)
(** * The normalizer (server: toNumber, normalizeNode, normalizeSpec) *)
(* ================================================================== *)

(** Code units that [String.prototype.trim] removes (those below 256). *)
Definition is_whitespace (c : ascii) : bool :=
  let n := nat_of_ascii c in
  ((9 <=? n) && (n <=? 13))%nat || (n =? 32)%nat || (n =? 160)%nat.

(** [s.trim() === ""]. *)
Fixpoint is_blank (s : string) : bool :=
  match s with
  | EmptyString => true
  | String c rest => is_whitespace c && is_blank rest
  end.

(** [String.prototype.toLowerCase] on code units below 256. *)
Definition lower_ascii (c : ascii) : ascii :=
  let n := nat_of_ascii c in
  if ((65 <=? n) && (n <=? 90))%nat
     || ((192 <=? n) && (n <=? 222) && negb (n =? 215))%nat
  then ascii_of_nat (n + 32) else c.

Fixpoint toLowerCase (s : string) : string :=
  match s with
  | EmptyString => EmptyString
  | String c rest => String (lower_ascii c) (toLowerCase rest)
  end.

Definition opt_js (o : option jsval) : jsval :=
  match o with Some v => v | None => JUndefined end.

Definition opt_num (o : option number) : option jsval := option_map JNum o.

Section Normalizer.

(** The built-in conversion [Number(s)] of a string to a number. *)
Variable Number_of_string : string -> number.

Definition toNumber (value : jsval) : option number :=
  match value with
  | JNum n => if Num.isFinite n then Some n else None
  | JStr s =>
      if negb (is_blank s) then
        let n := Number_of_string s in
        if Num.isFinite n then Some n else None
      else None
  | _ => None
  end.

(** The lookup [map[key]] in the alignment table of [normalizeNode]: an
    object literal, so the two all-lowercase names it inherits from
    [Object.prototype] answer as well. *)
Definition align_map (key : string) : jsval :=
  if String.eqb key "left" then JStr "LEFT"
  else if String.eqb key "center" then JStr "CENTER"
  else if String.eqb key "right" then JStr "RIGHT"
  else if String.eqb key "justified" then JStr "JUSTIFIED"
  else if String.eqb key "constructor" then JOpaque
  else if String.eqb key "__proto__" then JObj []
  else JUndefined.

(** [if (input.k) base.k = input.k]. *)
Definition copy_truthy (k : string) (input : jsval)
  : list (string * jsval) :=
  if truthy (get k input) then [(k, get k input)] else [].

(** [if (typeof input.k === "string") base.k = input.k]. *)
Definition copy_string (k : string) (input : jsval)
  : list (string * jsval) :=
  prop k (option_map JStr (as_string (get k input))).

(** [const n = toNumber(input.k); if (n != null) base.k = n]. *)
Definition copy_number (k : string) (input : jsval)
  : list (string * jsval) :=
  prop k (opt_num (toNumber (get k input))).

Definition is_object (v : jsval) : bool :=
  match v with JObj _ | JArr _ => true | _ => false end.

Definition allowed_type (t : jsval) : option string :=
  match t with
  | JStr s =>
      if String.eqb s "rect" || String.eqb s "text" || String.eqb s "frame"
         || String.eqb s "ellipse" || String.eqb s "image"
      then Some s else None
  | _ => None
  end.

Definition text_fontStyle_props (input : jsval) : list (string * jsval) :=
  match as_string (get "fontStyle" input) with
  | Some s => [("fontStyle", JStr s)]
  | None =>
      match toNumber (get "fontWeight" input) with
      | Some weight =>
          [("fontStyle",
            JStr (if Num.geb weight 700%Z then "Bold"
                  else if Num.geb weight 600%Z then "Semibold"
                  else if Num.geb weight 500%Z then "Medium"
                  else "Regular"))]
      | None => []
      end
  end.

Definition text_fill_props (input : jsval) : list (string * jsval) :=
  if truthy (get "fill" input) then [("fill", get "fill" input)]
  else if truthy (get "color" input) then [("fill", get "color" input)]
  else [].

Definition text_align_props (input : jsval) : list (string * jsval) :=
  match get "alignHorizontal" input with
  | JStr s => [("alignHorizontal", JStr s)]
  | _ =>
      match get "textAlign" input with
      | JStr s =>
          let normalized := align_map (toLowerCase s) in
          if truthy normalized then [("alignHorizontal", normalized)]
          else []
      | _ => []
      end
  end.

Definition placeholder_fill : jsval :=
  JObj [("r", JNum (Num.literal (9 # 10)));
        ("g", JNum (Num.literal (92 # 100)));
        ("b", JNum (Num.literal (95 # 100))); ("a", JNum 1%Z)].

Definition padding_props (input : jsval) : list (string * jsval) :=
  let padding := get "padding" input in
  if truthy padding && is_object padding then
    [("padding",
      JObj [("top", opt_js (opt_num (toNumber (get "top" padding))));
            ("right", opt_js (opt_num (toNumber (get "right" padding))));
            ("bottom", opt_js (opt_num (toNumber (get "bottom" padding))));
            ("left", opt_js (opt_num (toNumber (get "left" padding))))])]
  else [].

(** [normalizeNode]; [None] is the source's [null]. *)
Fixpoint normalizeNode (input : jsval) {struct input} : option jsval :=
  if negb (truthy input && is_object input) then None else
  match allowed_type (get "type" input) with
  | None => None
  | Some type =>
    match toNumber (get "x" input), toNumber (get "y" input),
          toNumber (get "width" input), toNumber (get "height" input) with
    | Some x, Some y, Some width, Some height =>
      let base :=
        [("type", JStr type); ("x", JNum x); ("y", JNum y);
         ("width", JNum width); ("height", JNum height)]
        ++ copy_string "name" input
        ++ copy_number "opacity" input in
      if String.eqb type "text" then
        Some (JObj (base
          ++ [("text", JStr match as_string (get "text" input) with
                            | Some s => s
                            | None => ""
                            end)]
          ++ copy_string "fontFamily" input
          ++ text_fontStyle_props input
          ++ copy_number "fontSize" input
          ++ text_fill_props input
          ++ text_align_props input))
      else if String.eqb type "rect" then
        Some (JObj (base
          ++ copy_truthy "fill" input
          ++ copy_truthy "stroke" input
          ++ copy_number "strokeWidth" input
          ++ copy_number "cornerRadius" input))
      else if String.eqb type "ellipse" then
        Some (JObj (base
          ++ copy_truthy "fill" input
          ++ copy_truthy "stroke" input
          ++ copy_number "strokeWidth" input))
      else if String.eqb type "image" then
        match as_string (get "imageUrl" input),
              as_string (get "imageDataUrl" input) with
        | None, None =>
            Some (JObj
              [("type", JStr "rect");
               ("name", JStr match as_string (get "name" input) with
                             | Some n => (n ++ " Placeholder")%string
                             | None => "Image Placeholder"
                             end);
               ("x", JNum x); ("y", JNum y);
               ("width", JNum width); ("height", JNum height);
               ("cornerRadius",
                JNum match toNumber (get "cornerRadius" input) with
                     | Some cr => cr
                     | None => 8%Z
                     end);
               ("fill", placeholder_fill)])
        | _, _ =>
            Some (JObj (base
              ++ copy_string "imageUrl" input
              ++ copy_string "imageDataUrl" input
              ++ copy_string "scaleMode" input
              ++ copy_number "cornerRadius" input
              ++ copy_truthy "stroke" input
              ++ copy_number "strokeWidth" input))
        end
      else
        Some (JObj (base
          ++ copy_string "layoutMode" input
          ++ padding_props input
          ++ copy_number "itemSpacing" input
          ++ copy_truthy "fill" input
          ++ copy_truthy "stroke" input
          ++ copy_number "strokeWidth" input
          ++ copy_number "cornerRadius" input
          ++ get_then "children" input (fun children =>
               match children with
               | JArr items =>
                   [("children",
                     JArr (flat_map
                             (fun c => match normalizeNode c with
                                       | Some n => [n]
                                       | None => []
                                       end) items))]
               | _ => []
               end)))
    | _, _, _, _ => None
    end
  end.

(** [input.map(normalizeNode).filter(Boolean)]. *)
Definition normalizeNodes (items : list jsval) : list jsval :=
  flat_map (fun c => match normalizeNode c with
                     | Some n => [n]
                     | None => []
                     end) items.

Definition normalizeSpec (input : jsval) (width height : number) : jsval :=
  let canvas := get "canvas" input in
  JObj [("canvas",
         JObj [("name", JStr match as_string (get "name" canvas) with
                             | Some s => s
                             | None => "Generated from Image"
                             end);
               ("width", JNum match toNumber (get "width" canvas) with
                              | Some w => w
                              | None => width
                              end);
               ("height", JNum match toNumber (get "height" canvas) with
                               | Some h => h
                               | None => height
                               end)]);
        ("nodes", JArr match get "nodes" input with
                       | JArr items => normalizeNodes items
                       | _ => []
                       end)].

End Normalizer.

(* ================================================================== *)
(** * Coordinate resolution (plugin: render.ts) *)
(* ================================================================== *)

Definition fitScore (x y width height parentWidth parentHeight : number)
  : nat :=
  let tol : number := 1%Z in
  let score := 0%nat in
  let score := if (x >=? Num.opp tol)%num then S score else score in
  let score := if (y >=? Num.opp tol)%num then S score else score in
  let score :=
    if (x + width <=? parentWidth + tol)%num then S score else score in
  let score :=
    if (y + height <=? parentHeight + tol)%num then S score else score in
  score.

Record Point : Type := mkPoint { pt_x : number; pt_y : number }.

(** The two readings of a node's stored position. *)
Definition relative_point (node : DesignNode) : Point :=
  mkPoint (node_x node) (node_y node).
Definition absolute_point (node : DesignNode) (parentAbsX parentAbsY : number)
  : Point :=
  mkPoint (node_x node - parentAbsX)%num (node_y node - parentAbsY)%num.

Definition relScore (node : DesignNode) (parentWidth parentHeight : number)
  : nat :=
  fitScore (node_x node) (node_y node) (node_width node) (node_height node)
    parentWidth parentHeight.
Definition absScore (node : DesignNode)
    (parentAbsX parentAbsY parentWidth parentHeight : number) : nat :=
  fitScore (node_x node - parentAbsX)%num (node_y node - parentAbsY)%num
    (node_width node) (node_height node) parentWidth parentHeight.

(** [preferredCoordinateMode] is the string the caller passes; the type
    annotation ["relative" | "absolute"] does not exist at run time, so
    the last two lines of the function are kept. *)
Definition chooseLocalPosition (node : DesignNode)
    (parentAbsX parentAbsY parentWidth parentHeight : number)
    (preferredCoordinateMode : string) : Point :=
  let relative := relative_point node in
  let absolute := absolute_point node parentAbsX parentAbsY in
  let rel := relScore node parentWidth parentHeight in
  let abs := absScore node parentAbsX parentAbsY parentWidth parentHeight in
  if (rel <? abs)%nat then absolute
  else if (abs <? rel)%nat then relative
  else if String.eqb preferredCoordinateMode "absolute" then absolute
  else if String.eqb preferredCoordinateMode "relative" then relative
  else if negb (Num.eqb parentAbsX 0%Z) || negb (Num.eqb parentAbsY 0%Z)
       then absolute
  else relative.

(** The two running sums of [detectCoordinateMode], relative first. *)
Definition aggregateScores (nodes : list DesignNode)
    (parentAbsX parentAbsY parentWidth parentHeight : number) : nat * nat :=
  fold_left
    (fun acc node =>
       (fst acc + relScore node parentWidth parentHeight,
        snd acc
        + absScore node parentAbsX parentAbsY parentWidth parentHeight)%nat)
    nodes (0, 0)%nat.

Definition detectCoordinateMode (nodes : list DesignNode)
    (parentAbsX parentAbsY parentWidth parentHeight : number) : string :=
  let '(relativeScore, absoluteScore) :=
    aggregateScores nodes parentAbsX parentAbsY parentWidth parentHeight in
  if (relativeScore <? absoluteScore)%nat then "absolute" else "relative".

Definition inferPillRadius (width height : number) (hasFill : bool)
    (explicitCornerRadius : option number) : option number :=
  match explicitCornerRadius with
  | Some radius => Some radius
  | None =>
      if negb hasFill then None
      else if (height <=? 28%Z)%num
              && (width >=? height * Num.literal (16 # 10))%num
      then Some (Num.floor (Num.div_const height 2))
      else None
  end.

(* ================================================================== *)
(** * Image sources: the data-URL pattern *)
(* ================================================================== *)

Fixpoint strip_prefix (p s : string) : option string :=
  match p, s with
  | EmptyString, _ => Some s
  | String a p', String b s' =>
      if Ascii.eqb a b then strip_prefix p' s' else None
  | String _ _, EmptyString => None
  end.

(** The longest prefix without [c], and what follows it. *)
Fixpoint span_not (c : ascii) (s : string) : string * string :=
  match s with
  | EmptyString => (EmptyString, EmptyString)
  | String a rest =>
      if Ascii.eqb a c then (EmptyString, s)
      else let '(run, tail) := span_not c rest in (String a run, tail)
  end.

(** Line terminators, which [.] does not match (code units below 256). *)
Definition is_line_terminator (c : ascii) : bool :=
  let n := nat_of_ascii c in ((n =? 10) || (n =? 13))%nat.

Fixpoint no_line_terminator (s : string) : bool :=
  match s with
  | EmptyString => true
  | String c rest => negb (is_line_terminator c) && no_line_terminator rest
  end.

(** The match of a string against the data-URL pattern of
    [imagePaintFromNode]: the literal data:image/ , one or more characters
    other than a semicolon, the literal ;base64, and a payload that runs to
    the end of the string without a line terminator.  The two groups are
    the MIME type and the payload; the run before the semicolon must stop
    at the first semicolon, so the match is unique when there is one. *)
Definition match_data_url (s : string) : option (string * string) :=
  match strip_prefix "data:image/" s with
  | None => None
  | Some rest =>
      let '(subtype, tail) := span_not ";"%char rest in
      if String.eqb subtype "" then None
      else match strip_prefix ";base64," tail with
           | None => None
           | Some payload =>
               if no_line_terminator payload
               then Some (("image/" ++ subtype)%string, payload)
               else None
           end
  end.

(* ================================================================== *)
(** * The host canvas *)
(* ================================================================== *)

Inductive Paint : Type :=
  | SolidPaint (r g b : number) (opacity : option number)
  | ImagePaint (imageHash : string) (scaleMode : ScaleMode).

Definition solid (c : RGBA) : Paint :=
  SolidPaint (c_r c) (c_g c) (c_b c) (c_a c).

(** The fills the renderer falls back to. *)
Definition transparent_white : Paint :=
  SolidPaint 1%Z 1%Z 1%Z (Some (Num.of_Z 0)).
Definition neutral_gray : Paint :=
  SolidPaint (Num.literal (9 # 10)) (Num.literal (9 # 10))
    (Num.literal (9 # 10)) (Some (Num.of_Z 1)).

Inductive ObjKind : Type := RECTANGLE | TEXTOBJ | ELLIPSE | FRAMEOBJ.

(** What a property of a canvas object can hold. *)
Inductive HostValue : Type :=
  | HNum (n : number)
  | HStr (s : string)
  | HBool (b : bool)
  | HPaints (ps : list Paint)
  | HFontName (family style : string).

(** A canvas object: its kind, the properties the program has assigned
    (latest first; anything else keeps the host's default) and its
    children, bottom-most first. *)
Record CanvasObj : Type := mkObj {
  obj_kind : ObjKind;
  obj_props : list (string * HostValue);
  obj_children : list nat
}.

Fixpoint lookup_prop (k : string) (props : list (string * HostValue))
  : option HostValue :=
  match props with
  | [] => None
  | (k', v) :: rest => if String.eqb k k' then Some v else lookup_prop k rest
  end.

Definition obj_get (k : string) (o : CanvasObj) : option HostValue :=
  lookup_prop k (obj_props o).

(** Calls on the host that matter for ordering. *)
Inductive Event : Type :=
  | ECreate (id : nat) (kind : ObjKind)
  | EAppendChild (parent child : nat)
  | ELoadFontAsync (family style : string)
  | EFetch (url : string)
  | EPageAppend (id : nat)
  | ESelect (ids : list nat)
  | EScrollAndZoom (ids : list nat).

Inductive FetchOutcome : Type :=
  | FetchRejects
      (** the promise of [fetch] rejects (network failure) *)
  | FetchResponse (ok : bool) (body : option string)
      (** a response; [body] is [None] when [arrayBuffer()] rejects *).

(** What the environment answers: the outcomes of the asynchronous loads
    and of the host calls that can throw. *)
Record Host : Type := mkHost {
  loadFontAsync : string -> string -> bool;
      (** does the font load resolve? *)
  fetch : string -> FetchOutcome;
  decodeBase64 : string -> option string;
      (** [atob] / [figma.base64Decode]; [None] when decoding throws or no
          decoder exists *)
  createImage : string -> option string;
      (** the hash of the created image; [None] when the host throws *)
  textResizeThrows : number -> number -> bool;
  viewportCenterX : number;
  viewportCenterY : number
}.

Record HostState : Type := mkState {
  store : list CanvasObj;            (** objects by id *)
  fontCache : list (string * bool);  (** key -> outcome of the cached promise *)
  log : list Event;                  (** host calls, oldest first *)
  modes : list string;
      (** ghost: the [preferredCoordinateMode] of every call of
          [chooseLocalPosition], oldest first *)
  pageChildren : list nat;
  selection : list nat
}.

Definition initial_state : HostState := mkState [] [] [] [] [] [].

Inductive outcome (A : Type) : Type :=
  | Returned (a : A)
  | Thrown (message : string).
Arguments Thrown {A} message.

(** Effectful code: a state transformer that returns or throws. *)
Definition M (A : Type) : Type := HostState -> outcome A * HostState.

Definition ret {A} (a : A) : M A := fun st => (Returned a, st).
Definition throw {A} (message : string) : M A := fun st => (Thrown message, st).
Definition bind {A B} (m : M A) (f : A -> M B) : M B := fun st =>
  match m st with
  | (Returned a, st') => f a st'
  | (Thrown e, st') => (Thrown e, st')
  end.

Notation "x <~ m ;; k" := (bind m (fun x => k))
  (at level 61, m at next level, right associativity).
Notation "m ;;; k" := (bind m (fun _ => k))
  (at level 61, right associativity).

Definition modify (f : HostState -> HostState) : M unit :=
  fun st => (Returned tt, f st).

Definition emit (e : Event) : M unit :=
  modify (fun st => mkState (store st) (fontCache st) (log st ++ [e])
                      (modes st) (pageChildren st) (selection st)).

Fixpoint update_nth {A} (i : nat) (f : A -> A) (l : list A) {struct l}
  : list A :=
  match l, i with
  | [], _ => []
  | a :: rest, O => f a :: rest
  | a :: rest, S j => a :: update_nth j f rest
  end.

Definition update_obj (id : nat) (f : CanvasObj -> CanvasObj) : M unit :=
  modify (fun st => mkState (update_nth id f (store st)) (fontCache st)
                      (log st) (modes st) (pageChildren st) (selection st)).

(** [figma.createRectangle()] and its siblings: a fresh object, identified
    by its index in the store. *)
Definition create (kind : ObjKind) : M nat := fun st =>
  let id := List.length (store st) in
  (Returned id,
   mkState (store st ++ [mkObj kind [] []]) (fontCache st)
     (log st ++ [ECreate id kind]) (modes st) (pageChildren st)
     (selection st)).

(** [obj.k = v]. *)
Definition set (id : nat) (k : string) (v : HostValue) : M unit :=
  update_obj id (fun o =>
    mkObj (obj_kind o) ((k, v) :: obj_props o) (obj_children o)).

(** [obj.resize(w, h)]. *)
Definition resize (id : nat) (w h : number) : M unit :=
  set id "width" (HNum w) ;;; set id "height" (HNum h).

(** [parent.appendChild(child)]: the child goes on top. *)
Definition appendChild (parent child : nat) : M unit :=
  update_obj parent (fun o =>
    mkObj (obj_kind o) (obj_props o) (obj_children o ++ [child])) ;;;
  emit (EAppendChild parent child).

(** Ghost: note the mode a call of [chooseLocalPosition] receives. *)
Definition note_mode (mode : string) : M unit :=
  modify (fun st => mkState (store st) (fontCache st) (log st)
                      (modes st ++ [mode]) (pageChildren st) (selection st)).

Section for_each.
Context {A : Type} (body : A -> M unit).

(** [for (const a of items) await body(a)]. *)
Fixpoint for_each (items : list A) : M unit :=
  match items with
  | [] => ret tt
  | a :: rest => body a ;;; for_each rest
  end.
End for_each.

(* ================================================================== *)
(** * The renderer (plugin: render.ts) *)
(* ================================================================== *)

(** [o || d] on an optional string. *)
Definition or_else (o : option string) (d : string) : string :=
  match o with
  | Some s => if String.eqb s "" then d else s
  | None => d
  end.

Definition LayoutMode_name (m : LayoutMode) : string :=
  match m with
  | NONE => "NONE"
  | HORIZONTAL => "HORIZONTAL"
  | VERTICAL => "VERTICAL"
  end.

Definition AlignHorizontal_name (a : AlignHorizontal) : string :=
  match a with
  | LEFT => "LEFT"
  | CENTER => "CENTER"
  | RIGHT => "RIGHT"
  | JUSTIFIED => "JUSTIFIED"
  end.

Definition ScaleMode_name (m : ScaleMode) : string :=
  match m with
  | FILL => "FILL"
  | FIT => "FIT"
  | CROP => "CROP"
  | TILE => "TILE"
  end.

Section Renderer.

Variable host : Host.

(** [base64ToBytes]. *)
Definition base64ToBytes (b64 : string) : M string :=
  match decodeBase64 host b64 with
  | Some bytes => ret bytes
  | None => throw "base64 decoding failed"
  end.

(** [figma.createImage(bytes)], giving the image's hash. *)
Definition figma_createImage (bytes : string) : M string :=
  match createImage host bytes with
  | Some hash => ret hash
  | None => throw "createImage failed"
  end.

(** [await loadFont(family, style)]: the closure of [renderToFigma] that
    memoizes the promise of [figma.loadFontAsync] under the key
    [family::style]. *)
Definition loadFont (family style : string) : M unit := fun st =>
  let key := (family ++ "::" ++ style)%string in
  match find (fun e => String.eqb (fst e) key) (fontCache st) with
  | Some (_, resolves) =>
      if resolves then (Returned tt, st)
      else (Thrown "font load failed", st)
  | None =>
      let resolves := loadFontAsync host family style in
      let st' :=
        mkState (store st) (fontCache st ++ [(key, resolves)])
          (log st ++ [ELoadFontAsync family style]) (modes st)
          (pageChildren st) (selection st) in
      if resolves then (Returned tt, st')
      else (Thrown "font load failed", st')
  end.

(** [imagePaintFromNode]; [None] is the source's [null]. *)
Definition imagePaintFromNode (node : ImageNode) : M (option Paint) :=
  let scaleMode := match image_scaleMode node with
                   | Some m => m
                   | None => FILL
                   end in
  if truthy_string (image_imageDataUrl node) then
    match match_data_url (or_else (image_imageDataUrl node) "") with
    | None => ret None
    | Some (_, payload) =>
        bytes <~ base64ToBytes payload ;;
        hash <~ figma_createImage bytes ;;
        ret (Some (ImagePaint hash scaleMode))
    end
  else if truthy_string (image_imageUrl node) then
    let url := or_else (image_imageUrl node) "" in
    emit (EFetch url) ;;;
    match fetch host url with
    | FetchRejects => throw "fetch failed"
    | FetchResponse false _ => ret None
    | FetchResponse true None => throw "reading the response body failed"
    | FetchResponse true (Some buf) =>
        hash <~ figma_createImage buf ;;
        ret (Some (ImagePaint hash scaleMode))
    end
  else ret None.

(** [if (node.stroke && node.strokeWidth != null) {...} else strokes = []]. *)
Definition apply_stroke (id : nat) (stroke : option RGBA)
    (strokeWidth : option number) : M unit :=
  match stroke, strokeWidth with
  | Some s, Some w =>
      set id "strokes" (HPaints [solid s]) ;;;
      set id "strokeWeight" (HNum w)
  | _, _ => set id "strokes" (HPaints [])
  end.

(** [if (v != null) obj.k = v]. *)
Definition set_if_present (id : nat) (k : string) (v : option number)
  : M unit :=
  match v with
  | Some n => set id k (HNum n)
  | None => ret tt
  end.

Definition is_some {A} (o : option A) : bool :=
  match o with Some _ => true | None => false end.

Definition zero_if_absent (o : option number) : number :=
  match o with Some n => n | None => Num.of_Z 0 end.

Fixpoint renderNode (node : DesignNode) (parent : nat)
    (parentAbsX parentAbsY parentWidth parentHeight : number)
    (preferredCoordinateMode : string) {struct node} : M unit :=
  note_mode preferredCoordinateMode ;;;
  let local :=
    chooseLocalPosition node parentAbsX parentAbsY parentWidth parentHeight
      preferredCoordinateMode in
  let localX := pt_x local in
  let localY := pt_y local in
  match node with
  | Rect n =>
      r <~ create RECTANGLE ;;
      set r "name" (HStr (or_else (base_name (rect_base n)) "Rect")) ;;;
      set r "x" (HNum localX) ;;;
      set r "y" (HNum localY) ;;;
      resize r (node_width node) (node_height node) ;;;
      match inferPillRadius (node_width node) (node_height node)
              (is_some (rect_fill n)) (rect_cornerRadius n) with
      | Some radius => set r "cornerRadius" (HNum radius)
      | None => ret tt
      end ;;;
      match rect_fill n with
      | Some c => set r "fills" (HPaints [solid c])
      | None => set r "fills" (HPaints [transparent_white])
      end ;;;
      apply_stroke r (rect_stroke n) (rect_strokeWidth n) ;;;
      set_if_present r "opacity" (base_opacity (rect_base n)) ;;;
      appendChild parent r
  | Text n =>
      t <~ create TEXTOBJ ;;
      set t "name" (HStr (or_else (base_name (text_base n)) "Text")) ;;;
      set t "x" (HNum localX) ;;;
      set t "y" (HNum localY) ;;;
      let family := or_else (text_fontFamily n) "Inter" in
      let style := or_else (text_fontStyle n) "Regular" in
      loadFont family style ;;;
      set t "fontName" (HFontName family style) ;;;
      set t "characters" (HStr (text_text n)) ;;;
      match text_fontSize n with
      | Some size =>
          if Num.truthy size then set t "fontSize" (HNum size) else ret tt
      | None => ret tt
      end ;;;
      match text_fill n with
      | Some c => set t "fills" (HPaints [solid c])
      | None => ret tt
      end ;;;
      match text_alignHorizontal n with
      | Some a => set t "textAlignHorizontal" (HStr (AlignHorizontal_name a))
      | None => ret tt
      end ;;;
      set_if_present t "opacity" (base_opacity (text_base n)) ;;;
      (if textResizeThrows host (node_width node) (node_height node)
       then ret tt
       else resize t (node_width node) (node_height node)) ;;;
      appendChild parent t
  | Ellipse n =>
      e <~ create ELLIPSE ;;
      set e "name" (HStr (or_else (base_name (ellipse_base n)) "Ellipse")) ;;;
      set e "x" (HNum localX) ;;;
      set e "y" (HNum localY) ;;;
      resize e (node_width node) (node_height node) ;;;
      match ellipse_fill n with
      | Some c => set e "fills" (HPaints [solid c])
      | None => set e "fills" (HPaints [transparent_white])
      end ;;;
      apply_stroke e (ellipse_stroke n) (ellipse_strokeWidth n) ;;;
      set_if_present e "opacity" (base_opacity (ellipse_base n)) ;;;
      appendChild parent e
  | Image n =>
      r <~ create RECTANGLE ;;
      set r "name" (HStr (or_else (base_name (image_base n)) "Image")) ;;;
      set r "x" (HNum localX) ;;;
      set r "y" (HNum localY) ;;;
      resize r (node_width node) (node_height node) ;;;
      set_if_present r "cornerRadius" (image_cornerRadius n) ;;;
      paint <~ imagePaintFromNode n ;;
      match paint with
      | Some p => set r "fills" (HPaints [p])
      | None => set r "fills" (HPaints [neutral_gray])
      end ;;;
      apply_stroke r (image_stroke n) (image_strokeWidth n) ;;;
      set_if_present r "opacity" (base_opacity (image_base n)) ;;;
      appendChild parent r
  | Frame n children =>
      f <~ create FRAMEOBJ ;;
      set f "name" (HStr (or_else (base_name (frame_base n)) "Frame")) ;;;
      set f "x" (HNum localX) ;;;
      set f "y" (HNum localY) ;;;
      resize f (node_width node) (node_height node) ;;;
      match frame_fill n with
      | Some c => set f "fills" (HPaints [solid c])
      | None => set f "fills" (HPaints [])
      end ;;;
      apply_stroke f (frame_stroke n) (frame_strokeWidth n) ;;;
      match inferPillRadius (node_width node) (node_height node)
              (is_some (frame_fill n)) (frame_cornerRadius n) with
      | Some radius => set f "cornerRadius" (HNum radius)
      | None => ret tt
      end ;;;
      set_if_present f "opacity" (base_opacity (frame_base n)) ;;;
      match frame_layoutMode n with
      | Some HORIZONTAL | Some VERTICAL =>
          set f "layoutMode"
            (HStr (LayoutMode_name
                     match frame_layoutMode n with
                     | Some m => m
                     | None => NONE
                     end)) ;;;
          match frame_padding n with
          | Some p =>
              set f "paddingTop" (HNum (zero_if_absent (pad_top p))) ;;;
              set f "paddingRight" (HNum (zero_if_absent (pad_right p))) ;;;
              set f "paddingBottom" (HNum (zero_if_absent (pad_bottom p))) ;;;
              set f "paddingLeft" (HNum (zero_if_absent (pad_left p)))
          | None => ret tt
          end ;;;
          set_if_present f "itemSpacing" (frame_itemSpacing n) ;;;
          set f "primaryAxisSizingMode" (HStr "AUTO") ;;;
          set f "counterAxisSizingMode" (HStr "AUTO")
      | _ => set f "layoutMode" (HStr "NONE")
      end ;;;
      appendChild parent f ;;;
      (* node.children ?? [] *)
      let cs := match children with Some cs => cs | None => [] end in
      let childCoordinateMode :=
        detectCoordinateMode cs (node_x node) (node_y node)
          (node_width node) (node_height node) in
      match children with
      | Some cs =>
          for_each
            (fun c =>
               renderNode c f (node_x node) (node_y node) (node_width node)
                 (node_height node) childCoordinateMode)
            cs
      | None => ret tt
      end
  end.

Record Screenshot : Type := mkScreenshot {
  shot_base64 : string;
  shot_mime : string
}.

(** [normalizeScreenshot]: the lower-cased MIME type and the data, or an
    exception. *)
Definition normalizeScreenshot (screenshot : option Screenshot)
  : M (option (string * string)) :=
  match screenshot with
  | None => ret None
  | Some s =>
      let mime := toLowerCase (shot_mime s) in
      if String.eqb mime ""
         || (negb (String.eqb mime "image/png")
             && negb (String.eqb mime "image/jpeg")
             && negb (String.eqb mime "image/jpg"))
      then throw "Unsupported image type. Use PNG or JPEG."
      else if String.eqb (shot_base64 s) ""
              || (String.length (shot_base64 s) <? 16)%nat
      then throw "Image data is empty or too small."
      else ret (Some (mime, shot_base64 s))
  end.

Definition renderToFigma (spec : DesignSpec) (screenshot : option Screenshot)
  : M unit :=
  shot <~ normalizeScreenshot screenshot ;;
  root <~ create FRAMEOBJ ;;
  set root "name"
    (HStr (or_else (Some (canvas_name (spec_canvas spec))) "Generated")) ;;;
  resize root (canvas_width (spec_canvas spec))
    (canvas_height (spec_canvas spec)) ;;;
  let rootWidth := canvas_width (spec_canvas spec) in
  let rootHeight := canvas_height (spec_canvas spec) in
  set root "x"
    (HNum (viewportCenterX host - Num.div_const rootWidth 2)%num) ;;;
  set root "y"
    (HNum (viewportCenterY host - Num.div_const rootHeight 2)%num) ;;;
  set root "clipsContent" (HBool true) ;;;
  match shot with
  | Some (_, base64) =>
      bytes <~ base64ToBytes base64 ;;
      hash <~ figma_createImage bytes ;;
      set root "fills" (HPaints [ImagePaint hash FILL])
  | None => set root "fills" (HPaints [])
  end ;;;
  overlay <~ create FRAMEOBJ ;;
  set overlay "name" (HStr "AI layers") ;;;
  resize overlay rootWidth rootHeight ;;;
  set overlay "x" (HNum (Num.of_Z 0)) ;;;
  set overlay "y" (HNum (Num.of_Z 0)) ;;;
  set overlay "fills" (HPaints []) ;;;
  set overlay "strokes" (HPaints []) ;;;
  appendChild root overlay ;;;
  for_each
    (fun n =>
       renderNode n overlay (Num.of_Z 0) (Num.of_Z 0) rootWidth rootHeight
         "relative")
    (spec_nodes spec) ;;;
  emit (EPageAppend root) ;;;
  modify (fun st => mkState (store st) (fontCache st) (log st) (modes st)
                      (pageChildren st ++ [root]) [root]) ;;;
  emit (ESelect [root]) ;;;
  emit (EScrollAndZoom [root]).

End Renderer.

(* ================================================================== *)
(** * Typed trees as JavaScript values, and what validation guarantees *)
(* ================================================================== *)

(** The JavaScript value of a typed tree: one property per field, an
    absent optional field reading [undefined]. *)
Definition js_opt {A} (f : A -> jsval) (o : option A) : jsval :=
  match o with Some a => f a | None => JUndefined end.

Definition js_color (c : RGBA) : jsval :=
  JObj [("r", JNum (c_r c)); ("g", JNum (c_g c)); ("b", JNum (c_b c));
        ("a", js_opt JNum (c_a c))].

Definition js_base (b : NodeBase) : list (string * jsval) :=
  [("name", js_opt JStr (base_name b)); ("x", JNum (base_x b));
   ("y", JNum (base_y b)); ("width", JNum (base_width b));
   ("height", JNum (base_height b));
   ("opacity", js_opt JNum (base_opacity b))].

Definition js_padding (p : FramePadding) : jsval :=
  JObj [("top", js_opt JNum (pad_top p)); ("right", js_opt JNum (pad_right p));
        ("bottom", js_opt JNum (pad_bottom p));
        ("left", js_opt JNum (pad_left p))].

Fixpoint to_js (d : DesignNode) : jsval :=
  match d with
  | Rect n =>
      JObj (js_base (rect_base n)
            ++ [("type", JStr "rect");
                ("fill", js_opt js_color (rect_fill n));
                ("stroke", js_opt js_color (rect_stroke n));
                ("strokeWidth", js_opt JNum (rect_strokeWidth n));
                ("cornerRadius", js_opt JNum (rect_cornerRadius n))])
  | Text n =>
      JObj (js_base (text_base n)
            ++ [("type", JStr "text");
                ("text", JStr (text_text n));
                ("fontFamily", js_opt JStr (text_fontFamily n));
                ("fontStyle", js_opt JStr (text_fontStyle n));
                ("fontSize", js_opt JNum (text_fontSize n));
                ("fill", js_opt js_color (text_fill n));
                ("alignHorizontal",
                 js_opt (fun a => JStr (AlignHorizontal_name a))
                   (text_alignHorizontal n))])
  | Frame n children =>
      JObj (js_base (frame_base n)
            ++ [("type", JStr "frame");
                ("layoutMode",
                 js_opt (fun m => JStr (LayoutMode_name m))
                   (frame_layoutMode n));
                ("padding", js_opt js_padding (frame_padding n));
                ("itemSpacing", js_opt JNum (frame_itemSpacing n));
                ("fill", js_opt js_color (frame_fill n));
                ("stroke", js_opt js_color (frame_stroke n));
                ("strokeWidth", js_opt JNum (frame_strokeWidth n));
                ("cornerRadius", js_opt JNum (frame_cornerRadius n));
                ("children",
                 match children with
                 | Some cs => JArr (map to_js cs)
                 | None => JUndefined
                 end)])
  | Ellipse n =>
      JObj (js_base (ellipse_base n)
            ++ [("type", JStr "ellipse");
                ("fill", js_opt js_color (ellipse_fill n));
                ("stroke", js_opt js_color (ellipse_stroke n));
                ("strokeWidth", js_opt JNum (ellipse_strokeWidth n))])
  | Image n =>
      JObj (js_base (image_base n)
            ++ [("type", JStr "image");
                ("imageUrl", js_opt JStr (image_imageUrl n));
                ("imageDataUrl", js_opt JStr (image_imageDataUrl n));
                ("scaleMode",
                 js_opt (fun m => JStr (ScaleMode_name m))
                   (image_scaleMode n));
                ("cornerRadius", js_opt JNum (image_cornerRadius n));
                ("stroke", js_opt js_color (image_stroke n));
                ("strokeWidth", js_opt JNum (image_strokeWidth n))])
  end.

Definition js_spec (s : DesignSpec) : jsval :=
  JObj [("canvas",
         JObj [("name", JStr (canvas_name (spec_canvas s)));
               ("width", JNum (canvas_width (spec_canvas s)));
               ("height", JNum (canvas_height (spec_canvas s)))]);
        ("nodes", JArr (map to_js (spec_nodes s)))].

(** The checks of the schemas, on typed values. *)
Definition finite (n : number) : bool := Num.isFinite n.
Definition at_least_0 (n : number) : bool := finite n && Num.geb n 0%Z.
Definition above_0 (n : number) : bool := finite n && Num.gtb n 0%Z.
Definition in_0_1 (n : number) : bool :=
  finite n && Num.geb n 0%Z && Num.leb n 1%Z.

Definition opt_all {A} (p : A -> bool) (o : option A) : bool :=
  match o with Some a => p a | None => true end.

Definition valid_color (c : RGBA) : bool :=
  in_0_1 (c_r c) && in_0_1 (c_g c) && in_0_1 (c_b c)
  && opt_all in_0_1 (c_a c).

Definition valid_base (b : NodeBase) : bool :=
  finite (base_x b) && finite (base_y b) && above_0 (base_width b)
  && above_0 (base_height b) && opt_all in_0_1 (base_opacity b).

Definition valid_padding (p : FramePadding) : bool :=
  opt_all at_least_0 (pad_top p) && opt_all at_least_0 (pad_right p)
  && opt_all at_least_0 (pad_bottom p) && opt_all at_least_0 (pad_left p).

Fixpoint valid_node (d : DesignNode) : bool :=
  match d with
  | Rect n =>
      valid_base (rect_base n) && opt_all valid_color (rect_fill n)
      && opt_all valid_color (rect_stroke n)
      && opt_all at_least_0 (rect_strokeWidth n)
      && opt_all at_least_0 (rect_cornerRadius n)
  | Text n =>
      valid_base (text_base n) && opt_all above_0 (text_fontSize n)
      && opt_all valid_color (text_fill n)
  | Frame n children =>
      valid_base (frame_base n) && is_some (frame_layoutMode n)
      && opt_all valid_padding (frame_padding n)
      && opt_all at_least_0 (frame_itemSpacing n)
      && opt_all valid_color (frame_fill n)
      && opt_all valid_color (frame_stroke n)
      && opt_all at_least_0 (frame_strokeWidth n)
      && opt_all at_least_0 (frame_cornerRadius n)
      && match children with
         | Some cs => forallb valid_node cs
         | None => false
         end
  | Ellipse n =>
      valid_base (ellipse_base n) && opt_all valid_color (ellipse_fill n)
      && opt_all valid_color (ellipse_stroke n)
      && opt_all at_least_0 (ellipse_strokeWidth n)
  | Image n =>
      valid_base (image_base n)
      && opt_all (fun s => negb (String.eqb s "")) (image_imageUrl n)
      && opt_all (String.prefix "data:image/") (image_imageDataUrl n)
      && opt_all at_least_0 (image_cornerRadius n)
      && opt_all valid_color (image_stroke n)
      && opt_all at_least_0 (image_strokeWidth n)
      && (truthy_string (image_imageUrl n)
          || truthy_string (image_imageDataUrl n))
  end.

Definition valid_spec (s : DesignSpec) : bool :=
  above_0 (canvas_width (spec_canvas s))
  && above_0 (canvas_height (spec_canvas s))
  && forallb valid_node (spec_nodes s).

(** The colours a node carries. *)
Definition opt_list {A} (o : option A) : list A :=
  match o with Some a => [a] | None => [] end.

Definition node_colors (d : DesignNode) : list RGBA :=
  match d with
  | Rect n => opt_list (rect_fill n) ++ opt_list (rect_stroke n)
  | Text n => opt_list (text_fill n)
  | Frame n _ => opt_list (frame_fill n) ++ opt_list (frame_stroke n)
  | Ellipse n => opt_list (ellipse_fill n) ++ opt_list (ellipse_stroke n)
  | Image n => opt_list (image_stroke n)
  end.

Definition color_channels (c : RGBA) : list number :=
  [c_r c; c_g c; c_b c] ++ opt_list (c_a c).

(** A finite number within the closed unit interval. *)
Definition unit_interval (n : number) : Prop :=
  exists q : Q, n = Finite q /\ (0 <= q)%Q /\ (q <= 1)%Q.

(** A finite, strictly positive number. *)
Definition strictly_positive (n : number) : Prop :=
  exists q : Q, n = Finite q /\ (0 < q)%Q.

Definition is_finite (n : number) : Prop := exists q : Q, n = Finite q.

(** A mode the resolver can decide with. *)
Definition decided (mode : string) : Prop :=
  mode = "relative" \/ mode = "absolute".

(** An instance of [Number_of_string] for the examples: it reads a
    string of decimal digits and answers NaN on anything else. *)
Fixpoint digits_value (acc : Z) (s : string) : option Z :=
  match s with
  | EmptyString => Some acc
  | String c rest =>
      let n := nat_of_ascii c in
      if ((48 <=? n) && (n <=? 57))%nat
      then digits_value (10 * acc + Z.of_nat (n - 48)) rest
      else None
  end.

Definition digits_Number (s : string) : number :=
  match s with
  | EmptyString => NaN
  | _ => match digits_value 0 s with
         | Some z => Num.of_Z z
         | None => NaN
         end
  end.

(** A computation keeps a property of the host state, whether it returns
    or throws. *)
Definition preserves {A} (P : HostState -> Prop) (m : M A) : Prop :=
  forall st, P st -> P (snd (m st)).

(** A computation that leaves the ghost list of modes alone. *)
Definition silent {A} (m : M A) : Prop :=
  forall st, modes (snd (m st)) = modes st.

(** Every mode noted so far is a decided one. *)
Definition all_decided (st : HostState) : Prop := Forall decided (modes st).

(** Example data: a frame at (100,100) of size 400 x 300 and two
    children.  [tie_child] fits under both readings of its position,
    [far_child] only as canvas-absolute. *)
Definition plain_rect (x y width height : Z) : DesignNode :=
  Rect (mkRect (mkBase None x y width height None) None None None None).

Definition tie_child : DesignNode := plain_rect 120 130 50 40.
Definition far_child : DesignNode := plain_rect 450 350 50 40.

Definition frame_of (children : list DesignNode) : DesignNode :=
  Frame (mkFrame (mkBase None 100%Z 100%Z 400%Z 300%Z None) (Some NONE) None
           None None None None None)
    (Some children).

(** A host on which every load succeeds. *)
Definition obliging_host : Host :=
  mkHost (fun _ _ => true) (fun _ => FetchResponse true (Some "bytes"))
    (fun b64 => Some b64) (fun _ => Some "hash") (fun _ _ => false)
    (Num.of_Z 0) (Num.of_Z 0).

(** The position the program assigned to an object of the canvas. *)
Definition obj_position (st : HostState) (id : nat)
  : option (HostValue * HostValue) :=
  match nth_error (store st) id with
  | Some o =>
      match obj_get "x" o, obj_get "y" o with
      | Some x, Some y => Some (x, y)
      | _, _ => None
      end
  | None => None
  end.

(** Example data: a raw document as the generator may send it (no canvas
    name, a frame without [layoutMode], a property outside the schema)
    and the spec the validator returns for it. *)
Definition raw_two_level_spec : jsval :=
  JObj
    [("canvas", JObj [("width", JNum 800%Z); ("height", JNum 600%Z)]);
     ("nodes",
      JArr
        [JObj [("type", JStr "rect"); ("x", JNum 0%Z); ("y", JNum 0%Z);
               ("width", JNum 800%Z); ("height", JNum 60%Z);
               ("fill",
                JObj [("r", JNum (Num.literal (1 # 10)));
                      ("g", JNum (Num.literal (1 # 10)));
                      ("b", JNum (Num.literal (1 # 10))); ("a", JNum 1%Z)]);
               ("role", JStr "header")];
         JObj [("type", JStr "frame"); ("x", JNum 0%Z); ("y", JNum 60%Z);
               ("width", JNum 800%Z); ("height", JNum 540%Z);
               ("children",
                JArr
                  [JObj [("type", JStr "text"); ("x", JNum 24%Z);
                         ("y", JNum 18%Z); ("width", JNum 200%Z);
                         ("height", JNum 24%Z); ("text", JStr "Title");
                         ("opacity", JNum (Num.literal (1 # 2)))];
                   JObj [("type", JStr "image"); ("x", JNum 24%Z);
                         ("y", JNum 80%Z); ("width", JNum 64%Z);
                         ("height", JNum 64%Z);
                         ("imageDataUrl", JStr "data:image/png")]])]])].

Definition header_rect : RectNode :=
  mkRect (mkBase None 0%Z 0%Z 800%Z 60%Z None)
    (Some (mkRGBA (Num.literal (1 # 10)) (Num.literal (1 # 10))
             (Num.literal (1 # 10)) (Some (Num.of_Z 1))))
    None None None.

Definition body_frame : FrameProps :=
  mkFrame (mkBase None 0%Z 60%Z 800%Z 540%Z None) (Some NONE) None None None
    None None None.

Definition title_text : DesignNode :=
  Text (mkText (mkBase None 24%Z 18%Z 200%Z 24%Z (Some (Num.literal (1 # 2))))
          "Title" None None None None None).

Definition avatar_image : DesignNode :=
  Image (mkImage (mkBase None 24%Z 80%Z 64%Z 64%Z None) None
           (Some "data:image/png") None None None None).

Definition two_level_canvas : Canvas :=
  mkCanvas "Generated from Image" 800%Z 600%Z.

Definition two_level_spec : DesignSpec :=
  mkSpec two_level_canvas
    [Rect header_rect; Frame body_frame (Some [title_text; avatar_image])].

(** An image node without any source, as the generator may send it. *)
Definition raw_sourceless_image : jsval :=
  JObj [("type", JStr "image"); ("name", JStr "Avatar"); ("x", JNum 16%Z);
        ("y", JNum 24%Z); ("width", JNum 48%Z); ("height", JNum 48%Z)].

(** The children the canvas holds under an object. *)
Definition children_of (st : HostState) (id : nat) : option (list nat) :=
  option_map obj_children (nth_error (store st) id).

(** Example data for the image paths: an image whose data URL has the
    checked prefix only, a state holding one frame, a spec with a remote
    image followed by a rectangle, and two hosts that differ in how the
    fetch fails: on [unreachable_host] the promise of [fetch] rejects, on
    [refusing_host] the server answers with an error status. *)
Definition raw_prefix_only_image : jsval :=
  JObj [("type", JStr "image"); ("x", JNum 24%Z); ("y", JNum 80%Z);
        ("width", JNum 64%Z); ("height", JNum 64%Z);
        ("imageDataUrl", JStr "data:image/png")].

Definition prefix_only_image : ImageNode :=
  mkImage (mkBase None 24%Z 80%Z 64%Z 64%Z None) None (Some "data:image/png")
    None None None None.

Definition one_frame_state : HostState := snd (create FRAMEOBJ initial_state).

Definition remote_image : DesignNode :=
  Image (mkImage (mkBase None 10%Z 10%Z 64%Z 64%Z None)
           (Some "https://images.invalid/avatar.png") None None None None
           None).

Definition remote_image_then_rect : DesignSpec :=
  mkSpec (mkCanvas "Canvas" 800%Z 600%Z)
    [remote_image; plain_rect 100 10 200 40].

Definition unreachable_host : Host :=
  mkHost (fun _ _ => true) (fun _ => FetchRejects) (fun b64 => Some b64)
    (fun _ => Some "hash") (fun _ _ => false) (Num.of_Z 0) (Num.of_Z 0).

Definition refusing_host : Host :=
  mkHost (fun _ _ => true) (fun _ => FetchResponse false None)
    (fun b64 => Some b64) (fun _ => Some "hash") (fun _ _ => false)
    (Num.of_Z 0) (Num.of_Z 0).

(** The fills the program assigned to an object of the canvas. *)
Definition fills_of (st : HostState) (id : nat) : option HostValue :=
  match nth_error (store st) id with
  | Some o => obj_get "fills" o
  | None => None
  end.

(* ------------------------------------------------------------------ *)
(** ** Document order on the canvas *)

(** The kind of canvas object [renderNode] creates for a node. *)
Definition kind_of (n : DesignNode) : ObjKind :=
  match n with
  | Rect _ => RECTANGLE
  | Text _ => TEXTOBJ
  | Frame _ _ => FRAMEOBJ
  | Ellipse _ => ELLIPSE
  | Image _ => RECTANGLE
  end.

(** The events of the awaited resource loads. *)
Definition is_load (e : Event) : bool :=
  match e with
  | ELoadFontAsync _ _ | EFetch _ => true
  | _ => false
  end.

(** Only text and image nodes wait for a resource. *)
Definition may_load (n : DesignNode) : bool :=
  match n with
  | Text _ | Image _ => true
  | _ => false
  end.

Definition load_events (allow : bool) (evs : list Event) : Prop :=
  forallb is_load evs = true /\ (allow = false -> evs = []).

Definition kinds (st : HostState) : list ObjKind := map obj_kind (store st).
Definition childrens (st : HostState) : list (list nat) :=
  map obj_children (store st).

(** Objects are numbered in creation order, so a node at [id] is followed
    by its descendants: the children of a parent whose first child is at
    [id] sit at these identifiers. *)
Fixpoint child_ids (id : nat) (cs : list DesignNode) : list nat :=
  match cs with
  | [] => []
  | c :: rest => id :: child_ids (id + List.length (subtree c)) rest
  end.

Section forests.
Context {R : Type} (node : DesignNode -> nat -> R) (join : R -> R -> R)
  (empty : R).

(** A per-node function applied along a list of siblings, the first of
    which sits at [id]. *)
Fixpoint along (cs : list DesignNode) (id : nat) : R :=
  match cs with
  | [] => empty
  | c :: rest => join (node c id) (along rest (id + List.length (subtree c)))
  end.
End forests.

(** The children lists of the objects created for a node at [id], in
    creation order: every parent holds its children in document order. *)
Fixpoint skeleton (n : DesignNode) (id : nat) : list (list nat) :=
  match n with
  | Frame _ (Some cs) =>
      child_ids (S id) cs :: along skeleton (@app _) [] cs (S id)
  | _ => [[]]
  end.

Definition skeleton_forest (cs : list DesignNode) (id : nat)
  : list (list nat) :=
  along skeleton (@app _) [] cs id.

Section traces.
Context (node : DesignNode -> nat -> nat -> list Event -> Prop).

(** The events of a list of siblings under [parent]: those of each one
    in turn, nothing interleaved. *)
Fixpoint traced_siblings (cs : list DesignNode) (parent id : nat)
    (evs : list Event) : Prop :=
  match cs with
  | [] => evs = []
  | c :: rest =>
      exists evs1 evs2,
        evs = evs1 ++ evs2 /\ node c parent id evs1
        /\ traced_siblings rest parent (id + List.length (subtree c)) evs2
  end.
End traces.

(** The events of rendering a node at [id] under [parent]: its object is
    created, its own resource loads (if it is a text or an image) follow,
    it is attached to its parent, and only then come its children, one
    after the other. *)
Fixpoint traced (n : DesignNode) (parent id : nat) (evs : list Event)
  : Prop :=
  exists loads rest,
    load_events (may_load n) loads
    /\ evs = ECreate id (kind_of n) :: loads ++ EAppendChild parent id :: rest
    /\ match n with
       | Frame _ (Some cs) => traced_siblings traced cs id (S id) rest
       | _ => rest = []
       end.

Definition traced_forest (cs : list DesignNode) (parent id : nat)
    (evs : list Event) : Prop :=
  traced_siblings traced cs parent id evs.

(** Two states between which nothing happened to the structure of the
    canvas: the same objects with the same children, and only resource
    loads (if allowed) in the log. *)
Definition quiet_rel (allow : bool) (st st' : HostState) : Prop :=
  exists evs,
    load_events allow evs /\ log st' = log st ++ evs
    /\ kinds st' = kinds st /\ childrens st' = childrens st.

Definition quiet (allow : bool) {A} (m : M A) : Prop :=
  forall st, quiet_rel allow st (snd (m st)).

(** The statement proved of every node: rendering it under an existing
    parent, when it returns, has added the objects of the node's subtree
    in document order, each holding its children in document order, has
    put the node on top of its parent's children, and has logged the
    events in the order [traced] describes. *)
Definition renders_in_order (host : Host) (n : DesignNode) : Prop :=
  forall (parent : nat) (ax ay w h : number) (mode : string)
         (st st' : HostState),
    renderNode host n parent ax ay w h mode st = (Returned tt, st') ->
    (parent < List.length (store st))%nat ->
    kinds st' = kinds st ++ map kind_of (subtree n)
    /\ childrens st'
       = update_nth parent (fun l => l ++ [List.length (store st)])
           (childrens st)
         ++ skeleton n (List.length (store st))
    /\ exists evs,
         log st' = log st ++ evs
         /\ traced n parent (List.length (store st)) evs.

(* ------------------------------------------------------------------ *)
(** ** The properties the node schemas read *)

(** Every property name that occurs in the shape of a node schema, except
    [children]. *)
Definition node_keys : list string :=
  ["name"; "x"; "y"; "width"; "height"; "opacity"; "type"; "fill"; "stroke";
   "strokeWidth"; "cornerRadius"; "text"; "fontFamily"; "fontStyle";
   "fontSize"; "alignHorizontal"; "layoutMode"; "padding"; "itemSpacing";
   "imageUrl"; "imageDataUrl"; "scaleMode"].

(** Two objects that read the same under every name of a list. *)
Definition agree_on (keys : list string) (v v' : jsval) : Prop :=
  forall k, In k keys -> get k v = get k v'.

(* ------------------------------------------------------------------ *)
(** ** What the normalizer keeps *)

(** The type names [normalizeNode] lets through. *)
Definition node_types : list string :=
  ["rect"; "text"; "frame"; "ellipse"; "image"].

(** The four numbers every node must carry. *)
Definition geometry_keys : list string := ["x"; "y"; "width"; "height"].

(* ------------------------------------------------------------------ *)
(** ** Specifications of effectful code *)

(** A computation started in a state that meets [P] meets [Q] when it
    returns and [E] when it throws. *)
Definition triple {A} (P : HostState -> Prop) (m : M A)
    (Q : A -> HostState -> Prop) (E : HostState -> Prop) : Prop :=
  forall st, P st ->
    match m st with
    | (Returned a, st') => Q a st'
    | (Thrown _, st') => E st'
    end.

(** The page and the selection, which only the last lines of
    [renderToFigma] touch. *)
Definition page (st : HostState) : list nat * list nat :=
  (pageChildren st, selection st).

(** The states whose page and selection are [pg]. *)
Definition on_page (pg : list nat * list nat) (st : HostState) : Prop :=
  page st = pg.

(** [normalizeScreenshot] as a pure function: the screenshot it accepts. *)
Definition accepted_screenshot (screenshot : option Screenshot)
  : option (option (string * string)) :=
  match screenshot with
  | None => Some None
  | Some s =>
      let mime := toLowerCase (shot_mime s) in
      if (String.eqb mime "image/png" || String.eqb mime "image/jpeg"
          || String.eqb mime "image/jpg")
         && (16 <=? String.length (shot_base64 s))%nat
      then Some (Some (mime, shot_base64 s))
      else None
  end.

(* ------------------------------------------------------------------ *)
(** ** Data URLs on the server and in the plugin's UI *)

(** [parseImageDataUrl] of the server and [dataUrlToBase64] of the UI:
    the same pattern as in [imagePaintFromNode], and an exception when it
    does not match. *)
Definition parseImageDataUrl (dataUrl : string) : string + string * string :=
  match match_data_url dataUrl with
  | None => inl "invalid data url"
  | Some (mime, b64) => inr (mime, b64)
  end.

Definition dataUrlToBase64 (dataUrl : string) : string + string * string :=
  match match_data_url dataUrl with
  | None => inl "invalid data url"
  | Some (mime, b64) => inr (mime, b64)
  end.

(** No occurrence of the character [c]. *)
Fixpoint lacks (c : ascii) (s : string) : bool :=
  match s with
  | EmptyString => true
  | String a rest => negb (Ascii.eqb a c) && lacks c rest
  end.

(* ------------------------------------------------------------------ *)
(** ** The objects that were there before *)

(** What [parent.appendChild(child)] does to the parent. *)
Definition adopt (child : nat) (o : CanvasObj) : CanvasObj :=
  mkObj (obj_kind o) (obj_props o) (obj_children o ++ [child]).

(** The store still starts with the objects [old]. *)
Definition keeps_prefix (old : list CanvasObj) (st : HostState) : Prop :=
  firstn (List.length old) (store st) = old.

(* ------------------------------------------------------------------ *)
(** ** Font requests and the loads a document needs *)

(** The key [loadFont] files a font under. *)
Definition font_key (family style : string) : string :=
  (family ++ "::" ++ style)%string.

(** The keys of the fonts requested from the host, oldest first. *)
Definition font_requests (evs : list Event) : list string :=
  flat_map (fun e => match e with
                     | ELoadFontAsync family style => [font_key family style]
                     | _ => []
                     end) evs.

(** Since the log was [log0], every cached font was requested once, and
    nothing else was. *)
Definition fonts_requested_once (log0 : list Event) (st : HostState) : Prop :=
  exists evs,
    log st = log0 ++ evs
    /\ font_requests evs = map fst (fontCache st)
    /\ NoDup (map fst (fontCache st)).

(** A step that always returns, leaves the font cache alone and requests
    no font. *)
Definition plain {A} (m : M A) : Prop :=
  forall st, exists a st',
    m st = (Returned a, st')
    /\ fontCache st' = fontCache st
    /\ exists evs, log st' = log st ++ evs /\ font_requests evs = [].

(** Do the loads of an image succeed on this host?  Along the path
    [imagePaintFromNode] takes. *)
Definition image_loads (host : Host) (n : ImageNode) : bool :=
  if truthy_string (image_imageDataUrl n) then
    match match_data_url (or_else (image_imageDataUrl n) "") with
    | None => true
    | Some (_, payload) =>
        match decodeBase64 host payload with
        | Some bytes => is_some (createImage host bytes)
        | None => false
        end
    end
  else if truthy_string (image_imageUrl n) then
    match fetch host (or_else (image_imageUrl n) "") with
    | FetchRejects => false
    | FetchResponse false _ => true
    | FetchResponse true None => false
    | FetchResponse true (Some buf) => is_some (createImage host buf)
    end
  else true.

(* ------------------------------------------------------------------ *)
(** ** Loads that fail *)

(** What [await loadFont(family, style)] will answer in a state: the
    cached outcome if the key is in the cache, the host's otherwise. *)
Definition font_outcome (host : Host) (st : HostState)
    (family style : string) : bool :=
  match find (fun e => String.eqb (fst e) (font_key family style))
          (fontCache st) with
  | Some (_, resolves) => resolves
  | None => loadFontAsync host family style
  end.

(** Does the node's own load fail?  Only a text and an image load
    anything of their own. *)
Definition load_fails (host : Host) (st : HostState) (n : DesignNode) : bool :=
  match n with
  | Text t =>
      negb (font_outcome host st (or_else (text_fontFamily t) "Inter")
              (or_else (text_fontStyle t) "Regular"))
  | Image i => negb (image_loads host i)
  | _ => false
  end.

(** Beside the objects [old], the store holds one more object, of kind
    [kind] and without children, and the font cache is [cache]. *)
Definition one_new (old : list CanvasObj) (kind : ObjKind)
    (cache : list (string * bool)) (st : HostState) : Prop :=
  (exists o, store st = old ++ [o] /\ obj_kind o = kind
             /\ obj_children o = [])
  /\ fontCache st = cache.

(* ------------------------------------------------------------------ *)
(** ** Properties of the objects on the canvas *)

(** The value the program assigned last to a property of an object. *)
Definition prop_of (st : HostState) (id : nat) (k : string)
  : option HostValue :=
  match nth_error (store st) id with
  | Some o => obj_get k o
  | None => None
  end.

(** Object [id] has the value [v] under [k]. *)
Definition holds (id : nat) (k : string) (v : HostValue) (st : HostState)
  : Prop :=
  prop_of st id k = Some v.

(* ------------------------------------------------------------------ *)
(** ** The scalar properties of a normalized node *)

Definition number_keys : list string :=
  ["x"; "y"; "width"; "height"; "opacity"; "strokeWidth"; "cornerRadius";
   "fontSize"; "itemSpacing"].

Definition string_keys : list string :=
  ["type"; "name"; "text"; "fontFamily"; "fontStyle"; "layoutMode";
   "imageUrl"; "imageDataUrl"; "scaleMode"].

(** Absent, or a finite number. *)
Definition finite_or_absent (v : jsval) : Prop :=
  v = JUndefined \/ exists n, v = JNum n /\ Num.isFinite n = true.

(** Absent, or a string. *)
Definition string_or_absent (v : jsval) : Prop :=
  v = JUndefined \/ exists s, v = JStr s.

(* ------------------------------------------------------------------ *)
(** ** The properties of each node schema *)

(** The properties the schema of a node type declares. *)
Definition schema_keys (type : string) : list string :=
  ["name"; "x"; "y"; "width"; "height"; "opacity"; "type"]
  ++ (if String.eqb type "rect"
      then ["fill"; "stroke"; "strokeWidth"; "cornerRadius"]
      else if String.eqb type "text"
      then ["text"; "fontFamily"; "fontStyle"; "fontSize"; "fill";
            "alignHorizontal"]
      else if String.eqb type "frame"
      then ["layoutMode"; "padding"; "itemSpacing"; "fill"; "stroke";
            "strokeWidth"; "cornerRadius"; "children"]
      else if String.eqb type "ellipse"
      then ["fill"; "stroke"; "strokeWidth"]
      else if String.eqb type "image"
      then ["imageUrl"; "imageDataUrl"; "scaleMode"; "cornerRadius";
            "stroke"; "strokeWidth"]
      else []).

(** A rect whose fill has a null red component. *)
Definition null_in_fill : jsval :=
  JObj [("type", JStr "rect"); ("x", JNum 0%Z); ("y", JNum 0%Z);
        ("width", JNum 10%Z); ("height", JNum 10%Z);
        ("fill", JObj [("r", JNull); ("g", JNum 0%Z); ("b", JNum 0%Z)])].

(** Example data: two text nodes that the validator accepts, each with an
    alias that only the normalizer reads. *)
Definition text_with_color : jsval :=
  JObj [("type", JStr "text"); ("x", JNum 0%Z); ("y", JNum 0%Z);
        ("width", JNum 100%Z); ("height", JNum 20%Z); ("text", JStr "Hi");
        ("color", JStr "#333333")].

Definition text_with_weight : jsval :=
  JObj [("type", JStr "text"); ("x", JNum 0%Z); ("y", JNum 0%Z);
        ("width", JNum 100%Z); ("height", JNum 20%Z); ("text", JStr "Hi");
        ("fontWeight", JNum 700%Z)].

(** A host that rejects every resize of a text, and a text node. *)
Definition rigid_host : Host :=
  mkHost (fun _ _ => true) (fun _ => FetchResponse true (Some "bytes"))
    (fun b64 => Some b64) (fun _ => Some "hash") (fun _ _ => true)
    (Num.of_Z 0) (Num.of_Z 0).

Definition caption : TextNode :=
  mkText (mkBase None 10%Z 10%Z 80%Z 20%Z None) "Hi" None None None None None.

(* ================================================================== *)
(** * Properties *)
(* ================================================================== *)

Unset Implicit Arguments.

(** ** Numbers *)

Lemma leb_Finite (p q : Q) :
  Num.leb (Finite p) (Finite q) = true <-> (p <= q)%Q.
Proof. simpl. apply Qle_bool_iff. Qed.

Lemma geb_Finite (p q : Q) :
  Num.geb (Finite p) (Finite q) = true <-> (q <= p)%Q.
Proof. unfold Num.geb. apply leb_Finite. Qed.

Lemma ltb_Finite (p q : Q) :
  Num.ltb (Finite p) (Finite q) = true <-> (p < q)%Q.
Proof.
  simpl. rewrite negb_true_iff. split; intro H.
  - apply Qnot_le_lt. intro L. apply Qle_bool_iff in L. congruence.
  - destruct (Qle_bool q p) eqn:E; [|reflexivity].
    apply Qle_bool_iff in E. exfalso. apply (Qlt_not_le _ _ H E).
Qed.

Lemma gtb_Finite (p q : Q) :
  Num.gtb (Finite p) (Finite q) = true <-> (q < p)%Q.
Proof. unfold Num.gtb. apply ltb_Finite. Qed.

Lemma leb_Finite_false (p q : Q) :
  Num.leb (Finite p) (Finite q) = false <-> (q < p)%Q.
Proof.
  rewrite <- ltb_Finite. simpl. rewrite negb_true_iff. reflexivity.
Qed.

(** ** Rounding to binary64 *)

Import Binary64.

Lemma pow2_pos (e : Z) : 0 < pow2 e.
Proof. apply Qpower_0_lt. reflexivity. Qed.

Lemma pow2_plus (a b : Z) : pow2 (a + b) == pow2 a * pow2 b.
Proof. apply Qpower_plus. discriminate. Qed.

Lemma pow2_le (a b : Z) : (a <= b)%Z -> pow2 a <= pow2 b.
Proof. intro H. apply Qpower_le_compat_l; [exact H | discriminate]. Qed.

Lemma pow2_lt (a b : Z) : (a < b)%Z -> pow2 a < pow2 b.
Proof. intro H. apply Qpower_lt_compat_l; [exact H | reflexivity]. Qed.

Lemma pow2_Z (a : Z) : (0 <= a)%Z -> pow2 a == inject_Z (2 ^ a).
Proof. intro H. unfold pow2. rewrite Zpower_Qpower by exact H. reflexivity. Qed.

Lemma binade_spec (q : Q) :
  0 < q -> pow2 (binade q) <= q /\ q < pow2 (binade q + 1).
Proof.
  intro Hq. destruct q as [n d]. unfold binade. cbn [Qnum Qden].
  assert (Hn : (0 < n)%Z).
  { unfold Qlt in Hq. cbn in Hq. lia. }
  set (a := Z.log2 n). set (b := Z.log2 (Zpos d)).
  assert (Ha : (0 <= a)%Z) by apply Z.log2_nonneg.
  assert (Hb : (0 <= b)%Z) by apply Z.log2_nonneg.
  destruct (Z.log2_spec n Hn) as [A1 A2]. fold a in A1, A2.
  destruct (Z.log2_spec (Zpos d) eq_refl) as [B1 B2]. fold b in B1, B2.
  assert (Qv : n # d == inject_Z n / inject_Z (Zpos d)) by apply Qmake_Qdiv.
  assert (Hd : 0 < inject_Z (Zpos d)) by reflexivity.
  assert (Upper : n # d < pow2 (a - b + 1)).
  { rewrite Qv. apply Qlt_shift_div_r; [exact Hd|].
    replace (a - b + 1)%Z with ((a + 1) + - b)%Z by ring.
    rewrite pow2_plus. unfold pow2 at 2. rewrite Qpower_opp. fold (pow2 b).
    rewrite (pow2_Z (a + 1)) by lia.
    apply Qlt_le_trans
      with (inject_Z (2 ^ (a + 1)) * / pow2 b * pow2 b).
    - setoid_replace (inject_Z (2 ^ (a + 1)) * / pow2 b * pow2 b)
        with (inject_Z (2 ^ (a + 1))).
      + rewrite <- Zlt_Qlt. exact A2.
      + pose proof (pow2_pos b). field. intro E. rewrite E in H. discriminate.
    - apply Qmult_le_l.
      + apply Qlt_shift_div_l; [apply pow2_pos|]. rewrite Qmult_0_l.
        rewrite <- (Zlt_Qlt 0). lia.
      + rewrite pow2_Z by lia. rewrite <- Zle_Qle. exact B1. }
  assert (Lower : pow2 (a - b - 1) <= n # d).
  { rewrite Qv. apply Qle_shift_div_l; [exact Hd|].
    replace (a - b - 1)%Z with (a + - (b + 1))%Z by ring.
    rewrite pow2_plus. unfold pow2 at 2. rewrite Qpower_opp. fold (pow2 (b + 1)).
    rewrite (pow2_Z a) by lia.
    apply Qle_trans
      with (inject_Z (2 ^ a) * / pow2 (b + 1) * pow2 (b + 1)).
    - apply Qmult_le_l.
      + apply Qlt_shift_div_l; [apply pow2_pos|]. rewrite Qmult_0_l.
        rewrite <- (Zlt_Qlt 0). lia.
      + rewrite pow2_Z by lia. rewrite <- Zle_Qle. lia.
    - setoid_replace (inject_Z (2 ^ a) * / pow2 (b + 1) * pow2 (b + 1))
        with (inject_Z (2 ^ a)).
      + rewrite <- Zle_Qle. exact A1.
      + pose proof (pow2_pos (b + 1)). field. intro E. rewrite E in H.
        discriminate. }
  destruct (Qle_bool (pow2 (a - b)) (n # d)) eqn:E.
  - split; [apply Qle_bool_iff; exact E | exact Upper].
  - split; [exact Lower|].
    replace (a - b - 1 + 1)%Z with (a - b)%Z by ring.
    apply Qnot_le_lt. intro L. apply Qle_bool_iff in L. congruence.
Qed.
(** The nearest integer is the floor or the integer after it. *)
Lemma nearest_even_cases (t : Q) :
  (nearest_even t = Qfloor t /\ t - inject_Z (Qfloor t) <= 1 # 2)
  \/ (nearest_even t = (Qfloor t + 1)%Z /\ 1 # 2 <= t - inject_Z (Qfloor t)).
Proof.
  unfold nearest_even.
  destruct (Qcompare (t - inject_Z (Qfloor t)) (1 # 2)) eqn:E.
  - apply Qeq_alt in E.
    destruct (Z.even (Qfloor t)); [left | right]; split; try reflexivity;
      rewrite E; apply Qle_refl.
  - apply Qlt_alt in E. left. split; [reflexivity | apply Qlt_le_weak, E].
  - apply Qgt_alt in E. right. split; [reflexivity | apply Qlt_le_weak, E].
Qed.

Lemma nearest_even_le (t : Q) (M : Z) :
  t <= inject_Z M -> (nearest_even t <= M)%Z.
Proof.
  intro H. pose proof (Qfloor_le t) as F.
  assert (L : (Qfloor t <= M)%Z).
  { rewrite <- (Qfloor_Z M). apply Qfloor_resp_le, H. }
  destruct (nearest_even_cases t) as [[-> _] | [-> Hh]]; [exact L|].
  destruct (Z.eq_dec (Qfloor t) M) as [E | N]; [|lia].
  exfalso. rewrite E in Hh. lra.
Qed.

Lemma nearest_even_ge (t : Q) (M : Z) :
  inject_Z M <= t -> (M <= nearest_even t)%Z.
Proof.
  intro H.
  assert (L : (M <= Qfloor t)%Z).
  { rewrite <- (Qfloor_Z M). apply Qfloor_resp_le, H. }
  destruct (nearest_even_cases t) as [[-> _] | [-> _]]; lia.
Qed.

Lemma nearest_even_Z (M : Z) : nearest_even (inject_Z M) = M.
Proof.
  apply Z.le_antisymm;
    [apply nearest_even_le | apply nearest_even_ge]; apply Qle_refl.
Qed.

Lemma nearest_even_comp (t u : Q) : t == u -> nearest_even t = nearest_even u.
Proof.
  intro E. unfold nearest_even. rewrite (Qfloor_comp t u E).
  assert (C : Qcompare (t - inject_Z (Qfloor u)) (1 # 2)
              = Qcompare (u - inject_Z (Qfloor u)) (1 # 2)).
  { apply Qcompare_comp; [rewrite E|]; reflexivity. }
  rewrite C. reflexivity.
Qed.

Lemma exponent_spec (q : Q) :
  (-1074 <= exponent q)%Z
  /\ (exponent q = (binade q - 52)%Z
      \/ (exponent q = (-1074)%Z /\ (binade q - 52 <= -1074)%Z)).
Proof. unfold exponent. lia. Qed.

(** A multiple of the power [a] is a multiple of the lower power [b]. *)
Lemma on_the_grid (m a b : Z) :
  (b <= a)%Z -> inject_Z m * pow2 a == inject_Z (m * 2 ^ (a - b)) * pow2 b.
Proof.
  intro H. rewrite inject_Z_mult, <- pow2_Z by lia.
  rewrite <- Qmult_assoc, <- pow2_plus.
  replace (a - b + b)%Z with a by ring. reflexivity.
Qed.


(** What has fewer binary places than the grid around [q] lies below [q]'s
    binade. *)
Lemma below_the_binade (q : Q) (m e : Z) :
  (Z.abs m <= 2 ^ 53)%Z -> (e < exponent q)%Z -> (-1074 <= e)%Z ->
  inject_Z m * pow2 e <= pow2 (binade q)
  /\ pow2 (binade q) == inject_Z (2 ^ 52) * pow2 (exponent q).
Proof.
  intros Hm He Hlow.
  destruct (exponent_spec q) as [_ [E | [E _]]]; [|lia].
  split.
  - apply Qle_trans with (inject_Z (2 ^ 53) * pow2 e).
    + apply Qmult_le_compat_r; [|apply Qlt_le_weak, pow2_pos].
      rewrite <- Zle_Qle. lia.
    + rewrite <- pow2_Z, <- pow2_plus by lia. apply pow2_le. lia.
  - rewrite <- pow2_Z, <- pow2_plus by lia. rewrite E.
    replace (52 + (binade q - 52))%Z with (binade q) by ring. reflexivity.
Qed.

Lemma div_pow2_le (x y : Q) (e : Z) : x <= y * pow2 e -> x / pow2 e <= y.
Proof. intro H. apply Qle_shift_div_r; [apply pow2_pos | exact H]. Qed.

Lemma div_pow2_ge (x y : Q) (e : Z) : y * pow2 e <= x -> y <= x / pow2 e.
Proof. intro H. apply Qle_shift_div_l; [apply pow2_pos | exact H]. Qed.

(** What lies on a coarser grid lies on the grid around [q]; what lies on a
    finer one lies below the binade of [q]. *)
Lemma grid_ge (q D : Q) (z : Z) :
  0 < q -> representable D -> D <= q ->
  (forall M : Z, inject_Z M <= q / pow2 (exponent q) -> (M <= z)%Z) ->
  D <= inject_Z z * pow2 (exponent q).
Proof.
  intros Hq (m & e & Hm & He & HD) L Hz.
  set (g := exponent q) in *.
  destruct (Z_le_gt_dec g e) as [G | G].
  - rewrite HD, (on_the_grid m e g G).
    apply Qmult_le_compat_r; [|apply Qlt_le_weak, pow2_pos].
    rewrite <- Zle_Qle. apply Hz. apply div_pow2_ge.
    rewrite <- on_the_grid, <- HD by exact G. exact L.
  - destruct (below_the_binade q m e Hm ltac:(fold g; lia) He) as [B1 B2].
    destruct (binade_spec q Hq) as [K _]. fold g in B2.
    rewrite HD. apply Qle_trans with (1 := B1). rewrite B2.
    apply Qmult_le_compat_r; [|apply Qlt_le_weak, pow2_pos].
    rewrite <- Zle_Qle. apply Hz. apply div_pow2_ge.
    rewrite <- B2. exact K.
Qed.

Lemma grid_le (q D : Q) (z : Z) :
  0 < q -> representable D -> q <= D ->
  (forall M : Z, q / pow2 (exponent q) <= inject_Z M -> (z <= M)%Z) ->
  inject_Z z * pow2 (exponent q) <= D.
Proof.
  intros Hq (m & e & Hm & He & HD) L Hz.
  set (g := exponent q) in *.
  destruct (Z_le_gt_dec g e) as [G | G].
  - rewrite HD, (on_the_grid m e g G).
    apply Qmult_le_compat_r; [|apply Qlt_le_weak, pow2_pos].
    rewrite <- Zle_Qle. apply Hz. apply div_pow2_le.
    rewrite <- on_the_grid, <- HD by exact G. exact L.
  - destruct (below_the_binade q m e Hm ltac:(fold g; lia) He) as [B1 B2].
    destruct (binade_spec q Hq) as [K _]. fold g in B2.
    assert (Eq : q == inject_Z (2 ^ 52) * pow2 g).
    { rewrite <- B2. apply Qle_antisym; [|exact K].
      rewrite HD in L. apply Qle_trans with (1 := L). exact B1. }
    apply Qle_trans with q; [|exact L]. rewrite Eq.
    apply Qmult_le_compat_r; [|apply Qlt_le_weak, pow2_pos].
    rewrite <- Zle_Qle. apply Hz. apply div_pow2_le. rewrite <- Eq.
    apply Qle_refl.
Qed.

Lemma round_pos_le (q D : Q) :
  0 < q -> representable D -> q <= D -> round_pos q <= D.
Proof.
  intros Hq R L. apply grid_le; try assumption.
  intro M. apply nearest_even_le.
Qed.

Lemma round_pos_ge (q D : Q) :
  0 < q -> representable D -> D <= q -> D <= round_pos q.
Proof.
  intros Hq R L. apply grid_ge; try assumption.
  intro M. apply nearest_even_ge.
Qed.

Lemma round_pos_nonneg (q : Q) : 0 < q -> 0 <= round_pos q.
Proof.
  intro Hq. apply round_pos_ge; [exact Hq | | apply Qlt_le_weak, Hq].
  exists 0%Z, 0%Z. split; [cbn; lia|]. split; [lia | reflexivity].
Qed.


Lemma representable_opp (D : Q) : representable D -> representable (- D).
Proof.
  intros (m & e & Hm & He & HD). exists (- m)%Z, e.
  split; [rewrite Z.abs_opp; exact Hm|]. split; [exact He|].
  rewrite HD, inject_Z_opp. ring.
Qed.

Lemma representable_Z (z : Z) :
  (Z.abs z <= 2 ^ 53)%Z -> representable (inject_Z z).
Proof.
  intro H. exists z, 0%Z. split; [exact H|]. split; [lia|].
  change (pow2 0) with 1. ring.
Qed.

Lemma round_le (q D : Q) :
  representable D -> D < pow2 1024 -> q <= D ->
  Num.leb (round q) (Finite D) = true.
Proof.
  intros R Hi L. unfold round.
  pose proof (Qred_correct q) as Eq. set (q' := Qred q) in *.
  rewrite <- Eq in L.
  destruct (Qcompare q' 0) eqn:C.
  - apply Qeq_alt in C. apply leb_Finite. rewrite <- C. exact L.
  - apply Qlt_alt in C.
    assert (Hp : 0 < - q') by lra.
    destruct (Qle_bool (pow2 1024) (round_pos (- q'))); [reflexivity|].
    apply leb_Finite. rewrite Qred_correct.
    destruct (Qlt_le_dec D 0) as [Dn | Dp].
    + pose proof (round_pos_ge (- q') (- D) Hp (representable_opp D R)
                    ltac:(lra)). lra.
    + pose proof (round_pos_nonneg (- q') Hp). lra.
  - apply Qgt_alt in C.
    pose proof (round_pos_le q' D C R L) as Hr.
    destruct (Qle_bool (pow2 1024) (round_pos q')) eqn:O.
    + apply Qle_bool_iff in O. lra.
    + apply leb_Finite. rewrite Qred_correct. exact Hr.
Qed.

Lemma round_ge (q D : Q) :
  representable D -> - pow2 1024 < D -> D <= q ->
  Num.leb (Finite D) (round q) = true.
Proof.
  intros R Hi L. unfold round.
  pose proof (Qred_correct q) as Eq. set (q' := Qred q) in *.
  rewrite <- Eq in L.
  destruct (Qcompare q' 0) eqn:C.
  - apply Qeq_alt in C. apply leb_Finite. rewrite <- C. exact L.
  - apply Qlt_alt in C.
    assert (Hp : 0 < - q') by lra.
    pose proof (round_pos_le (- q') (- D) Hp (representable_opp D R)
                  ltac:(lra)) as Hr.
    destruct (Qle_bool (pow2 1024) (round_pos (- q'))) eqn:O.
    + apply Qle_bool_iff in O. lra.
    + apply leb_Finite. rewrite Qred_correct. lra.
  - apply Qgt_alt in C.
    destruct (Qle_bool (pow2 1024) (round_pos q')); [reflexivity|].
    apply leb_Finite. rewrite Qred_correct.
    destruct (Qlt_le_dec D 0) as [Dn | Dp].
    + pose proof (round_pos_nonneg q' C). lra.
    + apply round_pos_ge; assumption.
Qed.

(** Rounding leaves the numbers of the format as they are. *)
Lemma round_representable (D : Q) :
  representable D -> - pow2 1024 < D -> D < pow2 1024 ->
  exists r, round D = Finite r /\ r == D.
Proof.
  intros R Lo Hi.
  pose proof (round_le D D R Hi (Qle_refl D)) as A.
  pose proof (round_ge D D R Lo (Qle_refl D)) as B.
  destruct (round D) as [r | | |]; try discriminate.
  exists r. split; [reflexivity|].
  apply leb_Finite in A, B. apply Qle_antisym; assumption.
Qed.




Lemma scaled (q : Q) (e : Z) : q == q / pow2 e * pow2 e.
Proof.
  pose proof (pow2_pos e). field. intro E. rewrite E in H. discriminate.
Qed.

(** The result of rounding is a number of the format. *)
Lemma round_pos_representable (q : Q) : 0 < q -> representable (round_pos q).
Proof.
  intro Hq. unfold round_pos. set (g := exponent q).
  set (t := q / pow2 g).
  exists (nearest_even t), g.
  destruct (exponent_spec q) as [Hlow Hg]. fold g in Hlow, Hg.
  destruct (binade_spec q Hq) as [_ K].
  split; [|split; [exact Hlow | reflexivity]].
  assert (Ht : 0 <= t).
  { unfold t. apply div_pow2_ge. rewrite Qmult_0_l. apply Qlt_le_weak, Hq. }
  assert (Hu : t <= inject_Z (2 ^ 53)).
  { unfold t. apply div_pow2_le. rewrite <- pow2_Z, <- pow2_plus by lia.
    apply Qlt_le_weak. apply Qlt_le_trans with (1 := K). apply pow2_le.
    lia. }
  pose proof (nearest_even_ge t 0 Ht). pose proof (nearest_even_le t _ Hu).
  lia.
Qed.

(** No number of the format is nearer to [q] than the result of rounding. *)
Lemma round_pos_nearest (q D : Q) :
  0 < q -> representable D ->
  Qabs (round_pos q - q) <= Qabs (D - q).
Proof.
  intros Hq R. unfold round_pos. set (g := exponent q).
  set (t := q / pow2 g). set (f := Qfloor t).
  pose proof (pow2_pos g) as P. pose proof (scaled q g) as Sq.
  fold t in Sq.
  pose proof (Qfloor_le t) as F1. pose proof (Qlt_floor t) as F2.
  fold f in F1, F2. rewrite inject_Z_plus in F2.
  change (inject_Z 1) with 1 in F2.
  assert (Below : D <= q -> D <= inject_Z f * pow2 g).
  { intro L. apply (grid_ge q D f Hq R L). intros M HM. fold g t in HM.
    unfold f. rewrite <- (Qfloor_Z M). apply Qfloor_resp_le, HM. }
  assert (Above : q <= D -> ~ t == inject_Z f ->
                  (inject_Z f + 1) * pow2 g <= D).
  { intros L Ht.
    assert (G := grid_le q D (f + 1) Hq R L). fold g t in G.
    rewrite inject_Z_plus in G. apply G. intros M HM.
    assert (Hlt : inject_Z f < inject_Z M).
    { apply Qlt_le_trans with t; [|exact HM].
      apply Qle_lt_or_eq in F1. destruct F1 as [F1 | F1]; [exact F1|].
      exfalso. apply Ht. symmetry. exact F1. }
    rewrite <- Zlt_Qlt in Hlt. lia. }
  apply Qabs_Qle_condition.
  destruct (Qlt_le_dec D q) as [Dlt | Dge].
  - specialize (Below (Qlt_le_weak _ _ Dlt)).
    rewrite (Qabs_neg (D - q)) by lra.
    destruct (nearest_even_cases t) as [[-> Hh] | [-> Hh]]; fold f in Hh |- *.
    + split; nra.
    + rewrite inject_Z_plus. change (inject_Z 1) with 1. split; nra.
  - rewrite (Qabs_pos (D - q)) by lra.
    destruct (Qeq_dec t (inject_Z f)) as [Tf | Tf].
    + rewrite (nearest_even_comp _ _ Tf), nearest_even_Z.
      assert (E : inject_Z f * pow2 g == q) by (rewrite Sq, Tf; reflexivity).
      rewrite E. split; lra.
    + specialize (Above Dge Tf).
      destruct (nearest_even_cases t) as [[-> Hh] | [-> Hh]];
        fold f in Hh |- *.
      * split; nra.
      * rewrite inject_Z_plus. change (inject_Z 1) with 1. split; nra.
Qed.

(** A finite result of rounding is a number of the format, and no number
    of the format is nearer to the exact value. *)
Lemma round_nearest (q : Q) :
  match round q with
  | Finite r =>
      representable r
      /\ forall D, representable D -> Qabs (r - q) <= Qabs (D - q)
  | _ => True
  end.
Proof.
  unfold round. pose proof (Qred_correct q) as Eq. set (q' := Qred q) in *.
  destruct (Qcompare q' 0) eqn:C.
  - apply Qeq_alt in C. split.
    + apply (representable_Z 0). cbn. lia.
    + intros D _. setoid_replace (0 - q) with 0 by (rewrite <- Eq, C; ring).
      apply Qabs_nonneg.
  - apply Qlt_alt in C. assert (Hp : 0 < - q') by lra.
    destruct (Qle_bool _ _); [exact I|]. cbv beta iota.
    pose proof (Qred_correct (- round_pos (- q'))) as Er.
    set (r := Qred (- round_pos (- q'))) in *. split.
    + destruct (representable_opp _ (round_pos_representable _ Hp))
        as (m & e & Hm & He & HD).
      exists m, e. split; [exact Hm|]. split; [exact He|].
      apply Qeq_trans with (1 := Er). exact HD.
    + intros D R.
      pose proof (round_pos_nearest (- q') (- D) Hp (representable_opp D R))
        as N.
      setoid_replace (r - q) with (- (round_pos (- q') - - q'))
        by (rewrite Er, <- Eq; ring).
      setoid_replace (D - q) with (- (- D - - q')) by (rewrite <- Eq; ring).
      rewrite !Qabs_opp. exact N.
  - apply Qgt_alt in C.
    destruct (Qle_bool _ _); [exact I|]. cbv beta iota.
    pose proof (Qred_correct (round_pos q')) as Er.
    set (r := Qred (round_pos q')) in *. split.
    + destruct (round_pos_representable _ C) as (m & e & Hm & He & HD).
      exists m, e. split; [exact Hm|]. split; [exact He|].
      apply Qeq_trans with (1 := Er). exact HD.
    + intros D R. pose proof (round_pos_nearest q' D C R) as N.
      setoid_replace (r - q) with (round_pos q' - q')
        by (rewrite Er, <- Eq; ring).
      setoid_replace (D - q) with (D - q') by (rewrite <- Eq; ring).
      exact N.
Qed.

(** ** Pill-radius inference *)

Lemma inferPillRadius_explicit (w h : number) (hasFill : bool) (r : number) :
  inferPillRadius w h hasFill (Some r) = Some r.
Proof. reflexivity. Qed.

Lemma inferPillRadius_none_iff (w h : number) (hasFill : bool) :
  inferPillRadius w h hasFill None = None <->
  hasFill = false \/ Num.leb h 28%Z = false
  \/ Num.geb w (Num.mul h (Num.literal (16 # 10))) = false.
Proof.
  unfold inferPillRadius. destruct hasFill; cbn [negb].
  - destruct (Num.leb h 28%Z); cbn [andb].
    + destruct (Num.geb w (Num.mul h (Num.literal (16 # 10)))).
      * split; [discriminate | intros [H | [H | H]]; discriminate].
      * split; auto.
    + split; auto.
  - split; auto.
Qed.

(** ** Property lookup in assembled objects *)

Lemma get_then_get {R} (k : string) (v : jsval) (found : jsval -> R) :
  get_then k v found = found (get k v).
Proof.
  destruct v; try reflexivity. simpl.
  induction props as [|[k' x] props IH]; simpl; [reflexivity|].
  destruct (String.eqb k k'); [reflexivity | exact IH].
Qed.

(** ** The normalizer's weight-to-style mapping *)

Lemma text_fontStyle_props_weight (N : string -> number) (input : jsval)
    (w : Q) :
  as_string (get "fontStyle" input) = None ->
  toNumber N (get "fontWeight" input) = Some (Finite w) ->
  text_fontStyle_props N input
  = [("fontStyle",
      JStr (if Qle_bool 700 w then "Bold"
            else if Qle_bool 600 w then "Semibold"
            else if Qle_bool 500 w then "Medium"
            else "Regular"))].
Proof.
  intros Hs Hw. unfold text_fontStyle_props. rewrite Hs, Hw. reflexivity.
Qed.

Lemma normalizeNode_text_fontStyle (N : string -> number) (input : jsval)
    (x y width height : number) (w : Q) :
  get "type" input = JStr "text" ->
  toNumber N (get "x" input) = Some x ->
  toNumber N (get "y" input) = Some y ->
  toNumber N (get "width" input) = Some width ->
  toNumber N (get "height" input) = Some height ->
  as_string (get "fontStyle" input) = None ->
  toNumber N (get "fontWeight" input) = Some (Finite w) ->
  exists props,
    normalizeNode N input = Some (JObj props)
    /\ get "type" (JObj props) = JStr "text"
    /\ get "fontStyle" (JObj props)
       = JStr (if Qle_bool 700 w then "Bold"
               else if Qle_bool 600 w then "Semibold"
               else if Qle_bool 500 w then "Medium"
               else "Regular").
Proof.
  intros Ht Hx Hy Hwd Hh Hs Hw.
  destruct input; try discriminate Ht.
  eexists. split; [|split].
  - cbn [normalizeNode truthy is_object andb negb].
    rewrite Ht, Hx, Hy, Hwd, Hh. cbn [allowed_type]. simpl String.eqb.
    cbn [orb]. reflexivity.
  - reflexivity.
  - rewrite (text_fontStyle_props_weight N _ _ Hs Hw).
    unfold copy_string, copy_number, opt_num.
    destruct (as_string (get "name" (JObj props)));
      destruct (toNumber N (get "opacity" (JObj props)));
      destruct (as_string (get "fontFamily" (JObj props)));
      reflexivity.
Qed.

(** C4, as amended: a text node that the normalizer keeps, with a numeric
    [fontWeight] and no [fontStyle] string, is given the style "Bold" from
    700 up, "Semibold" from 600, "Medium" from 500 and "Regular" below 500;
    so 700 yields "Bold" and 450 yields "Regular". *)
Theorem C4_weight_to_style (N : string -> number) (input : jsval)
    (x y width height : number) (w : Q) :
  get "type" input = JStr "text" ->
  toNumber N (get "x" input) = Some x ->
  toNumber N (get "y" input) = Some y ->
  toNumber N (get "width" input) = Some width ->
  toNumber N (get "height" input) = Some height ->
  as_string (get "fontStyle" input) = None ->
  toNumber N (get "fontWeight" input) = Some (Finite w) ->
  exists props style,
    normalizeNode N input = Some (JObj props)
    /\ get "type" (JObj props) = JStr "text"
    /\ get "fontStyle" (JObj props) = JStr style
    /\ ((700 <= w)%Q -> style = "Bold")
    /\ ((600 <= w)%Q -> (w < 700)%Q -> style = "Semibold")
    /\ ((500 <= w)%Q -> (w < 600)%Q -> style = "Medium")
    /\ ((w < 500)%Q -> style = "Regular").
Proof.
  intros Ht Hx Hy Hwd Hh Hs Hw.
  destruct (normalizeNode_text_fontStyle N input _ _ _ _ _ Ht Hx Hy Hwd Hh
              Hs Hw)
    as [props [Hn [Hty Hst]]].
  exists props. eexists. split; [exact Hn|]. split; [exact Hty|].
  split; [exact Hst|].
  destruct (Qle_bool 700 w) eqn:E7;
    [apply Qle_bool_iff in E7 | apply leb_Finite_false in E7];
  (destruct (Qle_bool 600 w) eqn:E6;
    [apply Qle_bool_iff in E6 | apply leb_Finite_false in E6]);
  (destruct (Qle_bool 500 w) eqn:E5;
    [apply Qle_bool_iff in E5 | apply leb_Finite_false in E5]);
  repeat split; intros; try reflexivity; exfalso; lra.
Qed.

Lemma C4_weight_to_style_witness :
  exists props style,
    normalizeNode digits_Number
      (JObj [("type", JStr "text"); ("x", JNum 0%Z); ("y", JNum 0%Z);
             ("width", JStr "120"); ("height", JNum 20%Z);
             ("text", JStr "Title"); ("fontWeight", JNum 450%Z)])
    = Some (JObj props)
    /\ get "type" (JObj props) = JStr "text"
    /\ get "fontStyle" (JObj props) = JStr style
    /\ ((700 <= 450)%Q -> style = "Bold")
    /\ ((600 <= 450)%Q -> (450 < 700)%Q -> style = "Semibold")
    /\ ((500 <= 450)%Q -> (450 < 600)%Q -> style = "Medium")
    /\ ((450 < 500)%Q -> style = "Regular").
Proof.
  apply (@C4_weight_to_style digits_Number _ 0%Z 0%Z 120%Z 20%Z 450%Q);
    reflexivity.
Defined.

(** C4 as stated fails at weight 450: the normalized style is "Regular",
    not "Medium". *)
Lemma C4_counterexample :
  ~ (exists props,
        normalizeNode digits_Number
          (JObj [("type", JStr "text"); ("x", JNum 0%Z); ("y", JNum 0%Z);
                 ("width", JNum 120%Z); ("height", JNum 20%Z);
                 ("text", JStr "Title"); ("fontWeight", JNum 450%Z)])
        = Some (JObj props)
        /\ get "fontStyle" (JObj props) = JStr "Medium").
Proof.
  intros [props [H1 H2]]. vm_compute in H1. injection H1 as H1. subst props.
  vm_compute in H2. discriminate H2.
Qed.

(** ** Coordinate resolution *)

Lemma aggregateScores_sums (nodes : list DesignNode)
    (ax ay w h : number) :
  aggregateScores nodes ax ay w h
  = (list_sum (map (fun n => relScore n w h) nodes),
     list_sum (map (fun n => absScore n ax ay w h) nodes)).
Proof.
  unfold aggregateScores.
  assert (G : forall acc,
             fold_left
               (fun acc node =>
                  (fst acc + relScore node w h,
                   snd acc + absScore node ax ay w h)%nat) nodes acc
             = (fst acc + list_sum (map (fun n => relScore n w h) nodes),
                snd acc
                + list_sum (map (fun n => absScore n ax ay w h) nodes))%nat).
  { induction nodes as [|n nodes IH]; intros [a b]; simpl.
    - f_equal; lia.
    - rewrite IH. simpl. f_equal; lia. }
  rewrite G. reflexivity.
Qed.

Lemma detectCoordinateMode_decided (nodes : list DesignNode)
    (ax ay w h : number) :
  decided (detectCoordinateMode nodes ax ay w h).
Proof.
  unfold detectCoordinateMode, decided.
  destruct (aggregateScores nodes ax ay w h) as [r a].
  destruct (r <? a)%nat; auto.
Qed.

Lemma detectCoordinateMode_absolute_iff (nodes : list DesignNode)
    (ax ay w h : number) :
  detectCoordinateMode nodes ax ay w h = "absolute"
  <-> (list_sum (map (fun n => relScore n w h) nodes)
       < list_sum (map (fun n => absScore n ax ay w h) nodes))%nat.
Proof.
  unfold detectCoordinateMode. rewrite aggregateScores_sums.
  destruct (Nat.ltb_spec (list_sum (map (fun n => relScore n w h) nodes))
              (list_sum (map (fun n => absScore n ax ay w h) nodes)));
    split; intro; try reflexivity; try discriminate; try assumption; lia.
Qed.

Lemma detectCoordinateMode_relative_iff (nodes : list DesignNode)
    (ax ay w h : number) :
  detectCoordinateMode nodes ax ay w h = "relative"
  <-> (list_sum (map (fun n => absScore n ax ay w h) nodes)
       <= list_sum (map (fun n => relScore n w h) nodes))%nat.
Proof.
  unfold detectCoordinateMode. rewrite aggregateScores_sums.
  destruct (Nat.ltb_spec (list_sum (map (fun n => relScore n w h) nodes))
              (list_sum (map (fun n => absScore n ax ay w h) nodes)));
    split; intro; try reflexivity; try discriminate; try assumption; lia.
Qed.

(** With a decided mode the choice never looks at the parent's origin. *)
Lemma chooseLocalPosition_decided (node : DesignNode) (ax ay w h : number)
    (mode : string) :
  decided mode ->
  chooseLocalPosition node ax ay w h mode
  = if (relScore node w h <? absScore node ax ay w h)%nat
    then absolute_point node ax ay
    else if (absScore node ax ay w h <? relScore node w h)%nat
    then relative_point node
    else if String.eqb mode "absolute" then absolute_point node ax ay
    else relative_point node.
Proof.
  intros [-> | ->]; unfold chooseLocalPosition; simpl String.eqb;
    reflexivity.
Qed.

(** ** Invariants of the host state along a computation *)

Lemma preserves_ret {A} (P : HostState -> Prop) (a : A) : preserves P (ret a).
Proof. intros st H. exact H. Qed.

Lemma preserves_throw {A} (P : HostState -> Prop) (e : string) :
  preserves P (@throw A e).
Proof. intros st H. exact H. Qed.

Lemma preserves_bind {A B} (P : HostState -> Prop) (m : M A) (f : A -> M B) :
  preserves P m -> (forall a, preserves P (f a)) -> preserves P (bind m f).
Proof.
  intros Hm Hf st H. unfold bind. specialize (Hm st H).
  destruct (m st) as [[a | e] st']; simpl in *.
  - apply Hf. exact Hm.
  - exact Hm.
Qed.

Lemma preserves_modify (P : HostState -> Prop) (f : HostState -> HostState) :
  (forall st, P st -> P (f st)) -> preserves P (modify f).
Proof. intros Hf st H. apply Hf. exact H. Qed.

Lemma preserves_for_each {A} (P : HostState -> Prop) (body : A -> M unit)
    (items : list A) :
  Forall (fun a => preserves P (body a)) items ->
  preserves P (for_each body items).
Proof.
  induction 1 as [|a items Ha _ IH]; simpl.
  - apply preserves_ret.
  - apply preserves_bind; [exact Ha | intros _; exact IH].
Qed.

Section modes_invariant.

Variable host : Host.

Lemma silent_preserves {A} (m : M A) : silent m -> preserves all_decided m.
Proof. intros H st Hst. unfold all_decided. rewrite H. exact Hst. Qed.

Lemma silent_bind {A B} (m : M A) (f : A -> M B) :
  silent m -> (forall a, silent (f a)) -> silent (bind m f).
Proof.
  intros Hm Hf st. unfold bind. specialize (Hm st).
  destruct (m st) as [[a | e] st']; simpl in *.
  - rewrite Hf. exact Hm.
  - exact Hm.
Qed.

Lemma silent_ret {A} (a : A) : silent (ret a).
Proof. intro st. reflexivity. Qed.

Lemma silent_throw {A} (e : string) : silent (@throw A e).
Proof. intro st. reflexivity. Qed.

Lemma silent_set (id : nat) (k : string) (v : HostValue) :
  silent (set id k v).
Proof. intro st. reflexivity. Qed.

Lemma silent_emit (e : Event) : silent (emit e).
Proof. intro st. reflexivity. Qed.

Lemma silent_create (kind : ObjKind) : silent (create kind).
Proof. intro st. reflexivity. Qed.

Lemma silent_resize (id : nat) (w h : number) : silent (resize id w h).
Proof. intro st. reflexivity. Qed.

Lemma silent_appendChild (parent child : nat) :
  silent (appendChild parent child).
Proof. intro st. reflexivity. Qed.

Lemma silent_loadFont (family style : string) :
  silent (loadFont host family style).
Proof.
  intro st. unfold loadFont.
  destruct (find _ (fontCache st)) as [[k b]|];
    [destruct b | destruct (loadFontAsync host family style)]; reflexivity.
Qed.

Lemma silent_apply_stroke (id : nat) (s : option RGBA) (w : option number) :
  silent (apply_stroke id s w).
Proof. destruct s, w; intro st; reflexivity. Qed.

Lemma silent_set_if_present (id : nat) (k : string) (v : option number) :
  silent (set_if_present id k v).
Proof. destruct v; intro st; reflexivity. Qed.

Lemma silent_base64ToBytes (b : string) : silent (base64ToBytes host b).
Proof.
  intro st. unfold base64ToBytes. destruct (decodeBase64 host b); reflexivity.
Qed.

Lemma silent_figma_createImage (b : string) :
  silent (figma_createImage host b).
Proof.
  intro st. unfold figma_createImage. destruct (createImage host b);
    reflexivity.
Qed.

Lemma silent_imagePaintFromNode (n : ImageNode) :
  silent (imagePaintFromNode host n).
Proof.
  unfold imagePaintFromNode.
  destruct (truthy_string (image_imageDataUrl n)).
  - destruct (match_data_url _) as [[mime payload]|]; [|apply silent_ret].
    apply silent_bind; [apply silent_base64ToBytes | intro bytes].
    apply silent_bind; [apply silent_figma_createImage | intro hash].
    apply silent_ret.
  - destruct (truthy_string (image_imageUrl n)); [|apply silent_ret].
    apply silent_bind; [apply silent_emit | intros _].
    destruct (fetch host _) as [|[|] [buf|]];
      try apply silent_throw; try apply silent_ret.
    apply silent_bind; [apply silent_figma_createImage | intro hash].
    apply silent_ret.
Qed.

Lemma note_mode_decided (mode : string) :
  decided mode -> preserves all_decided (note_mode mode).
Proof.
  intros Hm st Hst. unfold all_decided. simpl.
  apply Forall_app. split; [exact Hst | constructor; [exact Hm | constructor]].
Qed.

Ltac silent_step :=
  first
    [ apply silent_ret | apply silent_throw | apply silent_set
    | apply silent_emit | apply silent_create | apply silent_resize
    | apply silent_appendChild | apply silent_loadFont
    | apply silent_apply_stroke | apply silent_set_if_present
    | apply silent_imagePaintFromNode | apply silent_base64ToBytes
    | apply silent_figma_createImage
    | apply silent_bind; [|intro]
    | match goal with
      | |- silent (match ?e with _ => _ end) => destruct e
      end ].

Lemma renderNode_modes (node : DesignNode) :
  forall (parent : nat) (ax ay w h : number) (mode : string),
    decided mode ->
    preserves all_decided (renderNode host node parent ax ay w h mode).
Proof.
  induction node as [n | n | n | n cs IH | n | n] using DesignNode_nested_ind;
    intros parent ax ay w h mode Hm; cbn [renderNode];
    (apply preserves_bind; [apply note_mode_decided; exact Hm | intros _]).
  - apply silent_preserves. repeat silent_step.
  - apply silent_preserves. repeat silent_step.
  - apply silent_preserves. repeat silent_step.
  - apply preserves_bind; [apply silent_preserves; silent_step | intro f].
    repeat (apply preserves_bind;
            [apply silent_preserves; solve [repeat silent_step] | intros _]).
    apply preserves_for_each.
    apply Forall_forall. intros c Hc. rewrite Forall_forall in IH.
    apply IH; [exact Hc | apply detectCoordinateMode_decided].
  - apply silent_preserves. repeat silent_step.
  - apply silent_preserves. repeat silent_step.
Qed.

Lemma silent_normalizeScreenshot (shot : option Screenshot) :
  silent (normalizeScreenshot shot).
Proof.
  destruct shot as [s|]; [|apply silent_ret]. unfold normalizeScreenshot.
  repeat match goal with
         | |- silent (if ?e then _ else _) => destruct e
         end; first [apply silent_throw | apply silent_ret].
Qed.

Lemma renderToFigma_modes (spec : DesignSpec) (shot : option Screenshot) :
  preserves all_decided (renderToFigma host spec shot).
Proof.
  unfold renderToFigma.
  apply preserves_bind;
    [apply silent_preserves, silent_normalizeScreenshot | intro s].
  repeat (apply preserves_bind;
          [apply silent_preserves; solve [repeat silent_step] | intro]).
  apply preserves_bind.
  { apply preserves_for_each, Forall_forall. intros n _.
    apply renderNode_modes. left. reflexivity. }
  intros _.
  repeat (apply preserves_bind;
          [apply silent_preserves;
           first [solve [repeat silent_step] | intro st; reflexivity]
          | intro]).
  apply silent_preserves. silent_step.
Qed.

End modes_invariant.

(** C9: [detectCoordinateMode] answers "absolute" exactly when the summed
    absolute fit scores of the children strictly exceed the summed
    relative ones, and "relative" otherwise (an empty list and an exact
    tie included); every call of [chooseLocalPosition] made while
    rendering a spec therefore receives "relative" or "absolute", and with
    such a mode the choice is made without looking at the parent's
    origin. *)
Theorem C9_preferred_mode_is_always_decided :
  (forall (nodes : list DesignNode) (ax ay w h : number),
      (detectCoordinateMode nodes ax ay w h = "absolute"
       <-> (list_sum (map (fun n => relScore n w h) nodes)
            < list_sum (map (fun n => absScore n ax ay w h) nodes))%nat)
      /\ (detectCoordinateMode nodes ax ay w h = "relative"
          <-> (list_sum (map (fun n => absScore n ax ay w h) nodes)
               <= list_sum (map (fun n => relScore n w h) nodes))%nat))
  /\ (forall ax ay w h, detectCoordinateMode [] ax ay w h = "relative")
  /\ (forall (host : Host) (spec : DesignSpec) (shot : option Screenshot),
        Forall decided
          (modes (snd (renderToFigma host spec shot initial_state))))
  /\ (forall (node : DesignNode) (ax ay w h : number) (mode : string),
        decided mode ->
        chooseLocalPosition node ax ay w h mode
        = if (relScore node w h <? absScore node ax ay w h)%nat
          then absolute_point node ax ay
          else if (absScore node ax ay w h <? relScore node w h)%nat
          then relative_point node
          else if String.eqb mode "absolute" then absolute_point node ax ay
          else relative_point node).
Proof.
  split; [|split; [|split]].
  - intros. split.
    + apply detectCoordinateMode_absolute_iff.
    + apply detectCoordinateMode_relative_iff.
  - reflexivity.
  - intros host spec shot.
    apply renderToFigma_modes. constructor.
  - intros. apply chooseLocalPosition_decided. assumption.
Qed.

Lemma C9_preferred_mode_is_always_decided_witness :
  decided "absolute"
  /\ chooseLocalPosition tie_child 100%Z 100%Z 400%Z 300%Z "absolute"
     = absolute_point tie_child 100%Z 100%Z.
Proof.
  assert (H : decided "absolute") by (right; reflexivity).
  split; [exact H |].
  exact (proj2 (proj2 (proj2 C9_preferred_mode_is_always_decided))
           tie_child 100%Z 100%Z 400%Z 300%Z "absolute" H).
Defined.

(** C1: a defect of the code.  On an exact tie of a child's two fit scores
    the code uses the aggregate mode of the frame, as the design says: the
    child is placed at its absolute reading when the summed absolute scores
    of the frame's children strictly exceed the summed relative ones, and
    at its relative reading when the summed relative scores strictly
    exceed.  When the aggregate is itself tied, [detectCoordinateMode] has
    answered "relative" already, and the child is placed at its relative
    reading whatever the origin of the parent: the last lines of
    [chooseLocalPosition], which prefer the absolute reading under a parent
    that is not at the origin, are reached only with a mode that is neither
    "relative" nor "absolute", and [detectCoordinateMode] answers no such
    mode.  For the parent at (100,100) of size 400 x 300 and its only child
    (120,130,50,40) both readings score 4 and the last lines would give
    (20,30), as the design says; the child is placed, and rendered, at
    (120,130). *)
Theorem C1_aggregate_tie_ignores_parent_origin :
  (forall (children : list DesignNode) (c : DesignNode) (ax ay w h : number),
      In c children ->
      relScore c w h = absScore c ax ay w h ->
      ((list_sum (map (fun n => relScore n w h) children)
        < list_sum (map (fun n => absScore n ax ay w h) children))%nat ->
       chooseLocalPosition c ax ay w h
         (detectCoordinateMode children ax ay w h)
       = absolute_point c ax ay)
      /\ ((list_sum (map (fun n => absScore n ax ay w h) children)
           < list_sum (map (fun n => relScore n w h) children))%nat ->
          chooseLocalPosition c ax ay w h
            (detectCoordinateMode children ax ay w h)
          = relative_point c)
      /\ (list_sum (map (fun n => absScore n ax ay w h) children)
          = list_sum (map (fun n => relScore n w h) children) ->
          detectCoordinateMode children ax ay w h = "relative"
          /\ chooseLocalPosition c ax ay w h
               (detectCoordinateMode children ax ay w h)
             = relative_point c))
  /\ (forall (c : DesignNode) (ax ay w h : number) (mode : string),
        relScore c w h = absScore c ax ay w h ->
        ~ decided mode ->
        chooseLocalPosition c ax ay w h mode
        = if negb (Num.eqb ax 0%Z) || negb (Num.eqb ay 0%Z)
          then absolute_point c ax ay
          else relative_point c)
  /\ relScore tie_child 400%Z 300%Z = 4%nat
  /\ absScore tie_child 100%Z 100%Z 400%Z 300%Z = 4%nat
  /\ detectCoordinateMode [tie_child] 100%Z 100%Z 400%Z 300%Z = "relative"
  /\ chooseLocalPosition tie_child 100%Z 100%Z 400%Z 300%Z
       (detectCoordinateMode [tie_child] 100%Z 100%Z 400%Z 300%Z)
     = mkPoint 120%Z 130%Z
  /\ chooseLocalPosition tie_child 100%Z 100%Z 400%Z 300%Z ""
     = mkPoint 20%Z 30%Z
  /\ obj_position
       (snd (renderToFigma obliging_host
               (mkSpec (mkCanvas "Canvas" 1000%Z 1000%Z)
                  [frame_of [tie_child]])
               None initial_state))
       3
     = Some (HNum 120%Z, HNum 130%Z).
Proof.
  split; [|split; [|repeat split; vm_compute; reflexivity]].
  - intros children c ax ay w h _ Htie.
    assert (R : (list_sum (map (fun n => absScore n ax ay w h) children)
                 <= list_sum (map (fun n => relScore n w h) children))%nat ->
                detectCoordinateMode children ax ay w h = "relative"
                /\ chooseLocalPosition c ax ay w h
                     (detectCoordinateMode children ax ay w h)
                   = relative_point c).
    { intro Hsum. apply detectCoordinateMode_relative_iff in Hsum.
      split; [exact Hsum|]. rewrite Hsum. unfold chooseLocalPosition.
      rewrite Htie, Nat.ltb_irrefl. reflexivity. }
    split; [|split].
    + intro Hsum. apply detectCoordinateMode_absolute_iff in Hsum.
      rewrite Hsum. unfold chooseLocalPosition.
      rewrite Htie, Nat.ltb_irrefl. reflexivity.
    + intro Hsum. apply R. lia.
    + intro Hsum. apply R. lia.
  - intros c ax ay w h mode Htie Hmode. unfold chooseLocalPosition.
    rewrite Htie, Nat.ltb_irrefl.
    destruct (String.eqb_spec mode "absolute") as [E | _];
      [exfalso; apply Hmode; right; exact E|].
    destruct (String.eqb_spec mode "relative") as [E | _];
      [exfalso; apply Hmode; left; exact E|].
    reflexivity.
Qed.

Lemma C1_aggregate_tie_ignores_parent_origin_witness :
  In tie_child [tie_child]
  /\ relScore tie_child 400%Z 300%Z
     = absScore tie_child 100%Z 100%Z 400%Z 300%Z
  /\ list_sum (map (fun n => absScore n 100%Z 100%Z 400%Z 300%Z) [tie_child])
     = list_sum (map (fun n => relScore n 400%Z 300%Z) [tie_child])
  /\ detectCoordinateMode [tie_child] 100%Z 100%Z 400%Z 300%Z = "relative"
  /\ chooseLocalPosition tie_child 100%Z 100%Z 400%Z 300%Z
       (detectCoordinateMode [tie_child] 100%Z 100%Z 400%Z 300%Z)
     = relative_point tie_child.
Proof.
  assert (H1 : In tie_child [tie_child]) by (left; reflexivity).
  assert (H2 : relScore tie_child 400%Z 300%Z
               = absScore tie_child 100%Z 100%Z 400%Z 300%Z)
    by (vm_compute; reflexivity).
  assert (H3 : list_sum
                 (map (fun n => absScore n 100%Z 100%Z 400%Z 300%Z)
                    [tie_child])
               = list_sum (map (fun n => relScore n 400%Z 300%Z) [tie_child]))
    by (vm_compute; reflexivity).
  split; [exact H1 | split; [exact H2 | split; [exact H3 |]]].
  exact (proj2 (proj2 (proj1 C1_aggregate_tie_ignores_parent_origin
                         [tie_child] tie_child 100%Z 100%Z 400%Z 300%Z
                         H1 H2))
           H3).
Defined.

(** ** What a successful parse tells *)

Lemma result_bind_ok {A B} (m : result A) (k : A -> result B) (b : B) :
  result_bind m k = Ok b -> exists a, m = Ok a /\ k a = Ok b.
Proof. destruct m as [a|e]; simpl; [eauto | discriminate]. Qed.

Lemma z_number_ok (v : jsval) (n : number) :
  z_number v = Ok n -> v = JNum n /\ finite n = true.
Proof.
  destruct v; try discriminate. simpl. unfold finite.
  destruct (Num.isFinite n0) eqn:E; [|discriminate].
  intro H. injection H as <-. auto.
Qed.

Lemma z_refine_ok {A} (s : Schema A) (check : A -> bool) (msg : string)
    (v : jsval) (a : A) :
  z_refine s check msg v = Ok a -> s v = Ok a /\ check a = true.
Proof.
  unfold z_refine. intro H. apply result_bind_ok in H as [a' [H1 H2]].
  destruct (check a') eqn:E; [|discriminate]. injection H2 as <-. auto.
Qed.

Lemma z_optional_ok {A} (s : Schema A) (v : jsval) (o : option A) :
  z_optional s v = Ok o ->
  match o with
  | None => v = JUndefined
  | Some a => s v = Ok a
  end.
Proof.
  unfold z_optional, result_map, result_bind.
  destruct v; try (intro H; injection H as <-; reflexivity);
    destruct (s _) as [a|e]; try discriminate;
    intro H; injection H as <-; reflexivity.
Qed.

Lemma z_fraction_ok (v : jsval) (n : number) :
  z_max 1 (z_min 0 z_number) v = Ok n -> in_0_1 n = true.
Proof.
  intro H. apply z_refine_ok in H as [H Hmax].
  apply z_refine_ok in H as [H Hmin]. apply z_number_ok in H as [_ Hf].
  unfold in_0_1. rewrite Hf, Hmin, Hmax. reflexivity.
Qed.

Lemma z_nonneg_ok (v : jsval) (n : number) :
  z_min 0 z_number v = Ok n -> at_least_0 n = true.
Proof.
  intro H. apply z_refine_ok in H as [H Hmin]. apply z_number_ok in H as [_ Hf].
  unfold at_least_0. rewrite Hf, Hmin. reflexivity.
Qed.

Lemma z_positive_ok (v : jsval) (n : number) :
  z_positive z_number v = Ok n -> above_0 n = true.
Proof.
  intro H. apply z_refine_ok in H as [H Hpos]. apply z_number_ok in H as [_ Hf].
  unfold above_0. rewrite Hf, Hpos. reflexivity.
Qed.

Lemma z_optional_all {A} (s : Schema A) (p : A -> bool) (v : jsval)
    (o : option A) :
  (forall w a, s w = Ok a -> p a = true) ->
  z_optional s v = Ok o -> opt_all p o = true.
Proof.
  intros Hs H. apply z_optional_ok in H. destruct o as [a|]; [|reflexivity].
  exact (Hs _ _ H).
Qed.

Lemma z_object_ok {A} (shape : jsval -> result A) (v : jsval) (a : A) :
  z_object shape v = Ok a -> shape v = Ok a.
Proof. destruct v; try discriminate. auto. Qed.

(** Splits a successful chain of parses into its steps. *)
Ltac parse_steps H :=
  repeat match type of H with
         | result_bind _ _ = Ok _ =>
             let a := fresh "a" in
             let Ha := fresh "Ha" in
             apply result_bind_ok in H as [a [Ha H]]
         end.

Lemma ColorSchema_valid (v : jsval) (c : RGBA) :
  ColorSchema v = Ok c -> valid_color c = true.
Proof.
  intro H. apply z_object_ok in H. parse_steps H. injection H as <-.
  unfold valid_color. simpl.
  rewrite (z_fraction_ok _ _ Ha), (z_fraction_ok _ _ Ha0), (z_fraction_ok _ _ Ha1).
  rewrite (z_optional_all _ _ _ _ z_fraction_ok Ha2). reflexivity.
Qed.

Lemma NodeBaseSchema_valid (v : jsval) (b : NodeBase) :
  NodeBaseSchema v = Ok b -> valid_base b = true.
Proof.
  intro H. apply z_object_ok in H. parse_steps H. injection H as <-.
  unfold valid_base. simpl.
  apply z_number_ok in Ha0 as [_ ->]. apply z_number_ok in Ha1 as [_ ->].
  rewrite (z_positive_ok _ _ Ha2), (z_positive_ok _ _ Ha3).
  rewrite (z_optional_all _ _ _ _ z_fraction_ok Ha4). reflexivity.
Qed.

Lemma FramePaddingSchema_valid (v : jsval) (p : FramePadding) :
  FramePaddingSchema v = Ok p -> valid_padding p = true.
Proof.
  intro H. apply z_object_ok in H. parse_steps H. injection H as <-.
  unfold valid_padding. simpl.
  rewrite (z_optional_all _ _ _ _ z_nonneg_ok Ha), (z_optional_all _ _ _ _ z_nonneg_ok Ha0),
    (z_optional_all _ _ _ _ z_nonneg_ok Ha1), (z_optional_all _ _ _ _ z_nonneg_ok Ha2).
  reflexivity.
Qed.

Lemma RectNodeSchema_valid (v : jsval) (n : RectNode) :
  RectNodeSchema v = Ok n -> valid_node (Rect n) = true.
Proof.
  intro H. apply z_object_ok in H. parse_steps H. injection H as <-.
  simpl.
  rewrite (NodeBaseSchema_valid _ _ Ha).
  rewrite (z_optional_all _ _ _ _ ColorSchema_valid Ha1),
    (z_optional_all _ _ _ _ ColorSchema_valid Ha2),
    (z_optional_all _ _ _ _ z_nonneg_ok Ha3), (z_optional_all _ _ _ _ z_nonneg_ok Ha4).
  reflexivity.
Qed.

Lemma TextNodeSchema_valid (v : jsval) (n : TextNode) :
  TextNodeSchema v = Ok n -> valid_node (Text n) = true.
Proof.
  intro H. apply z_object_ok in H. parse_steps H. injection H as <-.
  simpl.
  rewrite (NodeBaseSchema_valid _ _ Ha).
  rewrite (z_optional_all _ _ _ _ z_positive_ok Ha4),
    (z_optional_all _ _ _ _ ColorSchema_valid Ha5).
  reflexivity.
Qed.

Lemma EllipseNodeSchema_valid (v : jsval) (n : EllipseNode) :
  EllipseNodeSchema v = Ok n -> valid_node (Ellipse n) = true.
Proof.
  intro H. apply z_object_ok in H. parse_steps H. injection H as <-.
  simpl.
  rewrite (NodeBaseSchema_valid _ _ Ha).
  rewrite (z_optional_all _ _ _ _ ColorSchema_valid Ha1),
    (z_optional_all _ _ _ _ ColorSchema_valid Ha2),
    (z_optional_all _ _ _ _ z_nonneg_ok Ha3).
  reflexivity.
Qed.

Lemma z_nonempty_ok (v : jsval) (s : string) :
  z_nonempty z_string v = Ok s -> negb (String.eqb s "") = true.
Proof. intro H. apply z_refine_ok in H as [_ H]. exact H. Qed.

Lemma z_startsWith_ok (p : string) (v : jsval) (s : string) :
  z_startsWith p z_string v = Ok s -> String.prefix p s = true.
Proof. intro H. apply z_refine_ok in H as [_ H]. exact H. Qed.

Lemma ImageNodeShape_valid (v : jsval) (n : ImageNode) :
  ImageNodeShape v = Ok n ->
  valid_base (image_base n) = true
  /\ opt_all (fun s => negb (String.eqb s "")) (image_imageUrl n) = true
  /\ opt_all (String.prefix "data:image/") (image_imageDataUrl n) = true
  /\ opt_all at_least_0 (image_cornerRadius n) = true
  /\ opt_all valid_color (image_stroke n) = true
  /\ opt_all at_least_0 (image_strokeWidth n) = true.
Proof.
  intro H. apply z_object_ok in H. parse_steps H. injection H as <-.
  simpl.
  rewrite (NodeBaseSchema_valid _ _ Ha).
  rewrite (z_optional_all _ _ _ _ z_nonempty_ok Ha1).
  rewrite (z_optional_all _ _ _ _ (z_startsWith_ok "data:image/") Ha2).
  rewrite (z_optional_all _ _ _ _ z_nonneg_ok Ha4),
    (z_optional_all _ _ _ _ ColorSchema_valid Ha5),
    (z_optional_all _ _ _ _ z_nonneg_ok Ha6).
  repeat split.
Qed.

Lemma ImageNodeSchema_valid (v : jsval) (n : ImageNode) :
  ImageNodeSchema v = Ok n -> valid_node (Image n) = true.
Proof.
  intro H. apply z_refine_ok in H as [H Hsrc].
  apply ImageNodeShape_valid in H as (H1 & H2 & H3 & H4 & H5 & H6).
  simpl. rewrite H1, H2, H3, H4, H5, H6, Hsrc. reflexivity.
Qed.

Lemma DesignNodeSchema_unfold (v : jsval) :
  DesignNodeSchema v
  = z_union [ (fun v => result_map Rect (RectNodeSchema v));
              (fun v => result_map Text (TextNodeSchema v));
              FrameNodeSchema DesignNodeSchema;
              (fun v => result_map Ellipse (EllipseNodeSchema v));
              (fun v => result_map Image (ImageNodeSchema v)) ] v.
Proof. destruct v; reflexivity. Qed.

Lemma first_match_ok {A} (v : jsval) (members : list (Schema A)) (a : A) :
  first_match v members = Ok a -> exists s, In s members /\ s v = Ok a.
Proof.
  induction members as [|s members IH]; simpl; [discriminate|].
  destruct (s v) as [a'|e] eqn:E.
  - intro H. injection H as <-. exists s. auto.
  - intro H. destruct (IH H) as [s' [Hin Hs]]. exists s'. auto.
Qed.

Lemma result_map_ok {A B} (f : A -> B) (m : result A) (b : B) :
  result_map f m = Ok b -> exists a, m = Ok a /\ b = f a.
Proof.
  unfold result_map. intro H. apply result_bind_ok in H as [a [H1 H2]].
  injection H2 as <-. eauto.
Qed.

Lemma each_ok {A} (s : Schema A) (items : list jsval) (l : list A) :
  each s items = Ok l -> Forall2 (fun v a => s v = Ok a) items l.
Proof.
  revert l. induction items as [|v items IH]; simpl; intros l H.
  - injection H as <-. constructor.
  - parse_steps H. injection H as <-. constructor; auto.
Qed.

Lemma z_default_array_ok {A} (s : Schema A) (v : jsval) (l : list A) :
  z_default [] (z_array s) v = Ok l ->
  (v = JUndefined /\ l = [])
  \/ exists items, v = JArr items /\ Forall2 (fun w a => s w = Ok a) items l.
Proof.
  destruct v; simpl; try discriminate.
  - intro H. injection H as <-. left. auto.
  - intro H. right. exists items. split; [reflexivity | apply each_ok, H].
Qed.

Lemma Forall2_In_r {A B} (R : A -> B -> Prop) (l : list A) (l' : list B)
    (b : B) :
  Forall2 R l l' -> In b l' -> exists a, In a l /\ R a b.
Proof.
  induction 1 as [|a b' l l' Hab _ IH]; simpl; [tauto|].
  intros [<- | Hin].
  - exists a. auto.
  - destruct (IH Hin) as [a' [H1 H2]]. exists a'. auto.
Qed.

(** A frame that parses: every part but the children is checked here, the
    children come from the array under [children] (none when absent). *)
Lemma FrameNodeSchema_ok (node : Schema DesignNode) (v : jsval)
    (d : DesignNode) :
  FrameNodeSchema node v = Ok d ->
  exists n cs,
    d = Frame n (Some cs)
    /\ valid_base (frame_base n) = true
    /\ is_some (frame_layoutMode n) = true
    /\ opt_all valid_padding (frame_padding n) = true
    /\ opt_all at_least_0 (frame_itemSpacing n) = true
    /\ opt_all valid_color (frame_fill n) = true
    /\ opt_all valid_color (frame_stroke n) = true
    /\ opt_all at_least_0 (frame_strokeWidth n) = true
    /\ opt_all at_least_0 (frame_cornerRadius n) = true
    /\ ((get "children" v = JUndefined /\ cs = [])
        \/ exists items,
             get "children" v = JArr items
             /\ Forall2 (fun w a => node w = Ok a) items cs).
Proof.
  intro H. apply z_object_ok in H. parse_steps H. injection H as <-.
  rewrite get_then_get in Ha8.
  eexists. eexists. split; [reflexivity|]. simpl.
  rewrite (NodeBaseSchema_valid _ _ Ha).
  rewrite (z_optional_all _ _ _ _ FramePaddingSchema_valid Ha2),
    (z_optional_all _ _ _ _ z_nonneg_ok Ha3),
    (z_optional_all _ _ _ _ ColorSchema_valid Ha4),
    (z_optional_all _ _ _ _ ColorSchema_valid Ha5),
    (z_optional_all _ _ _ _ z_nonneg_ok Ha6),
    (z_optional_all _ _ _ _ z_nonneg_ok Ha7).
  repeat (split; [reflexivity|]).
  apply z_default_array_ok. exact Ha8.
Qed.

(** Which member of the union accepted a node. *)
Lemma DesignNodeSchema_ok (v : jsval) (d : DesignNode) :
  DesignNodeSchema v = Ok d ->
  (exists n, d = Rect n /\ RectNodeSchema v = Ok n)
  \/ (exists n, d = Text n /\ TextNodeSchema v = Ok n)
  \/ FrameNodeSchema DesignNodeSchema v = Ok d
  \/ (exists n, d = Ellipse n /\ EllipseNodeSchema v = Ok n)
  \/ (exists n, d = Image n /\ ImageNodeSchema v = Ok n).
Proof.
  rewrite DesignNodeSchema_unfold. unfold z_union. intro H.
  apply first_match_ok in H as [s [Hin Hs]].
  simpl in Hin.
  destruct Hin as [<- | [<- | [<- | [<- | [<- | []]]]]].
  - apply result_map_ok in Hs as [n [H1 H2]]. left. eauto.
  - apply result_map_ok in Hs as [n [H1 H2]]. right. left. eauto.
  - right. right. left. exact Hs.
  - apply result_map_ok in Hs as [n [H1 H2]]. right. right. right. left. eauto.
  - apply result_map_ok in Hs as [n [H1 H2]]. right. right. right. right. eauto.
Qed.

(** Every node the validator returns passes the checks of the schemas,
    and so does every node below it. *)
Lemma DesignNodeSchema_valid (d : DesignNode) :
  forall v, DesignNodeSchema v = Ok d -> valid_node d = true.
Proof.
  induction d as [n | n | n | n cs IH | n | n] using DesignNode_nested_ind;
    intros v H; apply DesignNodeSchema_ok in H;
    destruct H as [[m [E H]] | [[m [E H]] | [H | [[m [E H]] | [m [E H]]]]]];
    try discriminate E;
    try (apply FrameNodeSchema_ok in H as (m & cs' & E & _); discriminate E).
  - injection E as <-. apply (RectNodeSchema_valid _ _ H).
  - injection E as <-. apply (TextNodeSchema_valid _ _ H).
  - apply FrameNodeSchema_ok in H
      as (m & cs' & E & H1 & H2 & H3 & H4 & H5 & H6 & H7 & H8 & Hc).
    injection E as <- <-.
    cbn [valid_node]. rewrite H1, H2, H3, H4, H5, H6, H7, H8. simpl.
    apply forallb_forall. intros c Hin.
    destruct Hc as [[_ ->] | [items [_ Hall]]]; [destruct Hin|].
    rewrite Forall_forall in IH.
    destruct (Forall2_In_r _ _ _ c Hall Hin) as [w [_ Hw]].
    exact (IH c Hin w Hw).
  - injection E as <-. apply (EllipseNodeSchema_valid _ _ H).
  - injection E as <-. apply (ImageNodeSchema_valid _ _ H).
Qed.

Lemma CanvasSchema_valid (v : jsval) (c : Canvas) :
  CanvasSchema v = Ok c ->
  above_0 (canvas_width c) = true /\ above_0 (canvas_height c) = true.
Proof.
  intro H. apply z_object_ok in H. parse_steps H. injection H as <-. simpl.
  split; [apply (z_positive_ok _ _ Ha0) | apply (z_positive_ok _ _ Ha1)].
Qed.

Lemma DesignSpecSchema_valid (v : jsval) (s : DesignSpec) :
  DesignSpecSchema v = Ok s -> valid_spec s = true.
Proof.
  intro H. apply z_object_ok in H. parse_steps H. injection H as <-.
  unfold valid_spec. simpl.
  destruct (CanvasSchema_valid _ _ Ha) as [-> ->]. simpl.
  apply forallb_forall. intros d Hin.
  apply z_default_array_ok in Ha0 as [[_ ->] | [items [_ Hall]]];
    [destruct Hin|].
  destruct (Forall2_In_r _ _ _ d Hall Hin) as [w [_ Hw]].
  exact (DesignNodeSchema_valid d w Hw).
Qed.

Lemma valid_subtree (d : DesignNode) :
  valid_node d = true ->
  forall m, In m (subtree d) -> valid_node m = true.
Proof.
  induction d as [n | n | n | n cs IH | n | n] using DesignNode_nested_ind;
    intros Hv m Hin; simpl in Hin;
    try (destruct Hin as [<- | []]; exact Hv).
  destruct Hin as [<- | Hin]; [exact Hv|].
  apply in_flat_map in Hin as [c [Hc Hm]].
  rewrite Forall_forall in IH. apply (IH c Hc); [|exact Hm].
  cbn [valid_node] in Hv. rewrite !andb_true_iff in Hv.
  destruct Hv as [_ Hcs]. rewrite forallb_forall in Hcs. apply Hcs, Hc.
Qed.

Lemma valid_all_nodes (s : DesignSpec) :
  valid_spec s = true ->
  forall m, In m (all_nodes s) -> valid_node m = true.
Proof.
  unfold valid_spec, all_nodes. rewrite !andb_true_iff.
  intros [_ Hn] m Hin. apply in_flat_map in Hin as [d [Hd Hm]].
  rewrite forallb_forall in Hn. exact (valid_subtree d (Hn d Hd) m Hm).
Qed.

Lemma valid_node_base (d : DesignNode) :
  valid_node d = true -> valid_base (node_base d) = true.
Proof.
  destruct d as [n | n | n cs | n | n]; cbn [valid_node node_base];
    rewrite ?andb_true_iff; tauto.
Qed.

Lemma valid_node_colors (d : DesignNode) (c : RGBA) :
  valid_node d = true -> In c (node_colors d) -> valid_color c = true.
Proof.
  destruct d as [n | n | n cs | n | n];
    cbn [valid_node node_colors]; rewrite ?andb_true_iff; intros Hv Hin;
    repeat match goal with
           | H : _ /\ _ |- _ => destruct H
           end;
    rewrite ?in_app_iff in Hin;
    repeat match goal with
           | H : In _ (opt_list ?o) |- _ =>
               destruct o; simpl in H; [destruct H as [<- | []] | destruct H]
           | H : _ \/ _ |- _ => destruct H
           end;
    assumption.
Qed.

Lemma finite_is_finite (n : number) : finite n = true -> is_finite n.
Proof. destruct n; try discriminate. intros _. eexists. reflexivity. Qed.

Lemma above_0_positive (n : number) :
  above_0 n = true -> strictly_positive n.
Proof.
  unfold above_0. destruct n as [q | | |]; try discriminate. simpl finite.
  cbn [andb]. intro H. exists q. split; [reflexivity|].
  apply (proj1 (gtb_Finite q 0)). exact H.
Qed.

Lemma in_0_1_unit_interval (n : number) :
  in_0_1 n = true -> unit_interval n.
Proof.
  unfold in_0_1. destruct n as [q | | |]; try discriminate. simpl finite.
  cbn [andb]. rewrite andb_true_iff. intros [H0 H1]. exists q.
  split; [reflexivity|]. split.
  - apply (proj1 (geb_Finite q 0)). exact H0.
  - apply (proj1 (leb_Finite q 1)). exact H1.
Qed.

Lemma valid_color_channels (c : RGBA) (ch : number) :
  valid_color c = true -> In ch (color_channels c) -> unit_interval ch.
Proof.
  unfold valid_color, color_channels. rewrite !andb_true_iff.
  intros [[[Hr Hg] Hb] Ha] Hin. simpl in Hin.
  destruct Hin as [<- | [<- | [<- | Hin]]];
    try (apply in_0_1_unit_interval; assumption).
  destruct (c_a c) as [a|]; simpl in Hin; [|destruct Hin].
  destruct Hin as [<- | []]. apply in_0_1_unit_interval. exact Ha.
Qed.

(** The base fields come from the properties of the same names. *)
Lemma NodeBaseSchema_fields (v : jsval) (b : NodeBase) :
  NodeBaseSchema v = Ok b ->
  get "x" v = JNum (base_x b) /\ get "y" v = JNum (base_y b)
  /\ get "width" v = JNum (base_width b)
  /\ get "height" v = JNum (base_height b).
Proof.
  intro H. apply z_object_ok in H. parse_steps H. injection H as <-. simpl.
  apply z_number_ok in Ha0 as [-> _]. apply z_number_ok in Ha1 as [-> _].
  apply z_refine_ok in Ha2 as [Ha2 _]. apply z_number_ok in Ha2 as [-> _].
  apply z_refine_ok in Ha3 as [Ha3 _]. apply z_number_ok in Ha3 as [-> _].
  auto.
Qed.

Lemma z_literal_ok (l : string) (v : jsval) (u : unit) :
  z_literal l v = Ok u -> v = JStr l.
Proof.
  destruct v; try discriminate. simpl.
  destruct (String.eqb s l) eqn:E; [|discriminate].
  apply String.eqb_eq in E. subst. reflexivity.
Qed.

(** An accepted node has the base fields and the tag of its input. *)
Lemma DesignNodeSchema_base (v : jsval) (d : DesignNode) :
  DesignNodeSchema v = Ok d ->
  NodeBaseSchema v = Ok (node_base d) /\ get "type" v = JStr (node_type d).
Proof.
  intro H. apply DesignNodeSchema_ok in H.
  destruct H as [[m [-> H]] | [[m [-> H]] | [H | [[m [-> H]] | [m [-> H]]]]]].
  - apply z_object_ok in H. parse_steps H. injection H as <-. simpl.
    split; [exact Ha | exact (z_literal_ok _ _ _ Ha0)].
  - apply z_object_ok in H. parse_steps H. injection H as <-. simpl.
    split; [exact Ha | exact (z_literal_ok _ _ _ Ha0)].
  - apply z_object_ok in H. parse_steps H. injection H as <-. simpl.
    split; [exact Ha | exact (z_literal_ok _ _ _ Ha0)].
  - apply z_object_ok in H. parse_steps H. injection H as <-. simpl.
    split; [exact Ha | exact (z_literal_ok _ _ _ Ha0)].
  - apply z_refine_ok in H as [H _].
    apply z_object_ok in H. parse_steps H. injection H as <-. simpl.
    split; [exact Ha | exact (z_literal_ok _ _ _ Ha0)].
Qed.

Lemma node_type_five (d : DesignNode) :
  In (node_type d) ["rect"; "text"; "frame"; "ellipse"; "image"].
Proof. destruct d; simpl; auto 6. Qed.

(** C7: every node of a validated spec carries one of the five tags, finite
    x, y, width and height with width and height strictly positive, an
    opacity and colour channels within [0,1]; the tag is the one the input
    carried; and a node whose width or height is zero or negative is
    rejected. *)
Theorem C7_validated_nodes_are_well_formed :
  (forall (v : jsval) (s : DesignSpec),
      DesignSpecSchema v = Ok s ->
      forall n, In n (all_nodes s) ->
        In (node_type n) ["rect"; "text"; "frame"; "ellipse"; "image"]
        /\ is_finite (node_x n) /\ is_finite (node_y n)
        /\ strictly_positive (node_width n)
        /\ strictly_positive (node_height n)
        /\ (forall o, base_opacity (node_base n) = Some o -> unit_interval o)
        /\ (forall c ch, In c (node_colors n) -> In ch (color_channels c) ->
                         unit_interval ch))
  /\ (forall (v : jsval) (n : DesignNode),
        DesignNodeSchema v = Ok n -> get "type" v = JStr (node_type n))
  /\ (forall (v : jsval) (w : Q),
        get "width" v = JNum (Finite w) \/ get "height" v = JNum (Finite w) ->
        (w <= 0)%Q ->
        exists reason, DesignNodeSchema v = SchemaViolation reason).
Proof.
  split; [|split].
  - intros v s H n Hin.
    pose proof (valid_all_nodes s (DesignSpecSchema_valid v s H) n Hin) as Hv.
    pose proof (valid_node_base n Hv) as Hb.
    unfold valid_base in Hb. rewrite !andb_true_iff in Hb.
    destruct Hb as [[[[Hx Hy] Hw] Hh] Ho].
    split; [apply node_type_five|].
    split; [apply finite_is_finite, Hx|].
    split; [apply finite_is_finite, Hy|].
    split; [apply above_0_positive, Hw|].
    split; [apply above_0_positive, Hh|].
    split.
    + intros o Eo. rewrite Eo in Ho. apply in_0_1_unit_interval, Ho.
    + intros c ch Hc Hch.
      exact (valid_color_channels c ch (valid_node_colors n c Hv Hc) Hch).
  - intros v n H. apply (DesignNodeSchema_base v n H).
  - intros v w Hdim Hw.
    destruct (DesignNodeSchema v) as [n|reason] eqn:E; [|eauto].
    exfalso.
    destruct (DesignNodeSchema_base v n E) as [Hb _].
    pose proof (NodeBaseSchema_valid _ _ Hb) as Hv.
    apply NodeBaseSchema_fields in Hb as (_ & _ & Hwd & Hht).
    unfold valid_base in Hv. rewrite !andb_true_iff in Hv.
    destruct Hv as [[[_ Hpw] Hph] _].
    destruct Hdim as [Hd | Hd]; rewrite Hd in *.
    + injection Hwd as Hwd. rewrite <- Hwd in Hpw.
      apply above_0_positive in Hpw as [q [Eq Hq]]. injection Eq as <-. lra.
    + injection Hht as Hht. rewrite <- Hht in Hph.
      apply above_0_positive in Hph as [q [Eq Hq]]. injection Eq as <-. lra.
Qed.

(** ** Validating a typed tree again *)

Lemma z_number_js (n : number) : finite n = true -> z_number (JNum n) = Ok n.
Proof. unfold finite. simpl. intros ->. reflexivity. Qed.

Lemma z_fraction_js (n : number) :
  in_0_1 n = true -> z_max 1 (z_min 0 z_number) (JNum n) = Ok n.
Proof.
  unfold in_0_1. rewrite !andb_true_iff. intros [[Hf H0] H1].
  unfold z_max, z_min, z_refine. rewrite (z_number_js n Hf).
  cbn [result_bind]. rewrite H0. cbn [result_bind]. rewrite H1. reflexivity.
Qed.

Lemma z_nonneg_js (n : number) :
  at_least_0 n = true -> z_min 0 z_number (JNum n) = Ok n.
Proof.
  unfold at_least_0. rewrite !andb_true_iff. intros [Hf H0].
  unfold z_min, z_refine. rewrite (z_number_js n Hf).
  cbn [result_bind]. rewrite H0. reflexivity.
Qed.

Lemma z_positive_js (n : number) :
  above_0 n = true -> z_positive z_number (JNum n) = Ok n.
Proof.
  unfold above_0. rewrite !andb_true_iff. intros [Hf H0].
  unfold z_positive, z_refine. rewrite (z_number_js n Hf).
  cbn [result_bind]. rewrite H0. reflexivity.
Qed.

Lemma z_optional_js {A} (s : Schema A) (f : A -> jsval) (p : A -> bool)
    (o : option A) :
  (forall a, p a = true -> s (f a) = Ok a) ->
  (forall a, f a <> JUndefined) ->
  opt_all p o = true ->
  z_optional s (js_opt f o) = Ok o.
Proof.
  intros Hs Hf Ho. destruct o as [a|]; simpl; [|reflexivity].
  unfold z_optional. specialize (Hs a Ho). specialize (Hf a).
  destruct (f a); try congruence; rewrite Hs; reflexivity.
Qed.

Lemma JNum_defined (n : number) : JNum n <> JUndefined.
Proof. discriminate. Qed.

Lemma JStr_defined (s : string) : JStr s <> JUndefined.
Proof. discriminate. Qed.

Lemma ColorSchema_js (c : RGBA) :
  valid_color c = true -> ColorSchema (js_color c) = Ok c.
Proof.
  unfold valid_color. rewrite !andb_true_iff. intros [[[Hr Hg] Hb] Ha].
  unfold ColorSchema, js_color, z_object.
  cbn [get with_prop String.eqb Ascii.eqb Bool.eqb].
  rewrite (z_fraction_js _ Hr), (z_fraction_js _ Hg), (z_fraction_js _ Hb).
  rewrite (z_optional_js _ JNum in_0_1 _ z_fraction_js JNum_defined Ha).
  destruct c; reflexivity.
Qed.

Ltac read_props :=
  cbn [get with_prop String.eqb Ascii.eqb Bool.eqb js_base app].

Lemma NodeBaseSchema_js (b : NodeBase) (rest : list (string * jsval)) :
  valid_base b = true -> NodeBaseSchema (JObj (js_base b ++ rest)) = Ok b.
Proof.
  unfold valid_base. rewrite !andb_true_iff.
  intros [[[[Hx Hy] Hw] Hh] Ho].
  unfold NodeBaseSchema, z_object. read_props.
  rewrite (z_optional_js z_string JStr (fun _ => true) (base_name b)
             (fun a _ => eq_refl) JStr_defined)
    by (destruct (base_name b); reflexivity).
  rewrite (z_number_js _ Hx), (z_number_js _ Hy).
  rewrite (z_positive_js _ Hw), (z_positive_js _ Hh).
  rewrite (z_optional_js _ JNum in_0_1 _ z_fraction_js JNum_defined Ho).
  destruct b; reflexivity.
Qed.

Lemma FramePaddingSchema_js (p : FramePadding) :
  valid_padding p = true -> FramePaddingSchema (js_padding p) = Ok p.
Proof.
  unfold valid_padding. rewrite !andb_true_iff. intros [[[Ht Hr] Hb] Hl].
  unfold FramePaddingSchema, js_padding, z_object. read_props.
  rewrite !(z_optional_js _ JNum at_least_0 _ z_nonneg_js JNum_defined)
    by assumption.
  destruct p; reflexivity.
Qed.

Lemma js_color_defined (c : RGBA) : js_color c <> JUndefined.
Proof. discriminate. Qed.

Lemma js_padding_defined (p : FramePadding) : js_padding p <> JUndefined.
Proof. discriminate. Qed.

Lemma z_optional_color_js (o : option RGBA) :
  opt_all valid_color o = true ->
  z_optional ColorSchema (js_opt js_color o) = Ok o.
Proof.
  apply (z_optional_js ColorSchema js_color valid_color o ColorSchema_js
           js_color_defined).
Qed.

Lemma z_optional_nonneg_js (o : option number) :
  opt_all at_least_0 o = true ->
  z_optional (z_min 0 z_number) (js_opt JNum o) = Ok o.
Proof.
  apply (z_optional_js _ JNum at_least_0 o z_nonneg_js JNum_defined).
Qed.

Lemma z_optional_string_js (o : option string) :
  z_optional z_string (js_opt JStr o) = Ok o.
Proof. destruct o; reflexivity. Qed.

Lemma z_enum_js {A} (table : list (string * A)) (name : A -> string)
    (o : option A) :
  (forall a, lookup_enum table (name a) = Ok a) ->
  z_optional (z_enum table) (js_opt (fun a => JStr (name a)) o) = Ok o.
Proof.
  intro H. destruct o as [a|]; simpl; [|reflexivity].
  unfold result_map. rewrite H. reflexivity.
Qed.

Lemma AlignHorizontal_lookup (a : AlignHorizontal) :
  lookup_enum AlignHorizontal_members (AlignHorizontal_name a) = Ok a.
Proof. destruct a; reflexivity. Qed.

Lemma LayoutMode_lookup (m : LayoutMode) :
  lookup_enum LayoutMode_members (LayoutMode_name m) = Ok m.
Proof. destruct m; reflexivity. Qed.

Lemma ScaleMode_lookup (m : ScaleMode) :
  lookup_enum ScaleMode_members (ScaleMode_name m) = Ok m.
Proof. destruct m; reflexivity. Qed.

Lemma RectNodeSchema_js (n : RectNode) :
  valid_node (Rect n) = true -> RectNodeSchema (to_js (Rect n)) = Ok n.
Proof.
  cbn [valid_node]. rewrite !andb_true_iff.
  intros [[[[Hb Hf] Hs] Hw] Hc].
  unfold RectNodeSchema, to_js, z_object.
  rewrite (NodeBaseSchema_js _ _ Hb). read_props. cbn [result_bind z_literal].
  simpl String.eqb. cbn iota.
  rewrite (z_optional_color_js _ Hf), (z_optional_color_js _ Hs).
  rewrite (z_optional_nonneg_js _ Hw), (z_optional_nonneg_js _ Hc).
  destruct n; reflexivity.
Qed.

Lemma TextNodeSchema_js (n : TextNode) :
  valid_node (Text n) = true -> TextNodeSchema (to_js (Text n)) = Ok n.
Proof.
  cbn [valid_node]. rewrite !andb_true_iff.
  intros [[Hb Hs] Hf].
  unfold TextNodeSchema, to_js, z_object.
  rewrite (NodeBaseSchema_js _ _ Hb). read_props. cbn [result_bind z_literal].
  simpl String.eqb. cbn iota. cbn [z_string result_bind].
  rewrite !z_optional_string_js.
  rewrite (z_optional_js _ JNum above_0 _ z_positive_js JNum_defined Hs).
  rewrite (z_optional_color_js _ Hf).
  rewrite (z_enum_js _ _ _ AlignHorizontal_lookup).
  destruct n; reflexivity.
Qed.

Lemma EllipseNodeSchema_js (n : EllipseNode) :
  valid_node (Ellipse n) = true ->
  EllipseNodeSchema (to_js (Ellipse n)) = Ok n.
Proof.
  cbn [valid_node]. rewrite !andb_true_iff.
  intros [[[Hb Hf] Hs] Hw].
  unfold EllipseNodeSchema, to_js, z_object.
  rewrite (NodeBaseSchema_js _ _ Hb). read_props. cbn [result_bind z_literal].
  simpl String.eqb. cbn iota.
  rewrite (z_optional_color_js _ Hf), (z_optional_color_js _ Hs).
  rewrite (z_optional_nonneg_js _ Hw).
  destruct n; reflexivity.
Qed.

Lemma z_nonempty_js (s : string) :
  negb (String.eqb s "") = true -> z_nonempty z_string (JStr s) = Ok s.
Proof. intro H. unfold z_nonempty, z_refine. simpl. rewrite H. reflexivity. Qed.

Lemma z_startsWith_js (p s : string) :
  String.prefix p s = true -> z_startsWith p z_string (JStr s) = Ok s.
Proof.
  intro H. unfold z_startsWith, z_refine. simpl. rewrite H. reflexivity.
Qed.

Lemma ImageNodeSchema_js (n : ImageNode) :
  valid_node (Image n) = true -> ImageNodeSchema (to_js (Image n)) = Ok n.
Proof.
  cbn [valid_node]. rewrite !andb_true_iff.
  intros [[[[[[Hb Hu] Hd] Hc] Hs] Hw] Hsrc].
  unfold ImageNodeSchema, z_refine, ImageNodeShape, to_js, z_object.
  rewrite (NodeBaseSchema_js _ _ Hb). read_props. cbn [result_bind z_literal].
  simpl String.eqb. cbn iota.
  rewrite (z_optional_js _ JStr _ _ z_nonempty_js JStr_defined Hu).
  rewrite (z_optional_js _ JStr _ _ (z_startsWith_js "data:image/")
             JStr_defined Hd).
  rewrite (z_enum_js _ _ _ ScaleMode_lookup).
  rewrite (z_optional_nonneg_js _ Hc), (z_optional_color_js _ Hs),
    (z_optional_nonneg_js _ Hw).
  cbn [result_bind image_imageUrl image_imageDataUrl].
  rewrite Hsrc.
  destruct n; reflexivity.
Qed.

Lemma each_map_js {A} (s : Schema A) (f : A -> jsval) (l : list A) :
  Forall (fun a => s (f a) = Ok a) l -> each s (map f l) = Ok l.
Proof.
  induction 1 as [|a l Ha _ IH]; simpl; [reflexivity|].
  rewrite Ha. cbn [result_bind]. rewrite IH. reflexivity.
Qed.

Lemma FrameNodeSchema_js (node : Schema DesignNode) (n : FrameProps)
    (cs : list DesignNode) :
  valid_node (Frame n (Some cs)) = true ->
  Forall (fun c => node (to_js c) = Ok c) cs ->
  FrameNodeSchema node (to_js (Frame n (Some cs))) = Ok (Frame n (Some cs)).
Proof.
  cbn [valid_node]. rewrite !andb_true_iff.
  intros [[[[[[[[Hb Hm] Hp] Hi] Hf] Hs] Hw] Hc] _] Hcs.
  unfold FrameNodeSchema, z_object. cbn [to_js].
  rewrite get_then_get.
  rewrite (NodeBaseSchema_js _ _ Hb). read_props. cbn [result_bind z_literal].
  simpl String.eqb. cbn iota.
  destruct n as [b m p i f s w c]. cbn [frame_base frame_layoutMode
    frame_padding frame_itemSpacing frame_fill frame_stroke frame_strokeWidth
    frame_cornerRadius] in *.
  destruct m as [m|]; [|discriminate Hm].
  cbn [js_opt z_default]. unfold z_enum. rewrite LayoutMode_lookup.
  cbn [result_bind].
  rewrite (z_optional_js _ js_padding valid_padding _ FramePaddingSchema_js
             js_padding_defined Hp).
  rewrite (z_optional_nonneg_js _ Hi).
  rewrite (z_optional_color_js _ Hf), (z_optional_color_js _ Hs).
  rewrite (z_optional_nonneg_js _ Hw), (z_optional_nonneg_js _ Hc).
  cbn [result_bind z_array]. rewrite (each_map_js _ _ _ Hcs).
  reflexivity.
Qed.

(** A member of the union rejects the value of a node of another kind. *)
Lemma to_js_shape (d : DesignNode) :
  exists rest,
    to_js d
    = JObj (js_base (node_base d) ++ ("type", JStr (node_type d)) :: rest).
Proof. destruct d as [n | n | n cs | n | n]; eexists; reflexivity. Qed.

Lemma RectNodeSchema_other (d : DesignNode) :
  valid_base (node_base d) = true -> node_type d <> "rect" ->
  exists e, RectNodeSchema (to_js d) = SchemaViolation e.
Proof.
  intros Hb Ht. destruct (to_js_shape d) as [rest ->].
  unfold RectNodeSchema, z_object. rewrite (NodeBaseSchema_js _ _ Hb).
  read_props. cbn [result_bind z_literal].
  apply String.eqb_neq in Ht. rewrite Ht. eexists. reflexivity.
Qed.

Lemma TextNodeSchema_other (d : DesignNode) :
  valid_base (node_base d) = true -> node_type d <> "text" ->
  exists e, TextNodeSchema (to_js d) = SchemaViolation e.
Proof.
  intros Hb Ht. destruct (to_js_shape d) as [rest ->].
  unfold TextNodeSchema, z_object. rewrite (NodeBaseSchema_js _ _ Hb).
  read_props. cbn [result_bind z_literal].
  apply String.eqb_neq in Ht. rewrite Ht. eexists. reflexivity.
Qed.

Lemma FrameNodeSchema_other (node : Schema DesignNode) (d : DesignNode) :
  valid_base (node_base d) = true -> node_type d <> "frame" ->
  exists e, FrameNodeSchema node (to_js d) = SchemaViolation e.
Proof.
  intros Hb Ht. destruct (to_js_shape d) as [rest ->].
  unfold FrameNodeSchema, z_object. rewrite (NodeBaseSchema_js _ _ Hb).
  read_props. cbn [result_bind z_literal].
  apply String.eqb_neq in Ht. rewrite Ht. eexists. reflexivity.
Qed.

Lemma EllipseNodeSchema_other (d : DesignNode) :
  valid_base (node_base d) = true -> node_type d <> "ellipse" ->
  exists e, EllipseNodeSchema (to_js d) = SchemaViolation e.
Proof.
  intros Hb Ht. destruct (to_js_shape d) as [rest ->].
  unfold EllipseNodeSchema, z_object. rewrite (NodeBaseSchema_js _ _ Hb).
  read_props. cbn [result_bind z_literal].
  apply String.eqb_neq in Ht. rewrite Ht. eexists. reflexivity.
Qed.

(** Validating the value of a valid tree gives the tree back. *)
Lemma DesignNodeSchema_js (d : DesignNode) :
  valid_node d = true -> DesignNodeSchema (to_js d) = Ok d.
Proof.
  induction d as [n | n | n | n cs IH | n | n] using DesignNode_nested_ind;
    intro Hv; pose proof (valid_node_base _ Hv) as Hb;
    rewrite DesignNodeSchema_unfold; unfold z_union; cbn [first_match].
  - rewrite (RectNodeSchema_js _ Hv). reflexivity.
  - destruct (RectNodeSchema_other (Text n) Hb) as [e ->]; [discriminate|].
    cbn [result_map result_bind].
    rewrite (TextNodeSchema_js _ Hv). reflexivity.
  - cbn [valid_node] in Hv. rewrite !andb_true_iff in Hv.
    destruct Hv as [_ Hv]. discriminate Hv.
  - destruct (RectNodeSchema_other (Frame n (Some cs)) Hb) as [e ->];
      [discriminate|].
    destruct (TextNodeSchema_other (Frame n (Some cs)) Hb) as [e' ->];
      [discriminate|].
    cbn [result_map result_bind].
    rewrite FrameNodeSchema_js; [reflexivity | exact Hv |].
    cbn [valid_node] in Hv. rewrite !andb_true_iff in Hv.
    destruct Hv as [_ Hcs]. rewrite forallb_forall in Hcs.
    rewrite Forall_forall in IH |- *. intros c Hc. apply (IH c Hc), Hcs, Hc.
  - destruct (RectNodeSchema_other (Ellipse n) Hb) as [e ->]; [discriminate|].
    destruct (TextNodeSchema_other (Ellipse n) Hb) as [e' ->]; [discriminate|].
    destruct (FrameNodeSchema_other DesignNodeSchema (Ellipse n) Hb)
      as [e'' ->]; [discriminate|].
    cbn [result_map result_bind].
    rewrite (EllipseNodeSchema_js _ Hv). reflexivity.
  - destruct (RectNodeSchema_other (Image n) Hb) as [e ->]; [discriminate|].
    destruct (TextNodeSchema_other (Image n) Hb) as [e' ->]; [discriminate|].
    destruct (FrameNodeSchema_other DesignNodeSchema (Image n) Hb)
      as [e'' ->]; [discriminate|].
    destruct (EllipseNodeSchema_other (Image n) Hb) as [e3 ->];
      [discriminate|].
    cbn [result_map result_bind].
    rewrite (ImageNodeSchema_js _ Hv). reflexivity.
Qed.

Lemma DesignSpecSchema_js (s : DesignSpec) :
  valid_spec s = true -> DesignSpecSchema (js_spec s) = Ok s.
Proof.
  unfold valid_spec. rewrite !andb_true_iff. intros [[Hw Hh] Hn].
  unfold DesignSpecSchema, js_spec, z_object. read_props.
  unfold CanvasSchema, z_object. read_props.
  cbn [z_default z_string result_bind].
  rewrite (z_positive_js _ Hw), (z_positive_js _ Hh).
  cbn [result_bind z_array].
  rewrite (each_map_js DesignNodeSchema to_js).
  - destruct s as [[name w h] nodes]. reflexivity.
  - apply Forall_forall. intros d Hd. rewrite forallb_forall in Hn.
    apply DesignNodeSchema_js, Hn, Hd.
Qed.

(** C6: validation is idempotent.  When the validator accepts a value and
    returns a spec, validating the returned spec again succeeds and returns
    the same spec, the defaults it had inserted included (every frame of
    the result carries a layout mode and a list of children). *)
Theorem C6_validation_is_idempotent (v : jsval) (s : DesignSpec) :
  DesignSpecSchema v = Ok s ->
  DesignSpecSchema (js_spec s) = Ok s
  /\ (forall n cs, In (Frame n cs) (all_nodes s) ->
        frame_layoutMode n <> None /\ cs <> None).
Proof.
  intro H. pose proof (DesignSpecSchema_valid v s H) as Hv. split.
  - apply DesignSpecSchema_js. exact Hv.
  - intros n cs Hin.
    pose proof (valid_all_nodes s Hv _ Hin) as Hf.
    cbn [valid_node] in Hf. rewrite !andb_true_iff in Hf.
    destruct Hf as [[[[[[[[_ Hm] _] _] _] _] _] _] Hc].
    split.
    + destruct (frame_layoutMode n); [discriminate | discriminate Hm].
    + destruct cs; [discriminate | discriminate Hc].
Qed.

Lemma C6_validation_is_idempotent_witness :
  DesignSpecSchema raw_two_level_spec = Ok two_level_spec
  /\ DesignSpecSchema (js_spec two_level_spec) = Ok two_level_spec.
Proof.
  assert (H : DesignSpecSchema raw_two_level_spec = Ok two_level_spec)
    by reflexivity.
  split; [exact H |].
  exact (proj1 (C6_validation_is_idempotent raw_two_level_spec two_level_spec
                  H)).
Defined.

Lemma C7_validated_nodes_are_well_formed_witness :
  DesignSpecSchema raw_two_level_spec = Ok two_level_spec
  /\ forall n, In n (all_nodes two_level_spec) ->
       strictly_positive (node_width n) /\ strictly_positive (node_height n).
Proof.
  assert (H : DesignSpecSchema raw_two_level_spec = Ok two_level_spec)
    by reflexivity.
  split; [exact H |].
  intros n Hin.
  destruct (proj1 C7_validated_nodes_are_well_formed raw_two_level_spec
              two_level_spec H n Hin) as (_ & _ & _ & Hw & Hh & _).
  split; [exact Hw | exact Hh].
Defined.

(** ** Image nodes without a source *)

Lemma toNumber_finite (N : string -> number) (n : number) :
  finite n = true -> toNumber N (JNum n) = Some n.
Proof. unfold finite. simpl. intros ->. reflexivity. Qed.

(** The rectangle [normalizeNode] substitutes is accepted. *)
Lemma placeholder_validates (name : string) (x y width height radius : number) :
  finite x = true -> finite y = true -> above_0 width = true ->
  above_0 height = true -> at_least_0 radius = true ->
  DesignNodeSchema
    (JObj [("type", JStr "rect"); ("name", JStr name); ("x", JNum x);
           ("y", JNum y); ("width", JNum width); ("height", JNum height);
           ("cornerRadius", JNum radius); ("fill", placeholder_fill)])
  = Ok (Rect (mkRect (mkBase (Some name) x y width height None)
                (Some (mkRGBA (Num.literal (9 # 10)) (Num.literal (92 # 100))
                         (Num.literal (95 # 100)) (Some (Num.of_Z 1))))
                None None (Some radius))).
Proof.
  intros Hx Hy Hw Hh Hr.
  rewrite DesignNodeSchema_unfold. unfold z_union. cbn [first_match].
  unfold RectNodeSchema, NodeBaseSchema, z_object. read_props.
  cbn [z_optional z_string result_map result_bind].
  rewrite (z_number_js _ Hx), (z_number_js _ Hy).
  rewrite (z_positive_js _ Hw), (z_positive_js _ Hh).
  cbn [result_bind z_literal z_optional]. simpl String.eqb. cbn iota.
  replace (ColorSchema placeholder_fill)
    with (Ok (mkRGBA (Num.literal (9 # 10)) (Num.literal (92 # 100))
                (Num.literal (95 # 100)) (Some (Num.of_Z 1))))
    by reflexivity.
  cbn [result_map result_bind].
  rewrite (z_nonneg_js _ Hr). reflexivity.
Qed.

(** C2: an image node that meets the image schema except that both
    [imageUrl] and [imageDataUrl] are missing is rejected by the validator;
    the normalizer turns it into a rectangle with the same x, y, width and
    height, and that rectangle is accepted. *)
Theorem C2_sourceless_image_becomes_placeholder
    (N : string -> number) (v : jsval) (img : ImageNode) :
  ImageNodeShape v = Ok img ->
  image_imageUrl img = None ->
  image_imageDataUrl img = None ->
  (exists reason, DesignNodeSchema v = SchemaViolation reason)
  /\ exists placeholder rect,
       normalizeNode N v = Some placeholder
       /\ get "type" placeholder = JStr "rect"
       /\ DesignNodeSchema placeholder = Ok (Rect rect)
       /\ base_x (rect_base rect) = base_x (image_base img)
       /\ base_y (rect_base rect) = base_y (image_base img)
       /\ base_width (rect_base rect) = base_width (image_base img)
       /\ base_height (rect_base rect) = base_height (image_base img).
Proof.
  intros Hshape Hurl Hdata. split.
  - destruct (DesignNodeSchema v) as [d|reason] eqn:E; [|eauto]. exfalso.
    destruct (DesignNodeSchema_base v d E) as [_ Htype].
    pose proof Hshape as Hs. apply z_object_ok in Hs. parse_steps Hs.
    apply z_literal_ok in Ha0. rewrite Ha0 in Htype.
    apply DesignNodeSchema_ok in E.
    destruct E as [[m [-> H]] | [[m [-> H]] | [H | [[m [-> H]] | [m [-> H]]]]]];
      try discriminate Htype.
    + apply FrameNodeSchema_ok in H as (m & cs & -> & _). discriminate Htype.
    + apply z_refine_ok in H as [H Hsrc]. rewrite Hshape in H.
      injection H as <-. rewrite Hurl, Hdata in Hsrc. discriminate Hsrc.
  - pose proof (ImageNodeShape_valid v img Hshape)
      as (Hb & _ & _ & Hcr & _ & _).
    pose proof Hshape as Hs. apply z_object_ok in Hs. parse_steps Hs.
    injection Hs as <-. cbn [image_imageUrl image_imageDataUrl
      image_base image_cornerRadius] in *. subst.
    apply z_literal_ok in Ha0.
    destruct (NodeBaseSchema_fields v a Ha) as (Hx & Hy & Hw & Hh).
    unfold valid_base in Hb. rewrite !andb_true_iff in Hb.
    destruct Hb as [[[[Fx Fy] Fw] Fh] _].
    apply z_optional_ok in Ha1, Ha2.
    assert (Hobj : exists props, v = JObj props).
    { destruct v; try discriminate Ha0. eauto. }
    destruct Hobj as [props ->].
    assert (Hname : exists name,
               JStr match as_string (get "name" (JObj props)) with
                    | Some n => (n ++ " Placeholder")%string
                    | None => "Image Placeholder"
                    end = JStr name) by eauto.
    destruct Hname as [name Hname].
    assert (Hrad : exists radius,
               match toNumber N (get "cornerRadius" (JObj props)) with
               | Some cr => cr
               | None => Num.of_Z 8
               end = radius /\ at_least_0 radius = true).
    { apply z_optional_ok in Ha4. destruct a4 as [cr|].
      - apply z_refine_ok in Ha4 as [Ha4 _].
        apply z_number_ok in Ha4 as [E Fcr]. rewrite E.
        rewrite (toNumber_finite N cr Fcr). eauto.
      - rewrite Ha4. simpl. eauto. }
    destruct Hrad as [radius [Hrad Gr]].
    eexists. eexists. split; [|split; [|split]].
    + cbn [normalizeNode truthy is_object andb negb].
      rewrite Ha0, Hx, Hy, Hw, Hh. cbn [allowed_type]. simpl String.eqb.
      cbn [orb].
      rewrite (toNumber_finite N _ Fx), (toNumber_finite N _ Fy),
        (toNumber_finite N _ (proj1 (andb_prop _ _ Fw))),
        (toNumber_finite N _ (proj1 (andb_prop _ _ Fh))).
      rewrite Ha1, Ha2. cbn [as_string]. rewrite Hname, Hrad. reflexivity.
    + reflexivity.
    + apply placeholder_validates; assumption.
    + cbn. auto.
Qed.

Lemma C2_sourceless_image_becomes_placeholder_witness :
  exists img,
    ImageNodeShape raw_sourceless_image = Ok img
    /\ (exists reason,
           DesignNodeSchema raw_sourceless_image = SchemaViolation reason)
    /\ exists placeholder rect,
         normalizeNode digits_Number raw_sourceless_image = Some placeholder
         /\ DesignNodeSchema placeholder = Ok (Rect rect)
         /\ base_width (rect_base rect) = Num.of_Z 48.
Proof.
  eexists. split; [reflexivity |].
  destruct (C2_sourceless_image_becomes_placeholder digits_Number
              raw_sourceless_image _ eq_refl eq_refl eq_refl)
    as [Hfail (placeholder & rect & Hn & _ & Hv & _ & _ & Hw & _)].
  split; [exact Hfail |].
  exists placeholder, rect. split; [exact Hn | split; [exact Hv | exact Hw]].
Defined.

(** ** The store under updates *)

Lemma update_nth_last {A} (f : A -> A) (l : list A) (a : A) :
  update_nth (List.length l) f (l ++ [a]) = l ++ [f a].
Proof. induction l as [|b l IH]; simpl; [reflexivity | rewrite IH; reflexivity]. Qed.

Lemma update_nth_app_lt {A} (f : A -> A) (i : nat) (l r : list A) :
  (i < List.length l)%nat -> update_nth i f (l ++ r) = update_nth i f l ++ r.
Proof.
  revert i. induction l as [|b l IH]; simpl; intros i Hi; [lia|].
  destruct i; [reflexivity|]. simpl. rewrite IH by lia. reflexivity.
Qed.

Lemma length_update_nth {A} (f : A -> A) (i : nat) (l : list A) :
  List.length (update_nth i f l) = List.length l.
Proof.
  revert i. induction l as [|b l IH]; simpl; intro i; [reflexivity|].
  destruct i; simpl; [reflexivity | rewrite IH; reflexivity].
Qed.

Lemma nth_error_update_nth {A} (f : A -> A) (i : nat) (l : list A) :
  nth_error (update_nth i f l) i = option_map f (nth_error l i).
Proof.
  revert i. induction l as [|b l IH]; simpl; intro i.
  - destruct i; reflexivity.
  - destruct i; simpl; [reflexivity | apply IH].
Qed.

Lemma nth_error_app_at {A} (l : list A) (a : A) (n : nat) :
  List.length l = n -> nth_error (l ++ [a]) n = Some a.
Proof.
  intros <-. rewrite nth_error_app2 by lia. rewrite Nat.sub_diag. reflexivity.
Qed.

(** ** Image paints *)

Lemma data_prefix_truthy (s : string) :
  String.prefix "data:image/" s = true -> truthy_string (Some s) = true.
Proof. destruct s; [discriminate | reflexivity]. Qed.

Lemma imagePaintFromNode_unmatched (host : Host) (n : ImageNode) (s : string)
    (st : HostState) :
  image_imageDataUrl n = Some s ->
  String.prefix "data:image/" s = true ->
  match_data_url s = None ->
  imagePaintFromNode host n st = (Returned None, st).
Proof.
  intros Hs Hp Hm. unfold imagePaintFromNode. rewrite Hs.
  rewrite (data_prefix_truthy s Hp).
  assert (E : or_else (Some s) "" = s) by (destruct s; [discriminate | reflexivity]).
  rewrite E, Hm. reflexivity.
Qed.

Lemma validated_image_prefix (v : jsval) (n : ImageNode) (s : string) :
  DesignNodeSchema v = Ok (Image n) ->
  image_imageDataUrl n = Some s ->
  String.prefix "data:image/" s = true.
Proof.
  intros H Hs. apply DesignNodeSchema_valid in H. cbn [valid_node] in H.
  rewrite !andb_true_iff in H.
  destruct H as [[[[[[_ _] Hd] _] _] _] _]. rewrite Hs in Hd. exact Hd.
Qed.

(** ** Running the steps of a rendering on the newest object *)

Lemma set_newest (l : list CanvasObj) (kind : ObjKind)
    (props : list (string * HostValue)) (children : list nat) (k : string)
    (v : HostValue) (fc : list (string * bool)) (lg : list Event)
    (md : list string) (pg sel : list nat) :
  set (List.length l) k v
    (mkState (l ++ [mkObj kind props children]) fc lg md pg sel)
  = (Returned tt,
     mkState (l ++ [mkObj kind ((k, v) :: props) children]) fc lg md pg sel).
Proof.
  unfold set, update_obj, modify. cbn [store fontCache log modes pageChildren
    selection]. rewrite update_nth_last. reflexivity.
Qed.

Lemma appendChild_newest (l : list CanvasObj) (o : CanvasObj) (parent : nat)
    (fc : list (string * bool)) (lg : list Event) (md : list string)
    (pg sel : list nat) :
  (parent < List.length l)%nat ->
  appendChild parent (List.length l) (mkState (l ++ [o]) fc lg md pg sel)
  = (Returned tt,
     mkState
       (update_nth parent
          (fun p => mkObj (obj_kind p) (obj_props p)
                      (obj_children p ++ [List.length l])) l
        ++ [o])
       fc (lg ++ [EAppendChild parent (List.length l)]) md pg sel).
Proof.
  intro Hp. unfold appendChild, bind, update_obj, emit, modify.
  cbn [store fontCache log modes pageChildren selection].
  rewrite (update_nth_app_lt _ _ _ _ Hp). reflexivity.
Qed.

(** C10: a validated image node whose [imageDataUrl] (which the validator
    only checks for its prefix) does not match the data-URL pattern gets no
    paint, without an exception and without touching the host; rendering
    the node returns normally, and the rectangle it creates carries the
    neutral gray fill and is attached to its parent. *)
Theorem C10_unmatched_data_url_renders_gray
    (host : Host) (v : jsval) (n : ImageNode) (s : string) (parent : nat)
    (ax ay w h : number) (mode : string) (st : HostState) :
  DesignNodeSchema v = Ok (Image n) ->
  image_imageDataUrl n = Some s ->
  match_data_url s = None ->
  (parent < List.length (store st))%nat ->
  String.prefix "data:image/" s = true
  /\ imagePaintFromNode host n st = (Returned None, st)
  /\ exists st' obj,
       renderNode host (Image n) parent ax ay w h mode st = (Returned tt, st')
       /\ nth_error (store st') (List.length (store st)) = Some obj
       /\ obj_kind obj = RECTANGLE
       /\ obj_get "fills" obj = Some (HPaints [neutral_gray])
       /\ children_of st' parent
          = option_map (fun cs => cs ++ [List.length (store st)])
              (children_of st parent).
Proof.
  intros Hv Hs Hm Hp.
  pose proof (validated_image_prefix v n s Hv Hs) as Hpre.
  split; [exact Hpre|]. split.
  - apply (imagePaintFromNode_unmatched host n s st Hs Hpre Hm).
  - pose proof (fun st => imagePaintFromNode_unmatched host n s st Hs Hpre Hm)
      as Hpaint.
    destruct st as [l fc lg md pg sel]. cbn [store] in Hp |- *.
    unfold children_of. cbn [store].
    cbn [renderNode]. unfold resize, apply_stroke, set_if_present.
    destruct (image_cornerRadius n) as [radius|];
      destruct (image_stroke n) as [stroke|];
      destruct (image_strokeWidth n) as [width|];
      destruct (base_opacity (image_base n)) as [o|];
      unfold bind, ret;
      cbn [note_mode modify create store fontCache log modes pageChildren
           selection];
      repeat (first [rewrite set_newest | rewrite Hpaint]; cbv beta iota);
      rewrite (appendChild_newest _ _ _ _ _ _ _ _ Hp);
      (eexists; eexists; split; [reflexivity|]);
      cbn [store];
      (split; [apply nth_error_app_at, length_update_nth|]);
      (split; [reflexivity|]);
      (split; [reflexivity|]);
      rewrite nth_error_app1 by (rewrite length_update_nth; exact Hp);
      rewrite nth_error_update_nth;
      destruct (nth_error l parent); reflexivity.
Qed.

Lemma C10_unmatched_data_url_renders_gray_witness :
  DesignNodeSchema raw_prefix_only_image = Ok (Image prefix_only_image)
  /\ match_data_url "data:image/png" = None
  /\ imagePaintFromNode obliging_host prefix_only_image one_frame_state
     = (Returned None, one_frame_state)
  /\ exists st' obj,
       renderNode obliging_host (Image prefix_only_image) 0 (Num.of_Z 0)
         (Num.of_Z 0) (Num.of_Z 800) (Num.of_Z 600) "relative"
         one_frame_state
       = (Returned tt, st')
       /\ nth_error (store st') 1 = Some obj
       /\ obj_get "fills" obj = Some (HPaints [neutral_gray]).
Proof.
  assert (H1 : DesignNodeSchema raw_prefix_only_image
               = Ok (Image prefix_only_image)) by reflexivity.
  assert (H2 : match_data_url "data:image/png" = None) by reflexivity.
  assert (H3 : (0 < List.length (store one_frame_state))%nat)
    by (simpl; lia).
  destruct (C10_unmatched_data_url_renders_gray obliging_host
              raw_prefix_only_image prefix_only_image "data:image/png" 0
              (Num.of_Z 0) (Num.of_Z 0) (Num.of_Z 800) (Num.of_Z 600)
              "relative" one_frame_state H1 eq_refl H2 H3)
    as (_ & Hpaint & st' & obj & Hrun & Hobj & _ & Hfills & _).
  split; [exact H1 | split; [exact H2 | split; [exact Hpaint |]]].
  exists st', obj. split; [exact Hrun | split; [exact Hobj | exact Hfills]].
Defined.

(** ** Remote images *)

(** A response with an error status gives no paint and no exception. *)
Lemma imagePaintFromNode_not_ok (host : Host) (n : ImageNode) (url : string)
    (body : option string) (st : HostState) :
  truthy_string (image_imageDataUrl n) = false ->
  image_imageUrl n = Some url ->
  truthy_string (Some url) = true ->
  fetch host url = FetchResponse false body ->
  exists st', imagePaintFromNode host n st = (Returned None, st')
              /\ store st' = store st.
Proof.
  intros Hd Hu Ht Hf. unfold imagePaintFromNode. rewrite Hd, Hu, Ht.
  assert (E : or_else (Some url) "" = url)
    by (destruct url; [discriminate | reflexivity]).
  rewrite E. unfold bind. cbn [emit modify]. rewrite Hf.
  eexists. split; reflexivity.
Qed.

(** A rejected fetch is an exception of [imagePaintFromNode]. *)
Lemma imagePaintFromNode_rejected (host : Host) (n : ImageNode) (url : string)
    (st : HostState) :
  truthy_string (image_imageDataUrl n) = false ->
  image_imageUrl n = Some url ->
  truthy_string (Some url) = true ->
  fetch host url = FetchRejects ->
  exists message st', imagePaintFromNode host n st = (Thrown message, st').
Proof.
  intros Hd Hu Ht Hf. unfold imagePaintFromNode. rewrite Hd, Hu, Ht.
  assert (E : or_else (Some url) "" = url)
    by (destruct url; [discriminate | reflexivity]).
  rewrite E. unfold bind. cbn [emit modify]. rewrite Hf.
  eexists. eexists. reflexivity.
Qed.

(** C5, at the failing input: a remote image followed by a rectangle.
    When the fetch promise rejects, the rendering throws: the image's
    rectangle (object 2) has no fill assigned and is not attached, the
    rectangle after it is never created, and the root is never put on the
    page.  When the server answers with an error status instead, the
    image gets the gray fill and the walk goes on to the rectangle. *)
Theorem C5_rejected_fetch_aborts_the_walk :
  (let run := renderToFigma unreachable_host remote_image_then_rect None
                initial_state in
   fst run = Thrown "fetch failed"
   /\ List.length (store (snd run)) = 3%nat
   /\ fills_of (snd run) 2 = None
   /\ children_of (snd run) 1 = Some []
   /\ pageChildren (snd run) = [])
  /\ (let run := renderToFigma refusing_host remote_image_then_rect None
                   initial_state in
      fst run = Returned tt
      /\ List.length (store (snd run)) = 4%nat
      /\ fills_of (snd run) 2 = Some (HPaints [neutral_gray])
      /\ children_of (snd run) 1 = Some [2; 3]%nat
      /\ pageChildren (snd run) = [0%nat]).
Proof. vm_compute. repeat split. Qed.

(** ** Document order: what each step does to the canvas structure *)

Lemma load_events_nil (allow : bool) : load_events allow [].
Proof. split; reflexivity. Qed.

Lemma load_events_app (allow : bool) (e1 e2 : list Event) :
  load_events allow e1 -> load_events allow e2 -> load_events allow (e1 ++ e2).
Proof.
  intros [H1 N1] [H2 N2]. split.
  - rewrite forallb_app, H1, H2. reflexivity.
  - intro Ha. rewrite (N1 Ha), (N2 Ha). reflexivity.
Qed.

Lemma load_events_weaken (evs : list Event) :
  load_events false evs -> load_events true evs.
Proof. intros [H _]. split; [exact H | discriminate]. Qed.

Lemma quiet_rel_refl (allow : bool) (st : HostState) : quiet_rel allow st st.
Proof.
  exists []. split; [apply load_events_nil|]. rewrite app_nil_r. auto.
Qed.

Lemma quiet_rel_trans (allow : bool) (st1 st2 st3 : HostState) :
  quiet_rel allow st1 st2 -> quiet_rel allow st2 st3 ->
  quiet_rel allow st1 st3.
Proof.
  intros (e1 & L1 & G1 & K1 & C1) (e2 & L2 & G2 & K2 & C2).
  exists (e1 ++ e2). split; [apply load_events_app; assumption|].
  rewrite G2, G1, K2, K1, C2, C1, app_assoc. auto.
Qed.

Lemma quiet_rel_weaken (st st' : HostState) :
  quiet_rel false st st' -> quiet_rel true st st'.
Proof.
  intros (e & L & G & K & C). exists e.
  split; [apply load_events_weaken, L | auto].
Qed.

Lemma quiet_weaken {A} (allow : bool) (m : M A) :
  quiet false m -> quiet allow m.
Proof.
  destruct allow; [|trivial]. intros H st. apply quiet_rel_weaken, H.
Qed.

Lemma quiet_ret {A} (allow : bool) (a : A) : quiet allow (ret a).
Proof. intro st. apply quiet_rel_refl. Qed.

Lemma quiet_throw {A} (allow : bool) (e : string) : quiet allow (@throw A e).
Proof. intro st. apply quiet_rel_refl. Qed.

Lemma quiet_bind {A B} (allow : bool) (m : M A) (f : A -> M B) :
  quiet allow m -> (forall a, quiet allow (f a)) -> quiet allow (bind m f).
Proof.
  intros Hm Hf st. unfold bind. specialize (Hm st).
  destruct (m st) as [[a | e] st1]; simpl in *.
  - apply (quiet_rel_trans allow st st1); [exact Hm | apply Hf].
  - exact Hm.
Qed.

Lemma map_update_nth_same {A B} (g : A -> B) (f : A -> A) (i : nat)
    (l : list A) :
  (forall a, g (f a) = g a) -> map g (update_nth i f l) = map g l.
Proof.
  intro H. revert i. induction l as [|a l IH]; intro i; simpl; [reflexivity|].
  destruct i; simpl; [rewrite H | rewrite IH]; reflexivity.
Qed.

Lemma map_update_nth {A B} (g : A -> B) (f : A -> A) (f' : B -> B) (i : nat)
    (l : list A) :
  (forall a, g (f a) = f' (g a)) ->
  map g (update_nth i f l) = update_nth i f' (map g l).
Proof.
  intro H. revert i. induction l as [|a l IH]; intro i; simpl; [reflexivity|].
  destruct i; simpl; [rewrite H | rewrite IH]; reflexivity.
Qed.

Lemma quiet_set (allow : bool) (id : nat) (k : string) (v : HostValue) :
  quiet allow (set id k v).
Proof.
  apply quiet_weaken. intro st. exists []. split; [apply load_events_nil|].
  unfold kinds, childrens. simpl.
  rewrite app_nil_r, !map_update_nth_same by reflexivity. auto.
Qed.

Lemma quiet_resize (allow : bool) (id : nat) (w h : number) :
  quiet allow (resize id w h).
Proof.
  unfold resize. apply quiet_bind; [|intros _]; apply quiet_set.
Qed.

Lemma quiet_note_mode (allow : bool) (mode : string) :
  quiet allow (note_mode mode).
Proof.
  apply quiet_weaken. intro st. exists []. split; [apply load_events_nil|].
  simpl. rewrite app_nil_r. auto.
Qed.

Lemma quiet_apply_stroke (allow : bool) (id : nat) (s : option RGBA)
    (w : option number) :
  quiet allow (apply_stroke id s w).
Proof.
  destruct s, w; simpl; try apply quiet_set.
  apply quiet_bind; [|intros _]; apply quiet_set.
Qed.

Lemma quiet_set_if_present (allow : bool) (id : nat) (k : string)
    (v : option number) :
  quiet allow (set_if_present id k v).
Proof. destruct v; simpl; [apply quiet_set | apply quiet_ret]. Qed.

Lemma quiet_base64ToBytes (host : Host) (allow : bool) (b : string) :
  quiet allow (base64ToBytes host b).
Proof.
  unfold base64ToBytes. destruct (decodeBase64 host b);
    [apply quiet_ret | apply quiet_throw].
Qed.

Lemma quiet_figma_createImage (host : Host) (allow : bool) (b : string) :
  quiet allow (figma_createImage host b).
Proof.
  unfold figma_createImage. destruct (createImage host b);
    [apply quiet_ret | apply quiet_throw].
Qed.

Lemma quiet_loadFont (host : Host) (family style : string) :
  quiet true (loadFont host family style).
Proof.
  intro st. unfold loadFont.
  destruct (find _ (fontCache st)) as [[k b]|].
  - destruct b; apply quiet_rel_refl.
  - exists [ELoadFontAsync family style].
    split; [split; [reflexivity | discriminate]|].
    destruct (loadFontAsync host family style); simpl; auto.
Qed.

Lemma quiet_emit_fetch (url : string) : quiet true (emit (EFetch url)).
Proof.
  intro st. exists [EFetch url].
  split; [split; [reflexivity | discriminate]|]. simpl. auto.
Qed.

Lemma quiet_imagePaintFromNode (host : Host) (n : ImageNode) :
  quiet true (imagePaintFromNode host n).
Proof.
  unfold imagePaintFromNode.
  destruct (truthy_string (image_imageDataUrl n)).
  - destruct (match_data_url _) as [[mime payload]|]; [|apply quiet_ret].
    apply quiet_bind; [apply quiet_base64ToBytes | intro bytes].
    apply quiet_bind; [apply quiet_figma_createImage | intro hash].
    apply quiet_ret.
  - destruct (truthy_string (image_imageUrl n)); [|apply quiet_ret].
    apply quiet_bind; [apply quiet_emit_fetch | intros _].
    destruct (fetch host _) as [|[|] [buf|]];
      try apply quiet_throw; try apply quiet_ret.
    apply quiet_bind; [apply quiet_figma_createImage | intro hash].
    apply quiet_ret.
Qed.

Lemma quiet_normalizeScreenshot (allow : bool) (shot : option Screenshot) :
  quiet allow (normalizeScreenshot shot).
Proof.
  destruct shot as [s|]; [|apply quiet_ret]. unfold normalizeScreenshot.
  repeat match goal with
         | |- quiet _ (if ?e then _ else _) => destruct e
         end; first [apply quiet_throw | apply quiet_ret].
Qed.

(** A step that returns leaves the structure as its quietness says. *)
Lemma quiet_returned {A} (allow : bool) (m : M A) (st st' : HostState)
    (a : A) :
  quiet allow m -> m st = (Returned a, st') -> quiet_rel allow st st'.
Proof. intros Hq Hm. specialize (Hq st). rewrite Hm in Hq. exact Hq. Qed.

Lemma bind_returned {A B} (m : M A) (k : A -> M B) (st st' : HostState)
    (b : B) :
  bind m k st = (Returned b, st') ->
  exists a st1, m st = (Returned a, st1) /\ k a st1 = (Returned b, st').
Proof.
  unfold bind. destruct (m st) as [[a | e] st1]; [eauto | discriminate].
Qed.

Lemma create_returned (kind : ObjKind) (st st' : HostState) (id : nat) :
  create kind st = (Returned id, st') ->
  id = List.length (store st)
  /\ kinds st' = kinds st ++ [kind]
  /\ childrens st' = childrens st ++ [[]]
  /\ log st' = log st ++ [ECreate id kind].
Proof.
  unfold create. intro H. injection H as <- <-. unfold kinds, childrens.
  simpl. rewrite !map_app. auto.
Qed.

Lemma appendChild_returned (parent child : nat) (st st' : HostState) :
  appendChild parent child st = (Returned tt, st') ->
  kinds st' = kinds st
  /\ childrens st'
     = update_nth parent (fun l => l ++ [child]) (childrens st)
  /\ log st' = log st ++ [EAppendChild parent child].
Proof.
  unfold appendChild, bind. simpl. intro H. injection H as <-.
  unfold kinds, childrens. simpl.
  rewrite map_update_nth_same by reflexivity.
  rewrite (map_update_nth obj_children _ (fun l => l ++ [child]))
    by reflexivity.
  auto.
Qed.

Ltac quiet_tac :=
  solve
    [ repeat first
        [ apply quiet_ret | apply quiet_throw | apply quiet_set
        | apply quiet_resize | apply quiet_note_mode
        | apply quiet_apply_stroke | apply quiet_set_if_present
        | apply quiet_base64ToBytes | apply quiet_figma_createImage
        | apply quiet_loadFont | apply quiet_imagePaintFromNode
        | apply quiet_normalizeScreenshot
        | apply quiet_bind; [|intro]
        | match goal with
          | |- quiet _ (match ?e with _ => _ end) => destruct e
          end ] ].

(** Runs [H : (m ;;; k) st = (Returned _, _)] through its quiet steps,
    keeping in [R] how the state reached relates to the state [R] started
    from. *)
Ltac peel_quiet allow H R :=
  repeat
    match type of H with
    | bind ?m ?k ?s = (Returned _, _) =>
        let Q := fresh "Q" in
        assert (Q : quiet allow m) by quiet_tac;
        let a := fresh "a" in
        let s1 := fresh "st" in
        let Hm := fresh "Hm" in
        let R' := fresh "R" in
        apply bind_returned in H as (a & s1 & Hm & H);
        apply (quiet_returned allow _ _ _ _ Q) in Hm;
        pose proof (quiet_rel_trans allow _ _ _ R Hm) as R';
        clear R Hm Q; rename R' into R
    end.

Lemma kinds_length (st : HostState) :
  List.length (kinds st) = List.length (store st).
Proof. apply length_map. Qed.

Lemma childrens_length (st : HostState) :
  List.length (childrens st) = List.length (store st).
Proof. apply length_map. Qed.

(** What the own part of a node's rendering amounts to: a quiet start, the
    creation of the object, quiet steps with at most resource loads, and
    the attachment to the parent. *)
Lemma own_part_facts (allow : bool) (kind : ObjKind) (parent id : nat)
    (st st1 st2 st3 st4 : HostState) :
  (parent < List.length (store st))%nat ->
  quiet_rel false st st1 ->
  create kind st1 = (Returned id, st2) ->
  quiet_rel allow st2 st3 ->
  appendChild parent id st3 = (Returned tt, st4) ->
  id = List.length (store st)
  /\ kinds st4 = kinds st ++ [kind]
  /\ childrens st4
     = update_nth parent (fun l => l ++ [id]) (childrens st) ++ [[]]
  /\ exists loads,
       load_events allow loads
       /\ log st4
          = log st ++ ECreate id kind :: loads ++ [EAppendChild parent id].
Proof.
  intros Hp (e0 & [_ N0] & G0 & K0 & C0) Hc (e & L & G & K & C) Ha.
  rewrite (N0 eq_refl), app_nil_r in G0.
  apply create_returned in Hc as (Hid & Kc & Cc & Gc).
  apply appendChild_returned in Ha as (Ka & Ca & Ga).
  assert (Hlen : List.length (store st1) = List.length (store st)).
  { rewrite <- !kinds_length, K0. reflexivity. }
  rewrite Hlen in Hid. split; [exact Hid|].
  split; [rewrite Ka, K, Kc, K0; reflexivity|].
  split.
  - rewrite Ca, C, Cc, C0. apply update_nth_app_lt.
    rewrite childrens_length. exact Hp.
  - exists e. split; [exact L|].
    rewrite Ga, G, Gc, G0, <- !app_assoc. reflexivity.
Qed.

Lemma update_nth_twice {A} (f g : A -> A) (i : nat) (l : list A) :
  update_nth i g (update_nth i f l) = update_nth i (fun a => g (f a)) l.
Proof.
  revert i. induction l as [|a l IH]; intro i; simpl; [reflexivity|].
  destruct i; simpl; [reflexivity | rewrite IH; reflexivity].
Qed.

Lemma update_nth_ext {A} (f g : A -> A) (i : nat) (l : list A) :
  (forall a, f a = g a) -> update_nth i f l = update_nth i g l.
Proof.
  intro H. revert i. induction l as [|a l IH]; intro i; simpl; [reflexivity|].
  destruct i; simpl; [rewrite H | rewrite IH]; reflexivity.
Qed.

Lemma update_nth_id {A} (f : A -> A) (i : nat) (l : list A) :
  (forall a, f a = a) -> update_nth i f l = l.
Proof.
  intro H. revert i. induction l as [|a l IH]; intro i; simpl; [reflexivity|].
  destruct i; simpl; [rewrite H | rewrite IH]; reflexivity.
Qed.

Lemma siblings_render_in_order (host : Host) (cs : list DesignNode) :
  Forall (renders_in_order host) cs ->
  forall (parent : nat) (ax ay w h : number) (mode : string)
         (st st' : HostState),
    for_each (fun c => renderNode host c parent ax ay w h mode) cs st
    = (Returned tt, st') ->
    (parent < List.length (store st))%nat ->
    kinds st' = kinds st ++ map kind_of (flat_map subtree cs)
    /\ childrens st'
       = update_nth parent
           (fun l => l ++ child_ids (List.length (store st)) cs)
           (childrens st)
         ++ skeleton_forest cs (List.length (store st))
    /\ exists evs,
         log st' = log st ++ evs
         /\ traced_forest cs parent (List.length (store st)) evs.
Proof.
  induction 1 as [|c cs Hc _ IH]; intros parent ax ay w h mode st st' H Hp.
  - injection H as <-. simpl. rewrite !app_nil_r.
    split; [reflexivity|]. split.
    + symmetry. apply update_nth_id. intro l. apply app_nil_r.
    + exists []. rewrite app_nil_r. split; reflexivity.
  - cbn [for_each] in H. apply bind_returned in H as ([] & st1 & H1 & H2).
    destruct (Hc parent ax ay w h mode st st1 H1 Hp)
      as (K1 & C1 & e1 & G1 & T1).
    assert (Hlen : List.length (store st1)
                   = (List.length (store st) + List.length (subtree c))%nat).
    { rewrite <- !kinds_length, K1, length_app, length_map. reflexivity. }
    assert (Hp1 : (parent < List.length (store st1))%nat) by lia.
    destruct (IH parent ax ay w h mode st1 st' H2 Hp1)
      as (K2 & C2 & e2 & G2 & T2).
    rewrite Hlen in C2, T2.
    split; [|split].
    + rewrite K2, K1. cbn [flat_map]. rewrite map_app, app_assoc. reflexivity.
    + rewrite C2, C1.
      rewrite update_nth_app_lt
        by (rewrite length_update_nth, childrens_length; exact Hp).
      rewrite update_nth_twice, <- app_assoc.
      f_equal. apply update_nth_ext. intro l.
      rewrite <- app_assoc. reflexivity.
    + exists (e1 ++ e2). split; [rewrite G2, G1, app_assoc; reflexivity|].
      unfold traced_forest. cbn [traced_siblings].
      exists e1, e2. auto.
Qed.

Lemma renderNode_in_order (host : Host) (n : DesignNode) :
  renders_in_order host n.
Proof.
  induction n as [n | n | n | n cs IH | n | n] using DesignNode_nested_ind;
    intros parent ax ay w h mode st st' H Hp;
    cbn [renderNode] in H; cbv zeta in H;
    pose proof (quiet_rel_refl false st) as R0;
    peel_quiet false H R0;
    apply bind_returned in H as (id & st2 & Hc & H).
  - (* rect *)
    pose proof (quiet_rel_refl false st2) as R. peel_quiet false H R.
    destruct (own_part_facts false RECTANGLE parent id _ _ _ _ _ Hp R0 Hc R H)
      as (-> & K & C & loads & L & G).
    split; [exact K|]. split; [exact C|].
    eexists. split; [exact G|].
    exists loads, []. auto.
  - (* text *)
    pose proof (quiet_rel_refl true st2) as R. peel_quiet true H R.
    destruct (own_part_facts true TEXTOBJ parent id _ _ _ _ _ Hp R0 Hc R H)
      as (-> & K & C & loads & L & G).
    split; [exact K|]. split; [exact C|].
    eexists. split; [exact G|].
    exists loads, []. auto.
  - (* frame without a children list *)
    pose proof (quiet_rel_refl false st2) as R. peel_quiet false H R.
    apply bind_returned in H as ([] & stf & Ha & H). injection H as <-.
    destruct (own_part_facts false FRAMEOBJ parent id _ _ _ _ _ Hp R0 Hc R Ha)
      as (-> & K & C & loads & L & G).
    split; [exact K|]. split; [exact C|].
    eexists. split; [exact G|].
    exists loads, []. auto.
  - (* frame *)
    pose proof (quiet_rel_refl false st2) as R. peel_quiet false H R.
    apply bind_returned in H as ([] & stf & Ha & H).
    destruct (own_part_facts false FRAMEOBJ parent id _ _ _ _ _ Hp R0 Hc R Ha)
      as (-> & K & C & loads & L & G).
    assert (Hlen : List.length (store stf) = S (List.length (store st))).
    { rewrite <- !kinds_length, K, length_app. simpl. lia. }
    assert (Hf : (List.length (store st) < List.length (store stf))%nat)
      by lia.
    destruct (siblings_render_in_order host cs IH _ _ _ _ _ _ _ _ H Hf)
      as (K' & C' & evs & G' & T').
    rewrite Hlen in C', T'.
    split; [|split].
    + rewrite K', K, <- app_assoc. reflexivity.
    + rewrite C', C. cbn [skeleton].
      replace (List.length (store st))
        with (List.length
                (update_nth parent
                   (fun l => l ++ [List.length (store st)]) (childrens st)))
        at 1 by (rewrite length_update_nth; apply childrens_length).
      rewrite update_nth_last, <- app_assoc. reflexivity.
    + exists (ECreate (List.length (store st)) FRAMEOBJ
                :: loads ++ EAppendChild parent (List.length (store st))
                :: evs).
      split.
      * rewrite G', G, <- app_assoc. cbn [app]. rewrite <- app_assoc.
        reflexivity.
      * exists loads, evs. auto.
  - (* ellipse *)
    pose proof (quiet_rel_refl false st2) as R. peel_quiet false H R.
    destruct (own_part_facts false ELLIPSE parent id _ _ _ _ _ Hp R0 Hc R H)
      as (-> & K & C & loads & L & G).
    split; [exact K|]. split; [exact C|].
    eexists. split; [exact G|].
    exists loads, []. auto.
  - (* image *)
    pose proof (quiet_rel_refl true st2) as R. peel_quiet true H R.
    destruct (own_part_facts true RECTANGLE parent id _ _ _ _ _ Hp R0 Hc R H)
      as (-> & K & C & loads & L & G).
    split; [exact K|]. split; [exact C|].
    eexists. split; [exact G|].
    exists loads, []. auto.
Qed.

Lemma renderToFigma_in_order (host : Host) (spec : DesignSpec)
    (shot : option Screenshot) (st' : HostState) :
  renderToFigma host spec shot initial_state = (Returned tt, st') ->
  kinds st' = FRAMEOBJ :: FRAMEOBJ :: map kind_of (all_nodes spec)
  /\ childrens st'
     = [1%nat] :: child_ids 2 (spec_nodes spec)
       :: skeleton_forest (spec_nodes spec) 2
  /\ exists evs,
       log st'
       = [ECreate 0 FRAMEOBJ; ECreate 1 FRAMEOBJ; EAppendChild 0 1]
         ++ evs ++ [EPageAppend 0; ESelect [0%nat]; EScrollAndZoom [0%nat]]
       /\ traced_forest (spec_nodes spec) 1 2 evs.
Proof.
  intro H. unfold renderToFigma in H.
  pose proof (quiet_rel_refl false initial_state) as R0.
  peel_quiet false H R0.
  apply bind_returned in H as (root & sta & Hroot & H).
  pose proof (quiet_rel_refl false sta) as R1.
  peel_quiet false H R1.
  apply bind_returned in H as (overlay & stb & Hover & H).
  pose proof (quiet_rel_refl false stb) as R2.
  peel_quiet false H R2.
  apply bind_returned in H as ([] & stc & Happ & H).
  apply bind_returned in H as ([] & std & Hnodes & H).
  destruct R0 as (e0 & [_ N0] & G0 & K0 & C0).
  destruct R1 as (e1 & [_ N1] & G1 & K1 & C1).
  destruct R2 as (e2 & [_ N2] & G2 & K2 & C2).
  rewrite (N0 eq_refl), app_nil_r in G0.
  rewrite (N1 eq_refl), app_nil_r in G1.
  rewrite (N2 eq_refl), app_nil_r in G2.
  apply create_returned in Hroot as (Hr & Kr & Cr & Gr).
  apply create_returned in Hover as (Ho & Ko & Co & Go).
  apply appendChild_returned in Happ as (Ka & Ca & Ga).
  change (kinds initial_state) with (@nil ObjKind) in K0.
  change (childrens initial_state) with (@nil (list nat)) in C0.
  change (log initial_state) with (@nil Event) in G0.
  assert (Er : root = 0%nat).
  { rewrite Hr, <- kinds_length, K0. reflexivity. }
  clear Hr. subst root.
  rewrite K0 in Kr. rewrite C0 in Cr. rewrite G0 in Gr.
  rewrite Kr in K1. rewrite Cr in C1. rewrite Gr in G1.
  assert (Eo : overlay = 1%nat).
  { rewrite Ho, <- kinds_length, K1. reflexivity. }
  clear Ho. subst overlay.
  rewrite K1 in Ko. rewrite C1 in Co. rewrite G1 in Go.
  rewrite Ko in K2. rewrite Co in C2. rewrite Go in G2.
  rewrite K2 in Ka. rewrite C2 in Ca. rewrite G2 in Ga.
  cbn [app update_nth] in Ka, Ca, Ga.
  assert (Hlen : List.length (store stc) = 2%nat).
  { rewrite <- kinds_length, Ka. reflexivity. }
  assert (Hp : (1 < List.length (store stc))%nat) by lia.
  destruct (siblings_render_in_order host (spec_nodes spec)
              (proj2 (Forall_forall _ _)
                 (fun n _ => renderNode_in_order host n))
              1%nat _ _ _ _ _ stc std Hnodes Hp)
    as (K & C & evs & G & T).
  rewrite Hlen in C, T. rewrite Ka in K. rewrite Ca in C. rewrite Ga in G.
  cbn [app update_nth] in K, C.
  unfold bind in H. cbn [emit modify] in H. injection H as <-.
  unfold kinds, childrens in *. cbn [store log].
  split; [exact K|]. split; [exact C|].
  exists evs. split; [|exact T].
  rewrite G, <- !app_assoc. reflexivity.
Qed.

Lemma childless_subtree (c : DesignNode) :
  node_children c = [] -> subtree c = [c] /\ forall id, skeleton c id = [[]].
Proof.
  destruct c as [n | n | n [cs|] | n | n]; simpl; intro H; subst; auto.
Qed.

Lemma traced_unfold (n : DesignNode) (parent id : nat) (evs : list Event) :
  traced n parent id evs
  = exists loads rest,
      load_events (may_load n) loads
      /\ evs = ECreate id (kind_of n) :: loads ++ EAppendChild parent id :: rest
      /\ match n with
         | Frame _ (Some cs) => traced_siblings traced cs id (S id) rest
         | _ => rest = []
         end.
Proof. destruct n; reflexivity. Qed.

Lemma childless_traced (c : DesignNode) (parent id : nat)
    (evs : list Event) :
  node_children c = [] ->
  traced c parent id evs ->
  exists loads,
    load_events (may_load c) loads
    /\ evs = ECreate id (kind_of c) :: loads ++ [EAppendChild parent id].
Proof.
  intros Hc H. rewrite traced_unfold in H.
  destruct H as (loads & rest & L & E & Hrest).
  exists loads. split; [exact L|].
  assert (Hnil : rest = []).
  { destruct c as [n | n | n [cs|] | n | n]; simpl in Hc;
      try exact Hrest. subst cs. exact Hrest. }
  subst rest. exact E.
Qed.

(** C8: when rendering returns, the canvas holds the root container, the
    overlay and exactly one object per node, numbered in document order;
    every parent holds its children in document order; and in the log each
    node's creation, its own resource loads and its attachment come before
    anything of its children and of its later siblings.  For a rect
    followed by a frame of two childless nodes that makes exactly four
    node objects: the overlay holds objects 2 and 3 in this order and the
    nested frame holds 4 and 5. *)
Theorem C8_rendering_follows_document_order :
  (forall (host : Host) (spec : DesignSpec) (shot : option Screenshot)
          (st' : HostState),
      renderToFigma host spec shot initial_state = (Returned tt, st') ->
      kinds st' = FRAMEOBJ :: FRAMEOBJ :: map kind_of (all_nodes spec)
      /\ childrens st'
         = [1%nat] :: child_ids 2 (spec_nodes spec)
           :: skeleton_forest (spec_nodes spec) 2
      /\ exists evs,
           log st'
           = [ECreate 0 FRAMEOBJ; ECreate 1 FRAMEOBJ; EAppendChild 0 1]
             ++ evs
             ++ [EPageAppend 0; ESelect [0%nat]; EScrollAndZoom [0%nat]]
           /\ traced_forest (spec_nodes spec) 1 2 evs)
  /\ (forall (host : Host) (canvas : Canvas) (shot : option Screenshot)
             (r : RectNode) (f : FrameProps) (c1 c2 : DesignNode)
             (st' : HostState),
        node_children c1 = [] ->
        node_children c2 = [] ->
        renderToFigma host (mkSpec canvas [Rect r; Frame f (Some [c1; c2])])
          shot initial_state
        = (Returned tt, st') ->
        List.length (store st') = (2 + 4)%nat
        /\ kinds st'
           = [FRAMEOBJ; FRAMEOBJ; RECTANGLE; FRAMEOBJ; kind_of c1; kind_of c2]
        /\ childrens st' = [[1]; [2; 3]; []; [4; 5]; []; []]%nat
        /\ exists loads1 loads2,
             load_events (may_load c1) loads1
             /\ load_events (may_load c2) loads2
             /\ log st'
                = [ECreate 0 FRAMEOBJ; ECreate 1 FRAMEOBJ; EAppendChild 0 1;
                   ECreate 2 RECTANGLE; EAppendChild 1 2;
                   ECreate 3 FRAMEOBJ; EAppendChild 1 3]
                  ++ ECreate 4 (kind_of c1) :: loads1
                  ++ EAppendChild 3 4 :: ECreate 5 (kind_of c2) :: loads2
                  ++ [EAppendChild 3 5; EPageAppend 0; ESelect [0%nat];
                      EScrollAndZoom [0%nat]]).
Proof.
  split; [exact renderToFigma_in_order|].
  intros host canvas shot r f c1 c2 st' H1 H2 H.
  destruct (renderToFigma_in_order host _ shot st' H)
    as (K & C & evs & G & T).
  destruct (childless_subtree c1 H1) as [S1 Sk1].
  destruct (childless_subtree c2 H2) as [S2 Sk2].
  unfold all_nodes in K. cbn [spec_nodes flat_map subtree app map] in K.
  rewrite S1, S2 in K. cbn [app map kind_of] in K.
  cbn [spec_nodes child_ids skeleton_forest along skeleton subtree
       flat_map] in C.
  rewrite ?S1, ?S2 in C. cbn [List.length app Nat.add] in C.
  rewrite ?Sk1, ?Sk2 in C. cbn [app] in C.
  split; [rewrite <- kinds_length, K; reflexivity|].
  split; [exact K|]. split; [exact C|].
  unfold traced_forest in T. cbn [spec_nodes traced_siblings] in T.
  destruct T as (e1 & e2 & E & Trect & e3 & e4 & E2 & Tframe & E4).
  subst e4 e2 evs.
  rewrite traced_unfold in Trect, Tframe.
  destruct Trect as (l0 & rest0 & [_ N0] & E0 & R0).
  cbn [may_load kind_of] in *. rewrite (N0 eq_refl) in E0. subst rest0 e1.
  destruct Tframe as (lf & restf & [_ Nf] & Ef & Rf).
  rewrite (Nf eq_refl) in Ef. subst e3.
  cbn [traced_siblings] in Rf.
  destruct Rf as (d1 & d2 & Ed & T1 & d3 & d4 & Ed2 & T2 & Ed4).
  subst d4 d2 restf.
  cbn [subtree List.length Nat.add] in T1, T2.
  rewrite S1 in T2. cbn [List.length Nat.add] in T2.
  destruct (childless_traced c1 _ _ _ H1 T1) as (loads1 & L1 & ->).
  destruct (childless_traced c2 _ _ _ H2 T2) as (loads2 & L2 & ->).
  exists loads1, loads2. split; [exact L1|]. split; [exact L2|].
  rewrite G. cbn [app]. rewrite !app_nil_r, <- !app_assoc. cbn [app].
  rewrite <- !app_assoc. reflexivity.
Qed.

Lemma C8_rendering_follows_document_order_witness :
  node_children title_text = [] /\ node_children avatar_image = []
  /\ exists st',
       renderToFigma obliging_host two_level_spec None initial_state
       = (Returned tt, st')
       /\ List.length (store st') = 6%nat
       /\ childrens st' = [[1]; [2; 3]; []; [4; 5]; []; []]%nat.
Proof.
  split; [reflexivity | split; [reflexivity |]].
  exists (snd (renderToFigma obliging_host two_level_spec None
                 initial_state)).
  assert (H : renderToFigma obliging_host two_level_spec None initial_state
              = (Returned tt,
                 snd (renderToFigma obliging_host two_level_spec None
                        initial_state)))
    by (vm_compute; reflexivity).
  split; [exact H |].
  destruct (proj2 C8_rendering_follows_document_order obliging_host
              two_level_canvas None header_rect body_frame title_text
              avatar_image _ eq_refl eq_refl H)
    as (Hlen & _ & Hc & _).
  split; [exact Hlen | exact Hc].
Defined.

(** ** The corner radius of rendered rectangles *)

(** The rectangle created for a rect node carries the corner radius that
    [inferPillRadius] answers, and none when it answers none. *)
Lemma renderNode_rect_cornerRadius (host : Host) (n : RectNode) (parent : nat)
    (ax ay w h : number) (mode : string) (st : HostState) :
  (parent < List.length (store st))%nat ->
  exists st' obj,
    renderNode host (Rect n) parent ax ay w h mode st = (Returned tt, st')
    /\ nth_error (store st') (List.length (store st)) = Some obj
    /\ obj_kind obj = RECTANGLE
    /\ obj_get "cornerRadius" obj
       = option_map HNum
           (inferPillRadius (base_width (rect_base n))
              (base_height (rect_base n)) (is_some (rect_fill n))
              (rect_cornerRadius n)).
Proof.
  intro Hp. destruct st as [l fc lg md pg sel]. cbn [store] in Hp |- *.
  cbn [renderNode]. unfold resize, apply_stroke, set_if_present.
  unfold node_width, node_height. cbn [node_base].
  destruct (inferPillRadius (base_width (rect_base n))
              (base_height (rect_base n)) (is_some (rect_fill n))
              (rect_cornerRadius n)) as [radius|];
    destruct (rect_fill n) as [fill|];
    destruct (rect_stroke n) as [stroke|];
    destruct (rect_strokeWidth n) as [width|];
    destruct (base_opacity (rect_base n)) as [o|];
    unfold bind, ret;
    cbn [note_mode modify create store fontCache log modes pageChildren
         selection];
    repeat (rewrite set_newest; cbv beta iota);
    rewrite (appendChild_newest _ _ _ _ _ _ _ _ Hp);
    (eexists; eexists; split; [reflexivity|]);
    cbn [store];
    (split; [apply nth_error_app_at, length_update_nth|]);
    split; reflexivity.
Qed.

Lemma fourteen_in_range : 14 < pow2 1024.
Proof.
  apply Qlt_trans with (pow2 4); [reflexivity | apply pow2_lt; lia].
Qed.

(** The floor of a half that binary64 has is the floor of the exact half. *)
Lemma floor_of_half (qh : Q) :
  0 < qh -> qh <= 28 -> representable (qh / 2) ->
  exists k : Z,
    Num.floor (Num.div_const (Finite qh) 2) = Finite (inject_Z k)
    /\ inject_Z k <= qh / 2 /\ qh / 2 < inject_Z (k + 1).
Proof.
  intros Hp Hh R.
  pose proof fourteen_in_range as F. pose proof (pow2_pos 1024) as P.
  assert (Hlo : - pow2 1024 < qh / 2).
  { apply Qlt_trans with 0; [lra|]. apply Qlt_shift_div_l; [reflexivity|].
    lra. }
  assert (Hhi : qh / 2 < pow2 1024).
  { apply Qle_lt_trans with 14; [|exact F].
    apply Qle_shift_div_r; [reflexivity|]. lra. }
  destruct (round_representable (qh / 2) R Hlo Hhi) as (r & E & Er).
  exists (Qfloor r). cbn [Num.div_const Num.floor]. rewrite E.
  split; [reflexivity|]. rewrite <- Er. split.
  - apply Qfloor_le.
  - apply Qlt_floor.
Qed.

(** So it is for every positive height that binary64 has: where halving
    underflows, the half and its rounding both lie between 0 and 1. *)
Lemma floor_of_double_half (qh : Q) :
  0 < qh -> qh <= 28 -> representable qh ->
  exists k : Z,
    Num.floor (Num.div_const (Finite qh) 2) = Finite (inject_Z k)
    /\ inject_Z k <= qh / 2 /\ qh / 2 < inject_Z (k + 1).
Proof.
  intros Hp Hh (m & e & Hm & He & HD).
  destruct (Z_le_gt_dec (-1073) e) as [G | G].
  - apply floor_of_half; try assumption.
    exists m, (e - 1)%Z. split; [exact Hm|]. split; [lia|].
    rewrite HD. replace e with ((e - 1) + 1)%Z at 1 by ring.
    rewrite pow2_plus. change (pow2 1) with 2. field.
  - assert (E : e = (-1074)%Z) by lia. subst e.
    pose proof (pow2_pos (-1074)) as P.
    assert (Hm' : inject_Z m <= inject_Z (2 ^ 53)).
    { rewrite <- Zle_Qle. lia. }
    assert (Small : qh / 2 <= pow2 (-1022)).
    { apply Qle_shift_div_r; [reflexivity|]. rewrite HD.
      apply Qle_trans with (inject_Z (2 ^ 53) * pow2 (-1074)).
      - apply Qmult_le_compat_r; [exact Hm' | lra].
      - rewrite <- pow2_Z by lia. apply Qle_trans with (pow2 (-1021)).
        + rewrite <- pow2_plus. apply pow2_le. lia.
        + change (-1021)%Z with (-1022 + 1)%Z. rewrite pow2_plus.
          change (pow2 1) with 2. apply Qle_refl. }
    assert (One : pow2 (-1022) < 1).
    { change 1 with (pow2 0). apply pow2_lt. lia. }
    assert (Pos : 0 < qh / 2).
    { apply Qlt_shift_div_l; [reflexivity | lra]. }
    assert (U : Num.leb (round (qh / 2)) (Finite (pow2 (-1022))) = true).
    { apply round_le; [| apply pow2_lt; lia | exact Small].
      exists 1%Z, (-1022)%Z. split; [cbn; lia|]. split; [lia|]. ring. }
    assert (L : Num.leb (Finite 0) (round (qh / 2)) = true).
    { apply round_ge; [apply (representable_Z 0); cbn; lia | |lra].
      pose proof (pow2_pos 1024). lra. }
    exists 0%Z. cbn [Num.div_const].
    destruct (round (qh / 2)) as [x| | |]; try discriminate U;
      try discriminate L.
    apply leb_Finite in U, L. cbn [Num.floor].
    assert (F : Qfloor x = 0%Z).
    { pose proof (Qfloor_le x) as F1.
      pose proof (Qfloor_resp_le (inject_Z 0) x L) as F2.
      rewrite Qfloor_Z in F2.
      assert (F3 : inject_Z (Qfloor x) < inject_Z 1).
      { change (inject_Z 1) with 1. lra. }
      rewrite <- Zlt_Qlt in F3. lia. }
    rewrite F. split; [reflexivity|].
    change (inject_Z 0) with 0. change (inject_Z (0 + 1)) with 1. split; lra.
Qed.

(** C3, as amended: a rect with no explicit corner radius, a fill, a
    height of at most 28 and a width of at least the product
    height * 1.6, as the code computes it in binary64, gets the radius
    Math.floor(height / 2); for a positive height, a number of binary64,
    that is the greatest integer not above half the height (height 24,
    width 60: radius 12; height 25: radius 12).  When the fill is
    missing, the height exceeds 28 or the width is below that product, no
    radius is inferred (height 40: none).  The product is the rounded one:
    with height 24 it lies above 38.4, so that a width of 38.4 gets no
    radius, and with height 2.9 it is 4.64, so that a width of 4.64 gets
    the radius 1.  The rectangle the renderer creates carries exactly the
    radius inferred, if any. *)
Theorem C3_pill_radius_is_floor_of_half_height :
  (forall w h : number,
      Num.leb h 28%Z = true ->
      Num.geb w (Num.mul h (Num.literal (16 # 10))) = true ->
      inferPillRadius w h true None
      = Some (Num.floor (Num.div_const h 2)))
  /\ (forall qh : Q,
        0 < qh -> qh <= 28 -> representable qh ->
        exists k : Z,
          Num.floor (Num.div_const (Finite qh) 2) = Finite (inject_Z k)
          /\ inject_Z k <= qh / 2 /\ qh / 2 < inject_Z (k + 1))
  /\ (forall (w h : number) (hasFill : bool),
        hasFill = false \/ Num.gtb h 28%Z = true
        \/ Num.ltb w (Num.mul h (Num.literal (16 # 10))) = true ->
        inferPillRadius w h hasFill None = None)
  /\ inferPillRadius 60%Z 24%Z true None = Some (Num.of_Z 12)
  /\ inferPillRadius 60%Z 25%Z true None = Some (Num.of_Z 12)
  /\ inferPillRadius 60%Z 40%Z true None = None
  /\ inferPillRadius (Num.literal (384 # 10)) 24%Z true None = None
  /\ inferPillRadius (Num.literal (464 # 100)) (Num.literal (29 # 10)) true
       None
     = Some (Num.of_Z 1)
  /\ (forall (host : Host) (n : RectNode) (parent : nat)
             (ax ay w h : number) (mode : string) (st : HostState),
        (parent < List.length (store st))%nat ->
        exists st' obj,
          renderNode host (Rect n) parent ax ay w h mode st
          = (Returned tt, st')
          /\ nth_error (store st') (List.length (store st)) = Some obj
          /\ obj_get "cornerRadius" obj
             = option_map HNum
                 (inferPillRadius (base_width (rect_base n))
                    (base_height (rect_base n)) (is_some (rect_fill n))
                    (rect_cornerRadius n))).
Proof.
  split; [|split; [exact floor_of_double_half | split]].
  - intros w h Hh Hw. unfold inferPillRadius. cbn [negb].
    rewrite Hh, Hw. reflexivity.
  - intros w h hasFill H. apply inferPillRadius_none_iff.
    destruct H as [H | [H | H]]; [left; exact H | right; left | right; right].
    + destruct h as [qh | | |]; simpl in *; try discriminate; try reflexivity.
      rewrite negb_true_iff in H. exact H.
    + destruct w as [qw | | |],
        (Num.mul h (Num.literal (16 # 10))) as [qm | | |];
        simpl in *; try discriminate; try reflexivity.
      rewrite negb_true_iff in H. exact H.
  - repeat (split; [vm_compute; reflexivity|]).
    intros host n parent ax ay w h mode st Hp.
    destruct (renderNode_rect_cornerRadius host n parent ax ay w h mode
                st Hp) as (st' & obj & H1 & H2 & _ & H3).
    exists st', obj. auto.
Qed.

Lemma C3_pill_radius_is_floor_of_half_height_witness :
  Num.leb 25%Z 28%Z = true
  /\ Num.geb 60%Z (Num.mul 25%Z (Num.literal (16 # 10))) = true
  /\ inferPillRadius 60%Z 25%Z true None
     = Some (Num.floor (Num.div_const 25%Z 2)).
Proof.
  assert (H1 : Num.leb 25%Z 28%Z = true) by (vm_compute; reflexivity).
  assert (H2 : Num.geb 60%Z (Num.mul 25%Z (Num.literal (16 # 10))) = true)
    by (vm_compute; reflexivity).
  split; [exact H1 | split; [exact H2 |]].
  exact (proj1 C3_pill_radius_is_floor_of_half_height 60%Z 25%Z H1 H2).
Defined.

(** C3 as stated fails: for height 25 and width 60 every condition of the
    heuristic holds, and the radius is 12, not 25/2. *)
Lemma C3_counterexample :
  ~ (forall qw qh : Q,
        (qh <= 28)%Q -> ((16 # 10) * qh <= qw)%Q ->
        exists r : Q,
          inferPillRadius (Finite qw) (Finite qh) true None = Some (Finite r)
          /\ (r == qh / 2)%Q).
Proof.
  intro H. destruct (H 60%Q 25%Q) as [r [E R]].
  - vm_compute. discriminate.
  - vm_compute. discriminate.
  - vm_compute in E. injection E as E. subst r. vm_compute in R. discriminate.
Qed.

(* ------------------------------------------------------------------ *)
(** * Further properties of the code *)

(** ** Fit scores *)







(** X2: a node whose two readings score differently is placed by the
    higher score whatever mode the caller prefers, and in every case the
    position is one of the two readings. *)
Theorem chooseLocalPosition_strict_winner (node : DesignNode)
    (ax ay w h : number) :
  ((relScore node w h < absScore node ax ay w h)%nat ->
     forall mode, chooseLocalPosition node ax ay w h mode
                  = absolute_point node ax ay)
  /\ ((absScore node ax ay w h < relScore node w h)%nat ->
        forall mode, chooseLocalPosition node ax ay w h mode
                     = relative_point node)
  /\ (forall mode,
        chooseLocalPosition node ax ay w h mode = relative_point node
        \/ chooseLocalPosition node ax ay w h mode
           = absolute_point node ax ay).
Proof.
  unfold chooseLocalPosition. split; [|split].
  - intros H mode. apply Nat.ltb_lt in H. rewrite H. reflexivity.
  - intros H mode.
    assert (H' : (relScore node w h <? absScore node ax ay w h)%nat = false)
      by (apply Nat.ltb_ge; lia).
    apply Nat.ltb_lt in H. rewrite H', H. reflexivity.
  - intro mode.
    repeat match goal with
           | |- context [if ?c then _ else _] => destruct c
           end; auto.
Qed.

Lemma chooseLocalPosition_strict_winner_witness :
  (relScore far_child 400%Z 300%Z
   < absScore far_child 100%Z 100%Z 400%Z 300%Z)%nat
  /\ chooseLocalPosition far_child 100%Z 100%Z 400%Z 300%Z "relative"
     = absolute_point far_child 100%Z 100%Z.
Proof.
  assert (H : (relScore far_child 400%Z 300%Z
               < absScore far_child 100%Z 100%Z 400%Z 300%Z)%nat)
    by (vm_compute; lia).
  split; [exact H |].
  exact (proj1 (chooseLocalPosition_strict_winner far_child 100%Z 100%Z
                  400%Z 300%Z) H "relative").
Defined.

Lemma list_sum_Permutation (l l' : list nat) :
  Permutation l l' -> list_sum l = list_sum l'.
Proof. induction 1; simpl; lia. Qed.

(** X3: the aggregate mode of a frame does not depend on the order of its
    children. *)
Theorem detectCoordinateMode_Permutation (nodes nodes' : list DesignNode)
    (ax ay w h : number) :
  Permutation nodes nodes' ->
  detectCoordinateMode nodes ax ay w h = detectCoordinateMode nodes' ax ay w h.
Proof.
  intro P. unfold detectCoordinateMode. rewrite !aggregateScores_sums.
  rewrite (list_sum_Permutation _ _
             (Permutation_map (fun n => relScore n w h) P)).
  rewrite (list_sum_Permutation _ _
             (Permutation_map (fun n => absScore n ax ay w h) P)).
  reflexivity.
Qed.

Lemma detectCoordinateMode_Permutation_witness :
  Permutation [tie_child; far_child] [far_child; tie_child]
  /\ detectCoordinateMode [tie_child; far_child] 100%Z 100%Z 400%Z 300%Z
     = detectCoordinateMode [far_child; tie_child] 100%Z 100%Z 400%Z 300%Z.
Proof.
  assert (P : Permutation [tie_child; far_child] [far_child; tie_child])
    by apply perm_swap.
  split; [exact P |].
  exact (detectCoordinateMode_Permutation _ _ 100%Z 100%Z 400%Z 300%Z P).
Defined.

(** ** A parent at the origin *)

(** Taking zero off a number leaves it as it is. *)
Lemma sub_zero (a : number) : Num.sub a 0%Z = a.
Proof. destruct a; reflexivity. Qed.

Lemma fitScore_sub_zero (x y w h pw ph : number) :
  fitScore (Num.sub x 0%Z) (Num.sub y 0%Z) w h pw ph = fitScore x y w h pw ph.
Proof.
  rewrite !sub_zero. reflexivity.
Qed.

(** X4: under a parent whose origin is (0,0) the two readings of a node
    always score the same, the aggregate mode is "relative", and every node
    is placed at its stored coordinates; this is the case of all top-level
    nodes. *)
Theorem origin_parent_keeps_coordinates (w h : number) :
  (forall node, absScore node 0%Z 0%Z w h = relScore node w h)
  /\ (forall nodes, detectCoordinateMode nodes 0%Z 0%Z w h = "relative")
  /\ (forall node, chooseLocalPosition node 0%Z 0%Z w h "relative"
                   = relative_point node)
  /\ (forall nodes node,
        chooseLocalPosition node 0%Z 0%Z w h
          (detectCoordinateMode nodes 0%Z 0%Z w h)
        = relative_point node).
Proof.
  assert (S : forall node, absScore node 0%Z 0%Z w h = relScore node w h).
  { intro node. unfold absScore, relScore. apply fitScore_sub_zero. }
  assert (D : forall nodes, detectCoordinateMode nodes 0%Z 0%Z w h
                            = "relative").
  { intro nodes. apply detectCoordinateMode_relative_iff.
    rewrite (map_ext _ _ S). lia. }
  assert (C : forall node, chooseLocalPosition node 0%Z 0%Z w h "relative"
                           = relative_point node).
  { intro node. unfold chooseLocalPosition. rewrite S, Nat.ltb_irrefl.
    reflexivity. }
  split; [exact S|]. split; [exact D|]. split; [exact C|].
  intros nodes node. rewrite D. apply C.
Qed.

(** ** Bounds of the inferred radius *)

(** X5: a radius that is inferred (not given) never exceeds 14 nor half the
    height, and is not negative when the height is positive. *)
Theorem inferPillRadius_bounds (w h : number) (hasFill : bool) (r : number) :
  inferPillRadius w h hasFill None = Some r ->
  Num.leb r 14%Z = true
  /\ Num.leb r (Num.div_const h 2) = true
  /\ (above_0 h = true -> at_least_0 r = true).
Proof.
  unfold inferPillRadius. destruct hasFill; simpl negb; cbv iota;
    [|discriminate].
  destruct (Num.leb h 28%Z) eqn:Hh; [|discriminate]. cbn [andb].
  destruct (Num.geb w (Num.mul h (Num.literal (16 # 10)))) eqn:Hw;
    [|discriminate].
  intro E. injection E as <-.
  destruct h as [q| | |]; try discriminate Hh.
  - cbn [Num.div_const]. apply leb_Finite in Hh.
    change (inject_Z 28) with 28%Q in Hh.
    assert (Hhalf : q / 2 <= 14).
    { apply Qle_shift_div_r; [reflexivity|].
      setoid_replace (14 * 2)%Q with 28%Q by reflexivity. exact Hh. }
    pose proof (round_le (q / 2) 14 (representable_Z 14 ltac:(cbn; lia))
                  fourteen_in_range Hhalf) as U.
    assert (L : 0 < q -> Num.leb (Finite 0) (round (q / 2)) = true).
    { intro Hp. apply round_ge.
      - apply (representable_Z 0). cbn. lia.
      - pose proof (pow2_pos 1024). lra.
      - apply Qle_shift_div_l; [reflexivity|]. lra. }
    destruct (round (q / 2)) as [x| | |]; try discriminate U.
    + cbn [Num.floor]. apply leb_Finite in U.
      pose proof (Qfloor_le x) as F1.
      split; [|split].
      * apply leb_Finite. change (inject_Z 14) with 14%Q. lra.
      * apply leb_Finite. exact F1.
      * unfold above_0, at_least_0. cbn [finite Num.isFinite andb].
        intro Hp. apply gtb_Finite in Hp. apply geb_Finite.
        change (inject_Z 0) with 0%Q in *.
        specialize (L Hp). apply leb_Finite in L.
        assert (Hz : (0 <= Qfloor x)%Z).
        { apply Qfloor_resp_le with (x := 0%Q) (y := x). exact L. }
        rewrite Zle_Qle in Hz. exact Hz.
    + cbn [Num.floor]. split; [reflexivity | split; [reflexivity|]].
      unfold above_0. cbn [finite Num.isFinite andb].
      intro Hp. apply gtb_Finite in Hp. change (inject_Z 0) with 0%Q in Hp.
      specialize (L Hp). discriminate L.
  - cbn. repeat split. discriminate.
Qed.

Lemma inferPillRadius_bounds_witness :
  inferPillRadius 60%Z 24%Z true None = Some (Num.of_Z 12)
  /\ Num.leb (Num.of_Z 12) 14%Z = true.
Proof.
  assert (H : inferPillRadius 60%Z 24%Z true None = Some (Num.of_Z 12))
    by reflexivity.
  split; [exact H |].
  exact (proj1 (inferPillRadius_bounds 60%Z 24%Z true (Num.of_Z 12) H)).
Defined.

(** ** The validator reads the schema's properties only *)

Lemma Forall2_In_l {A B} (R : A -> B -> Prop) (l : list A) (l' : list B)
    (a : A) :
  Forall2 R l l' -> In a l -> exists b, In b l' /\ R a b.
Proof.
  induction 1 as [|a' b l l' Hab _ IH]; simpl; [tauto|].
  intros [<- | Hin].
  - exists b. auto.
  - destruct (IH Hin) as [b' [H1 H2]]. exists b'. auto.
Qed.

Ltac use_agreement H :=
  rewrite ?(H "name"), ?(H "x"), ?(H "y"), ?(H "width"), ?(H "height"),
    ?(H "opacity"), ?(H "type"), ?(H "fill"), ?(H "stroke"),
    ?(H "strokeWidth"), ?(H "cornerRadius"), ?(H "text"), ?(H "fontFamily"),
    ?(H "fontStyle"), ?(H "fontSize"), ?(H "alignHorizontal"),
    ?(H "layoutMode"), ?(H "padding"), ?(H "itemSpacing"), ?(H "imageUrl"),
    ?(H "imageDataUrl"), ?(H "scaleMode")
    by (unfold node_keys; simpl; tauto).

(** Apart from the frame schema, a member of the union reads the listed
    properties only. *)
Lemma member_schemas_agree (props props' : list (string * jsval)) :
  agree_on node_keys (JObj props) (JObj props') ->
  RectNodeSchema (JObj props) = RectNodeSchema (JObj props')
  /\ TextNodeSchema (JObj props) = TextNodeSchema (JObj props')
  /\ EllipseNodeSchema (JObj props) = EllipseNodeSchema (JObj props')
  /\ ImageNodeSchema (JObj props) = ImageNodeSchema (JObj props').
Proof.
  intro H.
  unfold RectNodeSchema, TextNodeSchema, EllipseNodeSchema, ImageNodeSchema,
    ImageNodeShape, z_refine, NodeBaseSchema, z_object.
  use_agreement H. repeat split; reflexivity.
Qed.

(** Objects that agree on the schema's properties, and whose children
    validate alike, validate alike. *)
Lemma DesignNodeSchema_agree (props props' : list (string * jsval)) :
  agree_on node_keys (JObj props) (JObj props') ->
  z_default [] (z_array DesignNodeSchema) (get "children" (JObj props))
  = z_default [] (z_array DesignNodeSchema) (get "children" (JObj props')) ->
  DesignNodeSchema (JObj props) = DesignNodeSchema (JObj props').
Proof.
  intros H Hc. rewrite !DesignNodeSchema_unfold.
  destruct (member_schemas_agree _ _ H) as (R & T & E & I).
  unfold z_union, first_match. rewrite R, T, E, I.
  unfold FrameNodeSchema, NodeBaseSchema, z_object.
  rewrite !get_then_get, Hc.
  use_agreement H. reflexivity.
Qed.

(** The frame schema rejects an object of another type, whatever its
    children. *)
Lemma FrameNodeSchema_not_frame (node : Schema DesignNode)
    (props : list (string * jsval)) (t : string) :
  get "type" (JObj props) = JStr t -> t <> "frame" ->
  exists e, FrameNodeSchema node (JObj props) = SchemaViolation e.
Proof.
  intros Ht Hnf. unfold FrameNodeSchema, z_object. rewrite Ht.
  destruct (NodeBaseSchema (JObj props)); cbn [result_bind];
    [|eexists; reflexivity].
  unfold z_literal. apply String.eqb_neq in Hnf. rewrite Hnf.
  cbn [result_bind]. eexists. reflexivity.
Qed.

(** X6: the validator reads nothing but the properties of the schemas: an
    object with one more property of any other name validates exactly as
    the object without it. *)
Theorem DesignNodeSchema_ignores_unknown_property
    (props : list (string * jsval)) (k : string) (x : jsval) :
  ~ In k ("children" :: node_keys) ->
  DesignNodeSchema (JObj (props ++ [(k, x)])) = DesignNodeSchema (JObj props).
Proof.
  intro Hk.
  assert (G : forall k', In k' ("children" :: node_keys) ->
                         get k' (JObj (props ++ [(k, x)]))
                         = get k' (JObj props)).
  { intros k' Hin. unfold get.
    assert (Hne : String.eqb k' k = false).
    { apply String.eqb_neq. intros ->. exact (Hk Hin). }
    induction props as [|[k0 v0] props IH]; simpl.
    - rewrite Hne. reflexivity.
    - destruct (String.eqb k' k0); [reflexivity | exact IH]. }
  apply DesignNodeSchema_agree.
  - intros k' Hin. apply G. right. exact Hin.
  - rewrite (G "children") by (left; reflexivity). reflexivity.
Qed.

Lemma DesignNodeSchema_ignores_unknown_property_witness :
  ~ In "role" ("children" :: node_keys)
  /\ DesignNodeSchema
       (JObj ([("type", JStr "rect"); ("x", JNum 0%Z); ("y", JNum 0%Z);
               ("width", JNum 10%Z); ("height", JNum 10%Z)]
              ++ [("role", JStr "header")]))
     = DesignNodeSchema
         (JObj [("type", JStr "rect"); ("x", JNum 0%Z); ("y", JNum 0%Z);
                ("width", JNum 10%Z); ("height", JNum 10%Z)]).
Proof.
  assert (H : ~ In "role" ("children" :: node_keys)).
  { unfold node_keys. simpl. intro H.
    repeat (destruct H as [H | H]; [discriminate H|]). exact H. }
  split; [exact H |].
  exact (DesignNodeSchema_ignores_unknown_property _ "role" (JStr "header") H).
Defined.

(** X7: validation is all or nothing inside a frame: a frame with a child
    that fails validation fails itself. *)
Theorem invalid_child_fails_the_frame (v : jsval) (items : list jsval)
    (item : jsval) :
  get "type" v = JStr "frame" ->
  get "children" v = JArr items ->
  In item items ->
  is_ok (DesignNodeSchema item) = false ->
  is_ok (DesignNodeSchema v) = false.
Proof.
  intros Ht Hc Hin Hbad.
  destruct (DesignNodeSchema v) as [d|e] eqn:E; [|reflexivity]. exfalso.
  apply DesignNodeSchema_ok in E.
  destruct E as [[m [-> H]] | [[m [-> H]] | [H | [[m [-> H]] | [m [-> H]]]]]].
  - apply z_object_ok in H. parse_steps H. apply z_literal_ok in Ha0.
    congruence.
  - apply z_object_ok in H. parse_steps H. apply z_literal_ok in Ha0.
    congruence.
  - apply FrameNodeSchema_ok in H as (n & cs & _ & _ & _ & _ & _ & _ & _
                                       & _ & _ & Hcs).
    destruct Hcs as [[Hu _] | [items' [Hi Hall]]]; [congruence|].
    rewrite Hc in Hi. injection Hi as <-.
    destruct (Forall2_In_l _ _ _ item Hall Hin) as [c [_ Hok]].
    rewrite Hok in Hbad. discriminate Hbad.
  - apply z_object_ok in H. parse_steps H. apply z_literal_ok in Ha0.
    congruence.
  - apply z_refine_ok in H as [H _].
    apply z_object_ok in H. parse_steps H. apply z_literal_ok in Ha0.
    congruence.
Qed.

Lemma invalid_child_fails_the_frame_witness :
  is_ok (DesignNodeSchema
           (JObj [("type", JStr "frame"); ("x", JNum 0%Z); ("y", JNum 0%Z);
                  ("width", JNum 100%Z); ("height", JNum 100%Z);
                  ("children",
                   JArr [JObj [("type", JStr "rect"); ("x", JNum 0%Z);
                               ("y", JNum 0%Z); ("width", JNum 10%Z)]])]))
  = false.
Proof.
  apply (invalid_child_fails_the_frame _
           [JObj [("type", JStr "rect"); ("x", JNum 0%Z); ("y", JNum 0%Z);
                  ("width", JNum 10%Z)]]
           (JObj [("type", JStr "rect"); ("x", JNum 0%Z); ("y", JNum 0%Z);
                  ("width", JNum 10%Z)])).
  - reflexivity.
  - reflexivity.
  - left. reflexivity.
  - vm_compute. reflexivity.
Defined.

(** X8: a document validates only if every item of its [nodes] does, and
    then the validated nodes are those items, one for one and in the same
    order. *)
Theorem DesignSpecSchema_nodes_one_for_one (v : jsval) (items : list jsval) :
  get "nodes" v = JArr items ->
  (forall item, In item items -> is_ok (DesignNodeSchema item) = false ->
                is_ok (DesignSpecSchema v) = false)
  /\ (forall s, DesignSpecSchema v = Ok s ->
                Forall2 (fun w a => DesignNodeSchema w = Ok a) items
                  (spec_nodes s)
                /\ List.length (spec_nodes s) = List.length items).
Proof.
  intro Hn.
  assert (G : forall s, DesignSpecSchema v = Ok s ->
                        Forall2 (fun w a => DesignNodeSchema w = Ok a) items
                          (spec_nodes s)).
  { intros s E. apply z_object_ok in E. parse_steps E. injection E as <-.
    apply z_default_array_ok in Ha0 as [[Hu _] | [items' [Hi Hall]]];
      [congruence|].
    rewrite Hn in Hi. injection Hi as <-. exact Hall. }
  split.
  - intros item Hin Hbad.
    destruct (DesignSpecSchema v) as [s|e] eqn:E; [|reflexivity]. exfalso.
    destruct (Forall2_In_l _ _ _ item (G s eq_refl) Hin) as [c [_ Hok]].
    rewrite Hok in Hbad. discriminate Hbad.
  - intros s E. split; [exact (G s E)|].
    symmetry. exact (Forall2_length (G s E)).
Qed.

Lemma DesignSpecSchema_nodes_one_for_one_witness :
  is_ok (DesignSpecSchema
           (JObj [("canvas", JObj [("width", JNum 100%Z);
                                   ("height", JNum 100%Z)]);
                  ("nodes", JArr [JStr "header"])]))
  = false.
Proof.
  refine (proj1 (DesignSpecSchema_nodes_one_for_one _ [JStr "header"] _)
            (JStr "header") _ _).
  - reflexivity.
  - left. reflexivity.
  - reflexivity.
Defined.

(** X9: the children of a node that is no frame are never looked at: two
    objects of such a type that agree on the properties of the schemas
    validate alike, whatever [children] holds. *)
Theorem children_of_a_leaf_are_not_read (props props' : list (string * jsval))
    (t : string) :
  agree_on node_keys (JObj props) (JObj props') ->
  get "type" (JObj props) = JStr t -> t <> "frame" ->
  DesignNodeSchema (JObj props) = DesignNodeSchema (JObj props').
Proof.
  intros Ha Ht Hnf.
  destruct (member_schemas_agree _ _ Ha) as (R & T & E & I).
  assert (Ht' : get "type" (JObj props') = JStr t).
  { rewrite <- (Ha "type") by (unfold node_keys; simpl; tauto). exact Ht. }
  destruct (FrameNodeSchema_not_frame DesignNodeSchema _ t Ht Hnf)
    as [e1 F1].
  destruct (FrameNodeSchema_not_frame DesignNodeSchema _ t Ht' Hnf)
    as [e2 F2].
  rewrite !DesignNodeSchema_unfold. unfold z_union, first_match.
  rewrite R, T, E, I, F1, F2. reflexivity.
Qed.

Lemma children_of_a_leaf_are_not_read_witness :
  DesignNodeSchema
    (JObj [("type", JStr "rect"); ("x", JNum 0%Z); ("y", JNum 0%Z);
           ("width", JNum 10%Z); ("height", JNum 10%Z);
           ("children", JStr "none")])
  = DesignNodeSchema
      (JObj [("type", JStr "rect"); ("x", JNum 0%Z); ("y", JNum 0%Z);
             ("width", JNum 10%Z); ("height", JNum 10%Z)]).
Proof.
  apply (children_of_a_leaf_are_not_read _ _ "rect").
  - intros k Hin. unfold node_keys in Hin. simpl in Hin.
    repeat (destruct Hin as [<- | Hin]; [reflexivity|]). destruct Hin.
  - reflexivity.
  - discriminate.
Defined.

(** X10: every image node of a validated document names a source the
    renderer will try: a non-empty [imageUrl], or an [imageDataUrl] that
    starts with [data:image/]. *)
Theorem validated_image_has_a_source (v : jsval) (s : DesignSpec)
    (n : ImageNode) :
  DesignSpecSchema v = Ok s ->
  In (Image n) (all_nodes s) ->
  (exists u, image_imageUrl n = Some u /\ u <> "")
  \/ (exists u, image_imageDataUrl n = Some u
                /\ String.prefix "data:image/" u = true).
Proof.
  intros H Hin.
  pose proof (valid_all_nodes s (DesignSpecSchema_valid v s H) _ Hin) as Hv.
  cbn [valid_node] in Hv. rewrite !andb_true_iff in Hv.
  destruct Hv as [[[[[[_ _] Hd] _] _] _] Hs].
  apply orb_true_iff in Hs as [Hs | Hs].
  - left. destruct (image_imageUrl n) as [u|]; [|discriminate Hs].
    exists u. split; [reflexivity|]. simpl in Hs.
    apply negb_true_iff, String.eqb_neq in Hs. exact Hs.
  - right. destruct (image_imageDataUrl n) as [u|]; [|discriminate Hs].
    exists u. split; [reflexivity | exact Hd].
Qed.

Lemma validated_image_has_a_source_witness :
  (exists u, Some "https://example.com/a.png" = Some u /\ u <> "")
  \/ (exists u, @None string = Some u
                /\ String.prefix "data:image/" u = true).
Proof.
  exact (validated_image_has_a_source
           (JObj [("canvas", JObj [("width", JNum 100%Z);
                                   ("height", JNum 100%Z)]);
                  ("nodes",
                   JArr [JObj [("type", JStr "image"); ("x", JNum 0%Z);
                               ("y", JNum 0%Z); ("width", JNum 10%Z);
                               ("height", JNum 10%Z);
                               ("imageUrl",
                                JStr "https://example.com/a.png")]])])
           _
           (mkImage (mkBase None 0%Z 0%Z 10%Z 10%Z None)
              (Some "https://example.com/a.png") None None None None None)
           eq_refl (or_introl eq_refl)).
Defined.

(** ** The normalizer *)

Section NormalizerFacts.

Variable N : string -> number.

Lemma normalizeNode_unfold (input : jsval) :
  normalizeNode N input
  = if negb (truthy input && is_object input) then None else
    match allowed_type (get "type" input) with
    | None => None
    | Some type =>
      match toNumber N (get "x" input), toNumber N (get "y" input),
            toNumber N (get "width" input), toNumber N (get "height" input)
      with
      | Some x, Some y, Some width, Some height =>
        let base :=
          [("type", JStr type); ("x", JNum x); ("y", JNum y);
           ("width", JNum width); ("height", JNum height)]
          ++ copy_string "name" input
          ++ copy_number N "opacity" input in
        if String.eqb type "text" then
          Some (JObj (base
            ++ [("text", JStr match as_string (get "text" input) with
                              | Some s => s
                              | None => ""
                              end)]
            ++ copy_string "fontFamily" input
            ++ text_fontStyle_props N input
            ++ copy_number N "fontSize" input
            ++ text_fill_props input
            ++ text_align_props input))
        else if String.eqb type "rect" then
          Some (JObj (base
            ++ copy_truthy "fill" input
            ++ copy_truthy "stroke" input
            ++ copy_number N "strokeWidth" input
            ++ copy_number N "cornerRadius" input))
        else if String.eqb type "ellipse" then
          Some (JObj (base
            ++ copy_truthy "fill" input
            ++ copy_truthy "stroke" input
            ++ copy_number N "strokeWidth" input))
        else if String.eqb type "image" then
          match as_string (get "imageUrl" input),
                as_string (get "imageDataUrl" input) with
          | None, None =>
              Some (JObj
                [("type", JStr "rect");
                 ("name", JStr match as_string (get "name" input) with
                               | Some n => (n ++ " Placeholder")%string
                               | None => "Image Placeholder"
                               end);
                 ("x", JNum x); ("y", JNum y);
                 ("width", JNum width); ("height", JNum height);
                 ("cornerRadius",
                  JNum match toNumber N (get "cornerRadius" input) with
                       | Some cr => cr
                       | None => 8%Z
                       end);
                 ("fill", placeholder_fill)])
          | _, _ =>
              Some (JObj (base
                ++ copy_string "imageUrl" input
                ++ copy_string "imageDataUrl" input
                ++ copy_string "scaleMode" input
                ++ copy_number N "cornerRadius" input
                ++ copy_truthy "stroke" input
                ++ copy_number N "strokeWidth" input))
          end
        else
          Some (JObj (base
            ++ copy_string "layoutMode" input
            ++ padding_props N input
            ++ copy_number N "itemSpacing" input
            ++ copy_truthy "fill" input
            ++ copy_truthy "stroke" input
            ++ copy_number N "strokeWidth" input
            ++ copy_number N "cornerRadius" input
            ++ match get "children" input with
               | JArr items => [("children", JArr (normalizeNodes N items))]
               | _ => []
               end))
      | _, _, _, _ => None
      end
    end.
Proof.
  destruct input; try reflexivity.
  cbn [normalizeNode]. rewrite get_then_get. reflexivity.
Qed.

Lemma allowed_type_some (t : jsval) (s : string) :
  allowed_type t = Some s -> t = JStr s /\ In s node_types.
Proof.
  destruct t as [| | | |s0| | |]; try discriminate. cbn [allowed_type].
  destruct (String.eqb s0 "rect") eqn:E1; cbn [orb].
  { apply String.eqb_eq in E1. intro H. injection H as <-.
    split; [reflexivity | rewrite E1; simpl; tauto]. }
  destruct (String.eqb s0 "text") eqn:E2; cbn [orb].
  { apply String.eqb_eq in E2. intro H. injection H as <-.
    split; [reflexivity | rewrite E2; simpl; tauto]. }
  destruct (String.eqb s0 "frame") eqn:E3; cbn [orb].
  { apply String.eqb_eq in E3. intro H. injection H as <-.
    split; [reflexivity | rewrite E3; simpl; tauto]. }
  destruct (String.eqb s0 "ellipse") eqn:E4; cbn [orb].
  { apply String.eqb_eq in E4. intro H. injection H as <-.
    split; [reflexivity | rewrite E4; simpl; tauto]. }
  destruct (String.eqb s0 "image") eqn:E5.
  { apply String.eqb_eq in E5. intro H. injection H as <-.
    split; [reflexivity | rewrite E5; simpl; tauto]. }
  discriminate.
Qed.

Lemma toNumber_some (v : jsval) (n : number) :
  toNumber N v = Some n -> Num.isFinite n = true.
Proof.
  destruct v; simpl; try discriminate.
  - destruct (Num.isFinite n0) eqn:E; [|discriminate].
    intro H. injection H as <-. exact E.
  - destruct (negb (is_blank s)); [|discriminate].
    destruct (Num.isFinite (N s)) eqn:E; [|discriminate].
    intro H. injection H as <-. exact E.
Qed.

(** X11: [normalizeNode] drops a value in exactly three cases: it is no
    object, its [type] is not one of the five names, or one of x, y, width
    and height does not resolve to a finite number. *)
Theorem normalizeNode_drops_exactly (input : jsval) :
  normalizeNode N input = None <->
  (is_object input = false
   \/ (forall t, In t node_types -> get "type" input <> JStr t)
   \/ exists k, In k geometry_keys /\ toNumber N (get k input) = None).
Proof.
  rewrite normalizeNode_unfold. split.
  - destruct (truthy input && is_object input) eqn:E; cbn [negb].
    2:{ intros _. left.
        destruct input; try reflexivity; simpl in E; discriminate E. }
    destruct (allowed_type (get "type" input)) as [type|] eqn:Et.
    2:{ intros _. right. left. intros t Hin Ht. rewrite Ht in Et.
        unfold node_types in Hin. simpl in Hin.
        destruct Hin as [<- | [<- | [<- | [<- | [<- | []]]]]];
          vm_compute in Et; discriminate Et. }
    destruct (toNumber N (get "x" input)) eqn:Ex;
      [|intros _; right; right; exists "x"; simpl; auto].
    destruct (toNumber N (get "y" input)) eqn:Ey;
      [|intros _; right; right; exists "y"; simpl; auto].
    destruct (toNumber N (get "width" input)) eqn:Ew;
      [|intros _; right; right; exists "width"; simpl; auto].
    destruct (toNumber N (get "height" input)) eqn:Eh;
      [|intros _; right; right; exists "height"; simpl; auto 6].
    cbv zeta.
    destruct (String.eqb type "text"); [discriminate|].
    destruct (String.eqb type "rect"); [discriminate|].
    destruct (String.eqb type "ellipse"); [discriminate|].
    destruct (String.eqb type "image"); [|discriminate].
    destruct (as_string (get "imageUrl" input)),
      (as_string (get "imageDataUrl" input)); discriminate.
  - intros [H | [H | [k [Hin H]]]].
    + destruct input; simpl; rewrite ?andb_false_r; try reflexivity;
        simpl in H; discriminate H.
    + destruct (truthy input && is_object input); [|reflexivity].
      cbn [negb].
      destruct (allowed_type (get "type" input)) as [type|] eqn:Et;
        [|reflexivity].
      apply allowed_type_some in Et as [Et Hin]. destruct (H _ Hin Et).
    + destruct (truthy input && is_object input); [|reflexivity].
      cbn [negb].
      destruct (allowed_type (get "type" input)); [|reflexivity].
      unfold geometry_keys in Hin. simpl in Hin.
      destruct Hin as [<- | [<- | [<- | [<- | []]]]]; rewrite H.
      * reflexivity.
      * destruct (toNumber N (get "x" input)); reflexivity.
      * destruct (toNumber N (get "x" input)), (toNumber N (get "y" input));
          reflexivity.
      * destruct (toNumber N (get "x" input)), (toNumber N (get "y" input)),
          (toNumber N (get "width" input)); reflexivity.
Qed.

(** The properties a surviving node starts with: either the five of
    [base], or those of the placeholder rectangle. *)
Lemma normalizeNode_prefix (input out : jsval) :
  normalizeNode N input = Some out ->
  exists type x y w h,
    get "type" input = JStr type /\ In type node_types
    /\ toNumber N (get "x" input) = Some x
    /\ toNumber N (get "y" input) = Some y
    /\ toNumber N (get "width" input) = Some w
    /\ toNumber N (get "height" input) = Some h
    /\ ((exists rest,
           out = JObj ([("type", JStr type); ("x", JNum x); ("y", JNum y);
                        ("width", JNum w); ("height", JNum h)] ++ rest))
        \/ (type = "image"
            /\ as_string (get "imageUrl" input) = None
            /\ as_string (get "imageDataUrl" input) = None
            /\ exists name rest,
                 out = JObj ([("type", JStr "rect"); ("name", name);
                              ("x", JNum x); ("y", JNum y);
                              ("width", JNum w); ("height", JNum h)]
                             ++ rest))).
Proof.
  rewrite normalizeNode_unfold.
  destruct (truthy input && is_object input); cbn [negb]; [|discriminate].
  destruct (allowed_type (get "type" input)) as [type|] eqn:Et;
    [|discriminate].
  apply allowed_type_some in Et as [Et Hin].
  destruct (toNumber N (get "x" input)) as [x|] eqn:Ex; [|discriminate].
  destruct (toNumber N (get "y" input)) as [y|] eqn:Ey; [|discriminate].
  destruct (toNumber N (get "width" input)) as [w|] eqn:Ew; [|discriminate].
  destruct (toNumber N (get "height" input)) as [h|] eqn:Eh; [|discriminate].
  cbv zeta. intro H. exists type, x, y, w, h.
  repeat (split; [assumption || reflexivity|]).
  destruct (String.eqb type "text").
  { injection H as <-. left. rewrite <- !app_assoc. eexists. reflexivity. }
  destruct (String.eqb type "rect").
  { injection H as <-. left. rewrite <- !app_assoc. eexists. reflexivity. }
  destruct (String.eqb type "ellipse").
  { injection H as <-. left. rewrite <- !app_assoc. eexists. reflexivity. }
  destruct (String.eqb type "image") eqn:Ei.
  - apply String.eqb_eq in Ei.
    destruct (as_string (get "imageUrl" input)) eqn:E1.
    { injection H as <-. left. rewrite <- !app_assoc. eexists.
      reflexivity. }
    destruct (as_string (get "imageDataUrl" input)) eqn:E2.
    { injection H as <-. left. rewrite <- !app_assoc. eexists.
      reflexivity. }
    injection H as <-. right. repeat (split; [assumption || reflexivity|]).
    eexists. eexists. reflexivity.
  - injection H as <-. left. rewrite <- !app_assoc. eexists. reflexivity.
Qed.

(** The geometry of a surviving node is the one [toNumber] read. *)
Lemma normalizeNode_geometry (input out : jsval) (k : string) :
  normalizeNode N input = Some out ->
  In k geometry_keys ->
  exists n, toNumber N (get k input) = Some n
            /\ get k out = JNum n /\ Num.isFinite n = true.
Proof.
  intros H Hk.
  destruct (normalizeNode_prefix input out H)
    as (type & x & y & w & h & Et & Hin & Ex & Ey & Ew & Eh & G).
  pose proof (toNumber_some _ _ Ex) as Fx.
  pose proof (toNumber_some _ _ Ey) as Fy.
  pose proof (toNumber_some _ _ Ew) as Fw.
  pose proof (toNumber_some _ _ Eh) as Fh.
  unfold geometry_keys in Hk. simpl in Hk.
  destruct G as [[rest ->] | (-> & E1 & E2 & name & rest & ->)];
    destruct Hk as [<- | [<- | [<- | [<- | []]]]]; eexists;
    (split; [eassumption | split; [reflexivity | assumption]]).
Qed.

(** X12: a node that survives is an object whose [type] is one of the five
    names: the input's own, except that an image without a string under
    [imageUrl] or [imageDataUrl] comes out as a "rect"; and its x, y, width
    and height are finite numbers, the ones [toNumber] read. *)
Theorem normalizeNode_output_shape (input out : jsval) :
  normalizeNode N input = Some out ->
  (exists props, out = JObj props)
  /\ (exists t, In t node_types /\ get "type" out = JStr t)
  /\ (get "type" out = get "type" input
      \/ (get "type" input = JStr "image" /\ get "type" out = JStr "rect"
          /\ as_string (get "imageUrl" input) = None
          /\ as_string (get "imageDataUrl" input) = None))
  /\ (forall k, In k geometry_keys ->
        exists n, toNumber N (get k input) = Some n
                  /\ get k out = JNum n /\ Num.isFinite n = true).
Proof.
  intro H.
  destruct (normalizeNode_prefix input out H)
    as (type & x & y & w & h & Et & Hin & _ & _ & _ & _ & G).
  split; [|split; [|split]].
  - destruct G as [[rest ->] | (_ & _ & _ & name & rest & ->)]; eauto.
  - destruct G as [[rest ->] | (_ & _ & _ & name & rest & ->)].
    + exists type. split; [exact Hin | reflexivity].
    + exists "rect". split; [simpl; auto | reflexivity].
  - destruct G as [[rest ->] | (-> & E1 & E2 & name & rest & ->)].
    + left. rewrite Et. reflexivity.
    + right. auto.
  - intros k Hk. exact (normalizeNode_geometry input out k H Hk).
Qed.

End NormalizerFacts.

Lemma normalizeNode_output_shape_witness :
  exists t, In t node_types
            /\ get "type"
                 (JObj [("type", JStr "rect"); ("x", JNum 0%Z);
                        ("y", JNum 0%Z); ("width", JNum 10%Z);
                        ("height", JNum 10%Z)]) = JStr t.
Proof.
  exact (proj1 (proj2 (normalizeNode_output_shape digits_Number
           (JObj [("type", JStr "rect"); ("x", JStr "0"); ("y", JNum 0%Z);
                  ("width", JStr "10"); ("height", JNum 10%Z)])
           (JObj [("type", JStr "rect"); ("x", JNum 0%Z); ("y", JNum 0%Z);
                  ("width", JNum 10%Z); ("height", JNum 10%Z)])
           eq_refl))).
Defined.

(** ** The normalizer and the validator together *)

Lemma size_not_positive_rejected (v : jsval) (n : number) :
  get "width" v = JNum n \/ get "height" v = JNum n ->
  above_0 n = false ->
  exists reason, DesignNodeSchema v = SchemaViolation reason.
Proof.
  intros Hdim Hn.
  destruct (DesignNodeSchema v) as [d|reason] eqn:E; [|eauto]. exfalso.
  destruct (DesignNodeSchema_base v d E) as [Hb _].
  pose proof (NodeBaseSchema_valid _ _ Hb) as Hv.
  apply NodeBaseSchema_fields in Hb as (_ & _ & Hwd & Hht).
  unfold valid_base in Hv. rewrite !andb_true_iff in Hv.
  destruct Hv as [[[_ Hpw] Hph] _].
  destruct Hdim as [Hd | Hd]; rewrite Hd in *.
  - injection Hwd as Hwd. rewrite <- Hwd in Hpw. congruence.
  - injection Hht as Hht. rewrite <- Hht in Hph. congruence.
Qed.

Lemma DesignSpecSchema_nodes_ok (v : jsval) (items : list jsval)
    (s : DesignSpec) :
  get "nodes" v = JArr items ->
  DesignSpecSchema v = Ok s ->
  Forall2 (fun w a => DesignNodeSchema w = Ok a) items (spec_nodes s).
Proof.
  intros Hn E. apply z_object_ok in E. parse_steps E. injection E as <-.
  apply z_default_array_ok in Ha0 as [[Hu _] | [items' [Hi Hall]]];
    [congruence|].
  rewrite Hn in Hi. injection Hi as <-. exact Hall.
Qed.

Lemma In_normalizeNodes (N : string -> number) (items : list jsval)
    (item out : jsval) :
  In item items -> normalizeNode N item = Some out ->
  In out (normalizeNodes N items).
Proof.
  intros Hin Hout. unfold normalizeNodes. apply in_flat_map.
  exists item. split; [exact Hin|]. rewrite Hout. left. reflexivity.
Qed.

(** X13: the normalizer does not repair sizes.  A node whose width or
    height resolves to a number that is not positive survives with that
    number, the validator rejects it, and with it the whole normalized
    document it is a node of. *)
Theorem normalizer_keeps_sizes_that_are_not_positive
    (N : string -> number) (item out : jsval) (k : string) (n : number) :
  normalizeNode N item = Some out ->
  k = "width" \/ k = "height" ->
  toNumber N (get k item) = Some n ->
  above_0 n = false ->
  get k out = JNum n
  /\ (exists reason, DesignNodeSchema out = SchemaViolation reason)
  /\ (forall (input : jsval) (items : list jsval) (width height : number),
        get "nodes" input = JArr items -> In item items ->
        is_ok (DesignSpecSchema (normalizeSpec N input width height))
        = false).
Proof.
  intros Hout Hk Hn Hpos.
  assert (Hget : get k out = JNum n).
  { destruct (normalizeNode_geometry N item out k Hout) as (n' & E1 & E2 & _).
    - unfold geometry_keys. destruct Hk as [-> | ->]; simpl; auto.
    - rewrite Hn in E1. injection E1 as <-. exact E2. }
  assert (Hbad : exists reason, DesignNodeSchema out = SchemaViolation reason).
  { apply (size_not_positive_rejected out n); [|exact Hpos].
    destruct Hk as [-> | ->]; auto. }
  split; [exact Hget|]. split; [exact Hbad|].
  intros input items width height Hnodes Hin.
  destruct (DesignSpecSchema (normalizeSpec N input width height))
    as [s|e] eqn:E; [|reflexivity]. exfalso.
  assert (Hnn : get "nodes" (normalizeSpec N input width height)
                = JArr (normalizeNodes N items)).
  { unfold normalizeSpec. rewrite Hnodes. reflexivity. }
  pose proof (DesignSpecSchema_nodes_ok _ _ _ Hnn E) as Hall.
  destruct (Forall2_In_l _ _ _ out Hall
              (In_normalizeNodes N items item out Hin Hout)) as [c [_ Hok]].
  destruct Hbad as [reason Hbad]. congruence.
Qed.

Lemma normalizer_keeps_sizes_that_are_not_positive_witness :
  is_ok (DesignSpecSchema
           (normalizeSpec digits_Number
              (JObj [("nodes",
                      JArr [JObj [("type", JStr "rect"); ("x", JNum 0%Z);
                                  ("y", JNum 0%Z); ("width", JNum 0%Z);
                                  ("height", JNum 10%Z)]])])
              100%Z 100%Z))
  = false.
Proof.
  exact (proj2 (proj2 (normalizer_keeps_sizes_that_are_not_positive
            digits_Number
            (JObj [("type", JStr "rect"); ("x", JNum 0%Z); ("y", JNum 0%Z);
                   ("width", JNum 0%Z); ("height", JNum 10%Z)])
            (JObj [("type", JStr "rect"); ("x", JNum 0%Z); ("y", JNum 0%Z);
                   ("width", JNum 0%Z); ("height", JNum 10%Z)])
            "width" 0%Z eq_refl (or_introl eq_refl) eq_refl eq_refl))
            (JObj [("nodes",
                    JArr [JObj [("type", JStr "rect"); ("x", JNum 0%Z);
                                ("y", JNum 0%Z); ("width", JNum 0%Z);
                                ("height", JNum 10%Z)]])])
            [JObj [("type", JStr "rect"); ("x", JNum 0%Z); ("y", JNum 0%Z);
                   ("width", JNum 0%Z); ("height", JNum 10%Z)]]
            100%Z 100%Z eq_refl (or_introl eq_refl)).
Defined.

(** X14: a reply without a [nodes] array still gives a document: it has no
    nodes, the canvas name is the reply's or the default one, and it is
    accepted exactly when the canvas width and height, the reply's own or
    else the request's, are positive. *)
Theorem normalizeSpec_without_nodes (N : string -> number) (input : jsval)
    (width height : number) :
  (forall items, get "nodes" input <> JArr items) ->
  let canvas := get "canvas" input in
  let name := match as_string (get "name" canvas) with
              | Some s => s
              | None => "Generated from Image"
              end in
  let w := match toNumber N (get "width" canvas) with
           | Some w => w
           | None => width
           end in
  let h := match toNumber N (get "height" canvas) with
           | Some h => h
           | None => height
           end in
  (above_0 w && above_0 h = true ->
   DesignSpecSchema (normalizeSpec N input width height)
   = Ok (mkSpec (mkCanvas name w h) []))
  /\ (above_0 w && above_0 h = false ->
      is_ok (DesignSpecSchema (normalizeSpec N input width height)) = false).
Proof.
  intros Hn canvas name w h.
  assert (E : normalizeSpec N input width height
              = JObj [("canvas", JObj [("name", JStr name);
                                       ("width", JNum w);
                                       ("height", JNum h)]);
                      ("nodes", JArr [])]).
  { unfold normalizeSpec. fold canvas. fold name. fold w. fold h.
    destruct (get "nodes" input); try reflexivity.
    destruct (Hn items eq_refl). }
  rewrite E. split.
  - rewrite andb_true_iff. intros [Hw Hh].
    unfold DesignSpecSchema, z_object. read_props.
    unfold CanvasSchema, z_object. read_props.
    cbn [z_default z_string result_bind].
    rewrite (z_positive_js _ Hw), (z_positive_js _ Hh). reflexivity.
  - intro Hbad.
    destruct (DesignSpecSchema _) as [s|e] eqn:E'; [|reflexivity]. exfalso.
    apply z_object_ok in E'. parse_steps E'.
    revert Ha. read_props. intro Ha.
    apply z_object_ok in Ha. parse_steps Ha.
    revert Ha2 Ha3. read_props. intros Ha2 Ha3.
    pose proof (z_positive_ok _ _ Ha2) as Pw.
    pose proof (z_positive_ok _ _ Ha3) as Ph.
    apply z_refine_ok in Ha2 as [Ha2 _]. apply z_number_ok in Ha2 as [Ew _].
    apply z_refine_ok in Ha3 as [Ha3 _]. apply z_number_ok in Ha3 as [Eh _].
    injection Ew as Ew. injection Eh as Eh. subst.
    rewrite andb_false_iff in Hbad. destruct Hbad; congruence.
Qed.

Lemma normalizeSpec_without_nodes_witness :
  DesignSpecSchema (normalizeSpec digits_Number (JStr "no layout") 640%Z 480%Z)
  = Ok (mkSpec (mkCanvas "Generated from Image" 640%Z 480%Z) []).
Proof.
  apply (normalizeSpec_without_nodes digits_Number (JStr "no layout")
           640%Z 480%Z).
  - intros items H. discriminate H.
  - reflexivity.
Defined.

(** ** Normalizing a document that is already valid *)

Lemma get_prop (k k' : string) (o : option jsval)
    (l : list (string * jsval)) :
  get k (JObj (prop k' o ++ l))
  = if String.eqb k k'
    then match o with Some v => v | None => get k (JObj l) end
    else get k (JObj l).
Proof.
  destruct o as [v|]; simpl.
  - destruct (String.eqb k k'); reflexivity.
  - destruct (String.eqb k k'); reflexivity.
Qed.

Section NormalizerOnValid.

Variable N : string -> number.

Lemma copy_number_js (k : string) (input : jsval) (o : option number) :
  get k input = js_opt JNum o -> opt_all finite o = true ->
  copy_number N k input = prop k (option_map JNum o).
Proof.
  intros E Hf. unfold copy_number. rewrite E. destruct o as [n|]; simpl in *.
  - unfold finite in Hf. rewrite Hf. reflexivity.
  - reflexivity.
Qed.

Lemma copy_string_js {A} (k : string) (input : jsval) (f : A -> string)
    (o : option A) :
  get k input = js_opt (fun a => JStr (f a)) o ->
  copy_string k input = prop k (option_map (fun a => JStr (f a)) o).
Proof. intros E. unfold copy_string. rewrite E. destruct o; reflexivity. Qed.

Lemma copy_truthy_js (k : string) (input : jsval) (o : option RGBA) :
  get k input = js_opt js_color o ->
  copy_truthy k input = prop k (option_map js_color o).
Proof. intros E. unfold copy_truthy. rewrite E. destruct o; reflexivity. Qed.

Lemma opt_all_weaken {A} (p q : A -> bool) (o : option A) :
  (forall a, p a = true -> q a = true) ->
  opt_all p o = true -> opt_all q o = true.
Proof. intro H. destruct o; simpl; auto. Qed.

Lemma at_least_0_finite (n : number) : at_least_0 n = true -> finite n = true.
Proof. unfold at_least_0. rewrite andb_true_iff. tauto. Qed.

Lemma above_0_finite (n : number) : above_0 n = true -> finite n = true.
Proof. unfold above_0. rewrite andb_true_iff. tauto. Qed.

Lemma in_0_1_finite (n : number) : in_0_1 n = true -> finite n = true.
Proof. unfold in_0_1. rewrite !andb_true_iff. tauto. Qed.

Lemma padding_props_js (input : jsval) (o : option FramePadding) :
  get "padding" input = js_opt js_padding o ->
  opt_all valid_padding o = true ->
  padding_props N input = prop "padding" (option_map js_padding o).
Proof.
  intros E Hv. unfold padding_props. rewrite E.
  destruct o as [p|]; [|reflexivity].
  simpl in Hv. unfold valid_padding in Hv. rewrite !andb_true_iff in Hv.
  destruct Hv as [[[Ht Hr] Hb] Hl].
  destruct p as [[t|] [r|] [b|] [l|]]; simpl in *;
    repeat match goal with
           | H : at_least_0 ?n = true |- _ =>
               apply at_least_0_finite in H; unfold finite in H; rewrite H
           end; reflexivity.
Qed.


Lemma with_prop_prop (k k' : string) (o : option jsval)
    (l : list (string * jsval)) :
  with_prop k (fun x => x) JUndefined (prop k' o ++ l)
  = if String.eqb k k'
    then match o with
         | Some v => v
         | None => with_prop k (fun x => x) JUndefined l
         end
    else with_prop k (fun x => x) JUndefined l.
Proof. exact (get_prop k k' o l). Qed.

Ltac walk_props :=
  repeat (cbn [get with_prop String.eqb Ascii.eqb Bool.eqb js_base app];
          try rewrite with_prop_prop).

Ltac agree_by_walking :=
  let k := fresh "k" in
  let Hin := fresh "Hin" in
  intros k Hin; unfold node_keys in Hin; simpl in Hin;
  repeat (destruct Hin as [<- | Hin];
          [walk_props; try reflexivity;
           match goal with
           | |- context [option_map _ ?o] => destruct o; reflexivity
           end|]);
  destruct Hin.

Lemma text_fontStyle_props_js (input : jsval) (o : option string) :
  get "fontStyle" input = js_opt JStr o ->
  get "fontWeight" input = JUndefined ->
  text_fontStyle_props N input = prop "fontStyle" (option_map JStr o).
Proof.
  intros E1 E2. unfold text_fontStyle_props. rewrite E1, E2.
  destruct o; reflexivity.
Qed.

Lemma text_fill_props_js (input : jsval) (o : option RGBA) :
  get "fill" input = js_opt js_color o ->
  get "color" input = JUndefined ->
  text_fill_props input = prop "fill" (option_map js_color o).
Proof.
  intros E1 E2. unfold text_fill_props. rewrite E1, E2.
  destruct o; reflexivity.
Qed.

Lemma text_align_props_js (input : jsval) (o : option AlignHorizontal) :
  get "alignHorizontal" input
  = js_opt (fun a => JStr (AlignHorizontal_name a)) o ->
  get "textAlign" input = JUndefined ->
  text_align_props input
  = prop "alignHorizontal"
      (option_map (fun a => JStr (AlignHorizontal_name a)) o).
Proof.
  intros E1 E2. unfold text_align_props. rewrite E1, E2.
  destruct o; reflexivity.
Qed.

Ltac start_normalizing input t x y w h Hx Hy Hw Hh :=
  rewrite normalizeNode_unfold;
  change (truthy input && is_object input) with true; cbn [negb];
  change (get "type" input) with (JStr t);
  change (allowed_type (JStr t)) with (Some t);
  change (get "x" input) with (JNum x);
  change (get "y" input) with (JNum y);
  change (get "width" input) with (JNum w);
  change (get "height" input) with (JNum h);
  rewrite (toNumber_finite N x Hx), (toNumber_finite N y Hy),
    (toNumber_finite N w Hw), (toNumber_finite N h Hh);
  cbv zeta; cbn [String.eqb Ascii.eqb Bool.eqb].

Lemma normalizeNode_rect_on_valid (n : RectNode) :
  valid_node (Rect n) = true ->
  exists props,
    normalizeNode N (to_js (Rect n)) = Some (JObj props)
    /\ agree_on ("children" :: node_keys) (to_js (Rect n)) (JObj props).
Proof.
  destruct n as [[name x y w h op] fill stroke sw cr].
  cbn [valid_node rect_base rect_fill rect_stroke rect_strokeWidth
       rect_cornerRadius]. unfold valid_base.
  cbn [base_x base_y base_width base_height base_opacity].
  rewrite !andb_true_iff.
  intros [[[[[[[[Hx Hy] Hw] Hh] Ho] Hfill] Hstroke] Hsw] Hcr].
  apply above_0_finite in Hw, Hh.
  apply (opt_all_weaken _ finite _ in_0_1_finite) in Ho.
  apply (opt_all_weaken _ finite _ at_least_0_finite) in Hsw, Hcr.
  set (d := Rect _). set (input := to_js d).
  start_normalizing input "rect" x y w h Hx Hy Hw Hh.
  rewrite (copy_string_js "name" input (fun a => a) name eq_refl).
  rewrite (copy_number_js "opacity" input op eq_refl Ho).
  rewrite (copy_truthy_js "fill" input fill eq_refl).
  rewrite (copy_truthy_js "stroke" input stroke eq_refl).
  rewrite (copy_number_js "strokeWidth" input sw eq_refl Hsw).
  rewrite (copy_number_js "cornerRadius" input cr eq_refl Hcr).
  eexists. split; [reflexivity|].
  rewrite <- (app_nil_r (prop "cornerRadius" _)), <- !app_assoc.
  unfold input, d. cbn [to_js rect_base rect_fill rect_stroke
    rect_strokeWidth rect_cornerRadius].
  agree_by_walking.
Qed.

Lemma normalizeNode_text_on_valid (n : TextNode) :
  valid_node (Text n) = true ->
  exists props,
    normalizeNode N (to_js (Text n)) = Some (JObj props)
    /\ agree_on ("children" :: node_keys) (to_js (Text n)) (JObj props).
Proof.
  destruct n as [[name x y w h op] text family style size fill align].
  cbn [valid_node text_base text_fontSize text_fill]. unfold valid_base.
  cbn [base_x base_y base_width base_height base_opacity].
  rewrite !andb_true_iff.
  intros [[[[[[Hx Hy] Hw] Hh] Ho] Hsize] Hfill].
  apply above_0_finite in Hw, Hh.
  apply (opt_all_weaken _ finite _ in_0_1_finite) in Ho.
  apply (opt_all_weaken _ finite _ above_0_finite) in Hsize.
  set (d := Text _). set (input := to_js d).
  start_normalizing input "text" x y w h Hx Hy Hw Hh.
  rewrite (copy_string_js "name" input (fun a => a) name eq_refl).
  rewrite (copy_number_js "opacity" input op eq_refl Ho).
  change (get "text" input) with (JStr text). cbn [as_string].
  rewrite (copy_string_js "fontFamily" input (fun a => a) family eq_refl).
  rewrite (text_fontStyle_props_js input style eq_refl eq_refl).
  rewrite (copy_number_js "fontSize" input size eq_refl Hsize).
  rewrite (text_fill_props_js input fill eq_refl eq_refl).
  rewrite (text_align_props_js input align eq_refl eq_refl).
  eexists. split; [reflexivity|].
  rewrite <- (app_nil_r (prop "alignHorizontal" _)), <- !app_assoc.
  unfold input, d. cbn [to_js text_base text_text text_fontFamily
    text_fontStyle text_fontSize text_fill text_alignHorizontal].
  agree_by_walking.
Qed.

Lemma normalizeNode_ellipse_on_valid (n : EllipseNode) :
  valid_node (Ellipse n) = true ->
  exists props,
    normalizeNode N (to_js (Ellipse n)) = Some (JObj props)
    /\ agree_on ("children" :: node_keys) (to_js (Ellipse n)) (JObj props).
Proof.
  destruct n as [[name x y w h op] fill stroke sw].
  cbn [valid_node ellipse_base ellipse_fill ellipse_stroke
       ellipse_strokeWidth]. unfold valid_base.
  cbn [base_x base_y base_width base_height base_opacity].
  rewrite !andb_true_iff.
  intros [[[[[[[Hx Hy] Hw] Hh] Ho] Hfill] Hstroke] Hsw].
  apply above_0_finite in Hw, Hh.
  apply (opt_all_weaken _ finite _ in_0_1_finite) in Ho.
  apply (opt_all_weaken _ finite _ at_least_0_finite) in Hsw.
  set (d := Ellipse _). set (input := to_js d).
  start_normalizing input "ellipse" x y w h Hx Hy Hw Hh.
  rewrite (copy_string_js "name" input (fun a => a) name eq_refl).
  rewrite (copy_number_js "opacity" input op eq_refl Ho).
  rewrite (copy_truthy_js "fill" input fill eq_refl).
  rewrite (copy_truthy_js "stroke" input stroke eq_refl).
  rewrite (copy_number_js "strokeWidth" input sw eq_refl Hsw).
  eexists. split; [reflexivity|].
  rewrite <- (app_nil_r (prop "strokeWidth" _)), <- !app_assoc.
  unfold input, d. cbn [to_js ellipse_base ellipse_fill ellipse_stroke
    ellipse_strokeWidth].
  agree_by_walking.
Qed.

Lemma normalizeNode_image_on_valid (n : ImageNode) :
  valid_node (Image n) = true ->
  exists props,
    normalizeNode N (to_js (Image n)) = Some (JObj props)
    /\ agree_on ("children" :: node_keys) (to_js (Image n)) (JObj props).
Proof.
  destruct n as [[name x y w h op] url durl mode cr stroke sw].
  cbn [valid_node image_base image_imageUrl image_imageDataUrl
       image_cornerRadius image_stroke image_strokeWidth].
  unfold valid_base.
  cbn [base_x base_y base_width base_height base_opacity].
  rewrite !andb_true_iff.
  intros [[[[[[[[[[Hx Hy] Hw] Hh] Ho] Hurl] Hdurl] Hcr] Hstroke] Hsw] Hsrc].
  apply above_0_finite in Hw, Hh.
  apply (opt_all_weaken _ finite _ in_0_1_finite) in Ho.
  apply (opt_all_weaken _ finite _ at_least_0_finite) in Hsw, Hcr.
  assert (Hsome : is_some url || is_some durl = true).
  { destruct url, durl; try reflexivity. discriminate Hsrc. }
  set (d := Image _). set (input := to_js d).
  start_normalizing input "image" x y w h Hx Hy Hw Hh.
  assert (E : forall a b : option jsval,
             match as_string (get "imageUrl" input),
                   as_string (get "imageDataUrl" input) with
             | None, None => a
             | _, _ => b
             end = b).
  { intros a b. change (get "imageUrl" input) with (js_opt JStr url).
    change (get "imageDataUrl" input) with (js_opt JStr durl).
    destruct url, durl; try reflexivity. discriminate Hsome. }
  rewrite E. clear E.
  rewrite (copy_string_js "name" input (fun a => a) name eq_refl).
  rewrite (copy_number_js "opacity" input op eq_refl Ho).
  rewrite (copy_string_js "imageUrl" input (fun a => a) url eq_refl).
  rewrite (copy_string_js "imageDataUrl" input (fun a => a) durl eq_refl).
  rewrite (copy_string_js "scaleMode" input ScaleMode_name mode eq_refl).
  rewrite (copy_number_js "cornerRadius" input cr eq_refl Hcr).
  rewrite (copy_truthy_js "stroke" input stroke eq_refl).
  rewrite (copy_number_js "strokeWidth" input sw eq_refl Hsw).
  eexists. split; [reflexivity|].
  rewrite <- (app_nil_r (prop "strokeWidth" _)), <- !app_assoc.
  unfold input, d. cbn [to_js image_base image_imageUrl image_imageDataUrl
    image_scaleMode image_cornerRadius image_stroke image_strokeWidth].
  agree_by_walking.
Qed.

Lemma normalizeNode_frame_on_valid (n : FrameProps) (cs : list DesignNode) :
  valid_node (Frame n (Some cs)) = true ->
  exists props,
    normalizeNode N (to_js (Frame n (Some cs))) = Some (JObj props)
    /\ agree_on node_keys (to_js (Frame n (Some cs))) (JObj props)
    /\ get "children" (JObj props) = JArr (normalizeNodes N (map to_js cs)).
Proof.
  destruct n as [[name x y w h op] lm pad gap fill stroke sw cr].
  cbn [valid_node frame_base frame_layoutMode frame_padding
       frame_itemSpacing frame_fill frame_stroke frame_strokeWidth
       frame_cornerRadius]. unfold valid_base.
  cbn [base_x base_y base_width base_height base_opacity].
  rewrite !andb_true_iff.
  intros [[[[[[[[[[[[Hx Hy] Hw] Hh] Ho] Hlm] Hpad] Hgap] Hfill] Hstroke] Hsw]
            Hcr] Hcs].
  apply above_0_finite in Hw, Hh.
  apply (opt_all_weaken _ finite _ in_0_1_finite) in Ho.
  apply (opt_all_weaken _ finite _ at_least_0_finite) in Hsw, Hcr, Hgap.
  set (d := Frame _ _). set (input := to_js d).
  start_normalizing input "frame" x y w h Hx Hy Hw Hh.
  rewrite (copy_string_js "name" input (fun a => a) name eq_refl).
  rewrite (copy_number_js "opacity" input op eq_refl Ho).
  rewrite (copy_string_js "layoutMode" input LayoutMode_name lm eq_refl).
  rewrite (padding_props_js input pad eq_refl Hpad).
  rewrite (copy_number_js "itemSpacing" input gap eq_refl Hgap).
  rewrite (copy_truthy_js "fill" input fill eq_refl).
  rewrite (copy_truthy_js "stroke" input stroke eq_refl).
  rewrite (copy_number_js "strokeWidth" input sw eq_refl Hsw).
  rewrite (copy_number_js "cornerRadius" input cr eq_refl Hcr).
  change (get "children" input) with (JArr (map to_js cs)). cbv iota.
  eexists. split; [reflexivity|].
  rewrite <- !app_assoc.
  unfold input, d. cbn [to_js frame_base frame_layoutMode frame_padding
    frame_itemSpacing frame_fill frame_stroke frame_strokeWidth
    frame_cornerRadius].
  split.
  - agree_by_walking.
  - walk_props. reflexivity.
Qed.

Lemma each_normalizeNodes (cs : list DesignNode) :
  Forall (fun c => exists out, normalizeNode N (to_js c) = Some out
                               /\ DesignNodeSchema out = Ok c) cs ->
  each DesignNodeSchema (normalizeNodes N (map to_js cs)) = Ok cs.
Proof.
  induction 1 as [|c cs [out [H1 H2]] _ IH]; [reflexivity|].
  unfold normalizeNodes in *. cbn [map flat_map]. rewrite H1.
  cbn [app each]. rewrite H2. cbn [result_bind]. rewrite IH. reflexivity.
Qed.

(** A valid tree survives normalization, and what comes out validates to
    the same tree. *)
Lemma normalizeNode_on_valid (d : DesignNode) :
  valid_node d = true ->
  exists out, normalizeNode N (to_js d) = Some out
              /\ DesignNodeSchema out = Ok d.
Proof.
  induction d as [n | n | n | n cs IH | n | n] using DesignNode_nested_ind;
    intro Hv.
  - destruct (normalizeNode_rect_on_valid n Hv) as (props & E & A).
    exists (JObj props). split; [exact E|].
    rewrite <- (DesignNodeSchema_js _ Hv). symmetry.
    destruct (to_js_shape (Rect n)) as [rest Hs]. rewrite Hs in *.
    apply DesignNodeSchema_agree.
    + intros k Hk. apply A. right. exact Hk.
    + rewrite (A "children") by (left; reflexivity). reflexivity.
  - destruct (normalizeNode_text_on_valid n Hv) as (props & E & A).
    exists (JObj props). split; [exact E|].
    rewrite <- (DesignNodeSchema_js _ Hv). symmetry.
    destruct (to_js_shape (Text n)) as [rest Hs]. rewrite Hs in *.
    apply DesignNodeSchema_agree.
    + intros k Hk. apply A. right. exact Hk.
    + rewrite (A "children") by (left; reflexivity). reflexivity.
  - cbn [valid_node] in Hv. rewrite !andb_true_iff in Hv.
    destruct Hv as [_ Hv]. discriminate Hv.
  - destruct (normalizeNode_frame_on_valid n cs Hv) as (props & E & A & C).
    exists (JObj props). split; [exact E|].
    rewrite <- (DesignNodeSchema_js _ Hv). symmetry.
    assert (Hcs : forallb valid_node cs = true).
    { cbn [valid_node] in Hv. rewrite !andb_true_iff in Hv. tauto. }
    rewrite forallb_forall in Hcs.
    destruct (to_js_shape (Frame n (Some cs))) as [rest Hs].
    assert (Hch : get "children" (to_js (Frame n (Some cs)))
                  = JArr (map to_js cs)) by reflexivity.
    rewrite Hs in *.
    apply DesignNodeSchema_agree; [exact A|].
    rewrite Hch, C. cbn [z_default z_array].
    rewrite each_normalizeNodes.
    + apply each_map_js. apply Forall_forall. intros c Hc.
      apply DesignNodeSchema_js, Hcs, Hc.
    + rewrite Forall_forall in IH. apply Forall_forall. intros c Hc.
      apply IH; [exact Hc | apply Hcs, Hc].
  - destruct (normalizeNode_ellipse_on_valid n Hv) as (props & E & A).
    exists (JObj props). split; [exact E|].
    rewrite <- (DesignNodeSchema_js _ Hv). symmetry.
    destruct (to_js_shape (Ellipse n)) as [rest Hs]. rewrite Hs in *.
    apply DesignNodeSchema_agree.
    + intros k Hk. apply A. right. exact Hk.
    + rewrite (A "children") by (left; reflexivity). reflexivity.
  - destruct (normalizeNode_image_on_valid n Hv) as (props & E & A).
    exists (JObj props). split; [exact E|].
    rewrite <- (DesignNodeSchema_js _ Hv). symmetry.
    destruct (to_js_shape (Image n)) as [rest Hs]. rewrite Hs in *.
    apply DesignNodeSchema_agree.
    + intros k Hk. apply A. right. exact Hk.
    + rewrite (A "children") by (left; reflexivity). reflexivity.
Qed.

(** A document in the form the validator writes passes normalization
    unchanged, as far as the validator can tell. *)
Lemma normalizeSpec_on_valid (s : DesignSpec) (width height : number) :
  valid_spec s = true ->
  DesignSpecSchema (normalizeSpec N (js_spec s) width height) = Ok s
  /\ List.length (normalizeNodes N (map to_js (spec_nodes s)))
     = List.length (spec_nodes s).
Proof.
  intro Hv. pose proof Hv as Hv'. unfold valid_spec in Hv'.
  rewrite !andb_true_iff in Hv'. destruct Hv' as [[Hw Hh] Hn].
  rewrite forallb_forall in Hn.
  assert (Hall : Forall (fun c => exists out,
                           normalizeNode N (to_js c) = Some out
                           /\ DesignNodeSchema out = Ok c) (spec_nodes s)).
  { apply Forall_forall. intros c Hc. apply normalizeNode_on_valid, Hn, Hc. }
  split.
  - destruct s as [[name w h] nodes].
    cbn [spec_canvas spec_nodes canvas_width canvas_height] in *.
    unfold normalizeSpec, js_spec.
    cbn [get with_prop String.eqb Ascii.eqb Bool.eqb as_string spec_canvas
         spec_nodes canvas_name canvas_width canvas_height].
    rewrite (toNumber_finite N w (above_0_finite w Hw)),
      (toNumber_finite N h (above_0_finite h Hh)).
    unfold DesignSpecSchema, z_object. read_props.
    unfold CanvasSchema, z_object. read_props.
    cbn [z_default z_string result_bind].
    rewrite (z_positive_js _ Hw), (z_positive_js _ Hh).
    cbn [result_bind z_array]. rewrite (each_normalizeNodes nodes Hall).
    reflexivity.
  - clear Hv Hw Hh Hn. induction Hall as [|c cs [out [H1 _]] _ IH];
      [reflexivity|].
    unfold normalizeNodes in *. cbn [map flat_map]. rewrite H1.
    cbn [app List.length]. rewrite IH. reflexivity.
Qed.

End NormalizerOnValid.

(** X15: a document in the form the validator itself writes (every
    property of the schema under its own name, [js_spec]) passes
    normalization unchanged, as far as the validator can tell: every node
    survives, none is added, and the normalized document validates to the
    very document, whatever the fallback size.  This does not extend to
    every document the validator accepts.  The normalizer reads the aliases
    [color] and [fontWeight], which the validator ignores: a valid text
    node with the color "#333333" is rejected once normalized (the string
    has become its fill), and one with the fontWeight 700 validates to
    another node once normalized (its fontStyle has become "Bold"). *)
Theorem normalizeSpec_preserves_canonical_documents (N : string -> number) :
  (forall (s : DesignSpec) (width height : number),
      valid_spec s = true ->
      DesignSpecSchema (normalizeSpec N (js_spec s) width height) = Ok s
      /\ List.length (normalizeNodes N (map to_js (spec_nodes s)))
         = List.length (spec_nodes s))
  /\ (is_ok (DesignNodeSchema text_with_color) = true
      /\ exists out,
           normalizeNode N text_with_color = Some out
           /\ get "fill" out = JStr "#333333"
           /\ is_ok (DesignNodeSchema out) = false)
  /\ (exists n out n',
        DesignNodeSchema text_with_weight = Ok (Text n)
        /\ normalizeNode N text_with_weight = Some out
        /\ DesignNodeSchema out = Ok (Text n')
        /\ text_fontStyle n = None
        /\ text_fontStyle n' = Some "Bold").
Proof.
  split; [exact (normalizeSpec_on_valid N)|]. split.
  - split; [vm_compute; reflexivity|].
    eexists. split; [vm_compute; reflexivity|].
    split; vm_compute; reflexivity.
  - eexists. eexists. eexists.
    split; [vm_compute; reflexivity|].
    split; [vm_compute; reflexivity|].
    split; [vm_compute; reflexivity|].
    split; reflexivity.
Qed.

Lemma normalizeSpec_preserves_canonical_documents_witness :
  DesignSpecSchema (normalizeSpec digits_Number (js_spec two_level_spec)
                      1%Z 1%Z)
  = Ok two_level_spec.
Proof.
  exact (proj1 (proj1 (normalizeSpec_preserves_canonical_documents
                         digits_Number)
                  two_level_spec 1%Z 1%Z eq_refl)).
Defined.

(** ** The alignment keyword of a text node *)

Lemma text_fontStyle_props_prop (N : string -> number) (input : jsval) :
  exists o, text_fontStyle_props N input = prop "fontStyle" o.
Proof.
  unfold text_fontStyle_props.
  destruct (as_string (get "fontStyle" input)) as [s|].
  - exists (Some (JStr s)). reflexivity.
  - destruct (toNumber N (get "fontWeight" input)) as [w|].
    + eexists (Some _). reflexivity.
    + exists None. reflexivity.
Qed.

Lemma text_fill_props_prop (input : jsval) :
  exists o, text_fill_props input = prop "fill" o.
Proof.
  unfold text_fill_props. destruct (truthy (get "fill" input)).
  - eexists (Some _). reflexivity.
  - destruct (truthy (get "color" input)).
    + eexists (Some _). reflexivity.
    + exists None. reflexivity.
Qed.

(** The [alignHorizontal] of a normalized text node is what
    [text_align_props] wrote. *)
Lemma normalizeNode_text_align (N : string -> number) (input out : jsval)
    (o : option jsval) :
  get "type" input = JStr "text" ->
  normalizeNode N input = Some out ->
  text_align_props input = prop "alignHorizontal" o ->
  get "type" out = JStr "text" /\ get "alignHorizontal" out = opt_js o.
Proof.
  intros Ht H Ho. rewrite normalizeNode_unfold in H.
  destruct (truthy input && is_object input); cbn [negb] in H;
    [|discriminate H].
  rewrite Ht in H. change (allowed_type (JStr "text")) with (Some "text") in H.
  cbv iota in H.
  destruct (toNumber N (get "x" input)) as [x|]; [|discriminate H].
  destruct (toNumber N (get "y" input)) as [y|]; [|discriminate H].
  destruct (toNumber N (get "width" input)) as [w|]; [|discriminate H].
  destruct (toNumber N (get "height" input)) as [h|]; [|discriminate H].
  cbv zeta in H. cbn [String.eqb Ascii.eqb Bool.eqb] in H.
  injection H as <-. split; [reflexivity|].
  destruct (text_fontStyle_props_prop N input) as [o1 ->].
  destruct (text_fill_props_prop input) as [o2 ->].
  rewrite Ho. unfold copy_string, copy_number.
  rewrite <- (app_nil_r (prop "alignHorizontal" o)), <- !app_assoc.
  repeat (cbn [get with_prop String.eqb Ascii.eqb Bool.eqb app];
          try rewrite with_prop_prop).
  destruct o; reflexivity.
Qed.

Lemma bad_alignment_rejected (out : jsval) (x : jsval) :
  get "type" out = JStr "text" ->
  get "alignHorizontal" out = x ->
  x <> JUndefined -> as_string x = None ->
  is_ok (DesignNodeSchema out) = false.
Proof.
  intros Ht Ha Hu Hs.
  destruct (DesignNodeSchema out) as [d|e] eqn:E; [|reflexivity]. exfalso.
  apply DesignNodeSchema_ok in E.
  destruct E as [[m [-> H]] | [[m [-> H]] | [H | [[m [-> H]] | [m [-> H]]]]]].
  - apply z_object_ok in H. parse_steps H. apply z_literal_ok in Ha1.
    congruence.
  - apply z_object_ok in H. parse_steps H. rewrite Ha in Ha7.
    destruct x; try discriminate Ha7; try discriminate Hs. congruence.
  - apply z_object_ok in H. parse_steps H. apply z_literal_ok in Ha1.
    congruence.
  - apply z_object_ok in H. parse_steps H. apply z_literal_ok in Ha1.
    congruence.
  - apply z_refine_ok in H as [H _].
    apply z_object_ok in H. parse_steps H. apply z_literal_ok in Ha1.
    congruence.
Qed.

(** X16: the alignment of a text node.  A string under [alignHorizontal]
    is copied as it is and [textAlign] is not looked at.  Without one, the
    keyword under [textAlign] is lower-cased and looked up: the four
    keywords give the four enum members, the two lower-case names every
    object inherits ("constructor", "__proto__") give a value that is no
    string, so the validator rejects the node, and any other keyword leaves
    the node without alignment. *)
Theorem text_alignment_keyword (N : string -> number) (input out : jsval) :
  get "type" input = JStr "text" ->
  normalizeNode N input = Some out ->
  (forall a, get "alignHorizontal" input = JStr a ->
             get "alignHorizontal" out = JStr a)
  /\ (forall s, as_string (get "alignHorizontal" input) = None ->
        get "textAlign" input = JStr s ->
        let key := toLowerCase s in
        (forall a, key = toLowerCase (AlignHorizontal_name a) ->
                   get "alignHorizontal" out = JStr (AlignHorizontal_name a))
        /\ (key = "constructor" \/ key = "__proto__" ->
            is_ok (DesignNodeSchema out) = false)
        /\ (~ In key ["left"; "center"; "right"; "justified"; "constructor";
                      "__proto__"] ->
            get "alignHorizontal" out = JUndefined)).
Proof.
  intros Ht Hout. split.
  - intros a Ha.
    apply (normalizeNode_text_align N input out (Some (JStr a)) Ht Hout).
    unfold text_align_props. rewrite Ha. reflexivity.
  - intros s Hno Hs key.
    assert (P : text_align_props input
                = prop "alignHorizontal"
                    (if truthy (align_map key) then Some (align_map key)
                     else None)).
    { unfold text_align_props. rewrite Hs.
      destruct (get "alignHorizontal" input); try discriminate Hno;
        fold key; destruct (truthy (align_map key)); reflexivity. }
    destruct (normalizeNode_text_align N input out _ Ht Hout P) as [Hty Hal].
    split; [|split].
    + intros a Hk. rewrite Hal, Hk. destruct a; reflexivity.
    + intros Hk.
      apply (bad_alignment_rejected out _ Hty Hal);
        destruct Hk as [-> | ->]; try discriminate; reflexivity.
    + intros Hk. rewrite Hal. unfold align_map.
      repeat match goal with
             | |- context [String.eqb key ?k] =>
                 let E := fresh "E" in
                 destruct (String.eqb key k) eqn:E;
                 [apply String.eqb_eq in E; exfalso; apply Hk; rewrite E;
                  simpl; tauto|]
             end.
      reflexivity.
Qed.

Lemma text_alignment_keyword_witness :
  get "alignHorizontal"
    (JObj [("type", JStr "text"); ("x", JNum 0%Z); ("y", JNum 0%Z);
           ("width", JNum 10%Z); ("height", JNum 10%Z); ("text", JStr "");
           ("alignHorizontal", JStr "CENTER")])
  = JStr (AlignHorizontal_name CENTER).
Proof.
  exact (proj1 (proj2 (text_alignment_keyword digits_Number
           (JObj [("type", JStr "text"); ("x", JNum 0%Z); ("y", JNum 0%Z);
                  ("width", JNum 10%Z); ("height", JNum 10%Z);
                  ("textAlign", JStr "Center")])
           (JObj [("type", JStr "text"); ("x", JNum 0%Z); ("y", JNum 0%Z);
                  ("width", JNum 10%Z); ("height", JNum 10%Z);
                  ("text", JStr ""); ("alignHorizontal", JStr "CENTER")])
           eq_refl eq_refl) "Center" eq_refl eq_refl) CENTER eq_refl).
Defined.

(** ** Rules for specifications *)

Lemma triple_ret {A} (P : HostState -> Prop) (Q : A -> HostState -> Prop)
    (E : HostState -> Prop) (a : A) :
  (forall st, P st -> Q a st) -> triple P (ret a) Q E.
Proof. intros H st Hst. apply H, Hst. Qed.

Lemma triple_throw {A} (P : HostState -> Prop) (Q : A -> HostState -> Prop)
    (E : HostState -> Prop) (e : string) :
  (forall st, P st -> E st) -> triple P (@throw A e) Q E.
Proof. intros H st Hst. apply H, Hst. Qed.

Lemma triple_bind {A B} (P : HostState -> Prop) (m : M A)
    (Q : A -> HostState -> Prop) (f : A -> M B)
    (R : B -> HostState -> Prop) (E : HostState -> Prop) :
  triple P m Q E -> (forall a, triple (Q a) (f a) R E) ->
  triple P (bind m f) R E.
Proof.
  intros Hm Hf st Hst. unfold bind. specialize (Hm st Hst).
  destruct (m st) as [[a | e] st1]; [exact (Hf a st1 Hm) | exact Hm].
Qed.

Lemma triple_weaken {A} (P P' : HostState -> Prop) (m : M A)
    (Q Q' : A -> HostState -> Prop) (E E' : HostState -> Prop) :
  triple P' m Q' E' ->
  (forall st, P st -> P' st) -> (forall a st, Q' a st -> Q a st) ->
  (forall st, E' st -> E st) ->
  triple P m Q E.
Proof.
  intros H HP HQ HE st Hst. specialize (H st (HP st Hst)).
  destruct (m st) as [[a | e] st1]; auto.
Qed.

Lemma triple_modify (P : HostState -> Prop) (Q : unit -> HostState -> Prop)
    (E : HostState -> Prop) (f : HostState -> HostState) :
  (forall st, P st -> Q tt (f st)) -> triple P (modify f) Q E.
Proof. intros H st Hst. apply H, Hst. Qed.

Lemma triple_for_each {A} (I : HostState -> Prop) (E : HostState -> Prop)
    (body : A -> M unit) (items : list A) :
  Forall (fun a => triple I (body a) (fun _ => I) E) items ->
  triple I (for_each body items) (fun _ => I) E.
Proof.
  induction 1 as [|a items Ha _ IH]; simpl.
  - apply triple_ret. auto.
  - apply (triple_bind I _ (fun _ => I)); [exact Ha | intros _; exact IH].
Qed.

Lemma preserves_triple {A} (P : HostState -> Prop) (m : M A) :
  preserves P m -> triple P m (fun _ => P) P.
Proof.
  intros H st Hst. specialize (H st Hst).
  destruct (m st) as [[a | e] st1]; exact H.
Qed.

(** ** The page is touched last *)

Lemma page_set (pg : list nat * list nat) (id : nat) (k : string)
    (v : HostValue) :
  preserves (on_page pg) (set id k v).
Proof. intros st H. exact H. Qed.

Lemma page_emit (pg : list nat * list nat) (e : Event) :
  preserves (on_page pg) (emit e).
Proof. intros st H. exact H. Qed.

Lemma page_create (pg : list nat * list nat) (kind : ObjKind) :
  preserves (on_page pg) (create kind).
Proof. intros st H. exact H. Qed.

Lemma page_resize (pg : list nat * list nat) (id : nat) (w h : number) :
  preserves (on_page pg) (resize id w h).
Proof. intros st H. exact H. Qed.

Lemma page_appendChild (pg : list nat * list nat) (parent child : nat) :
  preserves (on_page pg) (appendChild parent child).
Proof. intros st H. exact H. Qed.

Lemma page_note_mode (pg : list nat * list nat) (mode : string) :
  preserves (on_page pg) (note_mode mode).
Proof. intros st H. exact H. Qed.

Lemma page_loadFont (host : Host) (pg : list nat * list nat)
    (family style : string) :
  preserves (on_page pg) (loadFont host family style).
Proof.
  intros st H. unfold loadFont.
  destruct (find _ (fontCache st)) as [[k b]|];
    [destruct b | destruct (loadFontAsync host family style)]; exact H.
Qed.

Lemma page_apply_stroke (pg : list nat * list nat) (id : nat)
    (s : option RGBA) (w : option number) :
  preserves (on_page pg) (apply_stroke id s w).
Proof. destruct s, w; intros st H; exact H. Qed.

Lemma page_set_if_present (pg : list nat * list nat) (id : nat) (k : string)
    (v : option number) :
  preserves (on_page pg) (set_if_present id k v).
Proof. destruct v; intros st H; exact H. Qed.

Lemma page_base64ToBytes (host : Host) (pg : list nat * list nat) (b : string) :
  preserves (on_page pg) (base64ToBytes host b).
Proof.
  intros st H. unfold base64ToBytes. destruct (decodeBase64 host b); exact H.
Qed.

Lemma page_figma_createImage (host : Host) (pg : list nat * list nat)
    (b : string) :
  preserves (on_page pg) (figma_createImage host b).
Proof.
  intros st H. unfold figma_createImage. destruct (createImage host b);
    exact H.
Qed.

Ltac page_step :=
  first
    [ apply preserves_ret | apply preserves_throw | apply page_set
    | apply page_emit | apply page_create | apply page_resize
    | apply page_appendChild | apply page_loadFont | apply page_note_mode
    | apply page_apply_stroke | apply page_set_if_present
    | apply page_base64ToBytes | apply page_figma_createImage
    | apply preserves_bind; [|intro]
    | match goal with
      | |- preserves _ (match ?e with _ => _ end) => destruct e
      end ].

Lemma page_imagePaintFromNode (host : Host) (pg : list nat * list nat)
    (n : ImageNode) :
  preserves (on_page pg) (imagePaintFromNode host n).
Proof.
  unfold imagePaintFromNode.
  destruct (truthy_string (image_imageDataUrl n)).
  - destruct (match_data_url _) as [[mime payload]|]; repeat page_step.
  - destruct (truthy_string (image_imageUrl n)); [|apply preserves_ret].
    apply preserves_bind; [apply page_emit | intros _].
    destruct (fetch host _) as [|[|] [buf|]]; repeat page_step.
Qed.

Lemma page_renderNode (host : Host) (pg : list nat * list nat)
    (node : DesignNode) :
  forall (parent : nat) (ax ay w h : number) (mode : string),
    preserves (on_page pg) (renderNode host node parent ax ay w h mode).
Proof.
  induction node as [n | n | n | n cs IH | n | n] using DesignNode_nested_ind;
    intros parent ax ay w h mode; cbn [renderNode].
  - repeat page_step.
  - repeat page_step.
  - repeat page_step.
  - repeat (apply preserves_bind; [solve [repeat page_step] | intro]).
    apply preserves_for_each. apply Forall_forall. intros c Hc.
    rewrite Forall_forall in IH. apply IH, Hc.
  - repeat page_step.
  - repeat (apply preserves_bind; [solve [repeat page_step] | intro]).
    apply preserves_bind; [apply page_imagePaintFromNode | intro].
    repeat page_step.
Qed.

(** [normalizeScreenshot] never changes the state, and returns exactly the
    screenshots [accepted_screenshot] describes. *)
Lemma normalizeScreenshot_pure (shot : option Screenshot) (st : HostState) :
  match accepted_screenshot shot with
  | Some r => normalizeScreenshot shot st = (Returned r, st)
  | None => exists e, normalizeScreenshot shot st = (Thrown e, st)
  end.
Proof.
  destruct shot as [[b64 mime]|]; [|reflexivity].
  unfold accepted_screenshot, normalizeScreenshot.
  cbn [shot_mime shot_base64].
  destruct (String.eqb (toLowerCase mime) "") eqn:E0.
  { apply String.eqb_eq in E0. rewrite E0. cbn. eexists. reflexivity. }
  destruct (String.eqb (toLowerCase mime) "image/png");
    destruct (String.eqb (toLowerCase mime) "image/jpeg");
    destruct (String.eqb (toLowerCase mime) "image/jpg");
    cbn [orb andb negb]; try (eexists; reflexivity);
    (destruct b64 as [|c b64]; [cbn; eexists; reflexivity|];
     cbn [String.eqb orb];
     rewrite Nat.ltb_antisym;
     destruct (16 <=? String.length (String c b64))%nat; cbn [negb];
     [reflexivity | eexists; reflexivity]).
Qed.

(** X17: [renderToFigma] touches the page last.  When it returns, the root
    frame (the first object it created) has been appended to the page and
    is the selection; when it throws, for whatever reason, the page and the
    selection are as they were. *)
Theorem renderToFigma_page_all_or_nothing (host : Host) (spec : DesignSpec)
    (shot : option Screenshot) (st : HostState) :
  match renderToFigma host spec shot st with
  | (Returned _, st') =>
      pageChildren st' = pageChildren st ++ [List.length (store st)]
      /\ selection st' = [List.length (store st)]
  | (Thrown _, st') =>
      pageChildren st' = pageChildren st /\ selection st' = selection st
  end.
Proof.
  set (P := on_page (page st)).
  assert (T : triple (fun s => s = st) (renderToFigma host spec shot)
                (fun _ s => pageChildren s
                            = pageChildren st ++ [List.length (store st)]
                            /\ selection s = [List.length (store st)])
                (fun s => page s = page st)).
  { unfold renderToFigma.
    apply (triple_bind _ _ (fun _ s => s = st)).
    { intros s ->. pose proof (normalizeScreenshot_pure shot st) as H.
      destruct (accepted_screenshot shot) as [r|].
      - rewrite H. reflexivity.
      - destruct H as [e ->]. reflexivity. }
    intro accepted.
    apply (triple_bind _ _
             (fun root s => root = List.length (store st) /\ P s)).
    { intros s ->. simpl. split; reflexivity. }
    intro root. 
    repeat (apply (triple_bind _ _
                     (fun _ s => root = List.length (store st) /\ P s));
            [ intros s [Hr Hs];
              match goal with
              | |- match ?m s with _ => _ end =>
                  let H := fresh "H" in
                  assert (H : preserves P m);
                  [ solve [ repeat page_step
                          | apply preserves_for_each, Forall_forall;
                            intros n _; apply page_renderNode ]
                  | specialize (H s Hs); destruct (m s) as [[? | ?] ?];
                    simpl in H; [split; [exact Hr | exact H] | exact H] ]
              end
            | intro ]).
    intros s [Hr Hs]. unfold bind, modify, emit. simpl.
    unfold P, on_page, page in Hs. injection Hs as Hp Hsel.
    rewrite Hp, Hr. auto. }
  specialize (T st eq_refl).
  destruct (renderToFigma host spec shot st) as [[[] | e] st'].
  - exact T.
  - unfold page in T. injection T as -> ->. auto.
Qed.

(** ** Screenshots *)

(** X18: the screenshot check comes first.  A screenshot whose MIME type,
    lower-cased, is not image/png, image/jpeg or image/jpg, or whose data
    is shorter than 16 characters, makes [renderToFigma] throw before
    anything is created: the state is as it was.  Every other screenshot is
    accepted, with its MIME type lower-cased. *)
Theorem screenshot_is_checked_first (host : Host) (spec : DesignSpec)
    (s : Screenshot) (st : HostState) :
  let mime := toLowerCase (shot_mime s) in
  let supported := In mime ["image/png"; "image/jpeg"; "image/jpg"] in
  (~ supported \/ (String.length (shot_base64 s) < 16)%nat ->
   exists e, renderToFigma host spec (Some s) st = (Thrown e, st))
  /\ (supported -> (16 <= String.length (shot_base64 s))%nat ->
      normalizeScreenshot (Some s) st
      = (Returned (Some (mime, shot_base64 s)), st)).
Proof.
  intros mime supported.
  pose proof (normalizeScreenshot_pure (Some s) st) as H.
  unfold accepted_screenshot in H. fold mime in H.
  assert (S : supported
              <-> String.eqb mime "image/png" || String.eqb mime "image/jpeg"
                  || String.eqb mime "image/jpg" = true).
  { unfold supported. simpl. rewrite !orb_true_iff, !String.eqb_eq.
    intuition congruence. }
  split.
  - intros Hbad.
    assert (E : (String.eqb mime "image/png" || String.eqb mime "image/jpeg"
                 || String.eqb mime "image/jpg")
                && (16 <=? String.length (shot_base64 s))%nat = false).
    { apply andb_false_iff. destruct Hbad as [Hm | Hl].
      - left. apply not_true_is_false. intro T. apply Hm, S, T.
      - right. apply Nat.leb_gt. exact Hl. }
    rewrite E in H. destruct H as [e H]. exists e.
    unfold renderToFigma, bind. rewrite H. reflexivity.
  - intros Hm Hl. apply S in Hm. apply Nat.leb_le in Hl.
    rewrite Hm, Hl in H. exact H.
Qed.

Lemma screenshot_is_checked_first_witness :
  exists e,
    renderToFigma obliging_host two_level_spec
      (Some (mkScreenshot "AAAAAAAAAAAAAAAAAAAAAAAA" "image/gif"))
      initial_state
    = (Thrown e, initial_state).
Proof.
  apply (proj1 (screenshot_is_checked_first obliging_host two_level_spec
                  (mkScreenshot "AAAAAAAAAAAAAAAAAAAAAAAA" "image/gif")
                  initial_state)).
  left. simpl. intros [H | [H | [H | []]]]; discriminate H.
Defined.

(** ** Image sources *)

(** X19: an image's data URL takes precedence.  With a non-empty
    [imageDataUrl], [imagePaintFromNode] does not look at [imageUrl] and
    never fetches: the answer is the same without the URL, and the host
    state (the log of host calls included) is unchanged. *)
Theorem data_url_takes_precedence (host : Host) (n : ImageNode)
    (st : HostState) :
  truthy_string (image_imageDataUrl n) = true ->
  imagePaintFromNode host n st
  = imagePaintFromNode host
      (mkImage (image_base n) None (image_imageDataUrl n)
         (image_scaleMode n) (image_cornerRadius n) (image_stroke n)
         (image_strokeWidth n)) st
  /\ snd (imagePaintFromNode host n st) = st.
Proof.
  intro Hd. unfold imagePaintFromNode.
  cbn [image_imageDataUrl image_scaleMode image_imageUrl]. rewrite Hd.
  split; [reflexivity|].
  destruct (match_data_url _) as [[mime payload]|]; [|reflexivity].
  unfold bind, base64ToBytes, figma_createImage.
  destruct (decodeBase64 host payload) as [bytes|]; [|reflexivity].
  cbn [ret]. destruct (createImage host bytes); reflexivity.
Qed.

Lemma data_url_takes_precedence_witness :
  snd (imagePaintFromNode unreachable_host
         (mkImage (mkBase None 0%Z 0%Z 10%Z 10%Z None)
            (Some "https://images.invalid/a.png")
            (Some "data:image/png;base64,AAAA") None None None None)
         initial_state)
  = initial_state.
Proof.
  apply (data_url_takes_precedence unreachable_host
           (mkImage (mkBase None 0%Z 0%Z 10%Z 10%Z None)
              (Some "https://images.invalid/a.png")
              (Some "data:image/png;base64,AAAA") None None None None)
           initial_state eq_refl).
Defined.

(** ** The data-URL pattern *)

Lemma strip_prefix_app (p s : string) :
  strip_prefix p (p ++ s)%string = Some s.
Proof.
  induction p as [|a p IH]; simpl; [reflexivity|].
  rewrite Ascii.eqb_refl. exact IH.
Qed.

Lemma strip_prefix_some (p s rest : string) :
  strip_prefix p s = Some rest -> s = (p ++ rest)%string.
Proof.
  revert s. induction p as [|a p IH]; intros s; simpl.
  - intro H. injection H as ->. reflexivity.
  - destruct s as [|b s]; [discriminate|].
    destruct (Ascii.eqb a b) eqn:E; [|discriminate].
    apply Ascii.eqb_eq in E. subst b. intro H. rewrite (IH s H). reflexivity.
Qed.

Lemma span_not_spec (c : ascii) (s run tail : string) :
  span_not c s = (run, tail) ->
  s = (run ++ tail)%string /\ lacks c run = true
  /\ (tail = EmptyString \/ exists t, tail = String c t).
Proof.
  revert run tail. induction s as [|a s IH]; intros run tail; simpl.
  - intro H. injection H as <- <-. auto.
  - destruct (Ascii.eqb a c) eqn:E.
    + intro H. injection H as <- <-. apply Ascii.eqb_eq in E. subst a.
      split; [reflexivity|]. split; [reflexivity|]. right. eauto.
    + destruct (span_not c s) as [r t]. intro H. injection H as <- <-.
      destruct (IH r t eq_refl) as (-> & Hl & Ht).
      split; [reflexivity|]. split; [|exact Ht]. simpl. rewrite E. exact Hl.
Qed.

Lemma span_not_app (c : ascii) (run t : string) :
  lacks c run = true ->
  span_not c (run ++ String c t)%string = (run, String c t).
Proof.
  induction run as [|a run IH]; simpl.
  - intros _. rewrite Ascii.eqb_refl. reflexivity.
  - rewrite andb_true_iff, negb_true_iff. intros [E Hl].
    rewrite E, (IH Hl). reflexivity.
Qed.

(** X20: [parseImageDataUrl] (and [dataUrlToBase64], the same function in
    the UI) inverts the assembly of a data URL.  A URL it accepts is
    data: + mime + ;base64, + payload, where mime is image/ followed by a
    non-empty subtype without a semicolon and the payload holds no line
    terminator; and every URL assembled from such parts is accepted, with
    these very parts. *)
Theorem parseImageDataUrl_round_trip :
  (forall dataUrl mime b64,
      parseImageDataUrl dataUrl = inr (mime, b64) ->
      dataUrl = ("data:" ++ mime ++ ";base64," ++ b64)%string
      /\ no_line_terminator b64 = true
      /\ exists subtype,
           mime = ("image/" ++ subtype)%string /\ subtype <> ""
           /\ lacks ";"%char subtype = true)
  /\ (forall subtype b64,
        subtype <> "" -> lacks ";"%char subtype = true ->
        no_line_terminator b64 = true ->
        parseImageDataUrl ("data:image/" ++ subtype ++ ";base64," ++ b64)
        = inr (("image/" ++ subtype)%string, b64))
  /\ (forall dataUrl, dataUrlToBase64 dataUrl = parseImageDataUrl dataUrl).
Proof.
  split; [|split; [|reflexivity]].
  - intros dataUrl mime b64. unfold parseImageDataUrl, match_data_url.
    destruct (strip_prefix "data:image/" dataUrl) as [rest|] eqn:E1;
      [|discriminate].
    destruct (span_not ";"%char rest) as [subtype tail] eqn:E2.
    destruct (String.eqb subtype "") eqn:E3; [discriminate|].
    destruct (strip_prefix ";base64," tail) as [payload|] eqn:E4;
      [|discriminate].
    destruct (no_line_terminator payload) eqn:E5; [|discriminate].
    intro H. injection H as <- <-.
    apply strip_prefix_some in E1, E4.
    apply span_not_spec in E2 as (E2 & Hl & _).
    apply String.eqb_neq in E3. subst.
    split; [reflexivity|]. split; [exact E5|].
    exists subtype. auto.
  - intros subtype b64 Hne Hl Hb. unfold parseImageDataUrl, match_data_url.
    change ("data:image/" ++ subtype ++ ";base64," ++ b64)%string
      with ("data:image/" ++ (subtype ++ String ";"%char ("base64," ++ b64)))
             %string.
    rewrite strip_prefix_app, (span_not_app _ _ _ Hl).
    apply String.eqb_neq in Hne. rewrite Hne.
    change (String ";"%char ("base64," ++ b64))%string
      with (";base64," ++ b64)%string.
    rewrite strip_prefix_app, Hb. reflexivity.
Qed.

Lemma parseImageDataUrl_round_trip_witness :
  parseImageDataUrl ("data:image/" ++ "png" ++ ";base64," ++ "iVBORw0KGgo=")
  = inr (("image/" ++ "png")%string, "iVBORw0KGgo=").
Proof.
  apply (proj1 (proj2 parseImageDataUrl_round_trip) "png" "iVBORw0KGgo=").
  - discriminate.
  - reflexivity.
  - reflexivity.
Defined.

(** ** Rendering leaves the existing objects alone *)

Lemma firstn_update_nth_ge {A} (n i : nat) (f : A -> A) (l : list A) :
  (n <= i)%nat -> firstn n (update_nth i f l) = firstn n l.
Proof.
  revert n i. induction l as [|a l IH]; intros n i H.
  - destruct i; reflexivity.
  - destruct n as [|n]; [reflexivity|].
    destruct i as [|i]; [lia|]. simpl. rewrite IH by lia. reflexivity.
Qed.

Lemma firstn_update_nth_lt {A} (n i : nat) (f : A -> A) (l : list A) :
  (i < n)%nat -> firstn n (update_nth i f l) = update_nth i f (firstn n l).
Proof.
  revert n i. induction l as [|a l IH]; intros n i H.
  - destruct i, n; reflexivity.
  - destruct n as [|n]; [lia|].
    destruct i as [|i]; simpl; [reflexivity|].
    rewrite IH by lia. reflexivity.
Qed.

Lemma update_nth_out {A} (i : nat) (f : A -> A) (l : list A) :
  (List.length l <= i)%nat -> update_nth i f l = l.
Proof.
  revert i. induction l as [|a l IH]; intros i H; [destruct i; reflexivity|].
  destruct i as [|i]; simpl in *; [lia|]. rewrite IH by lia. reflexivity.
Qed.

Lemma keeps_prefix_length (old : list CanvasObj) (st : HostState) :
  keeps_prefix old st -> (List.length old <= List.length (store st))%nat.
Proof.
  unfold keeps_prefix. intro H.
  rewrite <- H at 1. rewrite length_firstn. lia.
Qed.

Lemma triple_keep {A B} (P : HostState -> Prop) (m : M A) (f : A -> M B)
    (R : B -> HostState -> Prop) (E : HostState -> Prop) :
  preserves P m -> (forall st, P st -> E st) ->
  (forall a, triple P (f a) R E) ->
  triple P (bind m f) R E.
Proof.
  intros Hm HE Hf. apply (triple_bind P m (fun _ => P)); [|exact Hf].
  apply (triple_weaken P P m _ (fun _ => P) E P (preserves_triple P m Hm));
    auto.
Qed.

Lemma triple_assume {A} (phi : Prop) (P : HostState -> Prop) (m : M A)
    (Q : A -> HostState -> Prop) (E : HostState -> Prop) :
  (phi -> triple P m Q E) -> triple (fun st => phi /\ P st) m Q E.
Proof. intros H st [Hphi Hst]. exact (H Hphi st Hst). Qed.

Section prefix_facts.

Variable host : Host.
Variable old : list CanvasObj.

Lemma prefix_create (kind : ObjKind) (E : HostState -> Prop) :
  triple (keeps_prefix old) (create kind)
    (fun id st => (List.length old <= id)%nat /\ keeps_prefix old st) E.
Proof.
  intros st H. simpl. split; [apply keeps_prefix_length, H|].
  unfold keeps_prefix in *. simpl.
  rewrite firstn_app.
  pose proof (keeps_prefix_length old st H) as L.
  replace (List.length old - List.length (store st))%nat with 0%nat by lia.
  simpl. rewrite app_nil_r. exact H.
Qed.

Lemma prefix_update_obj (id : nat) (f : CanvasObj -> CanvasObj) :
  (List.length old <= id)%nat ->
  preserves (keeps_prefix old) (update_obj id f).
Proof.
  intros Hid st H. unfold keeps_prefix in *. simpl.
  rewrite firstn_update_nth_ge by exact Hid. exact H.
Qed.

Lemma prefix_set (id : nat) (k : string) (v : HostValue) :
  (List.length old <= id)%nat -> preserves (keeps_prefix old) (set id k v).
Proof. intro Hid. apply prefix_update_obj, Hid. Qed.

Lemma prefix_emit (e : Event) : preserves (keeps_prefix old) (emit e).
Proof. intros st H. exact H. Qed.

Lemma prefix_note_mode (mode : string) :
  preserves (keeps_prefix old) (note_mode mode).
Proof. intros st H. exact H. Qed.

Lemma prefix_resize (id : nat) (w h : number) :
  (List.length old <= id)%nat -> preserves (keeps_prefix old) (resize id w h).
Proof.
  intro Hid. unfold resize.
  apply preserves_bind; [|intros _]; apply prefix_set, Hid.
Qed.

Lemma prefix_appendChild (parent child : nat) :
  (List.length old <= parent)%nat ->
  preserves (keeps_prefix old) (appendChild parent child).
Proof.
  intro Hid. unfold appendChild.
  apply preserves_bind; [apply prefix_update_obj, Hid | intros _].
  apply prefix_emit.
Qed.

Lemma prefix_loadFont (family style : string) :
  preserves (keeps_prefix old) (loadFont host family style).
Proof.
  intros st H. unfold loadFont.
  destruct (find _ (fontCache st)) as [[k b]|];
    [destruct b | destruct (loadFontAsync host family style)]; exact H.
Qed.

Lemma prefix_apply_stroke (id : nat) (s : option RGBA) (w : option number) :
  (List.length old <= id)%nat ->
  preserves (keeps_prefix old) (apply_stroke id s w).
Proof.
  intro Hid. destruct s, w; cbn [apply_stroke];
    try (apply prefix_set, Hid).
  apply preserves_bind; [|intros _]; apply prefix_set, Hid.
Qed.

Lemma prefix_set_if_present (id : nat) (k : string) (v : option number) :
  (List.length old <= id)%nat ->
  preserves (keeps_prefix old) (set_if_present id k v).
Proof.
  intro Hid. destruct v; [apply prefix_set, Hid | apply preserves_ret].
Qed.

Lemma prefix_base64ToBytes (b : string) :
  preserves (keeps_prefix old) (base64ToBytes host b).
Proof.
  intros st H. unfold base64ToBytes. destruct (decodeBase64 host b); exact H.
Qed.

Lemma prefix_figma_createImage (b : string) :
  preserves (keeps_prefix old) (figma_createImage host b).
Proof.
  intros st H. unfold figma_createImage. destruct (createImage host b);
    exact H.
Qed.

Lemma prefix_imagePaintFromNode (n : ImageNode) :
  preserves (keeps_prefix old) (imagePaintFromNode host n).
Proof.
  unfold imagePaintFromNode.
  destruct (truthy_string (image_imageDataUrl n)).
  - destruct (match_data_url _) as [[mime payload]|]; [|apply preserves_ret].
    apply preserves_bind; [apply prefix_base64ToBytes | intro bytes].
    apply preserves_bind; [apply prefix_figma_createImage | intro hash].
    apply preserves_ret.
  - destruct (truthy_string (image_imageUrl n)); [|apply preserves_ret].
    apply preserves_bind; [apply prefix_emit | intros _].
    destruct (fetch host _) as [|[|] [buf|]];
      try apply preserves_throw; try apply preserves_ret.
    apply preserves_bind; [apply prefix_figma_createImage | intro hash].
    apply preserves_ret.
Qed.

End prefix_facts.

Ltac prefix_step Hid :=
  first
    [ apply preserves_ret | apply preserves_throw
    | apply prefix_set; exact Hid | apply prefix_emit
    | apply prefix_note_mode | apply prefix_resize; exact Hid
    | apply prefix_appendChild; exact Hid | apply prefix_loadFont
    | apply prefix_apply_stroke; exact Hid
    | apply prefix_set_if_present; exact Hid
    | apply prefix_imagePaintFromNode
    | apply preserves_bind; [|intro]
    | match goal with
      | |- preserves _ (match ?e with _ => _ end) => destruct e
      | |- preserves _ (if ?e then _ else _) => destruct e
      end ].

(** The steps of [renderNode] on the object it created keep the older
    objects as they are. *)
Ltac own_steps Hid :=
  repeat (apply triple_keep;
          [solve [repeat prefix_step Hid] | auto | intro]).

(** Under a parent that is not among them, the older objects are out of
    reach. *)
Lemma renderNode_keeps_prefix (host : Host) (old : list CanvasObj)
    (node : DesignNode) :
  forall (parent : nat) (ax ay w h : number) (mode : string),
    (List.length old <= parent)%nat ->
    triple (keeps_prefix old) (renderNode host node parent ax ay w h mode)
      (fun _ => keeps_prefix old) (keeps_prefix old).
Proof.
  induction node as [n | n | n | n cs IH | n | n] using DesignNode_nested_ind;
    intros parent ax ay w h mode Hp; cbn [renderNode];
    (apply triple_keep; [apply prefix_note_mode | auto | intros _]);
    (apply (triple_bind _ _ _ _ _ _ (prefix_create old _ _)); intro id;
     apply triple_assume; intro Hid).
  - apply preserves_triple. repeat first [prefix_step Hid | prefix_step Hp].
  - apply preserves_triple. repeat first [prefix_step Hid | prefix_step Hp].
  - apply preserves_triple. repeat first [prefix_step Hid | prefix_step Hp].
  - own_steps Hid.
    apply triple_keep; [apply prefix_appendChild, Hp | auto | intros _].
    apply triple_for_each. apply Forall_forall. intros c Hc.
    rewrite Forall_forall in IH. apply IH; [exact Hc | exact Hid].
  - apply preserves_triple. repeat first [prefix_step Hid | prefix_step Hp].
  - apply preserves_triple. repeat first [prefix_step Hid | prefix_step Hp].
Qed.

Lemma adopt_step (old : list CanvasObj) (parent : nat) :
  triple (keeps_prefix old) (appendChild parent (List.length old))
    (fun _ => keeps_prefix (update_nth parent (adopt (List.length old)) old))
    (fun st =>
       keeps_prefix old st
       \/ keeps_prefix (update_nth parent (adopt (List.length old)) old) st).
Proof.
  intros st H. unfold appendChild, bind. simpl.
  unfold keeps_prefix in *. simpl. rewrite length_update_nth.
  destruct (Nat.le_gt_cases (List.length old) parent) as [L | L].
  - rewrite firstn_update_nth_ge by exact L.
    rewrite update_nth_out by exact L. exact H.
  - rewrite firstn_update_nth_lt by exact L. rewrite H. reflexivity.
Qed.

(** X21: rendering a node leaves the objects that were on the canvas
    before as they were, except that the parent gets the node's object as
    its last child.  When the call returns, the older objects are exactly
    the old ones with that child adopted; when it throws, they are either
    that or exactly the old ones, and nothing else of them has changed. *)
Theorem renderNode_leaves_existing_objects (host : Host) (node : DesignNode)
    (parent : nat) (ax ay w h : number) (mode : string) (st : HostState) :
  let old := store st in
  let old' := update_nth parent (adopt (List.length old)) old in
  match renderNode host node parent ax ay w h mode st with
  | (Returned _, st') => firstn (List.length old) (store st') = old'
  | (Thrown _, st') =>
      firstn (List.length old) (store st') = old
      \/ firstn (List.length old) (store st') = old'
  end.
Proof.
  intros old old'.
  assert (T : triple (fun s => s = st)
                (renderNode host node parent ax ay w h mode)
                (fun _ => keeps_prefix old')
                (fun s => keeps_prefix old s \/ keeps_prefix old' s)).
  { assert (Hid : (List.length old <= List.length old)%nat) by lia.
    assert (Hid' : (List.length old' <= List.length old)%nat).
    { unfold old'. rewrite length_update_nth. lia. }
    destruct node as [n | n | n cs | n | n]; cbn [renderNode];
      (apply (triple_bind _ _ (fun _ s => store s = old));
       [intros s ->; reflexivity | intros _]);
      (apply (triple_bind _ _
                (fun id s => id = List.length old /\ keeps_prefix old s));
       [ intros s Hs; simpl; rewrite Hs; split; [reflexivity|];
         unfold keeps_prefix; simpl; rewrite firstn_app, Nat.sub_diag;
         simpl; rewrite firstn_all, app_nil_r; reflexivity
       | intro id; apply triple_assume; intros -> ]);
      own_steps Hid.
    - apply adopt_step.
    - apply adopt_step.
    - apply (triple_bind _ _ _ _ _ _ (adopt_step old parent)). intros _.
      destruct cs as [cs|].
      + apply (triple_weaken _ (keeps_prefix old') _ _
                 (fun _ => keeps_prefix old') _ (keeps_prefix old'));
          auto.
        apply triple_for_each. apply Forall_forall. intros c _.
        apply renderNode_keeps_prefix. exact Hid'.
      + apply triple_ret. auto.
    - apply adopt_step.
    - apply adopt_step. }
  specialize (T st eq_refl). unfold keeps_prefix in T.
  unfold old' in T at 1 3. rewrite !length_update_nth in T.
  destruct (renderNode host node parent ax ay w h mode st) as [[[] | e] st'];
    exact T.
Qed.

(** ** Plain steps *)

Lemma plain_ret {A} (a : A) : plain (ret a).
Proof.
  intro st. exists a, st. split; [reflexivity|]. split; [reflexivity|].
  exists []. rewrite app_nil_r. auto.
Qed.

Lemma plain_bind {A B} (m : M A) (f : A -> M B) :
  plain m -> (forall a, plain (f a)) -> plain (bind m f).
Proof.
  intros Hm Hf st. unfold bind.
  destruct (Hm st) as (a & st1 & -> & C1 & e1 & L1 & F1).
  destruct (Hf a st1) as (b & st2 & -> & C2 & e2 & L2 & F2).
  exists b, st2. split; [reflexivity|]. split; [congruence|].
  exists (e1 ++ e2). rewrite L2, L1, app_assoc. split; [reflexivity|].
  unfold font_requests in *. rewrite flat_map_app, F1, F2. reflexivity.
Qed.

Lemma plain_update_obj (id : nat) (f : CanvasObj -> CanvasObj) :
  plain (update_obj id f).
Proof.
  intro st. eexists. eexists. split; [reflexivity|]. split; [reflexivity|].
  exists []. simpl. rewrite app_nil_r. auto.
Qed.

Lemma plain_set (id : nat) (k : string) (v : HostValue) : plain (set id k v).
Proof. apply plain_update_obj. Qed.

Lemma plain_note_mode (mode : string) : plain (note_mode mode).
Proof.
  intro st. eexists. eexists. split; [reflexivity|]. split; [reflexivity|].
  exists []. simpl. rewrite app_nil_r. auto.
Qed.

Lemma plain_emit (e : Event) : font_requests [e] = [] -> plain (emit e).
Proof.
  intros He st. eexists. eexists. split; [reflexivity|].
  split; [reflexivity|]. exists [e]. auto.
Qed.

Lemma plain_create (kind : ObjKind) : plain (create kind).
Proof.
  intro st. eexists. eexists. split; [reflexivity|]. split; [reflexivity|].
  eexists [_]. simpl. auto.
Qed.

Lemma plain_resize (id : nat) (w h : number) : plain (resize id w h).
Proof. apply plain_bind; [|intros _]; apply plain_set. Qed.

Lemma plain_appendChild (parent child : nat) :
  plain (appendChild parent child).
Proof.
  apply plain_bind; [apply plain_update_obj | intros _].
  apply plain_emit. reflexivity.
Qed.

Lemma plain_apply_stroke (id : nat) (s : option RGBA) (w : option number) :
  plain (apply_stroke id s w).
Proof.
  destruct s, w; cbn [apply_stroke]; try apply plain_set.
  apply plain_bind; [|intros _]; apply plain_set.
Qed.

Lemma plain_set_if_present (id : nat) (k : string) (v : option number) :
  plain (set_if_present id k v).
Proof. destruct v; [apply plain_set | apply plain_ret]. Qed.

Ltac plain_step :=
  first
    [ apply plain_ret | apply plain_set | apply plain_note_mode
    | apply plain_create | apply plain_resize | apply plain_appendChild
    | apply plain_apply_stroke | apply plain_set_if_present
    | apply plain_emit; reflexivity
    | apply plain_bind; [|intro]
    | match goal with
      | |- plain (match ?e with _ => _ end) => destruct e
      | |- plain (if ?e then _ else _) => destruct e
      end ].

(** ** Each font is requested once *)

Lemma once_plain {A} (log0 : list Event) (m : M A) :
  plain m -> preserves (fonts_requested_once log0) m.
Proof.
  intros Hm st (evs & L & F & D).
  destruct (Hm st) as (a & st1 & E & C1 & e1 & L1 & F1). rewrite E. simpl.
  exists (evs ++ e1). rewrite L1, L, app_assoc. split; [reflexivity|].
  rewrite C1. split; [|exact D].
  unfold font_requests in *. rewrite flat_map_app, F1, F, app_nil_r.
  reflexivity.
Qed.

Lemma once_inert {A} (P : HostState -> Prop) (m : M A) :
  (forall st, snd (m st) = st) -> preserves P m.
Proof. intros H st Hst. rewrite H. exact Hst. Qed.

Lemma base64ToBytes_inert (host : Host) (b : string) (st : HostState) :
  snd (base64ToBytes host b st) = st.
Proof. unfold base64ToBytes. destruct (decodeBase64 host b); reflexivity. Qed.

Lemma figma_createImage_inert (host : Host) (b : string) (st : HostState) :
  snd (figma_createImage host b st) = st.
Proof.
  unfold figma_createImage. destruct (createImage host b); reflexivity.
Qed.

Lemma find_key_none (key : string) (cache : list (string * bool)) :
  find (fun e => String.eqb (fst e) key) cache = None ->
  ~ In key (map fst cache).
Proof.
  intros H Hin. apply in_map_iff in Hin as [[k b] [<- Hin]].
  pose proof (find_none _ _ H _ Hin) as E. simpl in E.
  rewrite String.eqb_refl in E. discriminate E.
Qed.

Lemma once_loadFont (host : Host) (log0 : list Event)
    (family style : string) :
  preserves (fonts_requested_once log0) (loadFont host family style).
Proof.
  intros st (evs & L & F & D). unfold loadFont.
  destruct (find _ (fontCache st)) as [[k b]|] eqn:E.
  - destruct b; simpl; exists evs; auto.
  - apply find_key_none in E.
    assert (G : fonts_requested_once log0
                  (mkState (store st)
                     (fontCache st
                      ++ [((family ++ "::" ++ style)%string,
                           loadFontAsync host family style)])
                     (log st ++ [ELoadFontAsync family style]) (modes st)
                     (pageChildren st) (selection st))).
    { exists (evs ++ [ELoadFontAsync family style]). simpl.
      rewrite L, app_assoc. split; [reflexivity|].
      rewrite map_app. simpl. split.
      - unfold font_requests in *. rewrite flat_map_app, F. reflexivity.
      - apply NoDup_app; [exact D | repeat constructor; auto |].
        intros k Hk [<- | []]. exact (E Hk). }
    destruct (loadFontAsync host family style); exact G.
Qed.

Ltac once_step :=
  first
    [ apply preserves_ret | apply preserves_throw
    | apply once_loadFont
    | apply once_inert; first [apply base64ToBytes_inert
                              | apply figma_createImage_inert]
    | apply once_plain; solve [repeat plain_step]
    | apply preserves_bind; [|intro]
    | match goal with
      | |- preserves _ (match ?e with _ => _ end) => destruct e
      | |- preserves _ (if ?e then _ else _) => destruct e
      end ].

Lemma once_imagePaintFromNode (host : Host) (log0 : list Event)
    (n : ImageNode) :
  preserves (fonts_requested_once log0) (imagePaintFromNode host n).
Proof.
  unfold imagePaintFromNode.
  destruct (truthy_string (image_imageDataUrl n)).
  - destruct (match_data_url _) as [[mime payload]|]; repeat once_step.
  - destruct (truthy_string (image_imageUrl n)); [|apply preserves_ret].
    apply preserves_bind;
      [apply once_plain, plain_emit; reflexivity | intros _].
    destruct (fetch host _) as [|[|] [buf|]]; repeat once_step.
Qed.

Lemma once_renderNode (host : Host) (log0 : list Event) (node : DesignNode) :
  forall (parent : nat) (ax ay w h : number) (mode : string),
    preserves (fonts_requested_once log0)
      (renderNode host node parent ax ay w h mode).
Proof.
  induction node as [n | n | n | n cs IH | n | n] using DesignNode_nested_ind;
    intros parent ax ay w h mode; cbn [renderNode].
  - repeat once_step.
  - repeat once_step.
  - repeat once_step.
  - repeat (apply preserves_bind; [solve [repeat once_step] | intro]).
    apply preserves_for_each. apply Forall_forall. intros c Hc.
    rewrite Forall_forall in IH. apply IH, Hc.
  - repeat once_step.
  - repeat (apply preserves_bind; [solve [repeat once_step] | intro]).
    apply preserves_bind; [apply once_imagePaintFromNode | intro].
    repeat once_step.
Qed.

(** X22: during one rendering every font is requested from the host at
    most once: the keys of the [loadFontAsync] calls that
    [renderToFigma], starting with its empty cache, adds to the log are
    pairwise different, whether it returns or throws. *)
Theorem each_font_is_requested_once (host : Host) (spec : DesignSpec)
    (shot : option Screenshot) (st : HostState) :
  fontCache st = [] ->
  exists evs,
    log (snd (renderToFigma host spec shot st)) = log st ++ evs
    /\ NoDup (font_requests evs).
Proof.
  intro Hc.
  assert (P : preserves (fonts_requested_once (log st))
                (renderToFigma host spec shot)).
  { unfold renderToFigma.
    apply preserves_bind.
    { apply once_inert. intro s.
      pose proof (normalizeScreenshot_pure shot s) as H.
      destruct (accepted_screenshot shot); [rewrite H; reflexivity|].
      destruct H as [e ->]. reflexivity. }
    intro accepted.
    repeat (apply preserves_bind; [solve [repeat once_step] | intro]).
    apply preserves_bind.
    { apply preserves_for_each, Forall_forall. intros n _.
      apply once_renderNode. }
    intros _. apply once_plain.
    repeat first [plain_step | intro s; eexists; eexists;
                               split; [reflexivity|]; split; [reflexivity|];
                               exists []; rewrite app_nil_r; auto]. }
  destruct (P st) as (evs & L & F & D).
  - exists []. rewrite app_nil_r, Hc. repeat split; constructor.
  - exists evs. split; [exact L|]. rewrite F. exact D.
Qed.

Lemma each_font_is_requested_once_witness :
  exists evs,
    log (snd (renderToFigma obliging_host two_level_spec None initial_state))
    = log initial_state ++ evs
    /\ NoDup (font_requests evs).
Proof.
  exact (each_font_is_requested_once obliging_host two_level_spec None
           initial_state eq_refl).
Defined.

Lemma find_last_key (key : string) (b : bool) (cache : list (string * bool)) :
  find (fun e => String.eqb (fst e) key) cache = None ->
  find (fun e => String.eqb (fst e) key) (cache ++ [(key, b)])
  = Some (key, b).
Proof.
  induction cache as [|[k c] cache IH]; simpl.
  - intros _. rewrite String.eqb_refl. reflexivity.
  - destruct (String.eqb k key); [discriminate | exact IH].
Qed.

(** X23: [loadFont] memoizes by key.  After a first request, any request
    whose key [family::style] is the same (be it for the same font or for
    another family and style that happen to give the same key) gets the
    outcome of the first one, a rejection included, and the host is not
    asked again: the state does not change. *)
Theorem loadFont_memoizes_by_key (host : Host) (family style : string)
    (family' style' : string) (st : HostState) :
  font_key family' style' = font_key family style ->
  let earlier := loadFont host family style st in
  loadFont host family' style' (snd earlier) = earlier.
Proof.
  intros Hk earlier. unfold font_key in Hk.
  unfold earlier, loadFont. rewrite Hk.
  destruct (find _ (fontCache st)) as [[k b]|] eqn:E.
  - destruct b; cbn [snd]; rewrite E; reflexivity.
  - destruct (loadFontAsync host family style) eqn:R; cbn [snd fontCache];
      rewrite (find_last_key _ _ _ E); reflexivity.
Qed.

Lemma loadFont_memoizes_by_key_witness :
  loadFont obliging_host "Inter" "Display::Bold"
    (snd (loadFont obliging_host "Inter::Display" "Bold" initial_state))
  = loadFont obliging_host "Inter::Display" "Bold" initial_state.
Proof.
  exact (loadFont_memoizes_by_key obliging_host "Inter::Display" "Bold"
           "Inter" "Display::Bold" initial_state eq_refl).
Defined.

(** ** A resize that the host rejects for a text *)

Lemma loadFont_resolving (host : Host) (family style : string)
    (l : list CanvasObj) (fc : list (string * bool)) (lg : list Event)
    (md : list string) (pg sel : list nat) :
  font_outcome host (mkState l fc lg md pg sel) family style = true ->
  exists fc' lg',
    loadFont host family style (mkState l fc lg md pg sel)
    = (Returned tt, mkState l fc' lg' md pg sel).
Proof.
  unfold font_outcome, loadFont, font_key. cbn [fontCache store log modes
    pageChildren selection].
  destruct (find _ fc) as [[k b]|].
  - intros ->. eauto.
  - intros ->. eauto.
Qed.

(** X24: a resize that the host rejects for a text is caught.  When the
    font of a text node loads, rendering the node returns whether the host
    accepts the resize of the text or throws: the text object is created
    with its characters and is appended to its parent as the last child;
    when the resize throws the object is left without the width and the
    height of the node, and otherwise it carries them. *)
Theorem text_resize_failure_is_caught (host : Host) (n : TextNode)
    (parent : nat) (ax ay w h : number) (mode : string) (st : HostState) :
  (parent < List.length (store st))%nat ->
  font_outcome host st (or_else (text_fontFamily n) "Inter")
    (or_else (text_fontStyle n) "Regular") = true ->
  exists st' obj p siblings,
    renderNode host (Text n) parent ax ay w h mode st = (Returned tt, st')
    /\ nth_error (store st') (List.length (store st)) = Some obj
    /\ obj_kind obj = TEXTOBJ
    /\ obj_get "characters" obj = Some (HStr (text_text n))
    /\ (if textResizeThrows host (base_width (text_base n))
             (base_height (text_base n))
        then obj_get "width" obj = None /\ obj_get "height" obj = None
        else obj_get "width" obj = Some (HNum (base_width (text_base n)))
             /\ obj_get "height" obj
                = Some (HNum (base_height (text_base n))))
    /\ nth_error (store st') parent = Some p
    /\ obj_children p = siblings ++ [List.length (store st)].
Proof.
  intros Hp Hf. destruct st as [l fc lg md pg sel]. cbn [store] in Hp |- *.
  destruct (nth_error l parent) as [p0|] eqn:Ep;
    [|apply nth_error_None in Ep; lia].
  cbn [renderNode]. unfold resize, set_if_present.
  unfold node_width, node_height. cbn [node_base].
  unfold bind at 1. cbn [note_mode modify]. unfold bind at 1.
  cbn [create store fontCache log modes pageChildren selection].
  do 3 (unfold bind at 1; rewrite set_newest; cbv beta iota).
  unfold bind at 1.
  destruct (loadFont_resolving host _ _
              (l ++ [mkObj TEXTOBJ
                       [("y", HNum (pt_y (chooseLocalPosition (Text n) ax ay
                                            w h mode)));
                        ("x", HNum (pt_x (chooseLocalPosition (Text n) ax ay
                                            w h mode)));
                        ("name",
                         HStr (or_else (base_name (text_base n)) "Text"))]
                       []])
              fc (lg ++ [ECreate (List.length l) TEXTOBJ]) (md ++ [mode])
              pg sel Hf) as (fc' & lg' & ->).
  cbv beta iota.
  destruct (text_fontSize n) as [size|]; [destruct (Num.truthy size)|];
    destruct (text_fill n) as [fill|];
    destruct (text_alignHorizontal n) as [a|];
    destruct (base_opacity (text_base n)) as [o|];
    destruct (textResizeThrows host (base_width (text_base n))
                (base_height (text_base n)));
    unfold bind, ret;
    repeat (rewrite set_newest; cbv beta iota);
    rewrite (appendChild_newest _ _ _ _ _ _ _ _ Hp);
    (eexists; eexists; eexists; exists (obj_children p0);
     split; [reflexivity|]);
    cbn [store];
    (split; [apply nth_error_app_at, length_update_nth|]);
    (split; [reflexivity|]); (split; [reflexivity|]);
    (split; [split; reflexivity|]);
    (split;
     [rewrite nth_error_app1 by (rewrite length_update_nth; exact Hp);
      rewrite nth_error_update_nth, Ep; reflexivity
     |reflexivity]).
Qed.

Lemma text_resize_failure_is_caught_witness :
  exists st' obj,
    renderNode rigid_host (Text caption) 0 0%Z 0%Z 800%Z 600%Z "relative"
      one_frame_state
    = (Returned tt, st')
    /\ nth_error (store st') (List.length (store one_frame_state)) = Some obj
    /\ obj_get "characters" obj = Some (HStr "Hi")
    /\ obj_get "width" obj = None.
Proof.
  assert (Hp : (0 < List.length (store one_frame_state))%nat)
    by (vm_compute; lia).
  destruct (text_resize_failure_is_caught rigid_host caption 0 0%Z 0%Z
              800%Z 600%Z "relative" one_frame_state Hp eq_refl)
    as (st' & obj & p & siblings & H1 & H2 & _ & H4 & H5 & _).
  exists st', obj. split; [exact H1|]. split; [exact H2|].
  split; [exact H4 | exact (proj1 H5)].
Defined.

(** ** A load that fails aborts the walk *)

Section one_new_facts.

Variable host : Host.
Variable old : list CanvasObj.
Variable kind : ObjKind.
Variable cache : list (string * bool).

Lemma one_new_set (k : string) (v : HostValue) :
  preserves (one_new old kind cache) (set (List.length old) k v).
Proof.
  intros st [(o & H & Hk & Hc) Hf]. split; [|exact Hf].
  eexists. simpl. rewrite H, update_nth_last. split; [reflexivity|].
  simpl. auto.
Qed.

Lemma one_new_resize (w h : number) :
  preserves (one_new old kind cache) (resize (List.length old) w h).
Proof. apply preserves_bind; [|intros _]; apply one_new_set. Qed.

Lemma one_new_set_if_present (k : string) (v : option number) :
  preserves (one_new old kind cache) (set_if_present (List.length old) k v).
Proof. destruct v; [apply one_new_set | apply preserves_ret]. Qed.

Lemma loadFont_fails (family style : string) (st0 : HostState) :
  fontCache st0 = cache ->
  font_outcome host st0 family style = false ->
  triple (one_new old kind cache) (loadFont host family style)
    (fun _ _ => False) (fun s => one_new old kind (fontCache s) s).
Proof.
  unfold font_outcome, font_key. intros <- Hf st [Hn Hc]. unfold loadFont.
  rewrite Hc. destruct (find _ (fontCache st0)) as [[k b]|].
  - subst b. split; [exact Hn | reflexivity].
  - rewrite Hf. split; [exact Hn | reflexivity].
Qed.

Lemma imagePaintFromNode_fails (n : ImageNode) :
  image_loads host n = false ->
  triple (one_new old kind cache) (imagePaintFromNode host n)
    (fun _ _ => False) (fun s => one_new old kind (fontCache s) s).
Proof.
  unfold image_loads, imagePaintFromNode. intros Hl st Hst.
  assert (G : one_new old kind (fontCache st) st).
  { destruct Hst as [H _]. split; [exact H | reflexivity]. }
  destruct (truthy_string (image_imageDataUrl n)).
  - destruct (match_data_url _) as [[mime payload]|]; [|discriminate Hl].
    unfold bind, base64ToBytes, figma_createImage.
    destruct (decodeBase64 host payload) as [bytes|]; [|exact G].
    cbn [ret]. destruct (createImage host bytes); [discriminate Hl|exact G].
  - destruct (truthy_string (image_imageUrl n)); [|discriminate Hl].
    unfold bind, emit, modify, figma_createImage.
    destruct (fetch host _) as [|[|] [buf|]]; try discriminate Hl;
      try exact G.
    cbn [ret]. destruct (createImage host buf); [discriminate Hl|exact G].
Qed.

End one_new_facts.

Lemma triple_absurd {A} (m : M A) (Q : A -> HostState -> Prop)
    (E : HostState -> Prop) :
  triple (fun _ => False) m Q E.
Proof. intros st []. Qed.

(** X25: a load that fails aborts the walk.  When the font of a text node
    does not load (now, or earlier under the same key) or the source of an
    image node cannot be loaded, rendering the node throws, and so does the
    loop over it and its later siblings: the node's object has been created
    but is attached to nothing, the objects that were there are untouched,
    and no later sibling is rendered. *)
Theorem failed_load_aborts_the_walk (host : Host) (n : DesignNode)
    (rest : list DesignNode) (parent : nat) (ax ay w h : number)
    (mode : string) (st : HostState) :
  load_fails host st n = true ->
  exists e st' o,
    for_each (fun c => renderNode host c parent ax ay w h mode) (n :: rest) st
    = (Thrown e, st')
    /\ store st' = store st ++ [o]
    /\ obj_kind o = kind_of n /\ obj_children o = [].
Proof.
  intro Hf. set (old := store st).
  set (E := fun s => one_new old (kind_of n) (fontCache s) s).
  assert (T : triple (fun s => s = st)
                (renderNode host n parent ax ay w h mode)
                (fun _ _ => False) E).
  { assert (W : forall s, one_new old (kind_of n) (fontCache st) s -> E s).
    { intros s [H Hc]. split; [exact H | reflexivity]. }
    destruct n as [r | t | f cs | e | i]; try discriminate Hf;
      cbn [load_fails] in Hf; apply negb_true_iff in Hf;
      cbn [renderNode kind_of] in *;
      (apply (triple_bind _ _ (fun _ s => store s = old
                                          /\ fontCache s = fontCache st));
       [intros s ->; split; reflexivity | intros _]);
      (match goal with
       | |- triple _ (bind (create ?K) _) _ _ =>
           apply (triple_bind _ _
                    (fun id s => id = List.length old
                                 /\ one_new old K (fontCache st) s))
       end;
       [ intros s [Hs Hc]; simpl; rewrite Hs; split; [reflexivity|];
         split; [eexists; split; [reflexivity | split; reflexivity]
                | exact Hc]
       | intro id; apply triple_assume; intros -> ]);
      repeat (apply triple_keep;
              [ first [ apply one_new_set | apply one_new_resize
                      | apply one_new_set_if_present ]
              | exact W | intro ]).
    - apply (triple_bind _ _ (fun _ _ => False));
        [|intro; apply triple_absurd].
      apply (loadFont_fails host old TEXTOBJ (fontCache st) _ _ st eq_refl Hf).
    - apply (triple_bind _ _ (fun _ _ => False));
        [|intro; apply triple_absurd].
      apply (imagePaintFromNode_fails host old RECTANGLE _ i Hf). }
  specialize (T st eq_refl). cbn [for_each]. unfold bind.
  destruct (renderNode host n parent ax ay w h mode st) as [[[] | e] st'];
    [destruct T|].
  destruct T as [(o & Hs & Hk & Hc) _]. exists e, st', o. auto.
Qed.

Lemma failed_load_aborts_the_walk_witness :
  exists e st' o,
    for_each (fun c => renderNode unreachable_host c 1 0%Z 0%Z 800%Z 600%Z
                         "relative")
      (remote_image :: [plain_rect 100 10 200 40]) one_frame_state
    = (Thrown e, st')
    /\ store st' = store one_frame_state ++ [o]
    /\ obj_kind o = kind_of remote_image /\ obj_children o = [].
Proof.
  exact (failed_load_aborts_the_walk unreachable_host remote_image
           [plain_rect 100 10 200 40] 1 0%Z 0%Z 800%Z 600%Z "relative"
           one_frame_state eq_refl).
Defined.

(** ** Where a node is placed *)

Lemma nth_error_update_nth_other {A} (f : A -> A) (i j : nat) (l : list A) :
  i <> j -> nth_error (update_nth i f l) j = nth_error l j.
Proof.
  revert i j. induction l as [|a l IH]; intros i j H.
  - destruct i; reflexivity.
  - destruct i as [|i], j as [|j]; simpl; try reflexivity; [lia|].
    apply IH. lia.
Qed.

Lemma holds_exists (id : nat) (k : string) (v : HostValue) (st : HostState) :
  holds id k v st -> (id < List.length (store st))%nat.
Proof.
  unfold holds, prop_of. intro H. apply nth_error_Some.
  destruct (nth_error (store st) id); [discriminate | discriminate H].
Qed.

Section holds_facts.

Variable host : Host.
Variable id : nat.
Variable k : string.
Variable v : HostValue.

Lemma holds_update_obj (id' : nat) (f : CanvasObj -> CanvasObj) :
  id' <> id \/ (forall o, obj_get k (f o) = obj_get k o) ->
  preserves (holds id k v) (update_obj id' f).
Proof.
  intros Hf st H. unfold holds, prop_of in *. simpl.
  destruct (Nat.eq_dec id' id) as [-> | Hne].
  - destruct Hf as [Hf | Hf]; [destruct (Hf eq_refl)|].
    rewrite nth_error_update_nth.
    destruct (nth_error (store st) id); simpl; [rewrite Hf|]; exact H.
  - rewrite nth_error_update_nth_other by exact Hne. exact H.
Qed.

Lemma holds_set (id' : nat) (k' : string) (v' : HostValue) :
  id' <> id \/ k <> k' -> preserves (holds id k v) (set id' k' v').
Proof.
  intro H. apply holds_update_obj. destruct H as [H | H]; [left; exact H|].
  right. intro o. unfold obj_get. simpl.
  apply String.eqb_neq in H. rewrite H. reflexivity.
Qed.

Lemma holds_still {A} (m : M A) :
  (forall st, store (snd (m st)) = store st) -> preserves (holds id k v) m.
Proof.
  intros Hm st H. unfold holds, prop_of in *. rewrite Hm. exact H.
Qed.

Lemma holds_emit (e : Event) : preserves (holds id k v) (emit e).
Proof. apply holds_still. reflexivity. Qed.

Lemma holds_note_mode (mode : string) :
  preserves (holds id k v) (note_mode mode).
Proof. apply holds_still. reflexivity. Qed.

Lemma holds_loadFont (family style : string) :
  preserves (holds id k v) (loadFont host family style).
Proof.
  apply holds_still. intro st. unfold loadFont.
  destruct (find _ (fontCache st)) as [[key b]|];
    [destruct b | destruct (loadFontAsync host family style)]; reflexivity.
Qed.

Lemma holds_imagePaintFromNode (n : ImageNode) :
  preserves (holds id k v) (imagePaintFromNode host n).
Proof.
  apply holds_still. intro st. unfold imagePaintFromNode.
  destruct (truthy_string (image_imageDataUrl n)).
  - destruct (match_data_url _) as [[mime payload]|]; [|reflexivity].
    unfold bind, base64ToBytes, figma_createImage.
    destruct (decodeBase64 host payload) as [bytes|]; [|reflexivity].
    cbn [ret]. destruct (createImage host bytes); reflexivity.
  - destruct (truthy_string (image_imageUrl n)); [|reflexivity].
    unfold bind, emit, modify, figma_createImage.
    destruct (fetch host _) as [|[|] [buf|]]; try reflexivity.
    cbn [ret]. destruct (createImage host buf); reflexivity.
Qed.

Lemma holds_resize (id' : nat) (w h : number) :
  id' <> id \/ (k <> "width" /\ k <> "height") ->
  preserves (holds id k v) (resize id' w h).
Proof.
  intro H. apply preserves_bind; [|intros _]; apply holds_set; tauto.
Qed.

Lemma holds_appendChild (parent child : nat) :
  preserves (holds id k v) (appendChild parent child).
Proof.
  apply preserves_bind; [|intros _; apply holds_emit].
  apply holds_update_obj. right. reflexivity.
Qed.

Lemma holds_apply_stroke (id' : nat) (s : option RGBA) (w : option number) :
  id' <> id \/ (k <> "strokes" /\ k <> "strokeWeight") ->
  preserves (holds id k v) (apply_stroke id' s w).
Proof.
  intro H. destruct s, w; cbn [apply_stroke];
    try (apply holds_set; tauto).
  apply preserves_bind; [|intros _]; apply holds_set; tauto.
Qed.

Lemma holds_set_if_present (id' : nat) (k' : string) (n : option number) :
  id' <> id \/ k <> k' -> preserves (holds id k v) (set_if_present id' k' n).
Proof.
  intro H. destruct n; [apply holds_set, H | apply preserves_ret].
Qed.

Lemma holds_create (kind : ObjKind) (E : HostState -> Prop) :
  triple (holds id k v) (create kind)
    (fun r st => r <> id /\ holds id k v st) E.
Proof.
  intros st H. pose proof (holds_exists _ _ _ _ H) as L. simpl.
  split; [lia|]. unfold holds, prop_of in *. simpl.
  rewrite nth_error_app1 by exact L. exact H.
Qed.

End holds_facts.

Ltac holds_step H :=
  first
    [ apply preserves_ret | apply preserves_throw
    | apply holds_set; H | apply holds_emit | apply holds_note_mode
    | apply holds_resize; H | apply holds_appendChild | apply holds_loadFont
    | apply holds_apply_stroke; H | apply holds_set_if_present; H
    | apply holds_imagePaintFromNode
    | apply preserves_bind; [|intro]
    | match goal with
      | |- preserves _ (match ?e with _ => _ end) => destruct e
      | |- preserves _ (if ?e then _ else _) => destruct e
      end ].

(** Rendering a node does not change the properties of an object that
    is already there. *)
Lemma renderNode_keeps_props (host : Host) (id : nat) (k : string)
    (v : HostValue) (node : DesignNode) :
  forall (parent : nat) (ax ay w h : number) (mode : string),
    triple (holds id k v) (renderNode host node parent ax ay w h mode)
      (fun _ => holds id k v) (holds id k v).
Proof.
  induction node as [n | n | n | n cs IH | n | n] using DesignNode_nested_ind;
    intros parent ax ay w h mode; cbn [renderNode];
    (apply triple_keep; [apply holds_note_mode | auto | intros _]);
    (apply (triple_bind _ _ _ _ _ _ (holds_create id k v _ _)); intro r;
     apply triple_assume; intro Hr).
  - apply preserves_triple. repeat holds_step ltac:(left; exact Hr).
  - apply preserves_triple. repeat holds_step ltac:(left; exact Hr).
  - apply preserves_triple. repeat holds_step ltac:(left; exact Hr).
  - repeat (apply triple_keep;
            [ solve [repeat holds_step ltac:(left; exact Hr)]
            | auto | intro ]).
    apply triple_for_each. apply Forall_forall. intros c Hc.
    rewrite Forall_forall in IH. apply IH, Hc.
  - apply preserves_triple. repeat holds_step ltac:(left; exact Hr).
  - apply preserves_triple. repeat holds_step ltac:(left; exact Hr).
Qed.

Lemma present_set (r id : nat) (k : string) (v : HostValue) :
  preserves (fun s => (r < List.length (store s))%nat) (set id k v).
Proof. intros st H. simpl. rewrite length_update_nth. exact H. Qed.

Lemma set_establishes (r : nat) (k : string) (v : HostValue)
    (E : HostState -> Prop) :
  triple (fun s => (r < List.length (store s))%nat) (set r k v)
    (fun _ => holds r k v) E.
Proof.
  intros st H. unfold holds, prop_of. simpl.
  rewrite nth_error_update_nth.
  destruct (nth_error (store st) r) as [o|] eqn:N.
  - simpl. unfold obj_get. simpl. rewrite String.eqb_refl. reflexivity.
  - apply nth_error_None in N. lia.
Qed.

Lemma triple_true {A} (P : HostState -> Prop) (m : M A) :
  preserves P m -> triple P m (fun _ => P) (fun _ => True).
Proof.
  intro H. apply (triple_weaken P P m _ (fun _ => P) _ P);
    [apply preserves_triple, H | auto | auto | auto].
Qed.

(** The x and the y a node's object ends up with are the ones it was
    given right after its creation. *)
Lemma renderNode_sets (host : Host) (node : DesignNode) (parent : nat)
    (ax ay w h : number) (mode : string) (st : HostState) (k : string)
    (v : HostValue) :
  let p := chooseLocalPosition node ax ay w h mode in
  (k = "x" /\ v = HNum (pt_x p)) \/ (k = "y" /\ v = HNum (pt_y p)) ->
  triple (fun s => s = st) (renderNode host node parent ax ay w h mode)
    (fun _ => holds (List.length (store st)) k v) (fun _ => True).
Proof.
  intros p Hk. set (r := List.length (store st)).
  assert (Start : forall (kind : ObjKind) (rest : nat -> M unit),
             triple (fun s => (r < List.length (store s))%nat)
               (rest r) (fun _ => holds r k v) (fun _ => True) ->
             triple (fun s => s = st)
               (note_mode mode ;;; (id <~ create kind ;; rest id))
               (fun _ => holds r k v) (fun _ => True)).
  { intros kind rest Hrest.
    apply (triple_bind _ _ (fun _ s => store s = store st));
      [intros s ->; reflexivity | intros _].
    apply (triple_bind _ _
             (fun id s => id = r /\ (r < List.length (store s))%nat)).
    - intros s Hs. simpl. rewrite Hs, length_app. simpl. unfold r.
      split; [reflexivity | lia].
    - intro id. apply triple_assume. intros ->. apply Hrest. }
  assert (Own : forall (name : string) (rest : M unit),
             triple (holds r k v) rest (fun _ => holds r k v)
               (fun _ => True) ->
             triple (fun s => (r < List.length (store s))%nat)
               (set r "name" (HStr name) ;;;
                set r "x" (HNum (pt_x p)) ;;;
                set r "y" (HNum (pt_y p)) ;;; rest)
               (fun _ => holds r k v) (fun _ => True)).
  { intros name rest Hrest.
    apply triple_keep; [apply present_set | auto | intros _].
    destruct Hk as [[-> ->] | [-> ->]].
    - apply (triple_bind _ _ _ _ _ _ (set_establishes r _ _ _)).
      intros _. apply triple_keep; [|auto|intros _; apply Hrest].
      apply holds_set. right. discriminate.
    - apply triple_keep; [apply present_set | auto | intros _].
      apply (triple_bind _ _ _ _ _ _ (set_establishes r _ _ _)).
      intros _. apply Hrest. }
  assert (Hkey : k = "x" \/ k = "y") by tauto.
  assert (Side : forall id' : nat,
             (id' <> r \/ k <> "width" /\ k <> "height")
             /\ (id' <> r \/ k <> "strokes" /\ k <> "strokeWeight")
             /\ (forall k', k' <> "x" -> k' <> "y" -> id' <> r \/ k <> k')).
  { intro id'. destruct Hkey as [-> | ->];
      (split; [right; split; discriminate|]);
      (split; [right; split; discriminate|]);
      intros k' H1 H2; right; congruence. }
  destruct node as [n | n | n cs | n | n]; cbn [renderNode];
    apply Start; apply Own;
    repeat (apply triple_keep;
            [ solve [repeat holds_step
                       ltac:(first [ apply (proj1 (Side _))
                                   | apply (proj1 (proj2 (Side _)))
                                   | apply (proj2 (proj2 (Side _)));
                                     discriminate ])]
            | auto | intro ]);
    try (apply triple_true; first [apply holds_appendChild | apply holds_emit]).
  destruct cs as [cs|]; [|apply triple_ret; auto].
  apply (triple_weaken _ (holds r k v) _ _ (fun _ => holds r k v) _
           (holds r k v)); auto.
  apply triple_for_each. apply Forall_forall. intros c _.
  apply renderNode_keeps_props.
Qed.

(** X26: a node is placed where [chooseLocalPosition] says.  When
    [renderNode] returns, the object it created for the node carries the x
    and y that [chooseLocalPosition] computed from the node, the parent's
    origin and size and the preferred mode, and nothing done for the node's
    descendants has changed them; with the arguments [renderToFigma] passes
    for the top-level nodes (origin (0,0), mode "relative") that is the
    node's stored x and y. *)
Theorem renderNode_places_at_chosen_position (host : Host)
    (node : DesignNode) (parent : nat) (ax ay w h : number) (mode : string)
    (st st' : HostState) :
  renderNode host node parent ax ay w h mode st = (Returned tt, st') ->
  let p := chooseLocalPosition node ax ay w h mode in
  obj_position st' (List.length (store st))
  = Some (HNum (pt_x p), HNum (pt_y p))
  /\ (ax = Num.of_Z 0 -> ay = Num.of_Z 0 -> mode = "relative" ->
      obj_position st' (List.length (store st))
      = Some (HNum (node_x node), HNum (node_y node))).
Proof.
  intros H p.
  assert (Hp : obj_position st' (List.length (store st))
               = Some (HNum (pt_x p), HNum (pt_y p))).
  { pose proof (renderNode_sets host node parent ax ay w h mode st "x"
                  (HNum (pt_x p)) (or_introl (conj eq_refl eq_refl)) st
                  eq_refl) as Hx.
    pose proof (renderNode_sets host node parent ax ay w h mode st "y"
                  (HNum (pt_y p)) (or_intror (conj eq_refl eq_refl)) st
                  eq_refl) as Hy.
    rewrite H in Hx, Hy. unfold holds, prop_of in Hx, Hy.
    unfold obj_position.
    destruct (nth_error (store st') (List.length (store st))) as [o|];
      [|discriminate Hx].
    rewrite Hx, Hy. reflexivity. }
  split; [exact Hp|].
  intros -> -> ->. rewrite Hp. unfold p, chooseLocalPosition.
  unfold absScore, relScore. rewrite fitScore_sub_zero, Nat.ltb_irrefl.
  reflexivity.
Qed.

Lemma renderNode_places_at_chosen_position_witness :
  obj_position
    (snd (renderNode obliging_host (frame_of [tie_child]) 0 0%Z 0%Z 800%Z
            600%Z "relative" one_frame_state))
    (List.length (store one_frame_state))
  = Some (HNum 100%Z, HNum 100%Z).
Proof.
  assert (H : renderNode obliging_host (frame_of [tie_child]) 0 0%Z 0%Z
                800%Z 600%Z "relative" one_frame_state
              = (Returned tt,
                 snd (renderNode obliging_host (frame_of [tie_child]) 0 0%Z
                        0%Z 800%Z 600%Z "relative" one_frame_state))).
  { vm_compute. reflexivity. }
  exact (proj2 (renderNode_places_at_chosen_position obliging_host
                  (frame_of [tie_child]) 0 0%Z 0%Z 800%Z 600%Z "relative"
                  one_frame_state _ H)
           eq_refl eq_refl eq_refl).
Defined.

(** ** Normalized nodes are well typed *)

Lemma with_prop_prop_last (k k' : string) (o : option jsval) :
  with_prop k (fun x => x) JUndefined (prop k' o)
  = if String.eqb k k' then opt_js o else JUndefined.
Proof.
  destruct o as [v|]; simpl.
  - destruct (String.eqb k k'); reflexivity.
  - destruct (String.eqb k k'); reflexivity.
Qed.

Lemma copy_truthy_prop (k : string) (input : jsval) :
  exists o, copy_truthy k input = prop k o.
Proof.
  unfold copy_truthy. destruct (truthy (get k input)).
  - eexists (Some _). reflexivity.
  - exists None. reflexivity.
Qed.

Lemma text_align_props_prop (input : jsval) :
  exists o, text_align_props input = prop "alignHorizontal" o.
Proof.
  unfold text_align_props.
  destruct (get "alignHorizontal" input);
    try (destruct (get "textAlign" input);
         try (exists None; reflexivity);
         match goal with
         | |- context [truthy ?e] => destruct (truthy e)
         end; [eexists (Some _) | exists None]; reflexivity).
  eexists (Some _). reflexivity.
Qed.

Lemma padding_props_prop (N : string -> number) (input : jsval) :
  exists o, padding_props N input = prop "padding" o.
Proof.
  unfold padding_props.
  destruct (truthy (get "padding" input) && is_object (get "padding" input)).
  - eexists (Some _). reflexivity.
  - exists None. reflexivity.
Qed.

Lemma text_fontStyle_props_typed (N : string -> number) (input : jsval) :
  exists o, text_fontStyle_props N input = prop "fontStyle" o
            /\ string_or_absent (opt_js o).
Proof.
  unfold text_fontStyle_props.
  destruct (as_string (get "fontStyle" input)) as [s|].
  - exists (Some (JStr s)). split; [reflexivity|]. right. eexists.
    reflexivity.
  - destruct (toNumber N (get "fontWeight" input)) as [w|].
    + eexists (Some _). split; [reflexivity|]. right. eexists. reflexivity.
    + exists None. split; [reflexivity|]. left. reflexivity.
Qed.

Lemma copy_number_typed (N : string -> number) (k : string) (input : jsval) :
  finite_or_absent (opt_js (opt_num (toNumber N (get k input)))).
Proof.
  destruct (toNumber N (get k input)) as [n|] eqn:E.
  - right. exists n. split; [reflexivity | exact (toNumber_some N _ _ E)].
  - left. reflexivity.
Qed.

Lemma copy_string_typed (k : string) (input : jsval) :
  string_or_absent (opt_js (option_map JStr (as_string (get k input)))).
Proof.
  destruct (as_string (get k input)) as [s|].
  - right. exists s. reflexivity.
  - left. reflexivity.
Qed.

Ltac to_props N input :=
  unfold copy_string, copy_number;
  repeat match goal with
         | |- context [copy_truthy ?k input] =>
             let o := fresh "o" in
             destruct (copy_truthy_prop k input) as [o ->]
         | |- context [text_fill_props input] =>
             let o := fresh "o" in
             destruct (text_fill_props_prop input) as [o ->]
         | |- context [text_align_props input] =>
             let o := fresh "o" in
             destruct (text_align_props_prop input) as [o ->]
         | |- context [padding_props N input] =>
             let o := fresh "o" in
             destruct (padding_props_prop N input) as [o ->]
         | |- context [text_fontStyle_props N input] =>
             let o := fresh "o" in
             let H := fresh "Hstyle" in
             destruct (text_fontStyle_props_typed N input) as [o [-> H]]
         end.

Ltac walk_all :=
  repeat (cbn [get with_prop String.eqb Ascii.eqb Bool.eqb app];
          try rewrite with_prop_prop; try rewrite with_prop_prop_last).

(** X27: the scalar properties of a normalized node are well typed.  Of a
    node that [normalizeNode] keeps, x, y, width, height, opacity,
    strokeWidth, cornerRadius, fontSize and itemSpacing are finite numbers
    or absent (never a string, null, NaN or an infinity), and type, name,
    text, fontFamily, fontStyle, layoutMode, imageUrl, imageDataUrl and
    scaleMode are strings or absent. *)
Theorem normalized_scalars_are_typed (N : string -> number)
    (input out : jsval) :
  normalizeNode N input = Some out ->
  (forall k, In k number_keys -> finite_or_absent (get k out))
  /\ (forall k, In k string_keys -> string_or_absent (get k out)).
Proof.
  rewrite normalizeNode_unfold.
  destruct (truthy input && is_object input); cbn [negb]; [|discriminate].
  destruct (allowed_type (get "type" input)) as [type|]; [|discriminate].
  destruct (toNumber N (get "x" input)) as [x|] eqn:Ex; [|discriminate].
  destruct (toNumber N (get "y" input)) as [y|] eqn:Ey; [|discriminate].
  destruct (toNumber N (get "width" input)) as [w|] eqn:Ew; [|discriminate].
  destruct (toNumber N (get "height" input)) as [h|] eqn:Eh; [|discriminate].
  pose proof (toNumber_some N _ _ Ex) as Fx.
  pose proof (toNumber_some N _ _ Ey) as Fy.
  pose proof (toNumber_some N _ _ Ew) as Fw.
  pose proof (toNumber_some N _ _ Eh) as Fh.
  cbv zeta. intro H.
  assert (Num_ok : forall n, Num.isFinite n = true ->
                             finite_or_absent (JNum n)).
  { intros n Hn. right. eauto. }
  assert (Str_ok : forall s, string_or_absent (JStr s)).
  { intro s. right. eauto. }
  assert (No_num : finite_or_absent JUndefined) by (left; reflexivity).
  assert (No_str : string_or_absent JUndefined) by (left; reflexivity).
  assert (Radius : Num.isFinite
                     match toNumber N (get "cornerRadius" input) with
                     | Some cr => cr
                     | None => Num.of_Z 8
                     end = true).
  { destruct (toNumber N (get "cornerRadius" input)) eqn:E;
      [exact (toNumber_some N _ _ E) | reflexivity]. }
  destruct (String.eqb type "text");
    [|destruct (String.eqb type "rect");
      [|destruct (String.eqb type "ellipse");
        [|destruct (String.eqb type "image");
          [destruct (as_string (get "imageUrl" input)) eqn:E1;
           [|destruct (as_string (get "imageDataUrl" input)) eqn:E2]|]]]];
    injection H as <-;
    try match goal with
        | |- context [match get "children" input with _ => _ end] =>
            destruct (get "children" input)
        end;
    to_props N input; rewrite <- ?app_assoc;
    (split; intros k Hk;
     [unfold number_keys in Hk | unfold string_keys in Hk]; simpl in Hk;
     repeat (destruct Hk as [<- | Hk];
             [ walk_all;
               first [ assumption
                     | apply Num_ok; assumption
                     | apply Str_ok
                     | apply copy_number_typed
                     | apply copy_string_typed ]
             | ]);
     destruct Hk).
Qed.

Lemma normalized_scalars_are_typed_witness :
  finite_or_absent
    (get "opacity"
       (JObj [("type", JStr "rect"); ("x", JNum 0%Z); ("y", JNum 0%Z);
              ("width", JNum 10%Z); ("height", JNum 10%Z)])).
Proof.
  apply (proj1 (normalized_scalars_are_typed digits_Number
                  (JObj [("type", JStr "rect"); ("x", JNum 0%Z);
                         ("y", JNum 0%Z); ("width", JNum 10%Z);
                         ("height", JNum 10%Z); ("opacity", JNull)])
                  (JObj [("type", JStr "rect"); ("x", JNum 0%Z);
                         ("y", JNum 0%Z); ("width", JNum 10%Z);
                         ("height", JNum 10%Z)])
                  eq_refl) "opacity").
  unfold number_keys. simpl. tauto.
Defined.

(** ** Null is a value, not an absence *)

(** X28: null is a value, not an absence.  The validator rejects a node
    that has null under any property of the schema of its type: an
    optional property must be left out, not set to null. *)
Theorem null_is_rejected (v : jsval) (t k : string) :
  get "type" v = JStr t ->
  In k (schema_keys t) ->
  get k v = JNull ->
  is_ok (DesignNodeSchema v) = false.
Proof.
  intros Ht Hk Hnull.
  destruct (DesignNodeSchema v) as [d|e] eqn:E; [|reflexivity]. exfalso.
  destruct (DesignNodeSchema_base v d E) as [Hb Hty].
  assert (Etype : t = node_type d) by congruence.
  assert (Hbase : ~ In k ["name"; "x"; "y"; "width"; "height"; "opacity";
                          "type"]).
  { intro Hin. simpl in Hin.
    destruct Hin as [<- | [<- | [<- | [<- | [<- | [<- | [<- | []]]]]]]];
      try (apply z_object_ok in Hb; parse_steps Hb;
           repeat match goal with
                  | G : context [get _ v] |- _ =>
                      rewrite Hnull in G; vm_compute in G; discriminate G
                  end). }
  unfold schema_keys in Hk. apply in_app_or in Hk as [Hk | Hk];
    [exact (Hbase Hk)|].
  apply DesignNodeSchema_ok in E.
  destruct E as [[m [-> H]] | [[m [-> H]] | [H | [[m [-> H]] | [m [-> H]]]]]].
  - subst t. simpl in Hk.
    destruct Hk as [<- | [<- | [<- | [<- | []]]]];
      apply z_object_ok in H; parse_steps H;
      repeat match goal with
             | G : context [get _ v] |- _ =>
                 rewrite Hnull in G; vm_compute in G; discriminate G
             end.
  - subst t. simpl in Hk.
    destruct Hk as [<- | [<- | [<- | [<- | [<- | [<- | []]]]]]];
      apply z_object_ok in H; parse_steps H;
      repeat match goal with
             | G : context [get _ v] |- _ =>
                 rewrite Hnull in G; vm_compute in G; discriminate G
             end.
  - assert (Ef : t = "frame").
    { apply FrameNodeSchema_ok in H as (n & cs & -> & _). exact Etype. }
    rewrite Ef in Hk. simpl in Hk.
    apply z_object_ok in H. parse_steps H. rewrite get_then_get in Ha8.
    destruct Hk as [<- | [<- | [<- | [<- | [<- | [<- | [<- | [<- | []]]]]]]]];
      repeat match goal with
             | G : context [get _ v] |- _ =>
                 rewrite Hnull in G; vm_compute in G; discriminate G
             end.
  - subst t. simpl in Hk.
    destruct Hk as [<- | [<- | [<- | []]]];
      apply z_object_ok in H; parse_steps H;
      repeat match goal with
             | G : context [get _ v] |- _ =>
                 rewrite Hnull in G; vm_compute in G; discriminate G
             end.
  - subst t. simpl in Hk. apply z_refine_ok in H as [H _].
    destruct Hk as [<- | [<- | [<- | [<- | [<- | [<- | []]]]]]];
      apply z_object_ok in H; parse_steps H;
      repeat match goal with
             | G : context [get _ v] |- _ =>
                 rewrite Hnull in G; vm_compute in G; discriminate G
             end.
Qed.

Lemma truthy_not_null (v : jsval) : truthy v = true -> v <> JNull.
Proof. intros H ->. discriminate H. Qed.

Lemma copy_truthy_not_null (k : string) (input : jsval) :
  exists o, copy_truthy k input = prop k o /\ opt_js o <> JNull.
Proof.
  unfold copy_truthy. destruct (truthy (get k input)) eqn:E.
  - eexists (Some _). split; [reflexivity | exact (truthy_not_null _ E)].
  - exists None. split; [reflexivity | discriminate].
Qed.

Lemma text_fill_props_not_null (input : jsval) :
  exists o, text_fill_props input = prop "fill" o /\ opt_js o <> JNull.
Proof.
  unfold text_fill_props. destruct (truthy (get "fill" input)) eqn:E.
  - eexists (Some _). split; [reflexivity | exact (truthy_not_null _ E)].
  - destruct (truthy (get "color" input)) eqn:E'.
    + eexists (Some _). split; [reflexivity | exact (truthy_not_null _ E')].
    + exists None. split; [reflexivity | discriminate].
Qed.

Lemma text_align_props_not_null (input : jsval) :
  exists o, text_align_props input = prop "alignHorizontal" o
            /\ opt_js o <> JNull.
Proof.
  unfold text_align_props.
  destruct (get "alignHorizontal" input);
    try (destruct (get "textAlign" input);
         try (exists None; split; [reflexivity | discriminate]);
         match goal with
         | |- context [truthy ?e] => destruct (truthy e) eqn:E
         end;
         [ eexists (Some _); split;
           [reflexivity | exact (truthy_not_null _ E)]
         | exists None; split; [reflexivity | discriminate] ]).
  eexists (Some _). split; [reflexivity | discriminate].
Qed.

Lemma padding_props_not_null (N : string -> number) (input : jsval) :
  exists o, padding_props N input = prop "padding" o /\ opt_js o <> JNull.
Proof.
  unfold padding_props.
  destruct (truthy (get "padding" input) && is_object (get "padding" input)).
  - eexists (Some _). split; [reflexivity | discriminate].
  - exists None. split; [reflexivity | discriminate].
Qed.

Lemma text_fontStyle_props_not_null (N : string -> number) (input : jsval) :
  exists o, text_fontStyle_props N input = prop "fontStyle" o
            /\ opt_js o <> JNull.
Proof.
  destruct (text_fontStyle_props_typed N input) as [o [E H]].
  exists o. split; [exact E|].
  destruct H as [-> | [s ->]]; discriminate.
Qed.

Ltac to_props_not_null N input :=
  unfold copy_string, copy_number;
  repeat match goal with
         | |- context [copy_truthy ?k input] =>
             let o := fresh "o" in
             let H := fresh "Ho" in
             destruct (copy_truthy_not_null k input) as [o [-> H]]
         | |- context [text_fill_props input] =>
             let o := fresh "o" in
             let H := fresh "Ho" in
             destruct (text_fill_props_not_null input) as [o [-> H]]
         | |- context [text_align_props input] =>
             let o := fresh "o" in
             let H := fresh "Ho" in
             destruct (text_align_props_not_null input) as [o [-> H]]
         | |- context [padding_props N input] =>
             let o := fresh "o" in
             let H := fresh "Ho" in
             destruct (padding_props_not_null N input) as [o [-> H]]
         | |- context [text_fontStyle_props N input] =>
             let o := fresh "o" in
             let H := fresh "Ho" in
             destruct (text_fontStyle_props_not_null N input) as [o [-> H]]
         end.

(** In a node that the normalizer keeps, no property the schemas read is
    itself null. *)
Lemma normalizeNode_no_null_property (N : string -> number)
    (input out : jsval) (k : string) :
  normalizeNode N input = Some out ->
  In k ("children" :: node_keys) ->
  get k out <> JNull.
Proof.
  rewrite normalizeNode_unfold.
  destruct (truthy input && is_object input); cbn [negb]; [|discriminate].
  destruct (allowed_type (get "type" input)) as [type|]; [|discriminate].
  destruct (toNumber N (get "x" input)) as [x|]; [|discriminate].
  destruct (toNumber N (get "y" input)) as [y|]; [|discriminate].
  destruct (toNumber N (get "width" input)) as [w|]; [|discriminate].
  destruct (toNumber N (get "height" input)) as [h|]; [|discriminate].
  cbv zeta. intros H Hk.
  destruct (String.eqb type "text");
    [|destruct (String.eqb type "rect");
      [|destruct (String.eqb type "ellipse");
        [|destruct (String.eqb type "image");
          [destruct (as_string (get "imageUrl" input)) eqn:E1;
           [|destruct (as_string (get "imageDataUrl" input)) eqn:E2]|]]]];
    injection H as <-;
    try match goal with
        | |- context [match get "children" input with _ => _ end] =>
            destruct (get "children" input)
        end;
    to_props_not_null N input; rewrite <- ?app_assoc;
    unfold node_keys in Hk; simpl in Hk;
    repeat (destruct Hk as [<- | Hk];
            [ walk_all;
              first [ assumption
                    | discriminate
                    | match goal with
                      | |- context [toNumber N ?e] =>
                          destruct (toNumber N e); discriminate
                      | |- context [as_string ?e] =>
                          destruct (as_string e); discriminate
                      end ]
            | ]);
    destruct Hk.
Qed.

Lemma null_is_rejected_witness :
  is_ok (DesignNodeSchema
           (JObj [("type", JStr "rect"); ("x", JNum 0%Z); ("y", JNum 0%Z);
                  ("width", JNum 10%Z); ("height", JNum 10%Z);
                  ("fill", JNull)]))
  = false.
Proof.
  apply (null_is_rejected
           (JObj [("type", JStr "rect"); ("x", JNum 0%Z); ("y", JNum 0%Z);
                  ("width", JNum 10%Z); ("height", JNum 10%Z);
                  ("fill", JNull)])
           "rect" "fill" eq_refl).
  - unfold schema_keys. simpl. tauto.
  - reflexivity.
Defined.

Lemma copy_truthy_copies (k : string) (input : jsval) :
  exists o, copy_truthy k input = prop k o
            /\ (opt_js o = JUndefined \/ opt_js o = get k input).
Proof.
  unfold copy_truthy. destruct (truthy (get k input)).
  - eexists (Some _). split; [reflexivity | right; reflexivity].
  - exists None. split; [reflexivity | left; reflexivity].
Qed.

Lemma text_fill_props_copies (input : jsval) :
  exists o, text_fill_props input = prop "fill" o
            /\ (opt_js o = JUndefined \/ opt_js o = get "fill" input
                \/ opt_js o = get "color" input).
Proof.
  unfold text_fill_props. destruct (truthy (get "fill" input)).
  - eexists (Some _). split; [reflexivity | right; left; reflexivity].
  - destruct (truthy (get "color" input)).
    + eexists (Some _). split; [reflexivity | right; right; reflexivity].
    + exists None. split; [reflexivity | left; reflexivity].
Qed.

Ltac to_props_copies N input :=
  unfold copy_string, copy_number;
  repeat match goal with
         | |- context [copy_truthy ?k input] =>
             let o := fresh "o" in
             let H := fresh "Ho" in
             destruct (copy_truthy_copies k input) as [o [-> H]]
         | |- context [text_fill_props input] =>
             let o := fresh "o" in
             let H := fresh "Ho" in
             destruct (text_fill_props_copies input) as [o [-> H]]
         | |- context [text_align_props input] =>
             let o := fresh "o" in
             destruct (text_align_props_prop input) as [o ->]
         | |- context [padding_props N input] =>
             let o := fresh "o" in
             destruct (padding_props_prop N input) as [o ->]
         | |- context [text_fontStyle_props N input] =>
             let o := fresh "o" in
             let H := fresh "Hstyle" in
             destruct (text_fontStyle_props_typed N input) as [o [-> H]]
         end.

(** X29: of a node that the normalizer keeps, no property the schemas read
    (children included) is itself null: a null property of the input is
    left out, or replaced where the code has a fallback.  This holds of the
    properties themselves only.  A fill or a stroke is copied as it is (for
    a text its [color] may stand in for the fill, and the placeholder of an
    image has a fill of its own), so that a null inside a fill is passed
    on: the rect whose fill has a null red component is returned
    unchanged, and the validator rejects it. *)
Theorem normalizeNode_leaves_no_null_property :
  (forall (N : string -> number) (input out : jsval) (k : string),
      normalizeNode N input = Some out ->
      In k ("children" :: node_keys) ->
      get k out <> JNull)
  /\ (forall (N : string -> number) (input out : jsval),
        normalizeNode N input = Some out ->
        (get "fill" out = JUndefined \/ get "fill" out = get "fill" input
         \/ get "fill" out = get "color" input
         \/ get "fill" out = placeholder_fill)
        /\ (get "stroke" out = JUndefined
            \/ get "stroke" out = get "stroke" input))
  /\ normalizeNode digits_Number null_in_fill = Some null_in_fill
  /\ get "r" (get "fill" null_in_fill) = JNull
  /\ is_ok (DesignNodeSchema null_in_fill) = false.
Proof.
  split; [exact normalizeNode_no_null_property|].
  split; [|repeat split; vm_compute; reflexivity].
  intros N input out.
  rewrite normalizeNode_unfold.
  destruct (truthy input && is_object input); cbn [negb]; [|discriminate].
  destruct (allowed_type (get "type" input)) as [type|]; [|discriminate].
  destruct (toNumber N (get "x" input)) as [x|]; [|discriminate].
  destruct (toNumber N (get "y" input)) as [y|]; [|discriminate].
  destruct (toNumber N (get "width" input)) as [w|]; [|discriminate].
  destruct (toNumber N (get "height" input)) as [h|]; [|discriminate].
  cbv zeta. intros H.
  destruct (String.eqb type "text");
    [|destruct (String.eqb type "rect");
      [|destruct (String.eqb type "ellipse");
        [|destruct (String.eqb type "image");
          [destruct (as_string (get "imageUrl" input)) eqn:E1;
           [|destruct (as_string (get "imageDataUrl" input)) eqn:E2]|]]]];
    injection H as <-;
    try match goal with
        | |- context [match get "children" input with _ => _ end] =>
            destruct (get "children" input)
        end;
    to_props_copies N input; rewrite <- ?app_assoc;
    (split; walk_all; tauto).
Qed.

Lemma normalizeNode_leaves_no_null_property_witness :
  get "fill"
    (JObj [("type", JStr "rect"); ("x", JNum 0%Z); ("y", JNum 0%Z);
           ("width", JNum 10%Z); ("height", JNum 10%Z)])
  <> JNull.
Proof.
  apply (proj1 normalizeNode_leaves_no_null_property digits_Number
           (JObj [("type", JStr "rect"); ("x", JNum 0%Z); ("y", JNum 0%Z);
                  ("width", JNum 10%Z); ("height", JNum 10%Z);
                  ("fill", JNull)])
           (JObj [("type", JStr "rect"); ("x", JNum 0%Z); ("y", JNum 0%Z);
                  ("width", JNum 10%Z); ("height", JNum 10%Z)])
           "fill" eq_refl).
  unfold node_keys. simpl. tauto.
Defined.

(** ** The root frame and the overlay *)

Lemma present_resize (r id : nat) (w h : number) :
  preserves (fun s => (r < List.length (store s))%nat) (resize id w h).
Proof. apply preserves_bind; [|intros _]; apply present_set. Qed.

Lemma size_set (n id : nat) (k : string) (v : HostValue) :
  preserves (fun s => List.length (store s) = n) (set id k v).
Proof. intros st H. simpl. rewrite length_update_nth. exact H. Qed.

Lemma size_resize (n id : nat) (w h : number) :
  preserves (fun s => List.length (store s) = n) (resize id w h).
Proof. apply preserves_bind; [|intros _]; apply size_set. Qed.

Lemma resize_establishes (r : nat) (w h : number) (k : string)
    (v : HostValue) :
  (k = "width" /\ v = HNum w) \/ (k = "height" /\ v = HNum h) ->
  triple (fun s => (r < List.length (store s))%nat) (resize r w h)
    (fun _ => holds r k v) (fun _ => True).
Proof.
  intros [[-> ->] | [-> ->]]; unfold resize.
  - apply (triple_bind _ _ _ _ _ _ (set_establishes r _ _ _)). intros _.
    apply triple_true, holds_set. right. discriminate.
  - apply triple_keep; [apply present_set | auto | intros _].
    apply set_establishes.
Qed.

Lemma nodes_keep_props (host : Host) (id : nat) (k : string) (v : HostValue)
    (nodes : list DesignNode) (parent : nat) (ax ay w h : number)
    (mode : string) :
  triple (holds id k v)
    (for_each (fun n => renderNode host n parent ax ay w h mode) nodes)
    (fun _ => holds id k v) (fun _ => True).
Proof.
  apply (triple_weaken _ (holds id k v) _ _ (fun _ => holds id k v) _
           (holds id k v)); auto.
  apply triple_for_each. apply Forall_forall. intros c _.
  apply renderNode_keeps_props.
Qed.

Lemma page_steps_keep_props (id : nat) (k : string) (v : HostValue)
    (root : nat) :
  triple (holds id k v)
    (emit (EPageAppend root) ;;;
     modify (fun st => mkState (store st) (fontCache st) (log st) (modes st)
                         (pageChildren st ++ [root]) [root]) ;;;
     emit (ESelect [root]) ;;; emit (EScrollAndZoom [root]))
    (fun _ => holds id k v) (fun _ => True).
Proof. intros st H. exact H. Qed.

Lemma holds_inert {A} (id : nat) (k : string) (v : HostValue) (m : M A) :
  (forall st, snd (m st) = st) -> preserves (holds id k v) m.
Proof. intros H st Hst. rewrite H. exact Hst. Qed.

Ltac other_key :=
  first [right; discriminate | right; split; discriminate].

Ltac keep_step :=
  first
    [ holds_step other_key
    | apply holds_inert; first [ apply base64ToBytes_inert
                               | apply figma_createImage_inert ] ].

Ltac keep_all :=
  repeat (apply triple_keep; [solve [repeat keep_step] | auto | intro]).

Ltac before_ :=
  apply triple_keep;
  [ first [apply present_set | apply present_resize] | auto | intros _ ].

(** From the creation of the overlay on, a property of an older object
    stays. *)
Lemma overlay_and_nodes_keep (host : Host) (root : nat) (k : string)
    (v : HostValue) (spec : DesignSpec) :
  triple (holds root k v)
    (overlay <~ create FRAMEOBJ ;;
     set overlay "name" (HStr "AI layers") ;;;
     resize overlay (canvas_width (spec_canvas spec))
       (canvas_height (spec_canvas spec)) ;;;
     set overlay "x" (HNum (Num.of_Z 0)) ;;;
     set overlay "y" (HNum (Num.of_Z 0)) ;;;
     set overlay "fills" (HPaints []) ;;;
     set overlay "strokes" (HPaints []) ;;;
     appendChild root overlay ;;;
     for_each
       (fun n =>
          renderNode host n overlay (Num.of_Z 0) (Num.of_Z 0)
            (canvas_width (spec_canvas spec))
            (canvas_height (spec_canvas spec)) "relative")
       (spec_nodes spec) ;;;
     emit (EPageAppend root) ;;;
     modify (fun st => mkState (store st) (fontCache st) (log st) (modes st)
                         (pageChildren st ++ [root]) [root]) ;;;
     emit (ESelect [root]) ;;;
     emit (EScrollAndZoom [root]))
    (fun _ => holds root k v) (fun _ => True).
Proof.
  apply (triple_bind _ _ _ _ _ _ (holds_create root k v _ _)).
  intro overlay. apply triple_assume. intro Hne.
  repeat (apply triple_keep;
          [ solve [repeat holds_step ltac:(left; exact Hne)]
          | auto | intro ]).
  apply (triple_bind _ _ _ _ _ _ (nodes_keep_props _ _ _ _ _ _ _ _ _ _ _)).
  intro. apply page_steps_keep_props.
Qed.

Lemma root_props (host : Host) (spec : DesignSpec)
    (shot : option Screenshot) (st : HostState) (k : string)
    (v : HostValue) :
  In (k, v)
    [("name", HStr (or_else (Some (canvas_name (spec_canvas spec)))
                      "Generated"));
     ("width", HNum (canvas_width (spec_canvas spec)));
     ("height", HNum (canvas_height (spec_canvas spec)));
     ("x", HNum (viewportCenterX host
                 - Num.div_const (canvas_width (spec_canvas spec)) 2)%num);
     ("y", HNum (viewportCenterY host
                 - Num.div_const (canvas_height (spec_canvas spec)) 2)%num);
     ("clipsContent", HBool true)] ->
  triple (fun s => s = st) (renderToFigma host spec shot)
    (fun _ => holds (List.length (store st)) k v) (fun _ => True).
Proof.
  intro Hin. set (root := List.length (store st)). unfold renderToFigma.
  apply (triple_bind _ _ (fun _ s => s = st)).
  { intros s ->. pose proof (normalizeScreenshot_pure shot st) as H.
    destruct (accepted_screenshot shot) as [a|].
    - rewrite H. reflexivity.
    - destruct H as [e ->]. exact I. }
  intro accepted.
  apply (triple_bind _ _
           (fun id s => id = root /\ (root < List.length (store s))%nat)).
  { intros s ->. simpl. rewrite length_app. simpl. split; [reflexivity|].
    unfold root. lia. }
  intro id. apply triple_assume. intros ->.
  simpl in Hin.
  destruct Hin as [E | [E | [E | [E | [E | [E | []]]]]]];
    injection E as <- <-.
  - apply (triple_bind _ _ _ _ _ _ (set_establishes root _ _ _)). intros _.
    keep_all. apply overlay_and_nodes_keep.
  - before_.
    apply (triple_bind _ _ _ _ _ _
             (resize_establishes root _ _ _ _
                (or_introl (conj eq_refl eq_refl)))). intros _.
    keep_all. apply overlay_and_nodes_keep.
  - before_.
    apply (triple_bind _ _ _ _ _ _
             (resize_establishes root _ _ _ _
                (or_intror (conj eq_refl eq_refl)))). intros _.
    keep_all. apply overlay_and_nodes_keep.
  - do 2 before_.
    apply (triple_bind _ _ _ _ _ _ (set_establishes root _ _ _)). intros _.
    keep_all. apply overlay_and_nodes_keep.
  - do 3 before_.
    apply (triple_bind _ _ _ _ _ _ (set_establishes root _ _ _)). intros _.
    keep_all. apply overlay_and_nodes_keep.
  - do 4 before_.
    apply (triple_bind _ _ _ _ _ _ (set_establishes root _ _ _)). intros _.
    keep_all. apply overlay_and_nodes_keep.
Qed.

Lemma size_inert {A} (n : nat) (m : M A) :
  (forall st, snd (m st) = st) ->
  preserves (fun s => List.length (store s) = n) m.
Proof. intros H st Hst. rewrite H. exact Hst. Qed.

Ltac size_step :=
  first
    [ apply preserves_ret | apply size_set | apply size_resize
    | apply size_inert; first [ apply base64ToBytes_inert
                              | apply figma_createImage_inert ]
    | apply preserves_bind; [|intro]
    | match goal with
      | |- preserves _ (match ?e with _ => _ end) => destruct e
      end ].

Lemma nodes_and_page_keep (host : Host) (id : nat) (k : string)
    (v : HostValue) (root overlay : nat) (spec : DesignSpec) :
  triple (holds id k v)
    (for_each
       (fun n =>
          renderNode host n overlay (Num.of_Z 0) (Num.of_Z 0)
            (canvas_width (spec_canvas spec))
            (canvas_height (spec_canvas spec)) "relative")
       (spec_nodes spec) ;;;
     emit (EPageAppend root) ;;;
     modify (fun st => mkState (store st) (fontCache st) (log st) (modes st)
                         (pageChildren st ++ [root]) [root]) ;;;
     emit (ESelect [root]) ;;;
     emit (EScrollAndZoom [root]))
    (fun _ => holds id k v) (fun _ => True).
Proof.
  apply (triple_bind _ _ _ _ _ _ (nodes_keep_props _ _ _ _ _ _ _ _ _ _ _)).
  intro. apply page_steps_keep_props.
Qed.

Lemma overlay_props (host : Host) (spec : DesignSpec)
    (shot : option Screenshot) (st : HostState) (k : string)
    (v : HostValue) :
  In (k, v)
    [("name", HStr "AI layers");
     ("width", HNum (canvas_width (spec_canvas spec)));
     ("height", HNum (canvas_height (spec_canvas spec)));
     ("x", HNum (Num.of_Z 0)); ("y", HNum (Num.of_Z 0))] ->
  triple (fun s => s = st) (renderToFigma host spec shot)
    (fun _ => holds (S (List.length (store st))) k v) (fun _ => True).
Proof.
  intro Hin. set (root := List.length (store st)). unfold renderToFigma.
  apply (triple_bind _ _ (fun _ s => s = st)).
  { intros s ->. pose proof (normalizeScreenshot_pure shot st) as H.
    destruct (accepted_screenshot shot) as [a|].
    - rewrite H. reflexivity.
    - destruct H as [e ->]. exact I. }
  intro accepted.
  apply (triple_bind _ _
           (fun id s => List.length (store s) = S root)).
  { intros s ->. simpl. rewrite length_app. simpl. unfold root. lia. }
  intro id.
  repeat (apply triple_keep; [solve [repeat size_step] | auto | intro]).
  apply (triple_bind _ _
           (fun overlay s => overlay = S root
                             /\ (S root < List.length (store s))%nat)).
  { intros s Hs. simpl. rewrite length_app, Hs. simpl. split; lia. }
  intro overlay. apply triple_assume. intros ->.
  simpl in Hin.
  destruct Hin as [E | [E | [E | [E | [E | []]]]]]; injection E as <- <-.
  - apply (triple_bind _ _ _ _ _ _ (set_establishes (S root) _ _ _)).
    intros _. keep_all. apply nodes_and_page_keep.
  - before_.
    apply (triple_bind _ _ _ _ _ _
             (resize_establishes (S root) _ _ _ _
                (or_introl (conj eq_refl eq_refl)))). intros _.
    keep_all. apply nodes_and_page_keep.
  - before_.
    apply (triple_bind _ _ _ _ _ _
             (resize_establishes (S root) _ _ _ _
                (or_intror (conj eq_refl eq_refl)))). intros _.
    keep_all. apply nodes_and_page_keep.
  - do 2 before_.
    apply (triple_bind _ _ _ _ _ _ (set_establishes (S root) _ _ _)).
    intros _. keep_all. apply nodes_and_page_keep.
  - do 3 before_.
    apply (triple_bind _ _ _ _ _ _ (set_establishes (S root) _ _ _)).
    intros _. keep_all. apply nodes_and_page_keep.
Qed.

(** X30: the root frame and the overlay.  When [renderToFigma] returns,
    the root frame (the first object it created) is named after the canvas
    ("Generated" when the name is empty), has the size of the canvas, is
    centred on the viewport and clips its content; the overlay (the second
    object) is named "AI layers", lies at (0,0) and has the size of the
    canvas; nothing rendered into them has changed any of this. *)
Theorem root_frame_and_overlay (host : Host) (spec : DesignSpec)
    (shot : option Screenshot) (st st' : HostState) :
  renderToFigma host spec shot st = (Returned tt, st') ->
  let root := List.length (store st) in
  let width := canvas_width (spec_canvas spec) in
  let height := canvas_height (spec_canvas spec) in
  (prop_of st' root "name"
   = Some (HStr (or_else (Some (canvas_name (spec_canvas spec)))
                   "Generated"))
   /\ prop_of st' root "width" = Some (HNum width)
   /\ prop_of st' root "height" = Some (HNum height)
   /\ prop_of st' root "x"
      = Some (HNum (viewportCenterX host - Num.div_const width 2)%num)
   /\ prop_of st' root "y"
      = Some (HNum (viewportCenterY host - Num.div_const height 2)%num)
   /\ prop_of st' root "clipsContent" = Some (HBool true))
  /\ (prop_of st' (S root) "name" = Some (HStr "AI layers")
      /\ prop_of st' (S root) "width" = Some (HNum width)
      /\ prop_of st' (S root) "height" = Some (HNum height)
      /\ prop_of st' (S root) "x" = Some (HNum (Num.of_Z 0))
      /\ prop_of st' (S root) "y" = Some (HNum (Num.of_Z 0))).
Proof.
  intros H root width height.
  assert (R : forall k v, triple (fun s => s = st)
                            (renderToFigma host spec shot)
                            (fun _ => holds root k v) (fun _ => True) ->
                          prop_of st' root k = Some v).
  { intros k v T. specialize (T st eq_refl). rewrite H in T. exact T. }
  assert (O : forall k v, triple (fun s => s = st)
                            (renderToFigma host spec shot)
                            (fun _ => holds (S root) k v) (fun _ => True) ->
                          prop_of st' (S root) k = Some v).
  { intros k v T. specialize (T st eq_refl). rewrite H in T. exact T. }
  split.
  - repeat split; apply R; apply root_props; simpl; tauto.
  - repeat split; apply O; apply overlay_props; simpl; tauto.
Qed.

Lemma root_frame_and_overlay_witness :
  prop_of (snd (renderToFigma obliging_host two_level_spec None
                  initial_state)) 0 "clipsContent"
  = Some (HBool true).
Proof.
  assert (H : renderToFigma obliging_host two_level_spec None initial_state
              = (Returned tt,
                 snd (renderToFigma obliging_host two_level_spec None
                        initial_state))).
  { vm_compute. reflexivity. }
  exact (proj2 (proj2 (proj2 (proj2 (proj2 (proj1
           (root_frame_and_overlay obliging_host two_level_spec None
              initial_state _ H))))))).
Defined.
